(** * PathFinder: an indexed binary min-heap and the A* grid search built on it

    A shallow embedding of [MinPriorityQueue.py] and of the search part of
    [Grid.py].  Python integers are [Z]; a Python list is a [list] indexed
    with Python's rules (a negative index counts from the end, an index out
    of range raises [IndexError]); a dict is a [gmap]; a Node object is a
    record stored in the grid and referred to by the slot [(row, col)] that
    holds it, so that every reference to a node sees the same mutable state.
    Methods are computations in a state-and-exception monad. *)

From Stdlib Require Import ZArith Lia List Permutation Sorted.
From stdpp Require Import base tactics option list gmap sorting.

Open Scope Z_scope.

(** ** Exceptions and the state-and-exception monad *)

Inductive exn : Type :=
| IndexError
| KeyError
| ValueError
| AttributeError
| TypeError
| ZeroDivisionError.

#[global] Instance exn_eq_dec : EqDecision exn.
Proof. solve_decision. Defined.

(** The result of running a method from a state: a normal return, an
    exception raised in the state reached so far, or (only for the bounded
    unrolling of a Python loop or recursion) the bound being used up. *)
Inductive outcome (S A : Type) : Type :=
| Ok (a : A) (s : S)
| Raise (e : exn) (s : S)
| OutOfFuel.

Arguments Ok {S A} a s.
Arguments Raise {S A} e s.
Arguments OutOfFuel {S A}.

Definition M (S A : Type) : Type := S -> outcome S A.

Definition ret {S A} (a : A) : M S A := fun s => Ok a s.

Definition bind {S A B} (m : M S A) (k : A -> M S B) : M S B :=
  fun s =>
    match m s with
    | Ok a s' => k a s'
    | Raise e s' => Raise e s'
    | OutOfFuel => OutOfFuel
    end.

Definition raise {S A} (e : exn) : M S A := fun s => Raise e s.

Definition out_of_fuel {S A} : M S A := fun _ => OutOfFuel.

Definition get {S} : M S S := fun s => Ok s s.

Definition put {S} (s : S) : M S unit := fun _ => Ok tt s.

Definition modify {S} (f : S -> S) : M S unit := fun s => Ok tt (f s).

(** [try m except e: h] *)
Definition try_except {S A} (m : M S A) (e : exn) (h : M S A) : M S A :=
  fun s =>
    match m s with
    | Raise e' s' => if decide (e' = e) then h s' else Raise e' s'
    | r => r
    end.

Notation "'do' x <- m ; k" := (bind m (fun x => k))
  (at level 10, x name, m at level 100, k at level 200).
Notation "m ;; k" := (bind m (fun _ => k))
  (at level 100, k at level 200, right associativity).

(** [for x in l: body x] *)
Fixpoint for_each {S A} (l : list A) (body : A -> M S unit) : M S unit :=
  match l with
  | [] => ret tt
  | x :: l' => body x ;; for_each l' body
  end.

(** ** Python list indexing *)

(** The position that index [i] denotes in a list of length [n]. *)
Definition py_index (n : nat) (i : Z) : option nat :=
  if 0 <=? i then
    if i <? Z.of_nat n then Some (Z.to_nat i) else None
  else
    if - Z.of_nat n <=? i then Some (Z.to_nat (Z.of_nat n + i)) else None.

(** [l[i]] *)
Definition getitem {A} (l : list A) (i : Z) : option A :=
  match py_index (length l) i with
  | Some n => l !! n
  | None => None
  end.

(** [l[i] = x] *)
Definition setitem {A} (l : list A) (i : Z) (x : A) : option (list A) :=
  match py_index (length l) i with
  | Some n => Some (<[n:=x]> l)
  | None => None
  end.

(** [range(start, -1, -1)] *)
Definition range_down (start : Z) : list Z :=
  map (fun k => start - Z.of_nat k) (seq 0 (Z.to_nat (start + 1))).

(** ** MinPriorityQueue.py *)

Record MinPriorityQueue (Id : Type) `{Countable Id} : Type := mkQueue {
  q_elements : list (Z * Id);
  q_size : Z;
  q_mapping : gmap Id Z
}.

Arguments mkQueue {Id _ _} _ _ _.
Arguments q_elements {Id _ _} _.
Arguments q_size {Id _ _} _.
Arguments q_mapping {Id _ _} _.

Section Queue.
Context `{Countable Id}.

Abbreviation PQ := (MinPriorityQueue Id).

(** *** Accessors of the three attributes *)

Definition elements_get (i : Z) : M PQ (Z * Id) :=
  fun q =>
    match getitem (q_elements q) i with
    | Some x => Ok x q
    | None => Raise IndexError q
    end.

Definition elements_set (i : Z) (x : Z * Id) : M PQ unit :=
  fun q =>
    match setitem (q_elements q) i x with
    | Some l => Ok tt (mkQueue l (q_size q) (q_mapping q))
    | None => Raise IndexError q
    end.

Definition elements_append (x : Z * Id) : M PQ unit :=
  modify (fun q => mkQueue (q_elements q ++ [x]) (q_size q) (q_mapping q)).

Definition elements_pop : M PQ unit :=
  fun q =>
    match q_elements q with
    | [] => Raise IndexError q
    | _ => Ok tt (mkQueue (removelast (q_elements q)) (q_size q) (q_mapping q))
    end.

Definition get_size : M PQ Z := fun q => Ok (q_size q) q.

Definition set_size (n : Z) : M PQ unit :=
  modify (fun q => mkQueue (q_elements q) n (q_mapping q)).

Definition mapping_set (e : Id) (i : Z) : M PQ unit :=
  modify (fun q => mkQueue (q_elements q) (q_size q) (<[e:=i]> (q_mapping q))).

(** [mapping.pop(e)] *)
Definition mapping_pop (e : Id) : M PQ unit :=
  fun q =>
    match q_mapping q !! e with
    | Some _ => Ok tt (mkQueue (q_elements q) (q_size q) (delete e (q_mapping q)))
    | None => Raise KeyError q
    end.

(** *** Private helper methods *)

Definition leftchild (i : Z) : Z := 2 * i + 1.

Definition rightchild (i : Z) : Z := 2 * i + 2.

Definition parent (i : Z) : Z := (i - 1) / 2.

(** The swap of the entries at [i] and [j] followed by the update of the
    two mappings, as written out in [min_heapify] and in [decrease_key]. *)
Definition swap_entries (i j : Z) : M PQ unit :=
  do temp <- elements_get i;
  do x <- elements_get j;
  elements_set i x ;;
  elements_set j temp ;;
  do ei <- elements_get i;
  mapping_set (snd ei) i ;;
  do ej <- elements_get j;
  mapping_set (snd ej) j.

(** The choice between [smallest] and a child [c]:
    [if c < size and elements[c][0] < elements[smallest][0]: smallest = c]. *)
Definition pick_smaller (c smallest : Z) : M PQ Z :=
  do size <- get_size;
  if c <? size then
    do a <- elements_get c;
    do b <- elements_get smallest;
    ret (if fst a <? fst b then c else smallest)
  else ret smallest.

Fixpoint min_heapify_rec (fuel : nat) (i : Z) : M PQ unit :=
  match fuel with
  | O => out_of_fuel
  | S fuel' =>
      let lc := leftchild i in
      let rc := rightchild i in
      do smallest <- pick_smaller lc i;
      do smallest <- pick_smaller rc smallest;
      if decide (smallest <> i) then
        swap_entries i smallest ;;
        min_heapify_rec fuel' smallest
      else ret tt
  end.

(** The recursion goes from an index to one of its children, which is
    below [size], so [size] calls plus one are enough. *)
Definition min_heapify (i : Z) : M PQ unit :=
  fun q => min_heapify_rec (S (Z.to_nat (q_size q))) i q.

Definition build_min_heap : M PQ unit :=
  do size <- get_size;
  for_each (range_down (parent (size - 1))) min_heapify.

(** *** Interface methods *)

Definition empty_queue : PQ := mkQueue [] 0 ∅.

(** [__init__] on its argument tuple: every argument is a (key, value) tuple with an
    [int] key, which the type of [args] makes the assertions state. *)
Definition init (args : list (Z * Id)) : outcome PQ unit :=
  (for_each args (fun key_value =>
     elements_append key_value ;;
     do size <- get_size;
     set_size (size + 1) ;;
     do size <- get_size;
     mapping_set (snd key_value) (size - 1)) ;;
   build_min_heap) empty_queue.

Definition extract_min : M PQ Id :=
  do size <- get_size;
  if size =? 0 then raise IndexError
  else
    do smallest <- elements_get 0;
    do last <- elements_get (size - 1);
    elements_set 0 last ;;
    elements_pop ;;
    set_size (size - 1) ;;
    mapping_pop (snd smallest) ;;
    do size <- get_size;
    (if 0 <? size then
       do e0 <- elements_get 0;
       mapping_set (snd e0) 0 ;;
       min_heapify 0
     else ret tt) ;;
    ret (snd smallest).

(** The [while] loop of [decrease_key]. *)
Fixpoint decrease_key_loop (fuel : nat) (i : Z) : M PQ unit :=
  match fuel with
  | O => out_of_fuel
  | S fuel' =>
      do continue <-
        (if 0 <? i then
           do a <- elements_get (parent i);
           do b <- elements_get i;
           ret (fst b <? fst a)
         else ret false);
      if (continue : bool) then
        let p := parent i in
        swap_entries i p ;;
        decrease_key_loop fuel' (parent i)
      else ret tt
  end.

Definition decrease_key (element : Id) (new_key : Z) : M PQ unit :=
  do i <- (fun q =>
             match q_mapping q !! element with
             | Some i => Ok i q
             | None => Raise KeyError q
             end);
  do cur <- elements_get i;
  (if new_key <=? fst cur then elements_set i (new_key, snd cur)
   else raise ValueError) ;;
  decrease_key_loop (S (Z.to_nat i)) i.

Definition insert (new_key : Z) (new_element : Id) : M PQ unit :=
  elements_append (new_key, new_element) ;;
  do size <- get_size;
  set_size (size + 1) ;;
  do size <- get_size;
  mapping_set new_element (size - 1) ;;
  decrease_key new_element new_key.

Definition element_exists (element : Id) : M PQ bool :=
  fun q =>
    let i := default (-1) (q_mapping q !! element) in
    Ok (0 <=? i) q.

Definition get_key (element : Id) : M PQ Z :=
  fun q =>
    match q_mapping q !! element with
    | None => Raise KeyError q
    | Some i =>
        match getitem (q_elements q) i with
        | Some x => Ok (fst x) q
        | None => Raise IndexError q
        end
    end.

End Queue.

(** ** Arrays indexed by integers *)

(** The entry at a non-negative index; [None] for a negative index or one
    past the end.  For the indices the heap uses, [getitem] agrees with it. *)
Definition zlookup {A} (l : list A) (i : Z) : option A :=
  if 0 <=? i then l !! Z.to_nat i else None.

Definition zupdate {A} (l : list A) (i : Z) (x : A) : list A :=
  <[Z.to_nat i := x]> l.

Section Arrays.
Context {A : Type}.
Implicit Types (l : list A) (i j : Z) (x y : A).

Lemma zlookup_Some_range l i x :
  zlookup l i = Some x -> 0 <= i < Z.of_nat (length l).
Proof.
  unfold zlookup. destruct (Z.leb_spec 0 i) as [Hi|Hi]; [|discriminate].
  intros Hl. apply lookup_lt_Some in Hl. lia.
Qed.

Lemma zlookup_is_Some l i :
  0 <= i < Z.of_nat (length l) -> is_Some (zlookup l i).
Proof.
  intros [Hi Hl]. unfold zlookup.
  destruct (Z.leb_spec 0 i); [|lia]. apply lookup_lt_is_Some. lia.
Qed.

Lemma zlookup_None l i :
  i < 0 \/ Z.of_nat (length l) <= i -> zlookup l i = None.
Proof.
  intros Hi. destruct (zlookup l i) eqn:E; [|done].
  apply zlookup_Some_range in E. lia.
Qed.

Lemma getitem_zlookup l i : 0 <= i -> getitem l i = zlookup l i.
Proof.
  intros Hi. unfold getitem, py_index, zlookup.
  destruct (Z.leb_spec 0 i); [|lia].
  destruct (Z.ltb_spec i (Z.of_nat (length l))); [done|].
  symmetry. apply lookup_ge_None. lia.
Qed.

Lemma getitem_Some l i x : zlookup l i = Some x -> getitem l i = Some x.
Proof.
  intros Hx. rewrite getitem_zlookup; [done|].
  apply zlookup_Some_range in Hx. lia.
Qed.

Lemma setitem_zupdate l i x :
  0 <= i < Z.of_nat (length l) -> setitem l i x = Some (zupdate l i x).
Proof.
  intros [Hi Hl]. unfold setitem, py_index, zupdate.
  destruct (Z.leb_spec 0 i); [|lia].
  destruct (Z.ltb_spec i (Z.of_nat (length l))); [done|lia].
Qed.

Lemma length_zupdate l i x : length (zupdate l i x) = length l.
Proof. apply length_insert. Qed.

Lemma zlookup_zupdate_eq l i x :
  0 <= i < Z.of_nat (length l) -> zlookup (zupdate l i x) i = Some x.
Proof.
  intros [Hi Hl]. unfold zlookup, zupdate.
  destruct (Z.leb_spec 0 i); [|lia].
  apply list_lookup_insert_eq. lia.
Qed.

Lemma zlookup_zupdate_ne l i j x :
  i <> j -> 0 <= i -> zlookup (zupdate l i x) j = zlookup l j.
Proof.
  intros Hne Hi. unfold zlookup, zupdate.
  destruct (Z.leb_spec 0 j); [|done].
  apply list_lookup_insert_ne. lia.
Qed.

Lemma zlookup_zupdate l i j x :
  0 <= i < Z.of_nat (length l) ->
  zlookup (zupdate l i x) j = if decide (i = j) then Some x else zlookup l j.
Proof.
  intros Hi. destruct (decide (i = j)) as [<-|Hne].
  - by apply zlookup_zupdate_eq.
  - apply zlookup_zupdate_ne; [done|lia].
Qed.

Lemma zlookup_app_l l l' i :
  i < Z.of_nat (length l) -> zlookup (l ++ l') i = zlookup l i.
Proof.
  intros Hi. unfold zlookup. destruct (Z.leb_spec 0 i); [|done].
  apply lookup_app_l. lia.
Qed.

Lemma zlookup_snoc l x : zlookup (l ++ [x]) (Z.of_nat (length l)) = Some x.
Proof.
  unfold zlookup. destruct (Z.leb_spec 0 (Z.of_nat (length l))); [|lia].
  rewrite Nat2Z.id. apply list_lookup_middle. done.
Qed.

Lemma zlookup_elem_of l i x : zlookup l i = Some x -> x ∈ l.
Proof.
  unfold zlookup. destruct (0 <=? i); [|discriminate].
  apply list_elem_of_lookup_2.
Qed.

Lemma elem_of_zlookup l x : x ∈ l -> exists i, zlookup l i = Some x.
Proof.
  intros [n Hn]%list_elem_of_lookup_1. exists (Z.of_nat n).
  unfold zlookup. destruct (Z.leb_spec 0 (Z.of_nat n)); [|lia].
  by rewrite Nat2Z.id.
Qed.

Lemma zlookup_removelast l i :
  i < Z.of_nat (length l) - 1 -> zlookup (removelast l) i = zlookup l i.
Proof.
  intros Hi. destruct (decide (l = [])) as [->|Hne]; [done|].
  destruct (exists_last Hne) as (l0 & a & ->).
  rewrite removelast_last. rewrite length_app in Hi. simpl in Hi.
  symmetry. apply zlookup_app_l. lia.
Qed.

Lemma length_removelast l : l <> [] -> length (removelast l) = pred (length l).
Proof.
  intros Hne. destruct (exists_last Hne) as (l0 & a & ->).
  rewrite removelast_last, length_app. simpl. lia.
Qed.

(** Exchanging two entries rearranges the list. *)
Lemma zupdate_swap_Permutation l i j x y :
  zlookup l i = Some x -> zlookup l j = Some y ->
  zupdate (zupdate l i y) j x ≡ₚ l.
Proof.
  intros Hx Hy.
  assert (0 <= i) as Hi by (apply zlookup_Some_range in Hx; lia).
  assert (0 <= j) as Hj by (apply zlookup_Some_range in Hy; lia).
  unfold zlookup in Hx, Hy. unfold zupdate.
  destruct (Z.leb_spec 0 i); [|lia]. destruct (Z.leb_spec 0 j); [|lia].
  destruct (decide (Z.to_nat i = Z.to_nat j)) as [E|E].
  - rewrite E in *. rewrite list_insert_insert_eq.
    assert (x = y) as -> by congruence.
    by rewrite list_insert_id.
  - symmetry. apply Permutation_inj. split.
    { by rewrite !length_insert. }
    exists (fun n => if decide (n = Z.to_nat i) then Z.to_nat j
                     else if decide (n = Z.to_nat j) then Z.to_nat i else n).
    split.
    + intros a b. repeat case_decide; lia.
    + intros n. repeat case_decide; subst.
      * rewrite list_lookup_insert_eq; [done|].
        rewrite length_insert. by eapply lookup_lt_Some.
      * rewrite list_lookup_insert_ne by done.
        rewrite list_lookup_insert_eq; [done|]. by eapply lookup_lt_Some.
      * by rewrite !list_lookup_insert_ne.
Qed.

End Arrays.

(** ** The queue invariant *)

Section QueueInvariant.
Context `{Countable Id}.

Abbreviation PQ := (MinPriorityQueue Id).
Implicit Types (q : PQ) (l : list (Z * Id)) (m : gmap Id Z) (i j c : Z).

(** The mapping records, for every identity stored in the array and for
    no other, the position that holds it. *)
Definition mapping_ok l m : Prop :=
  forall id i, m !! id = Some i <-> exists k, zlookup l i = Some (k, id).

Definition wf q : Prop :=
  q_size q = Z.of_nat (length (q_elements q)) /\
  mapping_ok (q_elements q) (q_mapping q).

(** The entry at [c] is not below the entry at its parent. *)
Definition ordered_at l c : Prop :=
  forall a b, zlookup l c = Some a -> zlookup l (parent c) = Some b ->
              fst b <= fst a.

(** Min-heap order: every non-root entry is ordered with its parent. *)
Definition heap_order l : Prop := forall c, 0 < c -> ordered_at l c.

(** Heap order below the positions from [lo] on. *)
Definition heap_from l lo : Prop :=
  forall c, 0 < c -> lo <= parent c -> ordered_at l c.

(** What the queue holds: the key of every identity in it. *)
Definition contents q : gmap Id Z :=
  omap (fun i => fst <$> zlookup (q_elements q) i) (q_mapping q).

Lemma parent_range c : 0 < c -> 0 <= parent c < c.
Proof. unfold parent. intros. Z.div_mod_to_equations. lia. Qed.

Lemma parent_child c :
  0 < c -> c = leftchild (parent c) \/ c = rightchild (parent c).
Proof.
  unfold parent, leftchild, rightchild. intros.
  Z.div_mod_to_equations. lia.
Qed.

Lemma parent_leftchild i : parent (leftchild i) = i.
Proof. unfold parent, leftchild. Z.div_mod_to_equations. lia. Qed.

Lemma parent_rightchild i : parent (rightchild i) = i.
Proof. unfold parent, rightchild. Z.div_mod_to_equations. lia. Qed.

Lemma heap_from_0 l : heap_from l 0 <-> heap_order l.
Proof.
  split; intros Hh c Hc.
  - apply Hh; [done|]. apply parent_range in Hc. lia.
  - intros _. by apply Hh.
Qed.

(** *** The mapping is injective and the identities are distinct *)

Lemma mapping_ok_inj l m i j k k' id :
  mapping_ok l m ->
  zlookup l i = Some (k, id) -> zlookup l j = Some (k', id) -> i = j.
Proof.
  intros Hm Hi Hj.
  assert (m !! id = Some i) by (apply Hm; eauto).
  assert (m !! id = Some j) by (apply Hm; eauto).
  congruence.
Qed.

Lemma mapping_ok_key l m i j k k' id :
  mapping_ok l m ->
  zlookup l i = Some (k, id) -> zlookup l j = Some (k', id) -> k = k'.
Proof.
  intros Hm Hi Hj.
  assert (i = j) by eauto using mapping_ok_inj. subst. congruence.
Qed.

Lemma contents_lookup q id k :
  wf q -> contents q !! id = Some k <-> (k, id) ∈ q_elements q.
Proof.
  intros [_ Hm]. unfold contents. rewrite lookup_omap. split.
  - destruct (q_mapping q !! id) as [i|] eqn:Hi; [|done]. simpl.
    apply Hm in Hi as [k' Hk']. rewrite Hk'. simpl. intros [= <-].
    by eapply zlookup_elem_of.
  - intros [i Hi]%elem_of_zlookup.
    assert (q_mapping q !! id = Some i) as -> by (apply Hm; eauto).
    simpl. by rewrite Hi.
Qed.

Lemma contents_eq q q' :
  wf q -> wf q' -> q_elements q' ≡ₚ q_elements q -> contents q' = contents q.
Proof.
  intros Hq Hq' Hp. apply map_eq. intros id. apply option_eq. intros k.
  rewrite !contents_lookup by done. by rewrite Hp.
Qed.

Lemma contents_is_Some q id :
  wf q -> is_Some (contents q !! id) <-> is_Some (q_mapping q !! id).
Proof.
  intros [_ Hm]. unfold contents. rewrite lookup_omap. split.
  - destruct (q_mapping q !! id); [eauto|]. simpl. by intros [? ?].
  - intros [i Hi]. rewrite Hi. simpl.
    apply Hm in Hi as [k ->]. simpl. eauto.
Qed.

(** *** Reading and writing the array *)

Lemma elements_get_ok q i x :
  zlookup (q_elements q) i = Some x -> elements_get i q = Ok x q.
Proof. intros Hx. unfold elements_get. by rewrite (getitem_Some _ _ _ Hx). Qed.

Lemma elements_set_ok q i x :
  0 <= i < Z.of_nat (length (q_elements q)) ->
  elements_set i x q =
    Ok tt (mkQueue (zupdate (q_elements q) i x) (q_size q) (q_mapping q)).
Proof. intros Hi. unfold elements_set. by rewrite setitem_zupdate. Qed.

(** *** Exchanging two entries *)

Definition swapped q i j (xi xj : Z * Id) : PQ :=
  mkQueue (zupdate (zupdate (q_elements q) i xj) j xi) (q_size q)
          (<[snd xi := j]> (<[snd xj := i]> (q_mapping q))).

Lemma swap_entries_ok q i j xi xj :
  zlookup (q_elements q) i = Some xi -> zlookup (q_elements q) j = Some xj ->
  i <> j ->
  swap_entries i j q = Ok tt (swapped q i j xi xj).
Proof.
  intros Hi Hj Hne.
  pose proof (zlookup_Some_range _ _ _ Hi) as Ri.
  pose proof (zlookup_Some_range _ _ _ Hj) as Rj.
  unfold swap_entries, bind.
  rewrite (elements_get_ok _ _ _ Hi), (elements_get_ok _ _ _ Hj).
  rewrite elements_set_ok by done.
  rewrite elements_set_ok by (simpl; rewrite length_zupdate; done).
  simpl.
  erewrite elements_get_ok; last first.
  { simpl. rewrite zlookup_zupdate_ne by lia. by apply zlookup_zupdate_eq. }
  simpl.
  erewrite elements_get_ok; last first.
  { simpl. apply zlookup_zupdate_eq. by rewrite length_zupdate. }
  done.
Qed.

Lemma swapped_lookup q i j xi xj c :
  zlookup (q_elements q) i = Some xi -> zlookup (q_elements q) j = Some xj ->
  zlookup (q_elements (swapped q i j xi xj)) c =
    if decide (c = j) then Some xi
    else if decide (c = i) then Some xj
    else zlookup (q_elements q) c.
Proof.
  intros Hi Hj.
  pose proof (zlookup_Some_range _ _ _ Hi) as Ri.
  pose proof (zlookup_Some_range _ _ _ Hj) as Rj.
  simpl. rewrite zlookup_zupdate by (by rewrite length_zupdate).
  rewrite zlookup_zupdate by done.
  repeat case_decide; congruence.
Qed.

Lemma swapped_wf q i j xi xj :
  wf q ->
  zlookup (q_elements q) i = Some xi -> zlookup (q_elements q) j = Some xj ->
  i <> j ->
  wf (swapped q i j xi xj).
Proof.
  intros [Hs Hm] Hi Hj Hne. split.
  { simpl. by rewrite !length_zupdate. }
  intros id p. rewrite (swapped_lookup _ _ _ _ _ p Hi Hj).
  destruct xi as [ki idi], xj as [kj idj].
  assert (idi <> idj) as Hid.
  { intros ->. apply Hne. eauto using mapping_ok_inj. }
  cbn [swapped q_mapping snd].
  destruct (decide (id = idi)) as [->|Hni].
  - rewrite lookup_insert_eq. split.
    + intros [= <-]. rewrite decide_True by done. eauto.
    + intros [k Hk]. repeat case_decide; simplify_eq; try done.
      assert (p = i) by eauto using mapping_ok_inj. done.
  - rewrite lookup_insert_ne by done.
    destruct (decide (id = idj)) as [->|Hnj].
    + rewrite lookup_insert_eq. split.
      * intros [= <-]. rewrite decide_False by done.
        rewrite decide_True by done. eauto.
      * intros [k Hk]. repeat case_decide; simplify_eq; try done.
        assert (p = j) by eauto using mapping_ok_inj. done.
    + rewrite lookup_insert_ne by done. rewrite (Hm id p).
      split; intros [k Hk].
      * repeat case_decide; simplify_eq; eauto.
      * repeat case_decide; simplify_eq; eauto.
Qed.

Lemma swapped_Permutation q i j xi xj :
  zlookup (q_elements q) i = Some xi -> zlookup (q_elements q) j = Some xj ->
  q_elements (swapped q i j xi xj) ≡ₚ q_elements q.
Proof. intros. simpl. by apply zupdate_swap_Permutation. Qed.

End QueueInvariant.

(** ** Sifting down: [min_heapify] and [build_min_heap] *)

Section SiftDown.
Context `{Countable Id}.

Implicit Types (q : MinPriorityQueue Id) (l : list (Z * Id)) (i j c lo : Z).

(** The state in which [min_heapify s] is called while the part of the
    array from [lo] on is being put in heap order: only the entry at [s]
    may be above its children, and the children of [s] are not below the
    parent of [s]. *)
Definition down_pre l lo s : Prop :=
  (forall c, 0 < c -> lo <= parent c -> parent c <> s -> ordered_at l c) /\
  (0 < s -> lo <= parent s ->
   forall c a b, 0 < c -> parent c = s ->
     zlookup l c = Some a -> zlookup l (parent s) = Some b -> fst b <= fst a).

Lemma pick_smaller_ok q c s xs :
  wf q -> zlookup (q_elements q) s = Some xs -> 0 <= c ->
  pick_smaller c s q =
    Ok (match zlookup (q_elements q) c with
        | Some xc => if fst xc <? fst xs then c else s
        | None => s
        end) q.
Proof.
  intros [Hs _] Hxs Hc. unfold pick_smaller, bind, get_size.
  destruct (Z.ltb_spec c (q_size q)) as [Hlt|Hge].
  - destruct (zlookup_is_Some (q_elements q) c) as [xc Hxc]; [lia|].
    rewrite (elements_get_ok _ _ _ Hxc), (elements_get_ok _ _ _ Hxs), Hxc.
    done.
  - rewrite zlookup_None by lia. done.
Qed.

Lemma min_heapify_rec_spec fuel :
  forall q lo i,
    wf q -> 0 <= lo <= i -> i < q_size q ->
    q_size q - i <= Z.of_nat fuel ->
    down_pre (q_elements q) lo i ->
    exists q',
      min_heapify_rec fuel i q = Ok tt q' /\
      wf q' /\ q_size q' = q_size q /\
      q_elements q' ≡ₚ q_elements q /\
      heap_from (q_elements q') lo.
Proof.
  induction fuel as [|fuel IH]; intros q lo i Hwf Hlo Hi Hfuel [HA HB].
  { lia. }
  pose proof Hwf as [Hsize Hmap].
  destruct (zlookup_is_Some (q_elements q) i) as [xi Hxi]; [lia|].
  cbn [min_heapify_rec]. unfold bind at 1.
  rewrite (pick_smaller_ok q (leftchild i) i xi) by (unfold leftchild; done || lia).
  set (s1 := match zlookup (q_elements q) (leftchild i) with
             | Some xc => if fst xc <? fst xi then leftchild i else i
             | None => i end).
  assert (exists x1, zlookup (q_elements q) s1 = Some x1 /\ fst x1 <= fst xi /\
            (forall a, zlookup (q_elements q) (leftchild i) = Some a ->
                       fst x1 <= fst a) /\
            (s1 = i \/ s1 = leftchild i /\ fst x1 < fst xi))
    as (x1 & Hx1 & Hx1i & Hx1l & Hs1).
  { subst s1. destruct (zlookup (q_elements q) (leftchild i)) as [a|] eqn:Ha.
    - destruct (Z.ltb_spec (fst a) (fst xi)).
      + exists a. split_and!; [done|lia| |right; done].
        intros ? [= <-]. lia.
      + exists xi. split_and!; [done|lia| |by left].
        intros ? [= <-]. lia.
    - exists xi. split_and!; [done|lia|done|by left]. }
  unfold bind at 1.
  rewrite (pick_smaller_ok q (rightchild i) s1 x1) by (unfold rightchild; done || lia).
  set (s2 := match zlookup (q_elements q) (rightchild i) with
             | Some xc => if fst xc <? fst x1 then rightchild i else s1
             | None => s1 end).
  assert (exists x2, zlookup (q_elements q) s2 = Some x2 /\ fst x2 <= fst xi /\
            (forall c a, parent c = i -> 0 < c ->
                         zlookup (q_elements q) c = Some a -> fst x2 <= fst a) /\
            (s2 = i \/ (s2 = leftchild i \/ s2 = rightchild i) /\ fst x2 < fst xi))
    as (x2 & Hx2 & Hx2i & Hx2c & Hs2).
  { assert (forall c, parent c = i -> 0 < c -> c = leftchild i \/ c = rightchild i)
      as Hch.
    { intros c <- Hc. by apply parent_child. }
    subst s2. destruct (zlookup (q_elements q) (rightchild i)) as [b|] eqn:Hb.
    - destruct (Z.ltb_spec (fst b) (fst x1)).
      + exists b. split_and!; [done|lia| |right; split; [by right|lia]].
        intros c a Hp Hc Ha. destruct (Hch c Hp Hc) as [->| ->].
        * specialize (Hx1l _ Ha). lia.
        * rewrite Hb in Ha. injection Ha as <-. lia.
      + exists x1. split_and!; [done|lia| |].
        * intros c a Hp Hc Ha. destruct (Hch c Hp Hc) as [->| ->].
          -- by apply Hx1l.
          -- rewrite Hb in Ha. injection Ha as <-. lia.
        * destruct Hs1 as [->|[-> ?]]; [by left|right; split; [by left|done]].
    - exists x1. split_and!; [done|lia| |].
      + intros c a Hp Hc Ha. destruct (Hch c Hp Hc) as [->| ->].
        * by apply Hx1l.
        * congruence.
      + destruct Hs1 as [->|[-> ?]]; [by left|right; split; [by left|done]]. }
  clearbody s1 s2. clear Hx1 Hx1i Hx1l Hs1 s1 x1.
  destruct (decide (s2 <> i)) as [Hne|Heq]; last first.
  - (* the entry at [i] is already the smallest of the three *)
    assert (s2 = i) as -> by (destruct (decide (s2 = i)); [done|contradiction]).
    assert (x2 = xi) as -> by congruence.
    exists q. split_and!; try done. intros c Hc Hpc.
    destruct (decide (parent c = i)) as [Hp|Hp].
    + intros a b Ha Hb. rewrite Hp, Hxi in Hb. injection Hb as <-. eauto.
    + by apply HA.
  - (* exchange with the smaller child and go on from there *)
    destruct Hs2 as [->|[Hs2 Hlt]]; [done|].
    assert (parent s2 = i) as Hps.
    { destruct Hs2 as [-> | ->]; [apply parent_leftchild|apply parent_rightchild]. }
    assert (i < s2) as His by (unfold leftchild, rightchild in Hs2; lia).
    pose proof (zlookup_Some_range _ _ _ Hx2) as Rs2.
    unfold bind at 1. rewrite (swap_entries_ok q i s2 xi x2) by (done || lia).
    pose proof (swapped_wf q i s2 xi x2 Hwf Hxi Hx2 ltac:(lia)) as Hwf'.
    destruct (IH (swapped q i s2 xi x2) lo s2) as (q' & Hrun & Hwfq' & Hsz & Hperm & Hheap).
    + done.
    + lia.
    + simpl. lia.
    + simpl. lia.
    + split.
      * intros c Hc Hpc Hpne a b.
        rewrite !(swapped_lookup q i s2 xi x2) by done.
        pose proof (parent_range c Hc) as Rc.
        destruct (decide (c = s2)) as [->|Hcs]; [rewrite Hps|].
        -- rewrite (decide_False (P := i = s2)) by lia.
           rewrite decide_True by done.
           intros [= <-] [= <-]. lia.
        -- rewrite (decide_False (P := parent c = s2)) by done.
           destruct (decide (c = i)) as [->|Hci].
           ++ intros [= <-].
              rewrite decide_False by lia.
              intros Hb. eapply (HB ltac:(lia) Hpc s2); eauto. lia.
           ++ destruct (decide (parent c = i)) as [Hpi|Hpi].
              ** intros Ha [= <-]. eapply Hx2c; eauto.
              ** intros Ha Hb. by eapply (HA c).
      * intros Hs2pos Hlops c a b Hc Hpc.
        rewrite !(swapped_lookup q i s2 xi x2) by done.
        rewrite Hps. pose proof (parent_range c Hc) as Rc.
        rewrite (decide_False (P := c = s2)) by lia.
        rewrite (decide_False (P := c = i)) by lia.
        rewrite (decide_False (P := i = s2)) by lia.
        rewrite decide_True by done.
        intros Ha [= <-].
        eapply (HA c Hc); [lia|lia|exact Ha|by rewrite Hpc].
    + exists q'. split_and!; try done.
      rewrite Hperm. by apply swapped_Permutation.
Qed.

End SiftDown.

(** ** Sifting up: the loop of [decrease_key] *)

Section SiftUp.
Context `{Countable Id}.

Implicit Types (q : MinPriorityQueue Id) (l : list (Z * Id)) (i j c : Z).

(** The state in which the loop of [decrease_key] is at position [i]:
    only the entry at [i] may be below its parent, and the children of
    [i] are not below the parent of [i]. *)
Definition up_pre l i : Prop :=
  (forall c, 0 < c -> c <> i -> ordered_at l c) /\
  (0 < i ->
   forall c a b, 0 < c -> parent c = i ->
     zlookup l c = Some a -> zlookup l (parent i) = Some b -> fst b <= fst a).

Lemma decrease_key_loop_spec fuel :
  forall q i,
    wf q -> 0 <= i < q_size q -> i < Z.of_nat fuel ->
    up_pre (q_elements q) i ->
    exists q',
      decrease_key_loop fuel i q = Ok tt q' /\
      wf q' /\ q_size q' = q_size q /\
      q_elements q' ≡ₚ q_elements q /\
      heap_order (q_elements q').
Proof.
  induction fuel as [|fuel IH]; intros q i Hwf Hi Hfuel [HA HB].
  { lia. }
  pose proof Hwf as [Hsize Hmap].
  destruct (zlookup_is_Some (q_elements q) i) as [xi Hxi]; [lia|].
  cbn [decrease_key_loop]. unfold bind at 1.
  destruct (Z.ltb_spec 0 i) as [Hpos|Hzero].
  - pose proof (parent_range i Hpos) as Rp.
    destruct (zlookup_is_Some (q_elements q) (parent i)) as [xp Hxp]; [lia|].
    unfold bind at 1. rewrite (elements_get_ok _ _ _ Hxp).
    unfold bind at 1. rewrite (elements_get_ok _ _ _ Hxi).
    unfold ret at 1.
    destruct (Z.ltb_spec (fst xi) (fst xp)) as [Hlt|Hge].
    + (* exchange with the parent and go on from there *)
      unfold bind at 1.
      rewrite (swap_entries_ok q i (parent i) xi xp) by (done || lia).
      pose proof (swapped_wf q i (parent i) xi xp Hwf Hxi Hxp ltac:(lia)) as Hwf'.
      destruct (IH (swapped q i (parent i) xi xp) (parent i))
        as (q' & Hrun & Hwfq' & Hsz & Hperm & Hheap).
      * done.
      * simpl. lia.
      * lia.
      * split.
        -- intros c Hc Hcp a b.
           rewrite !(swapped_lookup q i (parent i) xi xp) by done.
           pose proof (parent_range c Hc) as Rc.
           rewrite (decide_False (P := c = parent i)) by done.
           destruct (decide (c = i)) as [->|Hci].
           ++ rewrite decide_True by done. intros [= <-] [= <-]. lia.
           ++ destruct (decide (parent c = parent i)) as [Hpp|Hpp].
              ** intros Ha [= <-].
                 assert (fst xp <= fst a); [|lia].
                 eapply (HA c); eauto. by rewrite Hpp.
              ** destruct (decide (parent c = i)) as [Hpi|Hpi].
                 --- intros Ha [= <-]. eapply (HB Hpos c); eauto.
                 --- intros Ha Hb. eapply (HA c); eauto.
        -- intros Hppos c a b Hc Hpc.
           rewrite !(swapped_lookup q i (parent i) xi xp) by done.
           pose proof (parent_range _ Hppos) as Rpp.
           pose proof (parent_range c Hc) as Rc.
           rewrite (decide_False (P := c = parent i)) by lia.
           rewrite (decide_False (P := parent (parent i) = parent i)) by lia.
           rewrite (decide_False (P := parent (parent i) = i)) by lia.
           assert (forall b, zlookup (q_elements q) (parent (parent i)) = Some b ->
                     fst b <= fst xp) as Hgp.
           { intros b0 Hb0. eapply (HA (parent i)); eauto. lia. }
           destruct (decide (c = i)) as [->|Hci].
           ++ intros [= <-] Hb. by apply Hgp.
           ++ intros Ha Hb. specialize (Hgp _ Hb).
              assert (fst xp <= fst a); [|lia].
              eapply (HA c); eauto. by rewrite Hpc.
      * exists q'. split_and!; try done.
        rewrite Hperm. by apply swapped_Permutation.
    + (* the parent is not above: the loop ends *)
      exists q. split_and!; try done. intros c Hc.
      destruct (decide (c = i)) as [->|Hci].
      * intros a b Ha Hb. rewrite Hxi in Ha. rewrite Hxp in Hb.
        simplify_eq. lia.
      * by apply HA.
  - (* at the root: the loop ends *)
    unfold ret at 1. exists q. split_and!; try done.
    intros c Hc. apply HA; [done|lia].
Qed.

End SiftUp.

(** ** The interface methods *)

Section Methods.
Context `{Countable Id}.

Implicit Types (q : MinPriorityQueue Id) (l : list (Z * Id)) (i j c : Z).
Implicit Types (e : Id) (k : Z).

Lemma wf_mapping_range q e i :
  wf q -> q_mapping q !! e = Some i -> 0 <= i < q_size q.
Proof.
  intros [Hs Hm] Hi. apply Hm in Hi as [k Hk].
  apply zlookup_Some_range in Hk. lia.
Qed.

Lemma contents_Some q e k :
  wf q ->
  contents q !! e = Some k <->
  exists i, q_mapping q !! e = Some i /\ zlookup (q_elements q) i = Some (k, e).
Proof.
  intros [_ Hm]. unfold contents. rewrite lookup_omap. split.
  - destruct (q_mapping q !! e) as [i|] eqn:Hi; [|done]. simpl.
    pose proof Hi as Hi'. apply Hm in Hi as [k' Hk']. rewrite Hk'. simpl.
    intros [= <-]. eauto.
  - intros (i & -> & Hi). simpl. by rewrite Hi.
Qed.

Lemma contents_None q e :
  wf q -> contents q !! e = None <-> q_mapping q !! e = None.
Proof.
  intros Hwf. rewrite !eq_None_not_Some. by rewrite contents_is_Some.
Qed.

(** *** [element_exists] and [get_key] *)

Lemma element_exists_spec q e :
  wf q ->
  element_exists e q = Ok (bool_decide (is_Some (contents q !! e))) q.
Proof.
  intros Hwf. unfold element_exists. f_equal.
  destruct (q_mapping q !! e) as [i|] eqn:Hi; simpl.
  - pose proof (wf_mapping_range _ _ _ Hwf Hi).
    rewrite bool_decide_eq_true_2.
    + apply Z.leb_le. lia.
    + apply contents_is_Some; eauto.
  - rewrite bool_decide_eq_false_2; [done|].
    rewrite contents_is_Some by done. rewrite Hi. by intros [? ?].
Qed.

Lemma get_key_spec q e :
  wf q ->
  get_key e q = match contents q !! e with
                | Some k => Ok k q
                | None => Raise KeyError q
                end.
Proof.
  intros Hwf. unfold get_key.
  destruct (contents q !! e) as [k|] eqn:Hc.
  - apply contents_Some in Hc as (i & -> & Hi); [|done].
    by rewrite (getitem_Some _ _ _ Hi).
  - apply contents_None in Hc as ->; done.
Qed.

(** *** The root of a heap holds a smallest key *)

Lemma heap_root_min l r :
  heap_order l -> zlookup l 0 = Some r ->
  forall c x, zlookup l c = Some x -> fst r <= fst x.
Proof.
  intros Hh Hr c. 
  assert (forall n c x, Z.to_nat c = n -> zlookup l c = Some x -> fst r <= fst x)
    as Hind; [|eauto].
  clear c. intros n. induction (lt_wf n) as [n _ IH].
  intros c x Hn Hx. pose proof (zlookup_Some_range _ _ _ Hx) as Rc.
  destruct (decide (c = 0)) as [->|Hc].
  - rewrite Hr in Hx. injection Hx as <-. lia.
  - assert (0 < c) as Hpos by lia.
    pose proof (parent_range c Hpos) as Rp.
    destruct (zlookup_is_Some l (parent c)) as [y Hy]; [lia|].
    assert (fst r <= fst y).
    { eapply (IH (Z.to_nat (parent c))); [lia|done|done]. }
    assert (fst y <= fst x) by (eapply Hh; eauto).
    lia.
Qed.

(** *** [decrease_key] *)

Lemma decrease_key_unknown q e k :
  q_mapping q !! e = None -> decrease_key e k q = Raise KeyError q.
Proof. intros Hm. unfold decrease_key, bind. by rewrite Hm. Qed.

Lemma decrease_key_greater q e k i k0 :
  q_mapping q !! e = Some i -> zlookup (q_elements q) i = Some (k0, e) ->
  k0 < k ->
  decrease_key e k q = Raise ValueError q.
Proof.
  intros Hm Hi Hlt. unfold decrease_key. unfold bind at 1. rewrite Hm.
  unfold bind at 1. rewrite (elements_get_ok _ _ _ Hi). unfold bind at 1.
  simpl. destruct (Z.leb_spec k k0); [lia|]. done.
Qed.

(** The queue after the key of the entry at [i] has been overwritten. *)
Definition with_key q i k e : MinPriorityQueue Id :=
  mkQueue (zupdate (q_elements q) i (k, e)) (q_size q) (q_mapping q).

Lemma with_key_wf q i k k0 e :
  wf q -> zlookup (q_elements q) i = Some (k0, e) -> wf (with_key q i k e).
Proof.
  intros [Hs Hm] Hi. pose proof (zlookup_Some_range _ _ _ Hi) as Ri. split.
  { simpl. by rewrite length_zupdate. }
  intros id p. simpl. rewrite (Hm id p). rewrite zlookup_zupdate by done.
  destruct (decide (i = p)) as [->|Hne]; [|done].
  rewrite Hi. split; intros [k' Hk']; simplify_eq; eauto.
Qed.

Lemma with_key_contents q i k k0 e :
  wf q -> zlookup (q_elements q) i = Some (k0, e) ->
  contents (with_key q i k e) = <[e := k]> (contents q).
Proof.
  intros Hwf Hi. pose proof (zlookup_Some_range _ _ _ Hi) as Ri.
  pose proof Hwf as [Hs Hm].
  assert (q_mapping q !! e = Some i) as Hme by (apply Hm; eauto).
  apply map_eq. intros id. unfold contents at 1. rewrite lookup_omap. simpl.
  destruct (decide (id = e)) as [->|Hne].
  - rewrite lookup_insert_eq, Hme. simpl.
    by rewrite zlookup_zupdate_eq.
  - rewrite lookup_insert_ne by done. unfold contents. rewrite lookup_omap.
    destruct (q_mapping q !! id) as [p|] eqn:Hp; [|done]. simpl.
    rewrite zlookup_zupdate_ne; [done| |lia].
    intros <-. apply Hm in Hp as [k' Hk']. congruence.
Qed.

Lemma decrease_key_run q e k i k0 :
  wf q ->
  q_mapping q !! e = Some i -> zlookup (q_elements q) i = Some (k0, e) ->
  k <= k0 ->
  up_pre (zupdate (q_elements q) i (k, e)) i ->
  exists q',
    decrease_key e k q = Ok tt q' /\
    wf q' /\ q_size q' = q_size q /\
    heap_order (q_elements q') /\
    contents q' = <[e := k]> (contents q).
Proof.
  intros Hwf Hm Hi Hle Hup.
  pose proof (zlookup_Some_range _ _ _ Hi) as Ri.
  pose proof (with_key_wf q i k k0 e Hwf Hi) as Hwf1.
  destruct (decrease_key_loop_spec (S (Z.to_nat i)) (with_key q i k e) i)
    as (q' & Hrun & Hwf' & Hsz & Hperm & Hheap).
  - done.
  - destruct Hwf as [Hs _]. simpl. lia.
  - lia.
  - done.
  - exists q'. split_and!; try done.
    + unfold decrease_key. unfold bind at 1. rewrite Hm.
      unfold bind at 1. rewrite (elements_get_ok _ _ _ Hi). unfold bind at 1.
      simpl. destruct (Z.leb_spec k k0); [|lia].
      rewrite elements_set_ok by done. exact Hrun.
    + rewrite (contents_eq (with_key q i k e) q') by done.
      by eapply with_key_contents.
Qed.

Lemma decrease_key_spec q e k k0 :
  wf q -> heap_order (q_elements q) ->
  contents q !! e = Some k0 -> k <= k0 ->
  exists q',
    decrease_key e k q = Ok tt q' /\
    wf q' /\ q_size q' = q_size q /\
    heap_order (q_elements q') /\
    contents q' = <[e := k]> (contents q).
Proof.
  intros Hwf Hheap Hc Hle.
  apply contents_Some in Hc as (i & Hm & Hi); [|done].
  pose proof (zlookup_Some_range _ _ _ Hi) as Ri.
  eapply decrease_key_run; eauto. split.
  - intros c Hc Hci a b. pose proof (parent_range c Hc) as Rc.
    rewrite zlookup_zupdate_ne by lia.
    rewrite zlookup_zupdate by done.
    destruct (decide (i = parent c)) as [->|Hpi].
    + intros Ha [= <-]. simpl.
      assert (k0 <= fst a); [|lia]. by eapply (Hheap c Hc a (k0, e)).
    + by apply Hheap.
  - intros Hpos c a b Hc Hpc. pose proof (parent_range c Hc) as Rc.
    pose proof (parent_range i Hpos) as Rpi.
    rewrite !zlookup_zupdate_ne by lia. intros Ha Hb.
    assert (fst b <= k0) by (by eapply (Hheap i Hpos (k0, e) b)).
    assert (k0 <= fst a); [|lia].
    eapply (Hheap c Hc a (k0, e)); [done|by rewrite Hpc].
Qed.

End Methods.

Section InsertExtract.
Context `{Countable Id}.

Implicit Types (q : MinPriorityQueue Id) (l : list (Z * Id)) (i j c : Z).
Implicit Types (e : Id) (k : Z).

(** *** [insert] *)

(** The queue after the three statements of [insert] that come before
    the call of [decrease_key]. *)
Definition appended q k e : MinPriorityQueue Id :=
  mkQueue (q_elements q ++ [(k, e)]) (q_size q + 1)
          (<[e := q_size q]> (q_mapping q)).

Lemma insert_unfold q k e :
  insert k e q = decrease_key e k (appended q k e).
Proof.
  unfold insert, bind, elements_append, modify, get_size, set_size, mapping_set.
  simpl. unfold appended. by replace (q_size q + 1 - 1) with (q_size q) by lia.
Qed.

Lemma appended_lookup q k e c :
  wf q ->
  zlookup (q_elements (appended q k e)) c =
    if decide (c = q_size q) then Some (k, e) else zlookup (q_elements q) c.
Proof.
  intros [Hs _]. simpl. destruct (decide (c = q_size q)) as [->|Hne].
  - rewrite Hs. apply zlookup_snoc.
  - destruct (decide (c < q_size q)) as [Hlt|Hge].
    + apply zlookup_app_l. lia.
    + rewrite !zlookup_None; [done|lia|].
      rewrite length_app. simpl. lia.
Qed.

Lemma appended_wf q k e :
  wf q -> q_mapping q !! e = None -> wf (appended q k e).
Proof.
  intros Hwf Hfresh. pose proof Hwf as [Hs Hm]. split.
  { simpl. rewrite length_app. simpl. lia. }
  intros id p. rewrite appended_lookup by done. simpl.
  destruct (decide (id = e)) as [->|Hne].
  - rewrite lookup_insert_eq. split.
    + intros [= <-]. rewrite decide_True by done. eauto.
    + intros [k' Hk']. case_decide; [congruence|].
      assert (q_mapping q !! e = Some p) by (apply Hm; eauto). congruence.
  - rewrite lookup_insert_ne by done. rewrite (Hm id p).
    split; intros [k' Hk'].
    + pose proof (zlookup_Some_range _ _ _ Hk').
      rewrite decide_False by lia. eauto.
    + case_decide; simplify_eq. eauto.
Qed.

Lemma appended_contents q k e :
  wf q -> q_mapping q !! e = None ->
  contents (appended q k e) = <[e := k]> (contents q).
Proof.
  intros Hwf Hfresh. pose proof Hwf as [Hs Hm].
  pose proof (appended_lookup q k e) as HL. simpl in HL.
  apply map_eq. intros id. unfold contents at 1. rewrite lookup_omap.
  simpl.
  destruct (decide (id = e)) as [->|Hne].
  - rewrite !lookup_insert_eq. simpl. rewrite HL by done.
    by rewrite decide_True.
  - rewrite !lookup_insert_ne by done. unfold contents. rewrite lookup_omap.
    destruct (q_mapping q !! id) as [p|] eqn:Hp; [|done]. simpl.
    rewrite HL by done.
    pose proof (wf_mapping_range _ _ _ Hwf Hp).
    by rewrite decide_False by lia.
Qed.

Lemma insert_spec q k e :
  wf q -> heap_order (q_elements q) -> contents q !! e = None ->
  exists q',
    insert k e q = Ok tt q' /\
    wf q' /\ q_size q' = q_size q + 1 /\
    heap_order (q_elements q') /\
    contents q' = <[e := k]> (contents q).
Proof.
  intros Hwf Hheap Hfresh. apply contents_None in Hfresh; [|done].
  pose proof Hwf as [Hs Hm].
  pose proof (appended_wf q k e Hwf Hfresh) as Hwf1.
  assert (zlookup (q_elements (appended q k e)) (q_size q) = Some (k, e)) as Hlast.
  { rewrite appended_lookup by done. by rewrite decide_True. }
  destruct (decrease_key_run (appended q k e) e k (q_size q) k)
    as (q' & Hrun & Hwf' & Hsz & Hheap' & Hcont).
  - done.
  - simpl. apply lookup_insert_eq.
  - done.
  - lia.
  - assert (zupdate (q_elements (appended q k e)) (q_size q) (k, e)
            = q_elements (appended q k e)) as ->.
    { unfold zupdate. apply list_insert_id.
      unfold zlookup in Hlast. destruct (0 <=? q_size q); done. }
    split.
    + intros c Hc Hne a b. pose proof (parent_range c Hc).
      rewrite !appended_lookup by done.
      rewrite decide_False by done.
      intros Ha. pose proof (zlookup_Some_range _ _ _ Ha).
      rewrite decide_False by lia. by apply Hheap.
    + intros Hpos c a b Hc Hpc. pose proof (parent_range c Hc).
      rewrite appended_lookup by done. rewrite decide_False by lia.
      intros Ha. pose proof (zlookup_Some_range _ _ _ Ha). lia.
  - exists q'. split_and!; try done.
    + by rewrite insert_unfold.
    + rewrite Hcont. rewrite appended_contents by done.
      apply insert_insert_eq.
Qed.

(** *** [extract_min] *)

Lemma extract_min_empty q :
  q_size q = 0 -> extract_min q = Raise IndexError q.
Proof. intros Hs. unfold extract_min, bind, get_size. by rewrite Hs. Qed.

(** The queue of [extract_min] at the call of [min_heapify]: the last
    entry has taken the place of the root. *)
Definition root_replaced q (smallest last : Z * Id) : MinPriorityQueue Id :=
  mkQueue (removelast (zupdate (q_elements q) 0 last)) (q_size q - 1)
          (<[snd last := 0]> (delete (snd smallest) (q_mapping q))).

Lemma root_replaced_lookup q smallest last c :
  wf q -> 1 < q_size q ->
  zlookup (q_elements (root_replaced q smallest last)) c =
    if decide (c = 0) then Some last
    else if decide (c < q_size q - 1) then zlookup (q_elements q) c
    else None.
Proof.
  intros [Hs Hm] Hsz. simpl.
  destruct (decide (c < q_size q - 1)) as [Hlt|Hge].
  - rewrite zlookup_removelast by (rewrite length_zupdate; lia).
    rewrite zlookup_zupdate by lia. repeat case_decide; congruence.
  - rewrite decide_False by lia. apply zlookup_None. right.
    rewrite length_removelast.
    + rewrite length_zupdate. lia.
    + intros E. apply (f_equal length) in E.
      rewrite length_zupdate in E. simpl in E. lia.
Qed.

Lemma root_replaced_wf q smallest last :
  wf q -> 1 < q_size q ->
  zlookup (q_elements q) 0 = Some smallest ->
  zlookup (q_elements q) (q_size q - 1) = Some last ->
  wf (root_replaced q smallest last).
Proof.
  intros Hwf Hsz H0 Hl. pose proof Hwf as [Hs Hm]. split.
  { simpl. rewrite length_removelast.
    - rewrite length_zupdate. lia.
    - intros E. apply (f_equal length) in E.
      rewrite length_zupdate in E. simpl in E. lia. }
  intros id p. rewrite root_replaced_lookup by done. simpl.
  destruct smallest as [k0 e0], last as [kl el]. simpl.
  assert (e0 <> el) as Hne.
  { intros ->. assert (0 = q_size q - 1) by eauto using mapping_ok_inj. lia. }
  destruct (decide (id = el)) as [->|Hnl].
  - rewrite lookup_insert_eq. split.
    + intros [= <-]. rewrite decide_True by done. eauto.
    + intros [k Hk]. repeat case_decide; simplify_eq; try done.
      assert (p = q_size q - 1) by eauto using mapping_ok_inj. lia.
  - rewrite lookup_insert_ne by done.
    destruct (decide (id = e0)) as [->|Hn0].
    + rewrite lookup_delete_eq. split; [done|].
      intros [k Hk]. repeat case_decide; simplify_eq.
      assert (p = 0) by eauto using mapping_ok_inj. done.
    + rewrite lookup_delete_ne by done. rewrite (Hm id p).
      split; intros [k Hk].
      * repeat case_decide; simplify_eq; eauto.
        pose proof (zlookup_Some_range _ _ _ Hk).
        assert (p = q_size q - 1) as -> by lia. congruence.
      * repeat case_decide; simplify_eq; eauto.
Qed.

Lemma root_replaced_contents q smallest last :
  wf q -> 1 < q_size q ->
  zlookup (q_elements q) 0 = Some smallest ->
  zlookup (q_elements q) (q_size q - 1) = Some last ->
  contents (root_replaced q smallest last) = delete (snd smallest) (contents q).
Proof.
  intros Hwf Hsz H0 Hl. pose proof Hwf as [Hs Hm].
  destruct smallest as [k0 e0], last as [kl el]. simpl.
  assert (e0 <> el) as Hne.
  { intros ->. assert (0 = q_size q - 1) by eauto using mapping_ok_inj. lia. }
  assert (q_mapping q !! el = Some (q_size q - 1)) as Hml by (apply Hm; eauto).
  assert (q_mapping q !! e0 = Some 0) as Hm0 by (apply Hm; eauto).
  pose proof (fun c => root_replaced_lookup q (k0, e0) (kl, el) c Hwf Hsz) as HL.
  simpl in HL.
  apply map_eq. intros id. unfold contents at 1. rewrite lookup_omap.
  simpl.
  destruct (decide (id = el)) as [->|Hnl].
  - rewrite lookup_insert_eq. simpl. rewrite HL.
    rewrite decide_True by done. rewrite lookup_delete_ne by done.
    symmetry. simpl. apply contents_Some; eauto.
  - rewrite lookup_insert_ne by done.
    destruct (decide (id = e0)) as [->|Hn0].
    + by rewrite !lookup_delete_eq.
    + rewrite !lookup_delete_ne by done. unfold contents. rewrite lookup_omap.
      destruct (q_mapping q !! id) as [p|] eqn:Hp; [|done]. simpl.
      rewrite HL.
      pose proof (wf_mapping_range _ _ _ Hwf Hp).
      apply Hm in Hp as [k Hk].
      rewrite decide_False by (intros ->; congruence).
      rewrite decide_True; [done|].
      assert (p <> q_size q - 1) by (intros ->; congruence). lia.
Qed.

End InsertExtract.

Section ExtractBuild.
Context `{Countable Id}.

Implicit Types (q : MinPriorityQueue Id) (l : list (Z * Id)) (i j c lo : Z).
Implicit Types (e : Id) (k : Z).

Lemma min_heapify_spec q lo i :
  wf q -> 0 <= lo <= i -> i < q_size q ->
  down_pre (q_elements q) lo i ->
  exists q',
    min_heapify i q = Ok tt q' /\
    wf q' /\ q_size q' = q_size q /\
    q_elements q' ≡ₚ q_elements q /\
    heap_from (q_elements q') lo.
Proof.
  intros Hwf Hlo Hi Hpre. unfold min_heapify.
  apply min_heapify_rec_spec; try done. lia.
Qed.

Lemma extract_min_unfold q smallest last :
  wf q -> 0 < q_size q ->
  zlookup (q_elements q) 0 = Some smallest ->
  zlookup (q_elements q) (q_size q - 1) = Some last ->
  extract_min q =
    if 0 <? q_size q - 1 then
      (min_heapify 0 ;; ret (snd smallest)) (root_replaced q smallest last)
    else
      Ok (snd smallest)
         (mkQueue (removelast (zupdate (q_elements q) 0 last)) (q_size q - 1)
                  (delete (snd smallest) (q_mapping q))).
Proof.
  intros Hwf Hsz H0 Hl. pose proof Hwf as [Hs Hm].
  unfold extract_min. unfold bind at 1. unfold get_size at 1.
  destruct (Z.eqb_spec (q_size q) 0) as [|_]; [lia|].
  unfold bind at 1. rewrite (elements_get_ok _ _ _ H0).
  unfold bind at 1. rewrite (elements_get_ok _ _ _ Hl).
  unfold bind at 1. rewrite elements_set_ok by lia.
  unfold bind at 1. unfold elements_pop at 1. cbn [q_elements q_size q_mapping].
  destruct (zupdate (q_elements q) 0 last) as [|x l'] eqn:El.
  { apply (f_equal length) in El. rewrite length_zupdate in El. simpl in El. lia. }
  rewrite <- El. clear El x l'.
  unfold bind at 1. unfold set_size at 1, modify. cbn [q_elements q_size q_mapping].
  unfold bind at 1. unfold mapping_pop at 1. cbn [q_elements q_size q_mapping].
  assert (q_mapping q !! snd smallest = Some 0) as ->.
  { destruct smallest. apply Hm. eauto. }
  unfold bind at 1. unfold get_size at 1. cbn [q_elements q_size q_mapping].
  destruct (Z.ltb_spec 0 (q_size q - 1)) as [Hbig|Hone]; [|done].
  assert (elements_get 0
            (mkQueue (removelast (zupdate (q_elements q) 0 last)) (q_size q - 1)
                     (delete (snd smallest) (q_mapping q)))
          = Ok last (mkQueue (removelast (zupdate (q_elements q) 0 last))
                             (q_size q - 1)
                             (delete (snd smallest) (q_mapping q)))) as Hget.
  { apply elements_get_ok. cbn [q_elements].
    rewrite zlookup_removelast by (rewrite length_zupdate; lia).
    apply zlookup_zupdate_eq. lia. }
  unfold bind at 1. unfold bind at 1. unfold bind at 1. rewrite Hget.
  unfold mapping_set at 1, modify. cbn [q_elements q_size q_mapping].
  done.
Qed.

Lemma extract_min_spec q :
  wf q -> heap_order (q_elements q) -> 0 < q_size q ->
  exists e k q',
    extract_min q = Ok e q' /\
    zlookup (q_elements q) 0 = Some (k, e) /\
    contents q !! e = Some k /\
    (forall e' k', contents q !! e' = Some k' -> k <= k') /\
    wf q' /\ q_size q' = q_size q - 1 /\
    heap_order (q_elements q') /\
    contents q' = delete e (contents q).
Proof.
  intros Hwf Hheap Hsz. pose proof Hwf as [Hs Hm].
  destruct (zlookup_is_Some (q_elements q) 0) as [[k e] H0]; [lia|].
  destruct (zlookup_is_Some (q_elements q) (q_size q - 1)) as [last Hl]; [lia|].
  assert (q_mapping q !! e = Some 0) as Hme by (apply Hm; eauto).
  assert (contents q !! e = Some k) as Hce by (apply contents_Some; eauto).
  assert (forall e' k', contents q !! e' = Some k' -> k <= k') as Hmin.
  { intros e' k' (p & _ & Hp)%contents_Some; [|done].
    apply (heap_root_min _ _ Hheap H0 _ _ Hp). }
  rewrite (extract_min_unfold q (k, e) last) by done.
  destruct (Z.ltb_spec 0 (q_size q - 1)) as [Hbig|Hone].
  - pose proof (root_replaced_wf q (k, e) last Hwf ltac:(lia) H0 Hl) as Hwf2.
    pose proof (fun c => root_replaced_lookup q (k, e) last c Hwf ltac:(lia)) as HL.
    destruct (min_heapify_spec (root_replaced q (k, e) last) 0 0)
      as (q' & Hrun & Hwf' & Hsz' & Hperm & Hheap').
    + done.
    + lia.
    + simpl. lia.
    + split; [|lia]. intros c Hc _ Hpc a b. rewrite !HL.
      pose proof (parent_range c Hc).
      rewrite (decide_False (P := c = 0)) by lia.
      rewrite (decide_False (P := parent c = 0)) by done.
      destruct (decide (c < q_size q - 1)); [|done].
      rewrite decide_True by lia. by apply Hheap.
    + exists e, k, q'. unfold bind. rewrite Hrun. split_and!; try done.
      * by apply heap_from_0.
      * rewrite (contents_eq (root_replaced q (k, e) last) q') by done.
        apply (root_replaced_contents q (k, e) last); (done || lia).
  - assert (q_size q = 1) as Hsz1 by lia.
    assert (forall id, id <> e -> q_mapping q !! id = None) as Honly.
    { intros id Hne. destruct (q_mapping q !! id) as [p|] eqn:Hp; [|done].
      pose proof (wf_mapping_range _ _ _ Hwf Hp).
      apply Hm in Hp as [k' Hk']. assert (p = 0) as -> by lia. congruence. }
    assert (removelast (zupdate (q_elements q) 0 last) = []) as ->.
    { apply length_zero_iff_nil. rewrite length_removelast.
      - rewrite length_zupdate. lia.
      - intros E. apply (f_equal length) in E.
        rewrite length_zupdate in E. simpl in E. lia. }
    assert (delete e (q_mapping q) = ∅) as Hempty.
    { apply map_eq. intros id. rewrite lookup_empty.
      destruct (decide (id = e)) as [->|Hne].
      - apply lookup_delete_eq.
      - rewrite lookup_delete_ne by done. by apply Honly. }
    exists e, k, (mkQueue [] (q_size q - 1) (delete e (q_mapping q))).
    split_and!; try done.
    + split; [simpl; lia|]. intros id p. simpl. rewrite Hempty, lookup_empty.
      split; [done|]. intros [k0 Hk0].
      apply zlookup_Some_range in Hk0. simpl in Hk0. lia.
    + intros c Hc a b Ha.
      apply zlookup_Some_range in Ha. simpl in Ha. lia.
    + apply map_eq. intros id. unfold contents at 1. rewrite lookup_omap.
      simpl. rewrite Hempty, lookup_empty. simpl. symmetry.
      destruct (decide (id = e)) as [->|Hne].
      * apply lookup_delete_eq.
      * rewrite lookup_delete_ne by done. apply contents_None; auto.
Qed.

End ExtractBuild.

Section Construction.
Context `{Countable Id}.

Implicit Types (q : MinPriorityQueue Id) (l : list (Z * Id)) (i j c lo s : Z).
Implicit Types (e : Id) (k : Z).

Lemma range_down_neg s : s < 0 -> range_down s = [].
Proof.
  intros Hs. unfold range_down.
  by replace (Z.to_nat (s + 1)) with O by lia.
Qed.

Lemma range_down_step s : 0 <= s -> range_down s = s :: range_down (s - 1).
Proof.
  intros Hs. unfold range_down.
  replace (Z.to_nat (s + 1)) with (S (Z.to_nat s)) by lia.
  replace (Z.to_nat (s - 1 + 1)) with (Z.to_nat s) by lia.
  cbn [seq map]. f_equal; [lia|].
  rewrite <- seq_shift, map_map. apply map_ext. intros n. lia.
Qed.

Lemma heap_from_weaken l lo lo' :
  lo <= lo' -> heap_from l lo -> heap_from l lo'.
Proof. intros Hle Hh c Hc Hp. apply Hh; [done|lia]. Qed.

Lemma build_loop_spec n :
  forall s q,
    Z.to_nat (s + 1) = n -> wf q -> s < q_size q ->
    heap_from (q_elements q) (s + 1) ->
    exists q',
      for_each (range_down s) min_heapify q = Ok tt q' /\
      wf q' /\ q_size q' = q_size q /\
      q_elements q' ≡ₚ q_elements q /\
      heap_order (q_elements q').
Proof.
  induction n as [|n IH]; intros s q Hn Hwf Hs Hheap.
  - rewrite range_down_neg by lia. exists q. split_and!; try done.
    intros c Hc. apply Hheap; [done|]. apply parent_range in Hc. lia.
  - rewrite range_down_step by lia. cbn [for_each]. unfold bind at 1.
    destruct (min_heapify_spec q s s) as (q1 & Hrun & Hwf1 & Hsz1 & Hp1 & Hh1).
    + done.
    + lia.
    + done.
    + split.
      * intros c Hc Hpc Hne. apply Hheap; [done|lia].
      * intros Hpos Hps. apply parent_range in Hpos. lia.
    + rewrite Hrun.
      destruct (IH (s - 1) q1) as (q' & Hrun' & Hwf' & Hsz' & Hp' & Hh').
      * lia.
      * done.
      * lia.
      * by replace (s - 1 + 1) with s by lia.
      * exists q'. split_and!; try done; [congruence|by rewrite Hp'].
Qed.

Lemma build_min_heap_spec q :
  wf q ->
  exists q',
    build_min_heap q = Ok tt q' /\
    wf q' /\ q_size q' = q_size q /\
    q_elements q' ≡ₚ q_elements q /\
    heap_order (q_elements q').
Proof.
  intros Hwf. pose proof Hwf as [Hs _].
  unfold build_min_heap. unfold bind at 1, get_size at 1.
  eapply build_loop_spec; [done|done| |].
  - unfold parent. Z.div_mod_to_equations. lia.
  - intros c Hc Hp a b Ha. apply zlookup_Some_range in Ha.
    unfold parent in Hp. Z.div_mod_to_equations. lia.
Qed.

(** The body of the loop of [__init__] leaves the state of [appended]. *)
Lemma init_loop_spec (args : list (Z * Id)) :
  forall q,
    wf q -> NoDup args.*2 ->
    (forall x, x ∈ args -> q_mapping q !! snd x = None) ->
    exists q',
      for_each args (fun key_value =>
        elements_append key_value ;;
        do size <- get_size;
        set_size (size + 1) ;;
        do size <- get_size;
        mapping_set (snd key_value) (size - 1)) q = Ok tt q' /\
      wf q' /\ q_elements q' = q_elements q ++ args.
Proof.
  induction args as [|[k e] args IH]; intros q Hwf Hnd Hfresh.
  - exists q. split_and!; try done. by rewrite app_nil_r.
  - cbn [for_each]. unfold bind at 1.
    assert ((elements_append (k, e) ;;
             do size <- get_size;
             set_size (size + 1) ;;
             do size <- get_size;
             mapping_set (snd (k, e)) (size - 1)) q = Ok tt (appended q k e)) as ->.
    { unfold bind, elements_append, modify, get_size, set_size, mapping_set.
      simpl. unfold appended.
      by replace (q_size q + 1 - 1) with (q_size q) by lia. }
    rewrite fmap_cons in Hnd. apply NoDup_cons in Hnd as [Hnotin Hnd].
    destruct (IH (appended q k e)) as (q' & Hrun & Hwf' & Hel).
    + apply appended_wf; [done|]. apply (Hfresh (k, e)). left.
    + done.
    + intros x Hx. simpl. rewrite lookup_insert_ne.
      * apply Hfresh. by right.
      * intros ->. apply Hnotin. apply list_elem_of_fmap. by exists x.
    + exists q'. split_and!; try done.
      rewrite Hel. simpl. by rewrite <- app_assoc.
Qed.

Lemma empty_queue_wf : wf (empty_queue (Id := Id)).
Proof.
  split; [done|]. intros id p. simpl. rewrite lookup_empty.
  split; [done|]. intros [k Hk].
  apply zlookup_Some_range in Hk. simpl in Hk. lia.
Qed.

Lemma init_spec (args : list (Z * Id)) :
  NoDup args.*2 ->
  exists q,
    init args = Ok tt q /\
    wf q /\ q_size q = Z.of_nat (length args) /\
    q_elements q ≡ₚ args /\
    heap_order (q_elements q).
Proof.
  intros Hnd. unfold init. unfold bind at 1.
  destruct (init_loop_spec args empty_queue empty_queue_wf Hnd)
    as (q1 & -> & Hwf1 & Hel1).
  { intros x _. apply lookup_empty. }
  destruct (build_min_heap_spec q1 Hwf1) as (q & Hrun & Hwf & Hsz & Hp & Hh).
  exists q. split_and!; try done.
  - destruct Hwf as [-> _]. by rewrite Hp, Hel1.
  - by rewrite Hp, Hel1.
Qed.

End Construction.

(** ** Grid.py: nodes *)

Inductive NodeState : Type :=
| UNDISCOVERED
| OPENED
| CLOSED
| START
| TARGET
| OBSTACLE
| SOLUTION
| NO_SOL_TARGET.

#[global] Instance NodeState_eq_dec : EqDecision NodeState.
Proof. solve_decision. Defined.

(** A reference to a Node object: the slot [(row, col)] of [nodes] that
    holds it.  The grid keeps every node it creates in the slot it was
    created for, so two references are the same object ([is]) exactly when
    they are the same slot. *)
Definition Ref : Type := Z * Z.

(** The attributes of a Node that the search reads or writes (the pygame
    rectangle, font and colours are left out). *)
Record Node : Type := mkNode {
  n_row : Z;
  n_col : Z;
  n_width : Z;
  n_height : Z;
  n_pos : Z * Z;
  n_prev : option Ref;
  n_state : NodeState;
  n_h_cost : option Z;
  n_g_cost : option Z
}.

(** [Node.__init__(col, row, width, height)] *)
Definition new_Node (col row width height : Z) : Node :=
  {| n_row := row; n_col := col; n_width := width; n_height := height;
     n_pos := (width * col, height * row);
     n_prev := None; n_state := UNDISCOVERED;
     n_h_cost := None; n_g_cost := None |}.

Definition with_state (n : Node) (s : NodeState) : Node :=
  {| n_row := n_row n; n_col := n_col n; n_width := n_width n;
     n_height := n_height n; n_pos := n_pos n; n_prev := n_prev n;
     n_state := s; n_h_cost := n_h_cost n; n_g_cost := n_g_cost n |}.

Definition toggle_obstacle (n : Node) : Node :=
  if decide (n_state n = UNDISCOVERED) then with_state n OBSTACLE
  else if decide (n_state n = OBSTACLE) then with_state n UNDISCOVERED
  else n.

Definition set_start (n : Node) : Node := with_state n START.

Definition set_target (n : Node) : Node := with_state n TARGET.

Definition set_no_sol_target (n : Node) : Node := with_state n NO_SOL_TARGET.

Definition make_undiscovered (n : Node) : Node := with_state n UNDISCOVERED.

Definition make_open (n : Node) : Node :=
  if decide (n_state n <> START /\ n_state n <> TARGET) then with_state n OPENED
  else n.

Definition close (n : Node) : Node :=
  if decide (n_state n <> START /\ n_state n <> TARGET) then with_state n CLOSED
  else n.

Definition is_obstacle (n : Node) : bool := bool_decide (n_state n = OBSTACLE).

Definition add_to_solution (n : Node) : Node := with_state n SOLUTION.

Definition set_h_cost (n : Node) (h_cost : Z) : Node :=
  {| n_row := n_row n; n_col := n_col n; n_width := n_width n;
     n_height := n_height n; n_pos := n_pos n; n_prev := n_prev n;
     n_state := n_state n; n_h_cost := Some h_cost; n_g_cost := n_g_cost n |}.

Definition with_g_cost (n : Node) (cost : Z) : Node :=
  {| n_row := n_row n; n_col := n_col n; n_width := n_width n;
     n_height := n_height n; n_pos := n_pos n; n_prev := n_prev n;
     n_state := n_state n; n_h_cost := n_h_cost n; n_g_cost := Some cost |}.

(** [relax_g_cost(cost)]: the node afterwards and the value returned. *)
Definition relax_g_cost (n : Node) (cost : Z) : Node * bool :=
  match n_g_cost n with
  | None => (with_g_cost n cost, true)
  | Some g => if cost <? g then (with_g_cost n cost, true) else (n, false)
  end.

Definition get_g_cost (n : Node) : option Z := n_g_cost n.

(** [get_f_cost()]: [h_cost + g_cost], a [TypeError] when one is [None]. *)
Definition get_f_cost (n : Node) : option Z :=
  match n_h_cost n, n_g_cost n with
  | Some h, Some g => Some (h + g)
  | _, _ => None
  end.

Definition set_prev (n : Node) (prev_node : Ref) : Node :=
  {| n_row := n_row n; n_col := n_col n; n_width := n_width n;
     n_height := n_height n; n_pos := n_pos n; n_prev := Some prev_node;
     n_state := n_state n; n_h_cost := n_h_cost n; n_g_cost := n_g_cost n |}.

Definition get_prev (n : Node) : option Ref := n_prev n.

Definition get_row (n : Node) : Z := n_row n.

Definition get_col (n : Node) : Z := n_col n.

Definition get_pos (n : Node) : Z * Z := n_pos n.

(** ** Grid.py: the grid *)

Definition VERT_HORZ_COST : Z := 10.
Definition DIAG_COST : Z := 14.
Definition DEFAULT_START_ROW : Z := 9.
Definition DEFAULT_START_COL : Z := 4.
Definition DEFAULT_TARGET_ROW : Z := 9.
Definition DEFAULT_TARGET_COL : Z := -5.

Record Grid : Type := mkGrid {
  g_columns : Z;
  g_rows : Z;
  g_width : Z;
  g_height : Z;
  g_nodes : list (list Node);
  g_start : option Ref;
  g_target : option Ref;
  g_solved : bool
}.

Definition with_nodes (g : Grid) (nodes : list (list Node)) : Grid :=
  {| g_columns := g_columns g; g_rows := g_rows g; g_width := g_width g;
     g_height := g_height g; g_nodes := nodes; g_start := g_start g;
     g_target := g_target g; g_solved := g_solved g |}.

Definition with_start (g : Grid) (p : option Ref) : Grid :=
  {| g_columns := g_columns g; g_rows := g_rows g; g_width := g_width g;
     g_height := g_height g; g_nodes := g_nodes g; g_start := p;
     g_target := g_target g; g_solved := g_solved g |}.

Definition with_target (g : Grid) (p : option Ref) : Grid :=
  {| g_columns := g_columns g; g_rows := g_rows g; g_width := g_width g;
     g_height := g_height g; g_nodes := g_nodes g; g_start := g_start g;
     g_target := p; g_solved := g_solved g |}.

Definition with_solved (g : Grid) (b : bool) : Grid :=
  {| g_columns := g_columns g; g_rows := g_rows g; g_width := g_width g;
     g_height := g_height g; g_nodes := g_nodes g; g_start := g_start g;
     g_target := g_target g; g_solved := b |}.

(** The node a reference denotes. *)
Definition node_at (g : Grid) (p : Ref) : option Node :=
  match zlookup (g_nodes g) (fst p) with
  | Some row => zlookup row (snd p)
  | None => None
  end.

Definition set_node (g : Grid) (p : Ref) (n : Node) : Grid :=
  with_nodes g (alter (fun row => zupdate row (snd p) n)
                      (Z.to_nat (fst p)) (g_nodes g)).

(** Reading an attribute through a reference.  Every reference the grid
    hands out denotes a node; for one that does not, the model gives the
    outcome of using [None] as a node. *)
Definition deref (p : Ref) : M Grid Node :=
  fun g =>
    match node_at g p with
    | Some n => Ok n g
    | None => Raise AttributeError g
    end.

(** Calling a method that mutates the node behind a reference. *)
Definition update_node (p : Ref) (f : Node -> Node) : M Grid unit :=
  fun g =>
    match node_at g p with
    | Some n => Ok tt (set_node g p (f n))
    | None => Raise AttributeError g
    end.

(** Using a possibly-[None] attribute as a node. *)
Definition the_node {S} (o : option Ref) : M S Ref :=
  match o with
  | Some p => ret p
  | None => raise AttributeError
  end.

(** [a // b] *)
Definition floordiv {S} (a b : Z) : M S Z :=
  if b =? 0 then raise ZeroDivisionError else ret (a / b).

(** [self.__nodes[i][j]]: the reference found there. *)
Definition nodes_getitem (g : Grid) (i j : Z) : option Ref :=
  match py_index (length (g_nodes g)) i with
  | Some r =>
      match g_nodes g !! r with
      | Some row =>
          match py_index (length row) j with
          | Some c => Some (Z.of_nat r, Z.of_nat c)
          | None => None
          end
      | None => None
      end
  | None => None
  end.

(** [range(n)] *)
Definition range (n : Z) : list Z := map Z.of_nat (seq 0 (Z.to_nat n)).

(** [create_grid()], as [__init__] calls it, while start and target are
    still [None].  Called on a grid whose start and target are set, the
    method leaves these two attributes on the nodes it discards; a reference
    by slot cannot tell such a node from the new node of its slot, so the
    model covers the call of the constructor only. *)
Definition create_grid : M Grid unit :=
  do g <- get;
  do width <- floordiv (g_width g) (g_columns g);
  do height <- floordiv (g_height g) (g_rows g);
  put (with_nodes (with_solved g false)
         (map (fun row_index =>
                 map (fun column_index =>
                        new_Node column_index row_index width height)
                     (range (g_columns g)))
              (range (g_rows g)))).

Definition set_start_node (node : option Ref) : M Grid unit :=
  do g <- get;
  do node <- match node with
             | Some p => ret p
             | None =>
                 match nodes_getitem g DEFAULT_START_ROW DEFAULT_START_COL with
                 | Some p => ret p
                 | None => raise IndexError
                 end
             end;
  if decide (g_target g <> Some node) then
    match g_start g with
    | Some old => update_node old make_undiscovered
    | None => ret tt
    end ;;
    update_node node set_start ;;
    modify (fun g => with_start g (Some node))
  else ret tt.

Definition set_target_node (node : option Ref) : M Grid unit :=
  do g <- get;
  do node <- match node with
             | Some p => ret p
             | None =>
                 match nodes_getitem g DEFAULT_TARGET_ROW DEFAULT_TARGET_COL with
                 | Some p => ret p
                 | None => raise IndexError
                 end
             end;
  if decide (g_start g <> Some node) then
    match g_target g with
    | Some old => update_node old make_undiscovered
    | None => ret tt
    end ;;
    update_node node set_target ;;
    modify (fun g => with_target g (Some node))
  else ret tt.

(** [get_node(pos)]: the node at the pixel [pos = (x, y)]. *)
Definition get_node (pos : Z * Z) : M Grid Ref :=
  do g <- get;
  let x := fst pos in
  let y := snd pos in
  do cell_width <- floordiv (g_width g) (g_columns g);
  do j <- floordiv x cell_width;
  do cell_height <- floordiv (g_height g) (g_rows g);
  do i <- floordiv y cell_height;
  match nodes_getitem g i j with
  | Some p => ret p
  | None => raise IndexError
  end.

(** [set_as_obstacle(mouse_pos, selected_nodes)] *)
Definition set_as_obstacle (mouse_pos : Z * Z) (selected_nodes : gset Ref)
  : M Grid Ref :=
  do node <- get_node mouse_pos;
  (if decide (node ∉ selected_nodes) then update_node node toggle_obstacle
   else ret tt) ;;
  ret node.

(** [Grid.__init__(surface, rect, columns, rows)] with a rectangle of the
    given width and height. *)
Definition new_Grid (width height columns rows : Z) : outcome Grid unit :=
  (create_grid ;;
   set_start_node None ;;
   set_target_node None ;;
   modify (fun g => with_solved g false))
    {| g_columns := columns; g_rows := rows; g_width := width;
       g_height := height; g_nodes := []; g_start := None; g_target := None;
       g_solved := false |}.


(** [calculate_all_h_costs()] *)
Definition calculate_all_h_costs : M Grid unit :=
  fun g =>
    if forallb (fun row => bool_decide (row = [])) (g_nodes g) then Ok tt g
    else
      match g_target g with
      | None => Raise AttributeError g
      | Some t =>
          match node_at g t with
          | None => Raise AttributeError g
          | Some target =>
              Ok tt
                 (with_nodes g
                    (map (map (fun node =>
                       let vdist := Z.abs (get_row node - get_row target) in
                       let hdist := Z.abs (get_col node - get_col target) in
                       let diag := Z.min vdist hdist in
                       let updown := Z.max vdist hdist - Z.min vdist hdist in
                       let dist := diag * DIAG_COST + updown * VERT_HORZ_COST in
                       set_h_cost node dist))
                       (g_nodes g)))
          end
      end.

(** The loop of [get_vert_horz_neighbours] and of [get_diag_neighbors]
    over the offsets [(i, j)]; an [IndexError] of [nodes[row+i][col+j]] is
    passed over. *)
Fixpoint adjacent_nodes (g : Grid) (row col : Z) (offsets : list (Z * Z))
  : list Ref :=
  match offsets with
  | [] => []
  | (i, j) :: rest =>
      let others := adjacent_nodes g row col rest in
      if (0 <=? row + i) && (0 <=? col + j) then
        match nodes_getitem g (row + i) (col + j) with
        | Some adj =>
            match node_at g adj with
            | Some n => if is_obstacle n then others else adj :: others
            | None => others
            end
        | None => others
        end
      else others
  end.

Definition neighbours (offsets : list (Z * Z)) (node : Ref) : M Grid (list Ref) :=
  do n <- deref node;
  do g <- get;
  let x := fst (get_pos n) in
  let y := snd (get_pos n) in
  do cell_width <- floordiv (g_width g) (g_columns g);
  do col <- floordiv x cell_width;
  do cell_height <- floordiv (g_height g) (g_rows g);
  do row <- floordiv y cell_height;
  ret (adjacent_nodes g row col offsets).

Definition get_vert_horz_neighbours : Ref -> M Grid (list Ref) :=
  neighbours [(-1, 0); (1, 0); (0, -1); (0, 1)].

Definition get_diag_neighbors : Ref -> M Grid (list Ref) :=
  neighbours [(-1, -1); (1, -1); (-1, 1); (1, 1)].

(** The loop of [print_path]. *)
Fixpoint print_path_loop (fuel : nat) (current : option Ref) : M Grid unit :=
  match fuel with
  | O => out_of_fuel
  | S fuel' =>
      do g <- get;
      if decide (current <> g_start g) then
        do c <- the_node current;
        update_node c add_to_solution ;;
        do n <- deref c;
        print_path_loop fuel' (get_prev n)
      else ret tt
  end.

Definition print_path (fuel : nat) : M Grid unit :=
  do g <- get;
  if g_solved g then
    do t <- the_node (g_target g);
    do target <- deref t;
    print_path_loop fuel (get_prev target)
  else ret tt.

Definition print_no_solution : M Grid unit :=
  do g <- get;
  do t <- the_node (g_target g);
  update_node t set_no_sol_target.

(** ** Grid.py: the A* search *)

(** The state of a run of [find_path]: the grid, and the two locals
    [opened] and [closed]. *)
Record Search : Type := mkSearch {
  s_grid : Grid;
  s_opened : MinPriorityQueue Ref;
  s_closed : gset Ref
}.

(** A method of the grid, called during the search. *)
Definition on_grid {A} (m : M Grid A) : M Search A :=
  fun s =>
    match m (s_grid s) with
    | Ok a g => Ok a (mkSearch g (s_opened s) (s_closed s))
    | Raise e g => Raise e (mkSearch g (s_opened s) (s_closed s))
    | OutOfFuel => OutOfFuel
    end.

(** A method of the queue [opened]. *)
Definition on_opened {A} (m : M (MinPriorityQueue Ref) A) : M Search A :=
  fun s =>
    match m (s_opened s) with
    | Ok a q => Ok a (mkSearch (s_grid s) q (s_closed s))
    | Raise e q => Raise e (mkSearch (s_grid s) q (s_closed s))
    | OutOfFuel => OutOfFuel
    end.

(** [closed.add(p)] *)
Definition closed_add (p : Ref) : M Search unit :=
  modify (fun s => mkSearch (s_grid s) (s_opened s) ({[p]} ∪ s_closed s)).

(** [node.get_f_cost()] through a reference. *)
Definition f_cost_of (node : Ref) : M Grid Z :=
  do n <- deref node;
  match get_f_cost n with
  | Some f => ret f
  | None => raise TypeError
  end.

(** The body of the two [for node in ...] loops of [find_path] and of
    [find_path_nonvisual], for a neighbour [node] of [current] reached at
    [move_cost].  [find_path] also marks a node it inserts as open. *)
Definition relax_neighbour (visual : bool) (current : Ref) (move_cost : Z)
    (node : Ref) : M Search unit :=
  do cur <- on_grid (deref current);
  do g <- match get_g_cost cur with
          | Some g => ret g
          | None => raise TypeError
          end;
  do n <- on_grid (deref node);
  let '(n', relaxed) := relax_g_cost n (g + move_cost) in
  on_grid (update_node node (fun _ => n')) ;;
  if relaxed then
    on_grid (update_node node (fun n => set_prev n current)) ;;
    do known <- on_opened (element_exists node);
    if known then
      do f <- on_grid (f_cost_of node);
      on_opened (decrease_key node f)
    else
      do f <- on_grid (f_cost_of node);
      on_opened (insert f node) ;;
      if visual then on_grid (update_node node make_open) else ret tt
  else ret tt.

(** The [while not path_found] loop.  With [visual] it is the loop of
    [find_path], whose calls into pygame (the delay, the event queue, the
    redraw) leave the grid as it is; without, that of
    [find_path_nonvisual]. *)
Fixpoint find_path_loop (visual : bool) (fuel : nat) : M Search unit :=
  match fuel with
  | O => out_of_fuel
  | S fuel' =>
      do current <- on_opened extract_min;
      do s <- get;
      if decide (Some current = g_target (s_grid s)) then
        on_grid (modify (fun g => with_solved g true)) ;;
        closed_add current ;;
        (if visual then on_grid (update_node current close) else ret tt)
      else
        do vh_neighbours <- on_grid (get_vert_horz_neighbours current);
        do d_neighbours <- on_grid (get_diag_neighbors current);
        for_each vh_neighbours (relax_neighbour visual current VERT_HORZ_COST) ;;
        for_each d_neighbours (relax_neighbour visual current DIAG_COST) ;;
        closed_add current ;;
        (if visual then on_grid (update_node current close) else ret tt) ;;
        find_path_loop visual fuel'
  end.

(** The statements before the loop, and the loop. *)
Definition find_path_run (visual : bool) (fuel : nat) : M Search unit :=
  on_grid calculate_all_h_costs ;;
  do s <- get;
  do start <- the_node (g_start (s_grid s));
  do n <- on_grid (deref start);
  on_grid (update_node start (fun _ => fst (relax_g_cost n 0))) ;;
  do f <- on_grid (f_cost_of start);
  on_opened (insert f start) ;;
  find_path_loop visual fuel.

(** A run from the two fresh locals; the grid is what remains of it. *)
Definition run_search {A} (m : M Search A) : M Grid A :=
  fun g =>
    match m (mkSearch g empty_queue ∅) with
    | Ok a s => Ok a (s_grid s)
    | Raise e s => Raise e (s_grid s)
    | OutOfFuel => OutOfFuel
    end.

Definition find_path (fuel : nat) : M Grid unit :=
  run_search (find_path_run true fuel).

Definition find_path_nonvisual (fuel : nat) : M Grid unit :=
  run_search (find_path_run false fuel).

(** [solve(show_steps)]; [fuel] bounds the loops it runs. *)
Definition solve (fuel : nat) (show_steps : bool) : M Grid unit :=
  fun g =>
    match g_start g, g_target g with
    | Some _, Some _ =>
        match (if show_steps then find_path fuel else find_path_nonvisual fuel) g with
        | Raise IndexError g' => print_no_solution g'
        | Ok _ g' => print_path fuel g'
        | r => r
        end
    | _, _ => Raise AttributeError g
    end.

(** ** Program.py: the mouse on the grid *)

(** The selection modes [OBS_MODE], [START_MODE] and [TARGET_MODE]. *)
Inductive SelectionMode : Type := OBS_MODE | START_MODE | TARGET_MODE.

(** The attributes of [Program] that the handling of the mouse on the grid
    reads and writes. *)
Record Program : Type := mkProgram {
  p_grid : Grid;
  p_current_selection : gset Ref;
  p_selection_mode : SelectionMode
}.

(** A method of the grid, called by the program. *)
Definition on_program_grid {A} (m : M Grid A) : M Program A :=
  fun p =>
    match m (p_grid p) with
    | Ok a g => Ok a (mkProgram g (p_current_selection p) (p_selection_mode p))
    | Raise e g => Raise e (mkProgram g (p_current_selection p) (p_selection_mode p))
    | OutOfFuel => OutOfFuel
    end.

(** [handle_grid_mouse_down(pos)] *)
Definition handle_grid_mouse_down (pos : Z * Z) : M Program unit :=
  do p <- get;
  match p_selection_mode p with
  | OBS_MODE =>
      do new_selection <-
        on_program_grid (set_as_obstacle pos (p_current_selection p));
      modify (fun p => mkProgram (p_grid p)
                         ({[new_selection]} ∪ p_current_selection p)
                         (p_selection_mode p))
  | START_MODE =>
      do snode <- on_program_grid (get_node pos);
      on_program_grid (set_start_node (Some snode))
  | TARGET_MODE =>
      do tnode <- on_program_grid (get_node pos);
      on_program_grid (set_target_node (Some tnode))
  end.

(** The [MOUSEBUTTONUP] branch of [handle_event]. *)
Definition handle_mouse_up : M Program unit :=
  modify (fun p => mkProgram (p_grid p) ∅ (p_selection_mode p)).

(** ** Sequences of queue operations *)

Inductive op (Id : Type) : Type :=
| Insert (new_key : Z) (new_element : Id)
| ExtractMin
| DecreaseKey (element : Id) (new_key : Z).

Arguments Insert {Id} new_key new_element.
Arguments ExtractMin {Id}.
Arguments DecreaseKey {Id} element new_key.

Section Operations.
Context `{Countable Id}.

Implicit Types (q : MinPriorityQueue Id) (e : Id) (k : Z).

Definition run_op (o : op Id) : M (MinPriorityQueue Id) unit :=
  match o with
  | Insert k e => insert k e
  | ExtractMin => extract_min ;; ret tt
  | DecreaseKey e k => decrease_key e k
  end.

(** What each method asks of its caller: [insert] a new identity,
    [extract_min] a queue that is not empty, [decrease_key] an identity of
    the queue and a key that is not above its key. *)
Definition precondition (o : op Id) q : bool :=
  match o with
  | Insert k e => bool_decide (e ∉ (q_elements q).*2)
  | ExtractMin => bool_decide (q_elements q <> [])
  | DecreaseKey e k =>
      bool_decide (Exists (fun x => snd x = e /\ k <= fst x) (q_elements q))
  end.

(** Every operation of the sequence is called in a state that meets its
    precondition. *)
Fixpoint respects (ops : list (op Id)) q : bool :=
  match ops with
  | [] => true
  | o :: ops' =>
      precondition o q &&
      match run_op o q with
      | Ok _ q' => respects ops' q'
      | _ => false
      end
  end.

(** A caller that empties the queue: it calls [extract_min] until the
    call raises [IndexError], and collects what the calls return. *)
Fixpoint drain (fuel : nat) : M (MinPriorityQueue Id) (list Id) :=
  match fuel with
  | O => out_of_fuel
  | S fuel' =>
      fun q =>
        match extract_min q with
        | Ok e q' => (do rest <- drain fuel'; ret (e :: rest)) q'
        | Raise IndexError q' => Ok [] q'
        | Raise e q' => Raise e q'
        | OutOfFuel => OutOfFuel
        end
  end.

Lemma wf_elem_contents q k e :
  wf q -> (k, e) ∈ q_elements q <-> contents q !! e = Some k.
Proof. intros Hwf. by rewrite contents_lookup. Qed.

Lemma wf_absent q e :
  wf q -> e ∉ (q_elements q).*2 <-> contents q !! e = None.
Proof.
  intros Hwf. rewrite eq_None_not_Some. split.
  - intros Hn [k Hk]. apply Hn. apply contents_lookup in Hk; [|done].
    apply list_elem_of_fmap. by exists (k, e).
  - intros Hn [[k e'] [-> Hx]]%list_elem_of_fmap. apply Hn. exists k.
    by apply contents_lookup.
Qed.

Lemma run_op_preserves (o : op Id) q :
  wf q -> heap_order (q_elements q) -> precondition o q = true ->
  exists q', run_op o q = Ok tt q' /\ wf q' /\ heap_order (q_elements q').
Proof.
  intros Hwf Hheap Hpre. destruct o as [k e| |e k]; simpl in *.
  - apply bool_decide_eq_true in Hpre. apply wf_absent in Hpre; [|done].
    destruct (insert_spec q k e Hwf Hheap Hpre) as (q' & ? & ? & ? & ? & ?).
    eauto.
  - apply bool_decide_eq_true in Hpre.
    assert (0 < q_size q) as Hpos.
    { destruct Hwf as [-> _]. destruct (q_elements q); [done|simpl; lia]. }
    destruct (extract_min_spec q Hwf Hheap Hpos)
      as (e & k & q' & Hrun & _ & _ & _ & ? & _ & ? & _).
    exists q'. unfold bind. rewrite Hrun. eauto.
  - apply bool_decide_eq_true in Hpre.
    apply Exists_exists in Hpre as ([k0 e'] & Hin & He & Hle). simpl in *.
    subst e'. apply wf_elem_contents in Hin; [|done].
    destruct (decrease_key_spec q e k k0 Hwf Hheap Hin Hle)
      as (q' & ? & ? & ? & ? & ?).
    eauto.
Qed.

Lemma run_ops_preserve (ops : list (op Id)) :
  forall q,
    wf q -> heap_order (q_elements q) -> respects ops q = true ->
    exists q',
      for_each ops run_op q = Ok tt q' /\ wf q' /\ heap_order (q_elements q').
Proof.
  induction ops as [|o ops IH]; intros q Hwf Hheap Hres.
  - exists q. eauto.
  - cbn [respects] in Hres. apply andb_true_iff in Hres as [Hpre Hres].
    destruct (run_op_preserves o q Hwf Hheap Hpre) as (q1 & Hrun & Hwf1 & Hheap1).
    rewrite Hrun in Hres.
    destruct (IH q1 Hwf1 Hheap1 Hres) as (q' & Hrun' & ? & ?).
    exists q'. cbn [for_each]. unfold bind. rewrite Hrun. eauto.
Qed.

Lemma drain_unfold (fuel : nat) q :
  drain (S fuel) q =
    match extract_min q with
    | Ok e q' => (do rest <- drain fuel; ret (e :: rest)) q'
    | Raise IndexError q' => Ok [] q'
    | Raise e q' => Raise e q'
    | OutOfFuel => OutOfFuel
    end.
Proof. done. Qed.

(** Emptying a well-formed heap returns its entries by ascending key. *)
Lemma drain_spec (n : nat) :
  forall q fuel,
    wf q -> heap_order (q_elements q) -> length (q_elements q) = n ->
    (n < fuel)%nat ->
    exists (es : list (Z * Id)) q',
      drain fuel q = Ok es.*2 q' /\
      es ≡ₚ q_elements q /\
      Sorted Z.le es.*1 /\
      wf q' /\ q_size q' = 0.
Proof.
  induction n as [|n IH]; intros q fuel Hwf Hheap Hlen Hfuel;
    (destruct fuel as [|fuel]; [lia|]).
  - pose proof Hwf as [Hs _]. exists [], q.
    rewrite drain_unfold, extract_min_empty by lia.
    assert (q_elements q = []) as Hnil by by apply length_zero_iff_nil.
    rewrite Hnil. split_and!; try done; try lia.
  - pose proof Hwf as [Hs _].
    destruct (extract_min_spec q Hwf Hheap ltac:(lia))
      as (e & k & q1 & Hrun & H0 & Hce & Hmin & Hwf1 & Hsz1 & Hheap1 & Hc1).
    destruct (IH q1 fuel Hwf1 Hheap1) as (es & q' & Hdrain & Hperm & Hsorted & Hwf' & Hsz').
    { destruct Hwf1 as [Hs1 _]. lia. }
    { lia. }
    assert (q_elements q ≡ₚ (k, e) :: q_elements q1) as Hsplit.
    { apply NoDup_Permutation.
      - destruct Hwf as [_ Hm]. apply NoDup_alt. intros i j x Hi Hj.
        destruct x as [kx ex].
        assert (Z.of_nat i = Z.of_nat j); [|lia].
        eapply (mapping_ok_inj _ _ _ _ kx kx ex Hm); unfold zlookup.
        + destruct (Z.leb_spec 0 (Z.of_nat i)); [|lia]. by rewrite Nat2Z.id.
        + destruct (Z.leb_spec 0 (Z.of_nat j)); [|lia]. by rewrite Nat2Z.id.
      - apply NoDup_cons. split.
        + intros Hin. apply wf_elem_contents in Hin; [|done].
          rewrite Hc1, lookup_delete_eq in Hin. done.
        + destruct Hwf1 as [_ Hm]. apply NoDup_alt. intros i j x Hi Hj.
          destruct x as [kx ex].
          assert (Z.of_nat i = Z.of_nat j); [|lia].
          eapply (mapping_ok_inj _ _ _ _ kx kx ex Hm); unfold zlookup.
          * destruct (Z.leb_spec 0 (Z.of_nat i)); [|lia]. by rewrite Nat2Z.id.
          * destruct (Z.leb_spec 0 (Z.of_nat j)); [|lia]. by rewrite Nat2Z.id.
      - intros [kx ex]. rewrite elem_of_cons.
        rewrite !wf_elem_contents by done. rewrite Hc1.
        destruct (decide (ex = e)) as [->|Hne].
        + rewrite lookup_delete_eq. split.
          * intros Hx. left. congruence.
          * intros [[= -> ]|?]; done.
        + rewrite lookup_delete_ne by done. split; [by right|].
          intros [[= _ ->]|?]; done. }
    exists ((k, e) :: es), q'. split_and!; try done.
    + rewrite drain_unfold, Hrun. unfold bind. rewrite Hdrain. done.
    + rewrite Hsplit. by constructor.
    + rewrite fmap_cons. constructor; [done|].
      destruct es as [|[k1 e1] es']; constructor. simpl.
      apply (Hmin e1). rewrite <- wf_elem_contents by done.
      rewrite Hsplit. right. rewrite <- Hperm. left.
Qed.

End Operations.

(** * The claims about the queue *)

(** A queue built from three pairs, and a sequence of operations on it. *)
Definition example_args : list (Z * nat) := [(5, 0%nat); (3, 1%nat); (8, 2%nat)].

Definition example_queue : MinPriorityQueue nat :=
  match init example_args with
  | Ok _ q => q
  | _ => empty_queue
  end.

Definition example_ops : list (op nat) :=
  [Insert 1 7%nat; ExtractMin; DecreaseKey 2%nat 4; Insert 6 9%nat; ExtractMin].

(** C3. After any sequence of [insert], [extract_min] and [decrease_key]
    calls, each made in a state that meets its precondition, on a queue
    constructed from a batch of pairs with distinct identities, every call
    returns normally and the array is in min-heap order: the key at
    [parent i] is at most the key at [i] for every index [i > 0]. *)
Theorem heap_order_after_operations `{Countable Id}
    (args : list (Z * Id)) (ops : list (op Id)) (q0 : MinPriorityQueue Id) :
  NoDup args.*2 ->
  init args = Ok tt q0 ->
  respects ops q0 = true ->
  exists q',
    for_each ops run_op q0 = Ok tt q' /\
    forall i a b,
      0 < i ->
      zlookup (q_elements q') i = Some a ->
      zlookup (q_elements q') (parent i) = Some b ->
      fst b <= fst a.
Proof.
  intros Hnd Hinit Hres.
  destruct (init_spec args Hnd) as (q & Hq & Hwf & _ & _ & Hheap).
  assert (q = q0) as -> by congruence.
  destruct (run_ops_preserve ops q0 Hwf Hheap Hres) as (q' & Hrun & _ & Hheap').
  exists q'. split; [done|]. intros i a b Hi Ha Hb. by apply (Hheap' i Hi).
Qed.

Lemma heap_order_after_operations_witness :
  exists q',
    for_each example_ops run_op example_queue = Ok tt q' /\
    forall i a b,
      0 < i ->
      zlookup (q_elements q') i = Some a ->
      zlookup (q_elements q') (parent i) = Some b ->
      fst b <= fst a.
Proof.
  apply (heap_order_after_operations example_args example_ops example_queue).
  - apply (bool_decide_unpack _). vm_compute. exact I.
  - vm_compute. reflexivity.
  - vm_compute. reflexivity.
Defined.

(** C4. After any such sequence the mapping agrees with the array: an
    identity stored in the array is mapped to a position that holds it,
    [get_key] returns the key stored there and [element_exists] is true;
    an identity that is not stored is not in the mapping and
    [element_exists] is false, also for the identity [extract_min] has
    just returned. *)
Theorem mapping_consistent_after_operations `{Countable Id}
    (args : list (Z * Id)) (ops : list (op Id)) (q0 : MinPriorityQueue Id) :
  NoDup args.*2 ->
  init args = Ok tt q0 ->
  respects ops q0 = true ->
  exists q',
    for_each ops run_op q0 = Ok tt q' /\
    (forall k e, (k, e) ∈ q_elements q' ->
       exists i, q_mapping q' !! e = Some i /\
                 getitem (q_elements q') i = Some (k, e) /\
                 get_key e q' = Ok k q' /\
                 element_exists e q' = Ok true q') /\
    (forall e, (e ∉ (q_elements q').*2) ->
       q_mapping q' !! e = None /\ element_exists e q' = Ok false q') /\
    (forall e q'', extract_min q' = Ok e q'' ->
       (e ∉ (q_elements q'').*2) /\
       q_mapping q'' !! e = None /\ element_exists e q'' = Ok false q'').
Proof.
  intros Hnd Hinit Hres.
  destruct (init_spec args Hnd) as (q & Hq & Hwf & _ & _ & Hheap).
  assert (q = q0) as -> by congruence.
  destruct (run_ops_preserve ops q0 Hwf Hheap Hres) as (q' & Hrun & Hwf' & Hheap').
  assert (forall (q1 : MinPriorityQueue Id) e, wf q1 -> e ∉ (q_elements q1).*2 ->
            q_mapping q1 !! e = None /\ element_exists e q1 = Ok false q1) as Habsent.
  { intros q1 e Hwf1 Hn. apply wf_absent in Hn; [|done]. split.
    - by apply contents_None.
    - rewrite element_exists_spec by done. rewrite Hn.
      rewrite bool_decide_eq_false_2; [done|]. by intros [? ?]. }
  exists q'. split_and!; try done.
  - intros k e Hin. apply wf_elem_contents in Hin; [|done].
    pose proof Hin as (i & Hm & Hi)%contents_Some; [|done].
    exists i. split_and!; try done.
    + by apply getitem_Some.
    + rewrite get_key_spec by done. by rewrite Hin.
    + rewrite element_exists_spec by done. rewrite Hin.
      rewrite bool_decide_eq_true_2; eauto.
  - intros e Hn. by apply Habsent.
  - intros e q'' Hext.
    destruct (decide (q_size q' = 0)) as [Hz|Hnz].
    { rewrite extract_min_empty in Hext by done. discriminate. }
    pose proof Hwf' as [Hs _].
    destruct (extract_min_spec q' Hwf' Hheap' ltac:(lia))
      as (e1 & k1 & q1 & Hrun1 & _ & _ & _ & Hwf1 & _ & _ & Hc1).
    rewrite Hrun1 in Hext. injection Hext as <- <-.
    assert (e1 ∉ (q_elements q1).*2) as Hn.
    { apply wf_absent; [done|]. rewrite Hc1. apply lookup_delete_eq. }
    split; [done|]. by apply Habsent.
Qed.

Lemma mapping_consistent_after_operations_witness :
  exists q',
    for_each example_ops run_op example_queue = Ok tt q' /\
    (forall k e, (k, e) ∈ q_elements q' ->
       exists i, q_mapping q' !! e = Some i /\
                 getitem (q_elements q') i = Some (k, e) /\
                 get_key e q' = Ok k q' /\
                 element_exists e q' = Ok true q') /\
    (forall e, (e ∉ (q_elements q').*2) ->
       q_mapping q' !! e = None /\ element_exists e q' = Ok false q') /\
    (forall e q'', extract_min q' = Ok e q'' ->
       (e ∉ (q_elements q'').*2) /\
       q_mapping q'' !! e = None /\ element_exists e q'' = Ok false q'').
Proof.
  apply (mapping_consistent_after_operations example_args example_ops example_queue).
  - apply (bool_decide_unpack _). vm_compute. exact I.
  - vm_compute. reflexivity.
  - vm_compute. reflexivity.
Defined.

Lemma example_queue_invariant :
  init example_args = Ok tt example_queue /\
  wf example_queue /\ heap_order (q_elements example_queue).
Proof.
  destruct (init_spec example_args) as (q & Hq & Hwf & _ & _ & Hheap).
  { apply (bool_decide_unpack _). vm_compute. exact I. }
  unfold example_queue. rewrite Hq. done.
Qed.

(** C5. On a queue in its invariant, [decrease_key e k] raises [KeyError]
    when [e] is not stored, and [ValueError] when [k] is above the key of [e];
    either way the queue is left as it was.  When [k] is at most the key of
    [e] it returns normally, [k] is then the key of [e], the keys of the
    other identities and the size are as before, and the array is in heap
    order again. *)
Theorem decrease_key_contract `{Countable Id}
    (q : MinPriorityQueue Id) (e : Id) (k : Z) :
  wf q -> heap_order (q_elements q) ->
  ((e ∉ (q_elements q).*2) -> decrease_key e k q = Raise KeyError q) /\
  (forall k0, (k0, e) ∈ q_elements q -> k0 < k ->
     decrease_key e k q = Raise ValueError q) /\
  (forall k0, (k0, e) ∈ q_elements q -> k <= k0 ->
     exists q',
       decrease_key e k q = Ok tt q' /\
       get_key e q' = Ok k q' /\
       (forall e', e' <> e -> get_key e' q' =
                              match get_key e' q with
                              | Ok k' _ => Ok k' q'
                              | Raise x _ => Raise x q'
                              | OutOfFuel => OutOfFuel
                              end) /\
       q_size q' = q_size q /\
       wf q' /\ heap_order (q_elements q')).
Proof.
  intros Hwf Hheap. split_and!.
  - intros Hn. apply decrease_key_unknown.
    apply contents_None; [done|]. by apply wf_absent.
  - intros k0 Hin Hlt. apply wf_elem_contents in Hin; [|done].
    apply contents_Some in Hin as (i & Hm & Hi); [|done].
    by eapply decrease_key_greater.
  - intros k0 Hin Hle. apply wf_elem_contents in Hin; [|done].
    destruct (decrease_key_spec q e k k0 Hwf Hheap Hin Hle)
      as (q' & Hrun & Hwf' & Hsz & Hheap' & Hc).
    exists q'. split_and!; try done.
    + rewrite get_key_spec by done. by rewrite Hc, lookup_insert_eq.
    + intros e' Hne. rewrite !get_key_spec by done.
      rewrite Hc, lookup_insert_ne by done.
      by destruct (contents q !! e').
Qed.

Lemma decrease_key_contract_witness :
  ((2%nat ∉ (q_elements example_queue).*2) ->
     decrease_key 2%nat 4 example_queue = Raise KeyError example_queue) /\
  (forall k0, (k0, 2%nat) ∈ q_elements example_queue -> k0 < 4 ->
     decrease_key 2%nat 4 example_queue = Raise ValueError example_queue) /\
  (forall k0, (k0, 2%nat) ∈ q_elements example_queue -> 4 <= k0 ->
     exists q',
       decrease_key 2%nat 4 example_queue = Ok tt q' /\
       get_key 2%nat q' = Ok 4 q' /\
       (forall e', e' <> 2%nat ->
                   get_key e' q' =
                     match get_key e' example_queue with
                     | Ok k' _ => Ok k' q'
                     | Raise x _ => Raise x q'
                     | OutOfFuel => OutOfFuel
                     end) /\
       q_size q' = q_size example_queue /\
       wf q' /\ heap_order (q_elements q')).
Proof.
  apply (decrease_key_contract example_queue 2%nat 4);
    apply example_queue_invariant.
Defined.

(** C6. Constructing a queue from any batch of pairs with distinct
    identities, in any order, returns normally with the pairs of the batch
    in min-heap order.  Calling [extract_min] on it until the call raises
    returns the identities of the batch by ascending key, after which
    [extract_min] raises [IndexError] on the empty queue.  The batch with
    keys 5, 3, 8, 1, 9, 2 comes out in the key order 1, 2, 3, 5, 8, 9. *)
Theorem construction_and_drain `{Countable Id} (args : list (Z * Id)) :
  NoDup args.*2 ->
  exists q0,
    init args = Ok tt q0 /\
    q_elements q0 ≡ₚ args /\
    heap_order (q_elements q0) /\
    forall fuel, (length args < fuel)%nat ->
    exists (es : list (Z * Id)) q',
      drain fuel q0 = Ok es.*2 q' /\
      es ≡ₚ args /\
      Sorted Z.le es.*1 /\
      extract_min q' = Raise IndexError q' /\
      (forall a b c d e f,
         args = [(5, a); (3, b); (8, c); (1, d); (9, e); (2, f)] ->
         es = [(1, d); (2, f); (3, b); (5, a); (8, c); (9, e)]).
Proof.
  intros Hnd.
  destruct (init_spec args Hnd) as (q0 & Hq & Hwf & Hsz & Hperm & Hheap).
  exists q0. split_and!; try done. intros fuel Hfuel.
  destruct (drain_spec (length (q_elements q0)) q0 fuel)
    as (es & q' & Hdrain & Hes & Hsorted & Hwf' & Hsz'); try done.
  { by rewrite Hperm. }
  exists es, q'. split_and!; try done.
  - by rewrite Hes.
  - by apply extract_min_empty.
  - intros a b c d e f ->. rewrite Hperm in Hes.
    assert (es.*1 = [1; 2; 3; 5; 8; 9]) as Hkeys.
    { apply (Sorted_unique Z.le); [done| |].
      - repeat constructor; lia.
      - transitivity ([(5, a); (3, b); (8, c); (1, d); (9, e); (2, f)].*1).
        + by apply fmap_Permutation.
        + change ([5; 3; 8; 1; 9; 2] ≡ₚ [1; 2; 3; 5; 8; 9]).
          apply (bool_decide_unpack _). vm_compute. exact I. }
    assert (forall x, x ∈ es ->
              x ∈ [(5, a); (3, b); (8, c); (1, d); (9, e); (2, f)]) as Hin.
    { intros x Hx. by rewrite <- Hes. }
    clear - Hkeys Hin.
    destruct es as [|x1 [|x2 [|x3 [|x4 [|x5 [|x6 [|? ?]]]]]]];
      try discriminate Hkeys.
    injection Hkeys as K1 K2 K3 K4 K5 K6.
    pose proof (Hin x1 ltac:(repeat constructor)) as H1.
    pose proof (Hin x2 ltac:(repeat constructor)) as H2.
    pose proof (Hin x3 ltac:(repeat constructor)) as H3.
    pose proof (Hin x4 ltac:(repeat constructor)) as H4.
    pose proof (Hin x5 ltac:(repeat constructor)) as H5.
    pose proof (Hin x6 ltac:(repeat constructor)) as H6.
    clear Hin.
    repeat (apply elem_of_cons in H1 as [->|H1]; [simpl in K1; try discriminate|]);
      [|by apply elem_of_nil in H1].
    repeat (apply elem_of_cons in H2 as [->|H2]; [simpl in K2; try discriminate|]);
      [|by apply elem_of_nil in H2].
    repeat (apply elem_of_cons in H3 as [->|H3]; [simpl in K3; try discriminate|]);
      [|by apply elem_of_nil in H3].
    repeat (apply elem_of_cons in H4 as [->|H4]; [simpl in K4; try discriminate|]);
      [|by apply elem_of_nil in H4].
    repeat (apply elem_of_cons in H5 as [->|H5]; [simpl in K5; try discriminate|]);
      [|by apply elem_of_nil in H5].
    repeat (apply elem_of_cons in H6 as [->|H6]; [simpl in K6; try discriminate|]);
      [|by apply elem_of_nil in H6].
    reflexivity.
Qed.

Lemma construction_and_drain_witness :
  exists q0,
    init example_args = Ok tt q0 /\
    q_elements q0 ≡ₚ example_args /\
    heap_order (q_elements q0) /\
    forall fuel, (length example_args < fuel)%nat ->
    exists (es : list (Z * nat)) q',
      drain fuel q0 = Ok es.*2 q' /\
      es ≡ₚ example_args /\
      Sorted Z.le es.*1 /\
      extract_min q' = Raise IndexError q' /\
      (forall a b c d e f,
         example_args = [(5, a); (3, b); (8, c); (1, d); (9, e); (2, f)] ->
         es = [(1, d); (2, f); (3, b); (5, a); (8, c); (9, e)]).
Proof.
  apply (construction_and_drain example_args).
  apply (bool_decide_unpack _). vm_compute. exact I.
Defined.

(** * The grid *)

(** ** Well-formed grids *)

Definition cell_width (g : Grid) : Z := g_width g / g_columns g.

Definition cell_height (g : Grid) : Z := g_height g / g_rows g.

(** The grids that [create_grid] builds for a rectangle at least as wide
    as there are columns and as high as there are rows: [rows] lists of
    [columns] nodes, each node knowing its slot and its pixel position. *)
Record grid_wf (g : Grid) : Prop := mk_grid_wf {
  wf_columns : 0 < g_columns g;
  wf_rows : 0 < g_rows g;
  wf_cell_width : cell_width g <> 0;
  wf_cell_height : cell_height g <> 0;
  wf_nrows : Z.of_nat (length (g_nodes g)) = g_rows g;
  wf_ncols : forall row, row ∈ g_nodes g -> Z.of_nat (length row) = g_columns g;
  wf_node : forall r c n,
    node_at g (r, c) = Some n ->
    n_row n = r /\ n_col n = c /\
    n_pos n = (cell_width g * c, cell_height g * r)
}.

(** The reference denotes a node of the grid. *)
Definition valid (g : Grid) (p : Ref) : Prop := is_Some (node_at g p).

(** The reference denotes a node that is not an obstacle. *)
Definition walkable (g : Grid) (p : Ref) : Prop :=
  exists n, node_at g p = Some n /\ n_state n <> OBSTACLE.

Definition orth_adjacent (p q : Ref) : Prop :=
  Z.abs (fst p - fst q) + Z.abs (snd p - snd q) = 1.

Definition diag_adjacent (p q : Ref) : Prop :=
  Z.abs (fst p - fst q) = 1 /\ Z.abs (snd p - snd q) = 1.

Lemma node_at_range g r c n :
  grid_wf g -> node_at g (r, c) = Some n ->
  0 <= r < g_rows g /\ 0 <= c < g_columns g.
Proof.
  intros Hwf Hn. unfold node_at in Hn. simpl in Hn.
  destruct (zlookup (g_nodes g) r) as [row|] eqn:Hrow; [|done].
  pose proof (zlookup_Some_range _ _ _ Hrow) as Rr.
  pose proof (zlookup_Some_range _ _ _ Hn) as Rc.
  rewrite (wf_nrows g Hwf) in Rr.
  rewrite (wf_ncols g Hwf row) in Rc by (by eapply zlookup_elem_of).
  lia.
Qed.

Lemma valid_range g r c :
  grid_wf g -> valid g (r, c) <-> 0 <= r < g_rows g /\ 0 <= c < g_columns g.
Proof.
  intros Hwf. split.
  - intros [n Hn]. by eapply node_at_range.
  - intros [Hr Hc]. unfold valid, node_at. simpl.
    destruct (zlookup_is_Some (g_nodes g) r) as [row Hrow].
    { rewrite (wf_nrows g Hwf). lia. }
    rewrite Hrow. apply zlookup_is_Some.
    rewrite (wf_ncols g Hwf row) by (by eapply zlookup_elem_of). lia.
Qed.

Lemma nodes_getitem_nonneg g i j :
  0 <= i -> 0 <= j ->
  nodes_getitem g i j =
    match node_at g (i, j) with
    | Some _ => Some (i, j)
    | None => None
    end.
Proof.
  intros Hi Hj. unfold nodes_getitem, node_at, py_index, zlookup. simpl.
  destruct (Z.leb_spec 0 i); [|lia]. destruct (Z.leb_spec 0 j); [|lia].
  destruct (Z.ltb_spec i (Z.of_nat (length (g_nodes g)))) as [Hlt|Hge].
  - destruct (g_nodes g !! Z.to_nat i) as [row|] eqn:Hrow; [|done].
    destruct (Z.ltb_spec j (Z.of_nat (length row))) as [Hlt'|Hge'].
    + destruct (lookup_lt_is_Some_2 row (Z.to_nat j)) as [n ->]; [lia|].
      f_equal. f_equal; lia.
    + rewrite lookup_ge_None_2 by lia. done.
  - rewrite lookup_ge_None_2 by lia. done.
Qed.

(** ** The neighbours of a node *)

(** What one offset adds to the list that the loop builds. *)
Definition adjacent_at (g : Grid) (row col : Z) (ij : Z * Z) : list Ref :=
  if (0 <=? row + fst ij) && (0 <=? col + snd ij) then
    match node_at g (row + fst ij, col + snd ij) with
    | Some n => if is_obstacle n then [] else [(row + fst ij, col + snd ij)]
    | None => []
    end
  else [].

Lemma adjacent_nodes_cons g row col ij rest :
  adjacent_nodes g row col (ij :: rest) =
    adjacent_at g row col ij ++ adjacent_nodes g row col rest.
Proof.
  destruct ij as [i j]. cbn [adjacent_nodes]. unfold adjacent_at. simpl.
  destruct (Z.leb_spec 0 (row + i)) as [Hi|Hi];
    destruct (Z.leb_spec 0 (col + j)) as [Hj|Hj]; cbn [andb]; try done.
  rewrite nodes_getitem_nonneg by done.
  destruct (node_at g (row + i, col + j)) as [n|] eqn:Hn; [|done].
  rewrite Hn. by destruct (is_obstacle n).
Qed.

Lemma adjacent_at_elem g row col ij q :
  q ∈ adjacent_at g row col ij <->
  (q = (row + fst ij, col + snd ij)) /\
  (0 <= row + fst ij) /\ (0 <= col + snd ij) /\ walkable g q.
Proof.
  unfold adjacent_at, walkable.
  destruct (Z.leb_spec 0 (row + fst ij)) as [Hi|Hi];
    destruct (Z.leb_spec 0 (col + snd ij)) as [Hj|Hj]; cbn [andb];
    try (split; [by intros ?%elem_of_nil|intros (_ & ? & ? & _); lia]).
  destruct (node_at g (row + fst ij, col + snd ij)) as [n|] eqn:Hn.
  - unfold is_obstacle. case_bool_decide as Hobs.
    + split; [by intros ?%elem_of_nil|].
      intros (-> & _ & _ & n' & Hn' & Hw). congruence.
    + rewrite list_elem_of_singleton. split.
      * intros ->. split_and!; try done. by exists n.
      * by intros (-> & _).
  - split; [by intros ?%elem_of_nil|].
    intros (-> & _ & _ & n' & Hn' & _). congruence.
Qed.

Lemma adjacent_nodes_elem g row col offsets q :
  q ∈ adjacent_nodes g row col offsets <->
  exists ij, ij ∈ offsets /\ (q = (row + fst ij, col + snd ij)) /\
             (0 <= row + fst ij) /\ (0 <= col + snd ij) /\ walkable g q.
Proof.
  induction offsets as [|ij rest IH].
  - simpl. split; [by intros ?%elem_of_nil|].
    by intros (ij & ?%elem_of_nil & _).
  - rewrite adjacent_nodes_cons, elem_of_app, adjacent_at_elem, IH. split.
    + intros [Hq|(ij' & Hin & Hq)].
      * exists ij. split; [left|done].
      * exists ij'. split; [by right|done].
    + intros (ij' & [->|Hin]%elem_of_cons & Hq); [by left|right; eauto].
Qed.

Lemma adjacent_nodes_NoDup g row col offsets :
  NoDup offsets -> NoDup (adjacent_nodes g row col offsets).
Proof.
  induction 1 as [|ij rest Hnotin Hnd IH]; [constructor|].
  rewrite adjacent_nodes_cons. apply NoDup_app. split_and!; [| |done].
  - unfold adjacent_at. repeat case_match; try constructor.
    + by intros ?%elem_of_nil.
    + constructor.
  - intros q (-> & _)%adjacent_at_elem (ij' & Hin & Heq & _)%adjacent_nodes_elem.
    apply Hnotin. destruct ij as [i j], ij' as [i' j']. simpl in *.
    injection Heq as ? ?. assert (i = i') as -> by lia.
    assert (j = j') as -> by lia. done.
Qed.

Lemma adjacent_nodes_length g row col offsets :
  (length (adjacent_nodes g row col offsets) <= length offsets)%nat.
Proof.
  induction offsets as [|ij rest IH]; [done|].
  rewrite adjacent_nodes_cons, length_app. simpl.
  assert (length (adjacent_at g row col ij) <= 1)%nat; [|lia].
  unfold adjacent_at. repeat case_match; simpl; lia.
Qed.

(** The two methods return the list that the loop builds from the slot of
    the node; they raise nothing and leave the grid as it is. *)
Lemma neighbours_ok g offsets r c :
  grid_wf g -> valid g (r, c) ->
  neighbours offsets (r, c) g = Ok (adjacent_nodes g r c offsets) g.
Proof.
  intros Hwf [n Hn]. destruct (wf_node g Hwf r c n Hn) as (_ & _ & Hpos).
  pose proof (wf_columns g Hwf). pose proof (wf_rows g Hwf).
  pose proof (wf_cell_width g Hwf) as Hcw.
  pose proof (wf_cell_height g Hwf) as Hch.
  unfold cell_width, cell_height in *.
  unfold neighbours. unfold bind at 1. unfold deref. rewrite Hn.
  unfold bind at 1. unfold get at 1. unfold get_pos. rewrite Hpos. simpl.
  unfold bind at 1. unfold floordiv at 1.
  destruct (Z.eqb_spec (g_columns g) 0); [lia|]. unfold ret at 1.
  unfold bind at 1. unfold floordiv at 1.
  destruct (Z.eqb_spec (g_width g / g_columns g) 0); [lia|]. unfold ret at 1.
  unfold bind at 1. unfold floordiv at 1.
  destruct (Z.eqb_spec (g_rows g) 0); [lia|]. unfold ret at 1.
  unfold bind at 1. unfold floordiv at 1.
  destruct (Z.eqb_spec (g_height g / g_rows g) 0); [lia|]. unfold ret.
  rewrite (Z.mul_comm _ c), (Z.mul_comm _ r).
  rewrite !Z.div_mul by done. done.
Qed.

(** ** Writing a node *)

Lemma node_at_set_node g p n' q :
  valid g p ->
  node_at (set_node g p n') q = if decide (q = p) then Some n' else node_at g q.
Proof.
  intros [n Hn]. destruct p as [r c], q as [r' c'].
  unfold node_at in *. simpl in *.
  destruct (zlookup (g_nodes g) r) as [row|] eqn:Hrow; [|done].
  pose proof (zlookup_Some_range _ _ _ Hrow) as Rr.
  pose proof (zlookup_Some_range _ _ _ Hn) as Rc.
  unfold zlookup in *.
  destruct (Z.leb_spec 0 r); [|lia]. destruct (Z.leb_spec 0 c); [|lia].
  destruct (Z.leb_spec 0 r') as [Hr'|Hr'].
  - destruct (decide (Z.to_nat r' = Z.to_nat r)) as [E|E].
    + rewrite E, list_lookup_alter_eq, Hrow. simpl.
      assert (r' = r) as -> by lia.
      destruct (Z.leb_spec 0 c') as [Hc'|Hc'].
      * unfold zupdate. destruct (decide (Z.to_nat c' = Z.to_nat c)) as [E'|E'].
        -- rewrite E', list_lookup_insert_eq by lia.
           assert (c' = c) as -> by lia. by rewrite decide_True.
        -- rewrite list_lookup_insert_ne by done.
           rewrite decide_False; [done|]. intros [= ?]. lia.
      * rewrite decide_False; [done|]. intros [= ?]. lia.
    + rewrite list_lookup_alter_ne by done.
      rewrite decide_False; [done|]. intros [= ? ?]. lia.
  - rewrite decide_False; [done|]. intros [= ? ?]. lia.
Qed.

Lemma set_node_shape g p n' :
  length (g_nodes (set_node g p n')) = length (g_nodes g) /\
  (forall row', row' ∈ g_nodes (set_node g p n') ->
     exists row, row ∈ g_nodes g /\ length row' = length row).
Proof.
  simpl. split; [apply length_alter|].
  intros row' [i Hi]%list_elem_of_lookup_1.
  destruct (decide (i = Z.to_nat (fst p))) as [->|Hne].
  - rewrite list_lookup_alter_eq in Hi.
    destruct (g_nodes g !! Z.to_nat (fst p)) as [row|] eqn:Hrow; [|done].
    simpl in Hi. injection Hi as <-. exists row. split.
    + by eapply list_elem_of_lookup_2.
    + apply length_zupdate.
  - rewrite list_lookup_alter_ne in Hi by done. exists row'. split; [|done].
    by eapply list_elem_of_lookup_2.
Qed.

(** The attributes of a node that the search without display leaves alone. *)
Definition node_static (n : Node) :=
  (n_row n, n_col n, n_width n, n_height n, n_pos n, n_state n, n_h_cost n).

(** [g] is [g0] up to the g-costs and the predecessors of its nodes. *)
Record same_static (g0 g : Grid) : Prop := mk_same_static {
  ss_columns : g_columns g = g_columns g0;
  ss_rows : g_rows g = g_rows g0;
  ss_width : g_width g = g_width g0;
  ss_height : g_height g = g_height g0;
  ss_start : g_start g = g_start g0;
  ss_target : g_target g = g_target g0;
  ss_nodes : forall p, node_static <$> node_at g p = node_static <$> node_at g0 p;
  ss_wf : grid_wf g
}.

Lemma same_static_refl g : grid_wf g -> same_static g g.
Proof. intros Hwf. by split. Qed.

Lemma same_static_valid g0 g p : same_static g0 g -> valid g p <-> valid g0 p.
Proof.
  intros Hs. unfold valid. rewrite <- !(fmap_is_Some node_static).
  by rewrite (ss_nodes g0 g Hs).
Qed.

Lemma same_static_set_node g0 g p n n' :
  same_static g0 g -> node_at g p = Some n ->
  node_static n' = node_static n ->
  same_static g0 (set_node g p n').
Proof.
  intros Hs Hn Hst. assert (valid g p) as Hv by by exists n.
  split; try apply Hs.
  - intros q. rewrite node_at_set_node by done.
    rewrite <- (ss_nodes g0 g Hs q).
    destruct (decide (q = p)) as [->|]; [|done]. rewrite Hn. simpl. by rewrite Hst.
  - pose proof (ss_wf g0 g Hs) as Hwf.
    destruct (set_node_shape g p n') as [Hlen Hrows].
    split; try apply Hwf.
    + rewrite Hlen. apply Hwf.
    + intros row' (row & Hrow & ->)%Hrows. by apply Hwf.
    + intros r c m. rewrite node_at_set_node by done.
      case_decide as Hp; [subst p|].
      * intros Hm. injection Hm as <-.
        destruct (wf_node g Hwf r c n Hn) as (? & ? & ?).
        unfold node_static in Hst. injection Hst as ? ? ? ? ? ? ?.
        unfold cell_width, cell_height in *. simpl.
        split_and!; congruence.
      * apply Hwf.
Qed.

(** ** The graph the search explores *)

(** A move of the search: from a node of the grid to an adjacent node that
    is not an obstacle, at the cost of its direction. *)
Definition edge (g : Grid) (p q : Ref) (c : Z) : Prop :=
  valid g p /\ walkable g q /\
  ((orth_adjacent p q /\ c = VERT_HORZ_COST) \/
   (diag_adjacent p q /\ c = DIAG_COST)).

(** [reach g s p k]: some sequence of moves leads from [s] to [p] at the
    total cost [k]. *)
Inductive reach (g : Grid) (s : Ref) : Ref -> Z -> Prop :=
| reach_start : reach g s s 0
| reach_step p q k c : reach g s p k -> edge g p q c -> reach g s q (k + c).

(** The heuristic of [calculate_all_h_costs] between two slots. *)
Definition octile (p t : Ref) : Z :=
  let vdist := Z.abs (fst p - fst t) in
  let hdist := Z.abs (snd p - snd t) in
  Z.min vdist hdist * DIAG_COST +
  (Z.max vdist hdist - Z.min vdist hdist) * VERT_HORZ_COST.

Lemma octile_nonneg p t : 0 <= octile p t.
Proof. unfold octile, DIAG_COST, VERT_HORZ_COST. lia. Qed.

Lemma octile_self t : octile t t = 0.
Proof. unfold octile, DIAG_COST, VERT_HORZ_COST. lia. Qed.

(** The heuristic is consistent with the costs of the moves. *)
Lemma octile_consistent g p q c t :
  edge g p q c -> octile p t <= c + octile q t.
Proof.
  intros (_ & _ & [[Ha ->]|[[Ha Hb] ->]]);
    unfold orth_adjacent, diag_adjacent, octile, DIAG_COST, VERT_HORZ_COST in *;
    destruct p as [pr pc], q as [qr qc], t as [tr tc]; simpl in *; lia.
Qed.

Lemma edge_cost_pos g p q c : edge g p q c -> 0 < c.
Proof.
  intros (_ & _ & [[_ ->]|[_ ->]]); unfold VERT_HORZ_COST, DIAG_COST; lia.
Qed.

Lemma edge_irrefl g p c : ~ edge g p p c.
Proof.
  intros (_ & _ & [[Ha _]|[[Ha _] _]]);
    unfold orth_adjacent, diag_adjacent in *; lia.
Qed.

Lemma reach_nonneg g s p k : reach g s p k -> 0 <= k.
Proof.
  induction 1 as [|p q k c _ IH He]; [lia|].
  apply edge_cost_pos in He. lia.
Qed.

(** No sequence of moves to [p] costs less than the heuristic from the
    start to [p]... the heuristic never overestimates. *)
Lemma reach_lower_bound g s p k t :
  reach g s p k -> octile s t <= k + octile p t.
Proof.
  induction 1 as [|p q k c _ IH He]; [lia|].
  pose proof (octile_consistent g p q c t He). lia.
Qed.

Lemma edge_same_static g0 g p q c :
  same_static g0 g -> edge g p q c <-> edge g0 p q c.
Proof.
  intros Hs. unfold edge. rewrite (same_static_valid g0 g p Hs).
  assert (walkable g q <-> walkable g0 q) as ->; [|done].
  unfold walkable. pose proof (ss_nodes g0 g Hs q) as Hq.
  split; intros (n & Hn & Hw).
  - rewrite Hn in Hq. destruct (node_at g0 q) as [n0|]; [|done].
    exists n0. split; [done|]. unfold node_static in Hq. simpl in Hq. congruence.
  - rewrite Hn in Hq. destruct (node_at g q) as [n1|]; [|done].
    exists n1. split; [done|]. unfold node_static in Hq. simpl in Hq. congruence.
Qed.

(** ** The invariant of the search *)

(** The g-cost recorded in the node a reference denotes. *)
Definition gcost (g : Grid) (p : Ref) : option Z :=
  match node_at g p with
  | Some n => n_g_cost n
  | None => None
  end.

(** The predecessor recorded in the node a reference denotes. *)
Definition prev_at (g : Grid) (p : Ref) : option Ref :=
  match node_at g p with
  | Some n => n_prev n
  | None => None
  end.

Lemma set_node_id g p n : node_at g p = Some n -> set_node g p n = g.
Proof.
  intros Hn. destruct g as [co ro wi he nodes st tg so], p as [r c].
  unfold set_node, with_nodes, node_at in *. simpl in *. f_equal.
  destruct (zlookup nodes r) as [row|] eqn:Hrow; [|done].
  unfold zlookup in *. destruct (0 <=? r); [|done]. destruct (0 <=? c); [|done].
  apply list_eq. intros i. destruct (decide (i = Z.to_nat r)) as [->|Hne].
  - rewrite list_lookup_alter_eq, Hrow. simpl. f_equal.
    unfold zupdate. by apply list_insert_id.
  - by rewrite list_lookup_alter_ne.
Qed.

Lemma set_node_set_node g p a b : set_node (set_node g p a) p b = set_node g p b.
Proof.
  destruct g as [co ro wi he nodes st tg so], p as [r c].
  unfold set_node, with_nodes. simpl. f_equal.
  apply list_eq. intros i. destruct (decide (i = Z.to_nat r)) as [->|Hne].
  - rewrite !list_lookup_alter_eq. destruct (nodes !! Z.to_nat r) as [row|]; [|done].
    simpl. f_equal. unfold zupdate. apply list_insert_insert_eq.
  - by rewrite !list_lookup_alter_ne.
Qed.

Lemma gcost_set_node g p n' q :
  valid g p ->
  gcost (set_node g p n') q = if decide (q = p) then n_g_cost n' else gcost g q.
Proof.
  intros Hv. unfold gcost. rewrite node_at_set_node by done. by case_decide.
Qed.

Lemma on_grid_deref g q C p n :
  node_at g p = Some n -> on_grid (deref p) (mkSearch g q C) = Ok n (mkSearch g q C).
Proof. intros Hn. unfold on_grid, deref. simpl. by rewrite Hn. Qed.

Lemma on_grid_update_node g q C p n f :
  node_at g p = Some n ->
  on_grid (update_node p f) (mkSearch g q C) = Ok tt (mkSearch (set_node g p (f n)) q C).
Proof. intros Hn. unfold on_grid, update_node. simpl. by rewrite Hn. Qed.

Lemma on_grid_f_cost_of g q C p n h x :
  node_at g p = Some n -> n_h_cost n = Some h -> n_g_cost n = Some x ->
  on_grid (f_cost_of p) (mkSearch g q C) = Ok (h + x) (mkSearch g q C).
Proof.
  intros Hn Hh Hg. unfold on_grid, f_cost_of, bind, deref, get_f_cost. simpl.
  by rewrite Hn, Hh, Hg.
Qed.

Section SearchInvariant.
Context (g0 : Grid) (st tg : Ref).

(** The state of the loop of [find_path_nonvisual]: at its head when [cur]
    is [None], and while the neighbours of the extracted node [u] with
    g-cost [gu] are relaxed when [cur] is [Some (u, gu)]. *)
Record inv (cur : option (Ref * Z)) (s : Search) : Prop := mk_inv {
  inv_static : same_static g0 (s_grid s);
  inv_solved : g_solved (s_grid s) = g_solved g0;
  inv_wf : wf (s_opened s);
  inv_heap : heap_order (q_elements (s_opened s));
  inv_keys : forall p k,
    contents (s_opened s) !! p = Some k ->
    exists gp, gcost (s_grid s) p = Some gp /\ k = octile p tg + gp;
  inv_reach : forall p gp, gcost (s_grid s) p = Some gp -> reach g0 st p gp;
  inv_seen : forall p gp,
    gcost (s_grid s) p = Some gp ->
    p ∈ s_closed s \/ is_Some (contents (s_opened s) !! p) \/
    (exists gu, cur = Some (p, gu));
  inv_closed : forall p,
    p ∈ s_closed s ->
    contents (s_opened s) !! p = None /\
    exists gp, gcost (s_grid s) p = Some gp /\
               (forall k, reach g0 st p k -> gp <= k) /\
               (forall q c, edge g0 p q c ->
                  exists gq, gcost (s_grid s) q = Some gq /\ gq <= gp + c);
  inv_cur : forall u gu,
    cur = Some (u, gu) ->
    (u ∉ s_closed s) /\ contents (s_opened s) !! u = None /\
    gcost (s_grid s) u = Some gu /\
    (forall k, reach g0 st u k -> gu <= k);
  inv_start : gcost (s_grid s) st = Some 0;
  inv_target : tg ∉ s_closed s;
  inv_prev : forall p gp,
    gcost (s_grid s) p = Some gp -> p <> st ->
    exists q gq c, prev_at (s_grid s) p = Some q /\
                   gcost (s_grid s) q = Some gq /\
                   edge g0 q p c /\ gq + c <= gp
}.

(** Every sequence of moves from the start either ends in a closed node
    whose g-cost is at most its cost, or passes a node of the queue whose
    key is at most its cost plus the heuristic of its end. *)
Lemma frontier s m k :
  inv None s -> reach g0 st m k ->
  (m ∈ s_closed s /\ exists gm, gcost (s_grid s) m = Some gm /\ gm <= k) \/
  (exists y ky, contents (s_opened s) !! y = Some ky /\ ky <= k + octile m tg).
Proof.
  intros Hinv. induction 1 as [|p q k c Hreach IH He].
  - destruct (inv_seen _ _ Hinv st 0 (inv_start _ _ Hinv)) as [Hc|[[ky Hy]|[? [=]]]].
    + left. split; [done|]. exists 0. split; [apply (inv_start _ _ Hinv)|lia].
    + right. exists st, ky. split; [done|].
      destruct (inv_keys _ _ Hinv st ky Hy) as (gp & Hgp & ->).
      rewrite (inv_start _ _ Hinv) in Hgp. injection Hgp as <-. lia.
  - pose proof (octile_consistent g0 p q c tg He) as Hcons.
    destruct IH as [(Hc & gp & Hgp & Hle)|(y & ky & Hy & Hle)].
    + destruct (inv_closed _ _ Hinv p Hc) as (_ & gp' & Hgp' & _ & Hnb).
      assert (gp' = gp) as -> by congruence.
      destruct (Hnb q c He) as (gq & Hgq & Hle').
      destruct (inv_seen _ _ Hinv q gq Hgq) as [Hqc|[[kq Hq]|[? [=]]]].
      * left. split; [done|]. exists gq. split; [done|lia].
      * right. exists q, kq. split; [done|].
        destruct (inv_keys _ _ Hinv q kq Hq) as (gq' & Hgq' & ->).
        assert (gq' = gq) as -> by congruence. lia.
    + right. exists y, ky. split; [done|lia].
Qed.

End SearchInvariant.

Section Relaxation.
Context (g0 : Grid) (st tg : Ref).

(** Every node carries the heuristic to the target, as
    [calculate_all_h_costs] leaves it. *)
Hypothesis heuristic_set :
  forall p n, node_at g0 p = Some n -> n_h_cost n = Some (octile p tg).

Lemma static_h_cost g p n :
  same_static g0 g -> node_at g p = Some n -> n_h_cost n = Some (octile p tg).
Proof.
  intros Hs Hn. pose proof (ss_nodes g0 g Hs p) as Hp. rewrite Hn in Hp.
  destruct (node_at g0 p) as [n0|] eqn:Hn0; [|done].
  injection Hp as _ _ _ _ _ _ ->. by eapply heuristic_set.
Qed.

Lemma gcost_Some g p x :
  gcost g p = Some x <-> exists n, node_at g p = Some n /\ n_g_cost n = Some x.
Proof.
  unfold gcost. destruct (node_at g p) as [n|]; [|split; [done|by intros (? & ? & _)]].
  split; [eauto|]. by intros (? & [= <-] & ?).
Qed.

(** One pass of the body of the loops over the neighbours. *)
Lemma relax_neighbour_spec u gu c m s :
  inv g0 st tg (Some (u, gu)) s -> edge g0 u m c ->
  exists s',
    relax_neighbour false u c m s = Ok tt s' /\
    inv g0 st tg (Some (u, gu)) s' /\
    s_closed s' = s_closed s /\
    (forall p gp, gcost (s_grid s) p = Some gp ->
       exists gp', gcost (s_grid s') p = Some gp' /\ gp' <= gp) /\
    (exists gm, gcost (s_grid s') m = Some gm /\ gm <= gu + c).
Proof.
  intros Hinv He. destruct s as [g q C].
  destruct Hinv as
    [Hs Hso Hwf Hheap Hkeys Hreach Hseen Hclosed Hcur Hstart Htarget Hprev].
  simpl in *.
  destruct (Hcur u gu eq_refl) as (HuC & Huq & Hgu & Huopt).
  apply gcost_Some in Hgu as (nu & Hnu & Hnug).
  pose proof He as (Hvu & (nm0 & Hnm0 & Hwalk) & Hadj).
  assert (valid g m) as Hvm.
  { apply (same_static_valid g0 g m Hs). by exists nm0. }
  destruct Hvm as [nm Hnm].
  assert (m <> u) as Hmu by (intros ->; by eapply edge_irrefl).
  assert (reach g0 st m (gu + c)) as Hreach_m.
  { eapply reach_step; [|done]. apply Hreach. apply gcost_Some. eauto. }
  assert (0 <= gu) as Hgu0.
  { eapply reach_nonneg. apply Hreach. apply gcost_Some. eauto. }
  pose proof (edge_cost_pos _ _ _ _ He) as Hcpos.
  pose proof (static_h_cost g m nm Hs Hnm) as Hhm.
  unfold relax_neighbour. unfold bind at 1. rewrite (on_grid_deref _ _ _ _ _ Hnu).
  unfold get_g_cost. rewrite Hnug. unfold bind at 1, ret at 1.
  unfold bind at 1. rewrite (on_grid_deref _ _ _ _ _ Hnm).
  destruct (relax_g_cost nm (gu + c)) as [n' relaxed] eqn:Hrelax.
  unfold bind at 1. rewrite (on_grid_update_node _ _ _ _ _ _ Hnm).
  destruct relaxed.
  - (* the g-cost of [m] is overwritten *)
    assert (n' = with_g_cost nm (gu + c) /\
            forall gm, n_g_cost nm = Some gm -> gu + c < gm) as [-> Hless].
    { unfold relax_g_cost in Hrelax. destruct (n_g_cost nm) as [gm|].
      - destruct (Z.ltb_spec (gu + c) gm); [|discriminate].
        injection Hrelax as <-. split; [done|]. intros ? [= <-]. done.
      - injection Hrelax as <-. done. }
    set (g1 := set_node g m (with_g_cost nm (gu + c))).
    assert (node_at g1 m = Some (with_g_cost nm (gu + c))) as Hnm1.
    { unfold g1. rewrite node_at_set_node by (by exists nm). by rewrite decide_True. }
    unfold bind at 1. rewrite (on_grid_update_node _ _ _ _ _ _ Hnm1).
    set (g2 := set_node g1 m (set_prev (with_g_cost nm (gu + c)) u)).
    assert (forall p, node_at g2 p =
              if decide (p = m) then Some (set_prev (with_g_cost nm (gu + c)) u)
              else node_at g p) as Hnode2.
    { intros p. unfold g2. rewrite node_at_set_node by (by eexists).
      case_decide; [done|]. unfold g1.
      rewrite node_at_set_node by (by exists nm). by rewrite decide_False. }
    assert (forall p, gcost g2 p = if decide (p = m) then Some (gu + c) else gcost g p)
      as Hg2.
    { intros p. unfold gcost. rewrite Hnode2. by case_decide. }
    assert (same_static g0 g2) as Hs2.
    { unfold g2. eapply same_static_set_node; [|exact Hnm1|done].
      unfold g1. eapply same_static_set_node; [exact Hs|exact Hnm|done]. }
    assert (g_solved g2 = g_solved g0) as Hso2 by done.
    assert (m ∉ C) as HmC.
    { intros HmC. destruct (Hclosed m HmC) as (_ & gm & Hgm & Hopt & _).
      apply gcost_Some in Hgm as (nm' & Hnm' & Hgm).
      assert (nm' = nm) as -> by congruence.
      specialize (Hless gm Hgm). specialize (Hopt _ Hreach_m). lia. }
    assert (st <> m) as Hstm.
    { intros ->. apply gcost_Some in Hstart as (nm' & Hnm' & Hgm).
      assert (nm' = nm) as -> by congruence.
      specialize (Hless 0 Hgm). lia. }
    assert (forall p gp, gcost g p = Some gp ->
              exists gp', gcost g2 p = Some gp' /\ gp' <= gp) as Hmono.
    { intros p gp Hgp. rewrite Hg2. case_decide as Hp; [subst p|].
      - exists (gu + c). split; [done|].
        apply gcost_Some in Hgp as (nm' & Hnm' & Hgm).
        assert (nm' = nm) as -> by congruence.
        specialize (Hless gp Hgm). lia.
      - exists gp. split; [done|lia]. }
    unfold bind at 1.
    unfold on_opened at 1. cbn [s_opened s_grid s_closed].
    rewrite element_exists_spec by done.
    assert (forall q' : MinPriorityQueue Ref,
              wf q' -> heap_order (q_elements q') ->
              contents q' = <[m := octile m tg + (gu + c)]> (contents q) ->
              inv g0 st tg (Some (u, gu)) (mkSearch g2 q' C)) as Hfinish.
    { intros q' Hwf' Hheap' Hc'. split; simpl; try done.
      - intros p k. rewrite Hc', Hg2. case_decide as Hp; [subst p|].
        + rewrite lookup_insert_eq. intros [= <-]. eauto.
        + rewrite lookup_insert_ne by done. apply Hkeys.
      - intros p gp. rewrite Hg2. case_decide as Hp; [subst p|].
        + by intros [= <-].
        + apply Hreach.
      - intros p gp. rewrite Hg2, Hc'. case_decide as Hp; [subst p|].
        + intros _. right. left. rewrite lookup_insert_eq. eauto.
        + rewrite lookup_insert_ne by done. apply Hseen.
      - intros p HpC. assert (p <> m) as Hpm by (intros ->; done).
        destruct (Hclosed p HpC) as (Hpq & gp & Hgp & Hopt & Hnb).
        split; [by rewrite Hc', lookup_insert_ne|].
        exists gp. rewrite Hg2, decide_False by done. split_and!; try done.
        intros x cx Hex. destruct (Hnb x cx Hex) as (gx & Hgx & Hle).
        destruct (Hmono x gx Hgx) as (gx' & Hgx' & Hle'). exists gx'.
        split; [done|lia].
      - intros u' gu' [= <- <-]. split_and!; try done.
        + by rewrite Hc', lookup_insert_ne.
        + rewrite Hg2, decide_False by done. apply gcost_Some. eauto.
      - rewrite Hg2, decide_False by done. done.
      - intros p gp. rewrite Hg2. unfold prev_at. rewrite Hnode2.
        case_decide as Hp; [subst p|].
        + intros [= <-] _. exists u, gu, c. simpl.
          rewrite Hg2, decide_False by done.
          split_and!; try done; try lia. apply gcost_Some. eauto.
        + intros Hgp Hpst.
          destruct (Hprev p gp Hgp Hpst) as (x & gx & cx & Hpx & Hgx & Hex & Hle).
          destruct (Hmono x gx Hgx) as (gx' & Hgx' & Hle').
          exists x, gx', cx. split_and!; try done. lia. }
    assert (on_grid (f_cost_of m) (mkSearch g2 q C)
            = Ok (octile m tg + (gu + c)) (mkSearch g2 q C)) as Hf.
    { eapply on_grid_f_cost_of.
      - rewrite Hnode2. by rewrite decide_True.
      - simpl. exact Hhm.
      - done. }
    destruct (contents q !! m) as [km|] eqn:Hkm.
    + (* already in the queue: its key is decreased *)
      rewrite bool_decide_eq_true_2 by eauto.
      unfold bind at 1. rewrite Hf.
      destruct (Hkeys m km Hkm) as (gm & Hgm & ->).
      apply gcost_Some in Hgm as (nm' & Hnm' & Hgm).
      assert (nm' = nm) as -> by congruence.
      specialize (Hless gm Hgm).
      destruct (decrease_key_spec q m (octile m tg + (gu + c)) (octile m tg + gm))
        as (q' & Hrun & Hwf' & _ & Hheap' & Hc'); try done; [lia|].
      exists (mkSearch g2 q' C). unfold on_opened. simpl. rewrite Hrun.
      split_and!; eauto.
      exists (gu + c). rewrite Hg2, decide_True by done. split; [done|lia].
    + (* not in the queue: it is inserted *)
      rewrite bool_decide_eq_false_2 by (by intros [? ?]).
      unfold bind at 1. rewrite Hf.
      destruct (insert_spec q (octile m tg + (gu + c)) m)
        as (q' & Hrun & Hwf' & _ & Hheap' & Hc'); try done.
      exists (mkSearch g2 q' C). unfold bind, on_opened, ret. simpl. rewrite Hrun.
      split_and!; eauto.
      exists (gu + c). rewrite Hg2, decide_True by done. split; [done|lia].
  - (* the g-cost of [m] stays *)
    assert (n' = nm /\ exists gm, n_g_cost nm = Some gm /\ gm <= gu + c) as [-> Hgm].
    { unfold relax_g_cost in Hrelax. destruct (n_g_cost nm) as [gm|]; [|discriminate].
      destruct (Z.ltb_spec (gu + c) gm); [discriminate|].
      injection Hrelax as <-. eauto. }
    rewrite set_node_id by done. exists (mkSearch g q C).
    split_and!; try done.
    + intros p gp Hgp. exists gp. split; [done|lia].
    + destruct Hgm as (gm & Hgm & Hle). exists gm. split; [|done].
      apply gcost_Some. eauto.
Qed.

End Relaxation.

(** ** One turn of the loop *)

(** Every slot of a grid with the dimensions of [g]. *)
Definition all_refs (g : Grid) : list (Z * Z) :=
  list_prod (range (g_rows g)) (range (g_columns g)).

Lemma elem_of_range n i : i ∈ range n <-> 0 <= i < n.
Proof.
  unfold range. rewrite list_elem_of_In, in_map_iff. split.
  - intros (k & <- & Hk%in_seq). lia.
  - intros Hi. exists (Z.to_nat i). split; [lia|]. apply in_seq. lia.
Qed.

Lemma valid_all_refs g p : grid_wf g -> valid g p -> p ∈ all_refs g.
Proof.
  intros Hwf Hv. destruct p as [r c].
  apply (valid_range g r c Hwf) in Hv as [Hr Hc].
  unfold all_refs. rewrite list_elem_of_In. apply in_prod.
  - apply list_elem_of_In, elem_of_range. lia.
  - apply list_elem_of_In, elem_of_range. lia.
Qed.

Lemma length_all_refs g :
  length (all_refs g) = (Z.to_nat (g_rows g) * Z.to_nat (g_columns g))%nat.
Proof.
  unfold all_refs, range. by rewrite List.length_prod, !length_map, !length_seq.
Qed.

(** The slots that are not closed yet: the measure of the loop. *)
Definition open_slots (g : Grid) (C : gset Ref) : nat :=
  length (filter (fun p => p ∉ C) (all_refs g)).

Lemma open_slots_close g C u :
  u ∈ all_refs g -> u ∉ C ->
  (open_slots g ({[u]} ∪ C) < open_slots g C)%nat.
Proof.
  unfold open_slots. generalize (all_refs g). intros l Hin HuC.
  induction l as [|x l IH]; [by apply elem_of_nil in Hin|].
  assert (length (filter (fun p => p ∉ {[u]} ∪ C) l) <=
          length (filter (fun p => p ∉ C) l))%nat as Hle.
  { clear. induction l as [|y l IH]; [done|].
    rewrite !filter_cons. repeat case_decide; simpl; try lia. set_solver. }
  rewrite !filter_cons. apply elem_of_cons in Hin as [<-|Hin].
  - rewrite decide_False by set_solver. rewrite decide_True by done. simpl. lia.
  - specialize (IH Hin). repeat case_decide; simpl; try lia. set_solver.
Qed.

Lemma open_slots_bound g C :
  (open_slots g C <= Z.to_nat (g_rows g) * Z.to_nat (g_columns g))%nat.
Proof.
  unfold open_slots. rewrite <- length_all_refs. apply length_filter.
Qed.

Lemma orth_offsets r c mr mc :
  orth_adjacent (r, c) (mr, mc) <->
  (mr - r, mc - c) ∈ [(-1, 0); (1, 0); (0, -1); (0, 1)].
Proof.
  unfold orth_adjacent. simpl. rewrite !elem_of_cons, elem_of_nil. split.
  - intros Ha.
    assert ((mr - r = -1 /\ mc - c = 0) \/ (mr - r = 1 /\ mc - c = 0) \/
            (mr - r = 0 /\ mc - c = -1) \/ (mr - r = 0 /\ mc - c = 1))
      as [[-> ->]|[[-> ->]|[[-> ->]|[-> ->]]]] by lia; tauto.
  - intros [[= ? ?]|[[= ? ?]|[[= ? ?]|[[= ? ?]|[]]]]]; lia.
Qed.

Lemma diag_offsets r c mr mc :
  diag_adjacent (r, c) (mr, mc) <->
  (mr - r, mc - c) ∈ [(-1, -1); (1, -1); (-1, 1); (1, 1)].
Proof.
  unfold diag_adjacent. simpl. rewrite !elem_of_cons, elem_of_nil. split.
  - intros Ha.
    assert ((mr - r = -1 /\ mc - c = -1) \/ (mr - r = 1 /\ mc - c = -1) \/
            (mr - r = -1 /\ mc - c = 1) \/ (mr - r = 1 /\ mc - c = 1))
      as [[-> ->]|[[-> ->]|[[-> ->]|[-> ->]]]] by lia; tauto.
  - intros [[= ? ?]|[[= ? ?]|[[= ? ?]|[[= ? ?]|[]]]]]; lia.
Qed.

(** The neighbours the two methods return are the moves of the graph. *)
Lemma vert_horz_neighbours_edges g u :
  grid_wf g -> valid g u ->
  exists vh,
    get_vert_horz_neighbours u g = Ok vh g /\
    NoDup vh /\ (length vh <= 4)%nat /\
    forall m, m ∈ vh <-> orth_adjacent u m /\ walkable g m.
Proof.
  intros Hwf Hv. destruct u as [r c].
  exists (adjacent_nodes g r c [(-1, 0); (1, 0); (0, -1); (0, 1)]).
  split_and!.
  - by apply neighbours_ok.
  - apply adjacent_nodes_NoDup. apply (bool_decide_unpack _). vm_compute. exact I.
  - apply (adjacent_nodes_length g r c [(-1, 0); (1, 0); (0, -1); (0, 1)]).
  - intros [mr mc]. rewrite adjacent_nodes_elem, orth_offsets. split.
    + intros ([i j] & Hin & [= -> ->] & _ & _ & Hw). simpl.
      split; [|done]. by replace (r + i - r) with i by lia;
                         replace (c + j - c) with j by lia.
    + intros [Hin Hw]. exists (mr - r, mc - c). simpl.
      pose proof Hw as (n & Hn & _).
      apply (node_at_range g mr mc n Hwf) in Hn.
      split_and!; try done; try lia. f_equal; lia.
Qed.

Lemma diag_neighbors_edges g u :
  grid_wf g -> valid g u ->
  exists d,
    get_diag_neighbors u g = Ok d g /\
    NoDup d /\ (length d <= 4)%nat /\
    forall m, m ∈ d <-> diag_adjacent u m /\ walkable g m.
Proof.
  intros Hwf Hv. destruct u as [r c].
  exists (adjacent_nodes g r c [(-1, -1); (1, -1); (-1, 1); (1, 1)]).
  split_and!.
  - by apply neighbours_ok.
  - apply adjacent_nodes_NoDup. apply (bool_decide_unpack _). vm_compute. exact I.
  - apply (adjacent_nodes_length g r c [(-1, -1); (1, -1); (-1, 1); (1, 1)]).
  - intros [mr mc]. rewrite adjacent_nodes_elem, diag_offsets. split.
    + intros ([i j] & Hin & [= -> ->] & _ & _ & Hw). simpl.
      split; [|done]. by replace (r + i - r) with i by lia;
                         replace (c + j - c) with j by lia.
    + intros [Hin Hw]. exists (mr - r, mc - c). simpl.
      pose proof Hw as (n & Hn & _).
      apply (node_at_range g mr mc n Hwf) in Hn.
      split_and!; try done; try lia. f_equal; lia.
Qed.

Section Loop.
Context (g0 : Grid) (st tg : Ref).

Hypothesis heuristic_set :
  forall p n, node_at g0 p = Some n -> n_h_cost n = Some (octile p tg).

Hypothesis target_set : g_target g0 = Some tg.

Hypothesis grid0_wf : grid_wf g0.

Lemma relax_all_spec u gu c (ms : list Ref) :
  forall s,
    inv g0 st tg (Some (u, gu)) s ->
    (forall m, m ∈ ms -> edge g0 u m c) ->
    exists s',
      for_each ms (relax_neighbour false u c) s = Ok tt s' /\
      inv g0 st tg (Some (u, gu)) s' /\
      s_closed s' = s_closed s /\
      (forall p gp, gcost (s_grid s) p = Some gp ->
         exists gp', gcost (s_grid s') p = Some gp' /\ gp' <= gp) /\
      (forall m, m ∈ ms ->
         exists gm, gcost (s_grid s') m = Some gm /\ gm <= gu + c).
Proof.
  induction ms as [|m ms IH]; intros s Hinv Hedges.
  - exists s. split_and!; try done.
    + intros p gp Hgp. exists gp. split; [done|lia].
    + by intros m ?%elem_of_nil.
  - destruct (relax_neighbour_spec g0 st tg heuristic_set u gu c m s Hinv)
      as (s1 & Hrun1 & Hinv1 & HC1 & Hmono1 & Hm1).
    { apply Hedges. left. }
    destruct (IH s1 Hinv1) as (s' & Hrun' & Hinv' & HC' & Hmono' & Hms').
    { intros m' Hm'. apply Hedges. by right. }
    exists s'. split_and!; try done.
    + cbn [for_each]. unfold bind. by rewrite Hrun1.
    + congruence.
    + intros p gp Hgp. destruct (Hmono1 p gp Hgp) as (gp1 & Hgp1 & Hle1).
      destruct (Hmono' p gp1 Hgp1) as (gp' & Hgp' & Hle'). exists gp'.
      split; [done|lia].
    + intros m' [->|Hm']%elem_of_cons; [|by apply Hms'].
      destruct Hm1 as (gm & Hgm & Hle).
      destruct (Hmono' m gm Hgm) as (gm' & Hgm' & Hle'). exists gm'.
      split; [done|lia].
Qed.

Lemma find_path_loop_unfold visual fuel s :
  find_path_loop visual (S fuel) s =
    (do current <- on_opened extract_min;
     do s <- get;
     if decide (Some current = g_target (s_grid s)) then
       on_grid (modify (fun g => with_solved g true)) ;;
       closed_add current ;;
       (if visual then on_grid (update_node current close) else ret tt)
     else
       do vh_neighbours <- on_grid (get_vert_horz_neighbours current);
       do d_neighbours <- on_grid (get_diag_neighbors current);
       for_each vh_neighbours (relax_neighbour visual current VERT_HORZ_COST) ;;
       for_each d_neighbours (relax_neighbour visual current DIAG_COST) ;;
       closed_add current ;;
       (if visual then on_grid (update_node current close) else ret tt) ;;
       find_path_loop visual fuel) s.
Proof. done. Qed.

(** What a run of the loop leaves: the g-cost of a node is the cost of a
    sequence of moves from the start, and for a closed node no sequence of
    moves costs less. *)
Record search_result (s : Search) : Prop := mk_search_result {
  res_static : same_static g0 (s_grid s);
  res_reach : forall p gp, gcost (s_grid s) p = Some gp -> reach g0 st p gp;
  res_closed : forall p,
    p ∈ s_closed s ->
    exists gp, gcost (s_grid s) p = Some gp /\
               forall k, reach g0 st p k -> gp <= k;
  res_start : gcost (s_grid s) st = Some 0;
  res_prev : forall p gp,
    gcost (s_grid s) p = Some gp -> p <> st ->
    exists q gq c, prev_at (s_grid s) p = Some q /\
                   gcost (s_grid s) q = Some gq /\
                   edge g0 q p c /\ gq + c <= gp;
  res_explored :
    g_solved (s_grid s) = false -> q_size (s_opened s) = 0 ->
    forall m k, reach g0 st m k -> m ∈ s_closed s
}.

Lemma inv_search_result s : inv g0 st tg None s -> search_result s.
Proof.
  intros Hinv. split.
  - apply (inv_static _ _ _ _ _ Hinv).
  - apply (inv_reach _ _ _ _ _ Hinv).
  - intros p Hp. destruct (inv_closed _ _ _ _ _ Hinv p Hp) as (_ & gp & ? & ? & _).
    eauto.
  - apply (inv_start _ _ _ _ _ Hinv).
  - apply (inv_prev _ _ _ _ _ Hinv).
  - intros _ Hempty m k Hk.
    destruct (frontier g0 st tg s m k Hinv Hk) as [(Hc & _)|(y & ky & Hy & _)];
      [done|].
    pose proof (inv_wf _ _ _ _ _ Hinv) as Hwf.
    apply contents_lookup in Hy; [|done].
    destruct Hwf as [Hsz _]. destruct (q_elements (s_opened s)); [|simpl in Hsz; lia].
    by apply elem_of_nil in Hy.
Qed.

Lemma same_static_solved g b : same_static g0 g -> same_static g0 (with_solved g b).
Proof.
  intros Hs. split; try apply Hs.
  destruct (ss_wf g0 g Hs). by split.
Qed.

(** The loop ends: with the target closed and the grid solved when a
    sequence of moves leads to the target, and with [IndexError] raised by
    [extract_min] on the empty queue when none does. *)
Lemma find_path_loop_spec fuel :
  forall s,
    inv g0 st tg None s ->
    (open_slots g0 (s_closed s) < fuel)%nat ->
    (exists s',
       find_path_loop false fuel s = Ok tt s' /\
       search_result s' /\ g_solved (s_grid s') = true /\
       tg ∈ s_closed s' /\ exists k, reach g0 st tg k) \/
    (exists s',
       find_path_loop false fuel s = Raise IndexError s' /\
       search_result s' /\ g_solved (s_grid s') = g_solved g0 /\
       q_size (s_opened s') = 0 /\
       forall k, ~ reach g0 st tg k).
Proof.
  induction fuel as [|fuel IH]; intros s Hinv Hfuel; [lia|].
  destruct s as [g q C].
  pose proof Hinv as
    [Hs Hso Hwf Hheap Hkeys Hreach Hseen Hclosed Hcur Hstart Htarget Hprev].
  cbn [s_grid s_opened s_closed] in *.
  destruct (decide (q_size q = 0)) as [Hempty|Hnonempty].
  - (* the queue is empty *)
    right. exists (mkSearch g q C). split_and!; try done.
    + rewrite find_path_loop_unfold.
      unfold bind at 1, on_opened. simpl. by rewrite extract_min_empty.
    + by apply inv_search_result.
    + intros k Hk. destruct (frontier g0 st tg _ tg k Hinv Hk)
        as [(HtC & _)|(y & ky & Hy & _)]; [done|]. simpl in Hy.
      apply contents_lookup in Hy; [|done].
      destruct Hwf as [Hsz _]. destruct (q_elements q); [|simpl in Hsz; lia].
      by apply elem_of_nil in Hy.
  - (* a node with a smallest key is extracted *)
    assert (0 < q_size q) as Hpos.
    { destruct Hwf as [Hsz _]. lia. }
    destruct (extract_min_spec q Hwf Hheap Hpos)
      as (u & ku & q1 & Hrun & _ & Hku & Hmin & Hwf1 & _ & Hheap1 & Hc1).
    destruct (Hkeys u ku Hku) as (gu & Hgu & ->).
    assert (u ∉ C) as HuC.
    { intros HuC. destruct (Hclosed u HuC) as (Hnone & _). congruence. }
    assert (forall k, reach g0 st u k -> gu <= k) as Huopt.
    { intros k Hk. destruct (frontier g0 st tg _ u k Hinv Hk)
        as [(? & _)|(y & ky & Hy & Hle)]; [done|]. simpl in Hy.
      specialize (Hmin y ky Hy). lia. }
    assert (valid g0 u) as Hvu.
    { apply (same_static_valid g0 g u Hs). unfold valid.
      apply gcost_Some in Hgu as (n & -> & _). eauto. }
    destruct (decide (u = tg)) as [->|Hutg].
    + (* it is the target *)
      left. exists (mkSearch (with_solved g true) q1 ({[tg]} ∪ C)).
      split_and!; try done.
      * rewrite find_path_loop_unfold.
        unfold bind at 1, on_opened at 1. simpl. rewrite Hrun.
        unfold bind at 1, get at 1. simpl.
        rewrite (ss_target g0 g Hs), target_set.
        by rewrite decide_True.
      * split; simpl.
        -- by apply same_static_solved.
        -- apply Hreach.
        -- intros p [->%elem_of_singleton|HpC]%elem_of_union; [eauto|].
           destruct (Hclosed p HpC) as (_ & gp & ? & ? & _). eauto.
        -- apply Hstart.
        -- apply Hprev.
        -- intros Hfalse. discriminate Hfalse.
      * apply elem_of_union. left. by apply elem_of_singleton.
      * exists gu. by apply Hreach.
    + (* its neighbours are relaxed and it is closed *)
      pose proof (ss_wf g0 g Hs) as Hgwf.
      assert (valid g u) as Hvug by by apply (same_static_valid g0 g u Hs).
      destruct (vert_horz_neighbours_edges g u Hgwf Hvug)
        as (vh & Hvh & _ & _ & Hvh_elem).
      destruct (diag_neighbors_edges g u Hgwf Hvug)
        as (d & Hd & _ & _ & Hd_elem).
      assert (inv g0 st tg (Some (u, gu)) (mkSearch g q1 C)) as Hmid.
      { split; simpl; try done.
        - intros p k. rewrite Hc1. intros Hp.
          apply lookup_delete_Some in Hp as [_ Hp]. by apply Hkeys.
        - intros p gp Hgp. destruct (decide (p = u)) as [->|Hpu].
          + right. right. assert (gp = gu) as -> by congruence. eauto.
          + destruct (Hseen p gp Hgp) as [?|[Hq|[? [=]]]]; [by left|].
            right. left. by rewrite Hc1, lookup_delete_ne.
        - intros p HpC. destruct (Hclosed p HpC) as (Hnone & Hrest).
          split; [|done]. rewrite Hc1.
          destruct (decide (u = p)) as [->|?];
            [apply lookup_delete_eq|by rewrite lookup_delete_ne].
        - intros u' gu' [= <- <-]. split_and!; try done.
          rewrite Hc1. apply lookup_delete_eq. }
      destruct (relax_all_spec u gu VERT_HORZ_COST vh _ Hmid)
        as (s2 & Hrun2 & Hinv2 & HC2 & Hmono2 & Hvh2).
      { intros m [Hadj Hw]%Hvh_elem. apply (edge_same_static g0 g u m _ Hs).
        split_and!; try done. left. done. }
      destruct (relax_all_spec u gu DIAG_COST d _ Hinv2)
        as (s3 & Hrun3 & Hinv3 & HC3 & Hmono3 & Hd3).
      { intros m [Hadj Hw]%Hd_elem. apply (edge_same_static g0 g u m _ Hs).
        split_and!; try done. right. done. }
      destruct s3 as [g3 q3 C3]. cbn [s_grid s_opened s_closed] in *.
      assert (C3 = C) as -> by congruence.
      assert (find_path_loop false (S fuel) (mkSearch g q C) =
              find_path_loop false fuel (mkSearch g3 q3 ({[u]} ∪ C))) as ->.
      { rewrite find_path_loop_unfold.
        unfold bind at 1, on_opened at 1. simpl. rewrite Hrun.
        unfold bind at 1, get at 1. simpl.
        rewrite (ss_target g0 g Hs), target_set.
        rewrite decide_False by congruence.
        unfold bind at 1. unfold on_grid at 1. simpl. rewrite Hvh.
        unfold bind at 1. unfold on_grid at 1. simpl. rewrite Hd.
        unfold bind at 1. rewrite Hrun2. unfold bind at 1. rewrite Hrun3.
        done. }
      assert (inv g0 st tg None (mkSearch g3 q3 ({[u]} ∪ C))) as Hinv4.
      { destruct Hinv3 as [Hs3 Hso3 Hwf3 Hheap3 Hkeys3 Hreach3 Hseen3 Hclosed3
                             Hcur3 Hstart3 Htarget3 Hprev3].
        simpl in *.
        destruct (Hcur3 u gu eq_refl) as (_ & Huq3 & Hgu3 & _).
        assert (forall p gp, gcost g3 p = Some gp ->
                  p ∈ {[u]} ∪ C \/ is_Some (contents q3 !! p) \/
                  (exists gu0 : Z, @None (Ref * Z) = Some (p, gu0))) as Hseen4.
        { intros p gp Hgp.
          destruct (Hseen3 p gp Hgp) as [?|[?|[gu' [= -> _]]]].
          - left. apply elem_of_union. by right.
          - right. by left.
          - left. apply elem_of_union. left. by apply elem_of_singleton. }
        assert (forall p, p ∈ {[u]} ∪ C ->
                  contents q3 !! p = None /\
                  exists gp, gcost g3 p = Some gp /\
                             (forall k, reach g0 st p k -> gp <= k) /\
                             (forall x c, edge g0 p x c ->
                                exists gx, gcost g3 x = Some gx /\ gx <= gp + c))
          as Hclosed4.
        { intros p [->%elem_of_singleton|HpC]%elem_of_union; [|by apply Hclosed3].
          split; [done|]. exists gu. split_and!; try done.
          intros x cx Hex.
          pose proof (proj2 (edge_same_static g0 g u x cx Hs) Hex)
            as (_ & Hw & [[Hadj ->]|[Hadj ->]]).
          - destruct (Hvh2 x) as (gx & Hgx & Hle); [by apply Hvh_elem|].
            destruct (Hmono3 x gx Hgx) as (gx' & Hgx' & Hle'). exists gx'.
            split; [done|lia].
          - by apply Hd3, Hd_elem. }
        assert (tg ∉ {[u]} ∪ C) as Htarget4.
        { intros [?%elem_of_singleton|?]%elem_of_union; done. }
        split; simpl; try done. }
      assert (open_slots g0 ({[u]} ∪ C) < open_slots g0 C)%nat as Hless.
      { apply open_slots_close; [|done]. by apply valid_all_refs. }
      apply IH; [done|simpl; lia].
Qed.

End Loop.

(** ** The start of a run *)

(** No node carries a g-cost: the grid as [create_grid] builds it. *)
Definition fresh (g : Grid) : Prop := forall p, gcost g p = None.

Lemma zlookup_map {A B} (f : A -> B) (l : list A) i :
  zlookup (map f l) i = f <$> zlookup l i.
Proof.
  unfold zlookup. destruct (0 <=? i); [|done]. apply list_lookup_fmap.
Qed.

(** The heuristic that [calculate_all_h_costs] gives the node in slot [p]. *)
Definition with_heuristic (tg p : Ref) (n : Node) : Node :=
  set_h_cost n (octile p tg).

Lemma calculate_all_h_costs_spec g tg :
  grid_wf g -> g_target g = Some tg -> valid g tg ->
  exists gh,
    calculate_all_h_costs g = Ok tt gh /\
    g_columns gh = g_columns g /\ g_rows gh = g_rows g /\
    g_width gh = g_width g /\ g_height gh = g_height g /\
    g_start gh = g_start g /\ g_target gh = g_target g /\
    g_solved gh = g_solved g /\
    (forall p, node_at gh p = with_heuristic tg p <$> node_at g p) /\
    grid_wf gh.
Proof.
  intros Hwf Htg [t Ht]. unfold calculate_all_h_costs.
  assert (forallb (fun row => bool_decide (row = [])) (g_nodes g) = false) as ->.
  { apply not_true_is_false. intros Hall. rewrite forallb_forall in Hall.
    unfold node_at in Ht. destruct (zlookup (g_nodes g) (fst tg)) as [row|] eqn:Hrow;
      [|done].
    apply zlookup_elem_of, list_elem_of_In, Hall, bool_decide_eq_true in Hrow.
    subst row. apply zlookup_Some_range in Ht. simpl in Ht. lia. }
  rewrite Htg, Ht. eexists. split; [reflexivity|].
  assert (forall p,
            node_at
              (with_nodes g
                 (map (map (fun node =>
                    set_h_cost node
                      (Z.min (Z.abs (get_row node - get_row t))
                             (Z.abs (get_col node - get_col t)) * DIAG_COST +
                       (Z.max (Z.abs (get_row node - get_row t))
                              (Z.abs (get_col node - get_col t)) -
                        Z.min (Z.abs (get_row node - get_row t))
                              (Z.abs (get_col node - get_col t))) *
                       VERT_HORZ_COST))) (g_nodes g))) p
            = with_heuristic tg p <$> node_at g p) as Hnodes.
  { intros [r c]. unfold node_at at 1. simpl. rewrite zlookup_map.
    unfold node_at. simpl.
    destruct (zlookup (g_nodes g) r) as [row|] eqn:Hrow; [|done]. simpl.
    rewrite zlookup_map. destruct (zlookup row c) as [n|] eqn:Hn; [|done]. simpl.
    f_equal. unfold with_heuristic, octile. f_equal.
    assert (node_at g (r, c) = Some n) as Hnode.
    { unfold node_at. simpl. by rewrite Hrow. }
    destruct tg as [tr tc].
    destruct (wf_node g Hwf r c n Hnode) as (Hr & Hc & _).
    destruct (wf_node g Hwf tr tc t Ht) as (Htr & Htc & _).
    unfold get_row, get_col. simpl. by rewrite Hr, Hc, Htr, Htc. }
  split_and!; try done. split; simpl; try apply Hwf.
  - rewrite length_map. apply Hwf.
  - intros row' Hrow'. apply list_elem_of_In, in_map_iff in Hrow'
      as (row & <- & Hrow). rewrite length_map. apply Hwf.
    by apply list_elem_of_In.
  - intros r c n. rewrite Hnodes.
    destruct (node_at g (r, c)) as [n0|] eqn:Hn0; [|done]. simpl.
    intros [= <-]. apply (wf_node g Hwf r c n0 Hn0).
Qed.

Lemma fresh_heuristic g gh tg :
  (forall p, node_at gh p = with_heuristic tg p <$> node_at g p) ->
  (forall p, gcost gh p = gcost g p) /\
  (forall p, valid gh p <-> valid g p) /\
  (forall p, walkable gh p <-> walkable g p) /\
  (forall p n, node_at gh p = Some n -> n_h_cost n = Some (octile p tg)).
Proof.
  intros Hnodes. split_and!.
  - intros p. unfold gcost. rewrite Hnodes. by destruct (node_at g p).
  - intros p. unfold valid. rewrite Hnodes. apply fmap_is_Some.
  - intros p. unfold walkable. rewrite Hnodes. split.
    + intros (n & Hn & Hw). destruct (node_at g p) as [n0|]; [|done].
      injection Hn as <-. eauto.
    + intros (n & -> & Hw). eauto.
  - intros p n. rewrite Hnodes. destruct (node_at g p); [|done].
    intros [= <-]. done.
Qed.

Lemma edge_ext g g' p q c :
  (forall p, valid g' p <-> valid g p) ->
  (forall p, walkable g' p <-> walkable g p) ->
  edge g' p q c <-> edge g p q c.
Proof. intros Hv Hw. unfold edge. by rewrite Hv, Hw. Qed.

Lemma reach_ext g g' s p k :
  (forall p, valid g' p <-> valid g p) ->
  (forall p, walkable g' p <-> walkable g p) ->
  reach g' s p k <-> reach g s p k.
Proof.
  intros Hv Hw. split; induction 1 as [|? ? ? ? ? IH He]; try constructor.
  - eapply reach_step; [done|]. by apply (edge_ext g g').
  - eapply reach_step; [done|]. by apply (edge_ext g g').
Qed.

Lemma empty_queue_heap_order : heap_order (q_elements (empty_queue (Id := Ref))).
Proof.
  intros c Hc a b Ha. apply zlookup_Some_range in Ha. simpl in Ha. lia.
Qed.

Lemma empty_queue_contents : contents (empty_queue (Id := Ref)) = ∅.
Proof. done. Qed.

(** A run of [find_path_nonvisual] on a fresh grid, seen with its locals.
    [gh] is the grid once the heuristics are set. *)
Lemma find_path_run_spec g st tg fuel :
  grid_wf g -> fresh g ->
  g_start g = Some st -> g_target g = Some tg ->
  valid g st -> valid g tg ->
  (Z.to_nat (g_rows g) * Z.to_nat (g_columns g) < fuel)%nat ->
  exists gh,
    calculate_all_h_costs g = Ok tt gh /\
    (forall p, node_at gh p = with_heuristic tg p <$> node_at g p) /\
    g_solved gh = g_solved g /\
    ((exists s',
        find_path_run false fuel (mkSearch g empty_queue ∅) = Ok tt s' /\
        search_result gh st s' /\ g_solved (s_grid s') = true /\
        tg ∈ s_closed s' /\ exists k, reach g st tg k) \/
     (exists s',
        find_path_run false fuel (mkSearch g empty_queue ∅) = Raise IndexError s' /\
        search_result gh st s' /\ g_solved (s_grid s') = g_solved g /\
        q_size (s_opened s') = 0 /\
        forall k, ~ reach g st tg k)).
Proof.
  intros Hwf Hfresh Hst Htg Hvst Hvtg Hfuel.
  destruct (calculate_all_h_costs_spec g tg Hwf Htg Hvtg)
    as (gh & Hrun & Hco & Hro & Hwi & Hhe & Hsta & Htar & Hsol & Hnodes & Hwfh).
  destruct (fresh_heuristic g gh tg Hnodes) as (Hgc & Hval & Hwalk & Hheur).
  exists gh. split_and!; try done.
  destruct Hvst as [ns Hns].
  set (nsh := with_heuristic tg st ns).
  assert (node_at gh st = Some nsh) as Hnsh by (by rewrite Hnodes, Hns).
  assert (n_g_cost nsh = None) as Hnsg.
  { specialize (Hfresh st). unfold gcost in Hfresh. by rewrite Hns in Hfresh. }
  set (g1 := set_node gh st (with_g_cost nsh 0)).
  assert (same_static gh g1) as Hs1.
  { unfold g1. eapply same_static_set_node; [by apply same_static_refl|done|done]. }
  assert (forall p, gcost g1 p = if decide (p = st) then Some 0 else None) as Hg1.
  { intros p. unfold g1. rewrite gcost_set_node by (by exists nsh).
    case_decide; [done|]. by rewrite Hgc. }
  destruct (insert_spec (empty_queue (Id := Ref)) (octile st tg + 0) st)
    as (q1 & Hins & Hwf1 & _ & Hheap1 & Hc1).
  { apply empty_queue_wf. }
  { apply empty_queue_heap_order. }
  { done. }
  assert (forall fuel',
            find_path_run false fuel' (mkSearch g empty_queue ∅) =
            find_path_loop false fuel' (mkSearch g1 q1 ∅)) as Hstart.
  { intros fuel'. unfold find_path_run.
    unfold bind at 1. unfold on_grid at 1. simpl. rewrite Hrun.
    unfold bind at 1, get at 1. simpl. rewrite Hsta, Hst. unfold the_node.
    unfold bind at 1, ret at 1.
    unfold bind at 1. rewrite (on_grid_deref _ _ _ _ _ Hnsh).
    unfold bind at 1. rewrite (on_grid_update_node _ _ _ _ _ _ Hnsh).
    unfold relax_g_cost. rewrite Hnsg. simpl.
    unfold bind at 1.
    rewrite (on_grid_f_cost_of _ _ _ st (with_g_cost nsh 0) (octile st tg) 0).
    - unfold bind at 1. unfold on_opened at 1. simpl. by rewrite Hins.
    - fold g1. unfold gcost in Hg1. specialize (Hg1 st).
      rewrite decide_True in Hg1 by done.
      unfold g1. rewrite node_at_set_node by (by exists nsh).
      by rewrite decide_True.
    - done.
    - done. }
  assert (inv gh st tg None (mkSearch g1 q1 ∅)) as Hinv.
  { split; simpl; try done.
    - intros p k. rewrite Hc1, empty_queue_contents.
      intros [[<- <-]|[_ ?]]%lookup_insert_Some; [|done].
      exists 0. by rewrite Hg1, decide_True.
    - intros p gp. rewrite Hg1. case_decide; [|done].
      intros [= <-]. subst p. constructor.
    - intros p gp. rewrite Hg1. case_decide; [|done]. subst p.
      intros _. right. left. rewrite Hc1, lookup_insert_eq. eauto.
    - by rewrite Hg1, decide_True.
    - intros p gp. rewrite Hg1. case_decide; [|done]. by subst p. }
  rewrite Hstart.
  destruct (find_path_loop_spec gh st tg Hheur (eq_trans Htar Htg) Hwfh fuel _ Hinv)
    as [(s' & Hloop & Hres & Hsolved & HtC & k & Hk)
       |(s' & Hloop & Hres & Hsolved & Hdrained & Hnone)].
  { simpl. pose proof (open_slots_bound gh ∅). rewrite Hro, Hco in *. lia. }
  - left. exists s'. split_and!; try done. exists k.
    by apply (reach_ext g gh).
  - right. exists s'. split_and!; try done; [congruence|].
    intros k Hk. apply (Hnone k). by apply (reach_ext g gh).
Qed.

(** ** Checking a given grid *)

(** [grid_wf], decided by going through the nodes. *)
Definition grid_wf_b (g : Grid) : bool :=
  (0 <? g_columns g) && (0 <? g_rows g) &&
  negb (cell_width g =? 0) && negb (cell_height g =? 0) &&
  (Z.of_nat (length (g_nodes g)) =? g_rows g) &&
  forallb (fun row => Z.of_nat (length row) =? g_columns g) (g_nodes g) &&
  forallb (fun b : bool => b)
    (imap (fun r row =>
       forallb (fun b : bool => b)
         (imap (fun c n =>
            bool_decide (n_row n = Z.of_nat r /\ n_col n = Z.of_nat c /\
                         n_pos n = (cell_width g * Z.of_nat c,
                                    cell_height g * Z.of_nat r)))
               row))
       (g_nodes g)).

Lemma grid_wf_b_sound g : grid_wf_b g = true -> grid_wf g.
Proof.
  unfold grid_wf_b. rewrite !andb_true_iff.
  intros [[[[[[Hc%Z.ltb_lt Hr%Z.ltb_lt] Hcw%negb_true_iff] Hch%negb_true_iff]
             Hlen%Z.eqb_eq] Hrows] Hnodes].
  rewrite forallb_forall in Hrows. rewrite forallb_forall in Hnodes.
  split; try done.
  - by apply Z.eqb_neq.
  - by apply Z.eqb_neq.
  - intros row Hrow%list_elem_of_In. by apply Z.eqb_eq, Hrows.
  - intros r c n Hn. unfold node_at in Hn. simpl in Hn.
    destruct (zlookup (g_nodes g) r) as [row|] eqn:Hrow; [|done].
    pose proof (zlookup_Some_range _ _ _ Hrow) as Rr.
    pose proof (zlookup_Some_range _ _ _ Hn) as Rc.
    unfold zlookup in Hrow, Hn.
    destruct (0 <=? r); [|done]. destruct (0 <=? c); [|done].
    specialize (Hnodes
      (forallb (fun b : bool => b)
         (imap (fun c n =>
            bool_decide (n_row n = Z.of_nat (Z.to_nat r) /\
                         n_col n = Z.of_nat c /\
                         n_pos n = (cell_width g * Z.of_nat c,
                                    cell_height g * Z.of_nat (Z.to_nat r))))
               row))).
    rewrite forallb_forall in Hnodes.
    specialize (Hnodes ltac:(
      apply list_elem_of_In, (list_elem_of_lookup_2 _ (Z.to_nat r));
      by rewrite list_lookup_imap, Hrow)).
    specialize (Hnodes
      (bool_decide (n_row n = Z.of_nat (Z.to_nat r) /\
                    n_col n = Z.of_nat (Z.to_nat c) /\
                    n_pos n = (cell_width g * Z.of_nat (Z.to_nat c),
                               cell_height g * Z.of_nat (Z.to_nat r))))).
    specialize (Hnodes ltac:(
      apply list_elem_of_In, (list_elem_of_lookup_2 _ (Z.to_nat c));
      by rewrite list_lookup_imap, Hn)).
    apply bool_decide_eq_true in Hnodes. rewrite !Z2Nat.id in Hnodes by lia.
    done.
Qed.

(** A property of every node, decided by going through the nodes. *)
Lemma nodes_forallb g (P : Node -> bool) p n :
  forallb (forallb P) (g_nodes g) = true -> node_at g p = Some n -> P n = true.
Proof.
  intros Hall Hn. rewrite forallb_forall in Hall. unfold node_at in Hn.
  destruct (zlookup (g_nodes g) (fst p)) as [row|] eqn:Hrow; [|done].
  apply zlookup_elem_of, list_elem_of_In, Hall in Hrow.
  rewrite forallb_forall in Hrow. by apply Hrow, list_elem_of_In, (zlookup_elem_of _ _ _ Hn).
Qed.

Definition fresh_b (g : Grid) : bool :=
  forallb (forallb (fun n => bool_decide (n_g_cost n = None))) (g_nodes g).

Lemma fresh_b_sound g : fresh_b g = true -> fresh g.
Proof.
  intros Hall p. unfold gcost. destruct (node_at g p) as [n|] eqn:Hn; [|done].
  by apply (nodes_forallb g _ p n Hall), bool_decide_eq_true in Hn.
Qed.

Definition no_obstacle_b (g : Grid) : bool :=
  forallb (forallb (fun n => negb (is_obstacle n))) (g_nodes g).

Lemma no_obstacle_b_sound g :
  no_obstacle_b g = true -> forall p, valid g p -> walkable g p.
Proof.
  intros Hall p [n Hn]. exists n. split; [done|].
  apply (nodes_forallb g _ p n Hall), negb_true_iff in Hn.
  by apply bool_decide_eq_false in Hn.
Qed.

(** * The claims about the grid *)

(** The grid of a ten-by-five board of ten-pixel cells, as the constructor
    leaves it: start at (9, 4), target at (9, 0), no obstacle. *)
Definition example_grid : Grid :=
  match new_Grid 50 100 5 10 with
  | Ok _ g => g
  | _ => mkGrid 0 0 0 0 [] None None false
  end.

(** The same board once the obstacles around the target have been set. *)
Definition enclosed_grid : Grid :=
  match (update_node (8, 0) toggle_obstacle ;;
         update_node (8, 1) toggle_obstacle ;;
         update_node (9, 1) toggle_obstacle) example_grid with
  | Ok _ g => g
  | _ => example_grid
  end.

Lemma example_grid_facts :
  grid_wf example_grid /\ fresh example_grid /\
  g_start example_grid = Some (9, 4) /\ g_target example_grid = Some (9, 0) /\
  valid example_grid (9, 4) /\ valid example_grid (9, 0) /\
  g_solved example_grid = false.
Proof.
  split_and!.
  - apply grid_wf_b_sound. vm_compute. reflexivity.
  - apply fresh_b_sound. vm_compute. reflexivity.
  - vm_compute. reflexivity.
  - vm_compute. reflexivity.
  - vm_compute. eauto.
  - vm_compute. eauto.
  - vm_compute. reflexivity.
Qed.

(** C10. On a well-formed grid the two neighbour methods return normally
    for every node, the border included, and leave the grid as it is.  The
    first returns exactly the orthogonally adjacent nodes that are not
    obstacles and the second exactly the diagonally adjacent ones, each at
    most four and none twice; every node returned lies on the grid, so a
    position before the first row or column is left out and not taken from
    the opposite edge. *)
Theorem neighbours_exact (g : Grid) (u : Ref) :
  grid_wf g -> valid g u ->
  exists vh d,
    get_vert_horz_neighbours u g = Ok vh g /\
    get_diag_neighbors u g = Ok d g /\
    (forall m, m ∈ vh <-> orth_adjacent u m /\ walkable g m) /\
    (forall m, m ∈ d <-> diag_adjacent u m /\ walkable g m) /\
    NoDup vh /\ NoDup d /\
    (length vh <= 4)%nat /\ (length d <= 4)%nat /\
    (forall m, m ∈ vh ++ d ->
       0 <= fst m < g_rows g /\ 0 <= snd m < g_columns g).
Proof.
  intros Hwf Hv.
  destruct (vert_horz_neighbours_edges g u Hwf Hv) as (vh & Hvh & Hnd & Hlen & Hel).
  destruct (diag_neighbors_edges g u Hwf Hv) as (d & Hd & Hnd' & Hlen' & Hel').
  exists vh, d. split_and!; try done.
  intros [mr mc] [Hm|Hm]%elem_of_app.
  - apply Hel in Hm as (_ & n & Hn & _). by eapply node_at_range.
  - apply Hel' in Hm as (_ & n & Hn & _). by eapply node_at_range.
Qed.

Lemma neighbours_exact_witness :
  exists vh d,
    get_vert_horz_neighbours (9, 4) enclosed_grid = Ok vh enclosed_grid /\
    get_diag_neighbors (9, 4) enclosed_grid = Ok d enclosed_grid /\
    (forall m, m ∈ vh <-> orth_adjacent (9, 4) m /\ walkable enclosed_grid m) /\
    (forall m, m ∈ d <-> diag_adjacent (9, 4) m /\ walkable enclosed_grid m) /\
    NoDup vh /\ NoDup d /\
    (length vh <= 4)%nat /\ (length d <= 4)%nat /\
    (forall m, m ∈ vh ++ d ->
       0 <= fst m < g_rows enclosed_grid /\ 0 <= snd m < g_columns enclosed_grid).
Proof.
  apply (neighbours_exact enclosed_grid (9, 4)).
  - apply grid_wf_b_sound. vm_compute. reflexivity.
  - vm_compute. eauto.
Defined.

(** ** Paths on a grid without obstacles *)

(** Diagonal moves first, then straight ones: a sequence of moves from the
    corner to any node, at the octile distance. *)
Lemma corner_path g r c :
  grid_wf g -> (forall p, valid g p -> walkable g p) ->
  valid g (r, c) -> reach g (0, 0) (r, c) (octile (0, 0) (r, c)).
Proof.
  intros Hwf Hfree. remember (Z.to_nat (r + c)) as n eqn:Hn.
  revert r c Hn. induction n as [n IH] using lt_wf_ind. intros r c Hn Hv.
  pose proof (proj1 (valid_range g r c Hwf) Hv) as [Hr Hc].
  assert (forall r' c', 0 <= r' <= r -> 0 <= c' <= c -> valid g (r', c')) as Hvalid.
  { intros r' c' ? ?. apply (valid_range g r' c' Hwf). lia. }
  destruct (decide (r = 0)) as [->|Hr0]; destruct (decide (c = 0)) as [->|Hc0].
  - constructor.
  - replace (octile (0, 0) (0, c))
      with (octile (0, 0) (0, c - 1) + VERT_HORZ_COST)
      by (unfold octile, DIAG_COST, VERT_HORZ_COST; simpl; lia).
    eapply reach_step.
    + apply (IH (Z.to_nat (0 + (c - 1)))); [lia|done|]. apply Hvalid; lia.
    + split_and!; [apply Hvalid; lia|by apply Hfree|].
      left. split; [|done]. unfold orth_adjacent. simpl. lia.
  - replace (octile (0, 0) (r, 0))
      with (octile (0, 0) (r - 1, 0) + VERT_HORZ_COST)
      by (unfold octile, DIAG_COST, VERT_HORZ_COST; simpl; lia).
    eapply reach_step.
    + apply (IH (Z.to_nat (r - 1 + 0))); [lia|done|]. apply Hvalid; lia.
    + split_and!; [apply Hvalid; lia|by apply Hfree|].
      left. split; [|done]. unfold orth_adjacent. simpl. lia.
  - replace (octile (0, 0) (r, c))
      with (octile (0, 0) (r - 1, c - 1) + DIAG_COST)
      by (unfold octile, DIAG_COST, VERT_HORZ_COST; simpl; lia).
    eapply reach_step.
    + apply (IH (Z.to_nat (r - 1 + (c - 1)))); [lia|done|]. apply Hvalid; lia.
    + split_and!; [apply Hvalid; lia|by apply Hfree|].
      right. split; [|done]. unfold diag_adjacent. simpl. lia.
Qed.

(** The example board with the start moved to the corner and the target to
    row 7, column 3. *)
Definition corner_grid : Grid :=
  match (set_start_node (Some (0, 0)) ;; set_target_node (Some (7, 3)))
          example_grid with
  | Ok _ g => g
  | _ => example_grid
  end.

(** X18. A search without display on a freshly built grid ends.  When the
    grid has no obstacle and the start is the corner (0, 0), it ends with the
    grid solved and the g-cost of the target (r, c) equal to
    min(r, c) * 14 + (max(r, c) - min(r, c)) * 10.  Whatever the obstacles,
    the g-cost of every node the run has closed is the cost of a sequence of
    moves from the start to it, and no such sequence costs less. *)
Theorem search_cost_is_shortest (g : Grid) (st tg : Ref) (fuel : nat) :
  grid_wf g -> fresh g ->
  g_start g = Some st -> g_target g = Some tg ->
  valid g st -> valid g tg ->
  (Z.to_nat (g_rows g) * Z.to_nat (g_columns g) < fuel)%nat ->
  ((forall p, valid g p -> walkable g p) -> st = (0, 0) ->
   exists g',
     find_path_nonvisual fuel g = Ok tt g' /\ g_solved g' = true /\
     gcost g' tg =
       Some (Z.min (fst tg) (snd tg) * 14 +
             (Z.max (fst tg) (snd tg) - Z.min (fst tg) (snd tg)) * 10)) /\
  (exists s',
     (find_path_run false fuel (mkSearch g empty_queue ∅) = Ok tt s' \/
      find_path_run false fuel (mkSearch g empty_queue ∅) = Raise IndexError s') /\
     forall p, p ∈ s_closed s' ->
       exists gp, gcost (s_grid s') p = Some gp /\ reach g st p gp /\
                  forall k, reach g st p k -> gp <= k).
Proof.
  intros Hwf Hfresh Hst Htg Hvst Hvtg Hfuel.
  destruct (find_path_run_spec g st tg fuel Hwf Hfresh Hst Htg Hvst Hvtg Hfuel)
    as (gh & _ & Hnodes & _ & Hrun).
  destruct (fresh_heuristic g gh tg Hnodes) as (_ & Hval & Hwalk & _).
  assert (forall s', search_result gh st s' ->
            forall p, p ∈ s_closed s' ->
              exists gp, gcost (s_grid s') p = Some gp /\ reach g st p gp /\
                         forall k, reach g st p k -> gp <= k) as Hclosed.
  { intros s' Hres p Hp.
    destruct (res_closed gh st s' Hres p Hp) as (gp & Hgp & Hopt).
    exists gp. split_and!; [done| |].
    - apply (reach_ext g gh); [done..|]. by apply (res_reach gh st s' Hres).
    - intros k Hk. apply Hopt. by apply (reach_ext g gh). }
  split.
  - intros Hfree ->. destruct tg as [r c].
    pose proof (corner_path g r c Hwf Hfree Hvtg) as Hpath.
    destruct Hrun as [(s' & Hrun & Hres & Hsolved & HtC & _)
                     |(s' & _ & _ & _ & _ & Hnone)]; [|by destruct (Hnone _ Hpath)].
    exists (s_grid s'). split_and!; [|done|].
    + unfold find_path_nonvisual, run_search. by rewrite Hrun.
    + destruct (Hclosed s' Hres (r, c) HtC) as (gt & Hgt & Hreach & Hopt).
      rewrite Hgt. f_equal.
      pose proof (Hopt _ Hpath) as Hle.
      pose proof (reach_lower_bound g (0, 0) (r, c) gt (r, c) Hreach) as Hge.
      rewrite octile_self in Hge.
      pose proof (proj1 (valid_range g r c Hwf) Hvtg) as [Hr Hc].
      unfold octile, DIAG_COST, VERT_HORZ_COST in *. simpl in *. lia.
  - destruct Hrun as [(s' & Hrun & Hres & _)|(s' & Hrun & Hres & _)];
      exists s'; eauto.
Qed.

Lemma search_cost_is_shortest_witness :
  exists g',
    find_path_nonvisual 51 corner_grid = Ok tt g' /\ g_solved g' = true /\
    gcost g' (7, 3) = Some 82.
Proof.
  destruct (search_cost_is_shortest corner_grid (0, 0) (7, 3) 51) as [Hcost _].
  - apply grid_wf_b_sound. vm_compute. reflexivity.
  - apply fresh_b_sound. vm_compute. reflexivity.
  - vm_compute. reflexivity.
  - vm_compute. reflexivity.
  - vm_compute. eauto.
  - vm_compute. eauto.
  - vm_compute. lia.
  - apply Hcost; [|reflexivity].
    apply no_obstacle_b_sound. vm_compute. reflexivity.
Defined.

(** The corner board after [solve] without display. *)
Definition solved_corner_grid : Grid :=
  match solve 51 false corner_grid with
  | Ok _ g => g
  | _ => corner_grid
  end.

(** C1. The claim does not hold of the code on a grid that has been
    searched before.  The corner board has no obstacle; [solve] finds the
    target (7, 3) at the cost 3 * 14 + 4 * 10 = 82.  The grid it leaves
    has no obstacle either, and the same start and target, but the nodes
    keep their g-costs: the next search from (0, 0) relaxes no neighbour of
    the start, ends with the [IndexError] of the empty queue instead of
    reaching the target, and [solve] marks the target as having no
    solution. *)
Lemma second_search_misses_the_target :
  exists g2 g3,
    (forall p, valid corner_grid p -> walkable corner_grid p) /\
    solve 51 false corner_grid = Ok tt solved_corner_grid /\
    g_solved solved_corner_grid = true /\
    gcost solved_corner_grid (7, 3) = Some 82 /\
    (forall p, valid solved_corner_grid p -> walkable solved_corner_grid p) /\
    g_start solved_corner_grid = Some (0, 0) /\
    g_target solved_corner_grid = Some (7, 3) /\
    reach solved_corner_grid (0, 0) (7, 3) 82 /\
    find_path_nonvisual 51 solved_corner_grid = Raise IndexError g2 /\
    find_path 51 solved_corner_grid = Raise IndexError g2 /\
    solve 51 false solved_corner_grid = Ok tt g3 /\
    n_state <$> node_at g3 (7, 3) = Some NO_SOL_TARGET.
Proof.
  assert (forall p, valid solved_corner_grid p -> walkable solved_corner_grid p)
    as Hfree.
  { apply no_obstacle_b_sound. vm_compute. reflexivity. }
  eexists _, _. split_and!.
  - apply no_obstacle_b_sound. vm_compute. reflexivity.
  - vm_compute. reflexivity.
  - vm_compute. reflexivity.
  - vm_compute. reflexivity.
  - exact Hfree.
  - vm_compute. reflexivity.
  - vm_compute. reflexivity.
  - apply (corner_path solved_corner_grid 7 3).
    + apply grid_wf_b_sound. vm_compute. reflexivity.
    + exact Hfree.
    + vm_compute. eauto.
  - vm_compute. reflexivity.
  - vm_compute. reflexivity.
  - vm_compute. reflexivity.
  - vm_compute. reflexivity.
Qed.

(** ** A target out of reach *)

Definition unreachable (g : Grid) (st tg : Ref) : Prop :=
  forall k, ~ reach g st tg k.

(** Every node of the grid next to [tg], in any of the eight directions,
    is an obstacle. *)
Definition enclosed (g : Grid) (tg : Ref) : Prop :=
  forall p, orth_adjacent p tg \/ diag_adjacent p tg ->
            valid g p -> ~ walkable g p.

Lemma reach_end g s p k : reach g s p k -> p = s \/ walkable g p.
Proof. destruct 1 as [|p q k c _ (_ & Hw & _)]; [by left|by right]. Qed.

Lemma enclosed_unreachable g st tg :
  enclosed g tg -> st <> tg -> walkable g st -> unreachable g st tg.
Proof.
  intros Henc Hne Hst k Hk. inversion Hk as [|p q k' c Hp He]; subst; [done|].
  destruct He as (Hvp & _ & Hadj).
  assert (walkable g p) as Hwp.
  { destruct (reach_end g st p k' Hp) as [->|?]; done. }
  apply (Henc p); [|done..].
  destruct Hadj as [[? _]|[? _]]; [by left|by right].
Qed.

(** [enclosed], decided by looking at the eight slots around the target. *)
Definition enclosed_b (g : Grid) (tg : Ref) : bool :=
  forallb (fun off : Z * Z =>
             match node_at g (fst tg + fst off, snd tg + snd off) with
             | Some n => is_obstacle n
             | None => true
             end)
          [(-1, 0); (1, 0); (0, -1); (0, 1); (-1, -1); (1, -1); (-1, 1); (1, 1)].

Lemma enclosed_b_sound g tg : enclosed_b g tg = true -> enclosed g tg.
Proof.
  unfold enclosed_b. rewrite forallb_forall. intros Hall [pr pc] Hadj _ (n & Hn & Hw).
  destruct tg as [tr tc].
  specialize (Hall (pr - tr, pc - tc)). simpl in Hall.
  replace (tr + (pr - tr)) with pr in Hall by lia.
  replace (tc + (pc - tc)) with pc in Hall by lia.
  rewrite Hn in Hall. apply Hw.
  apply (bool_decide_eq_true_1 (n_state n = OBSTACLE)). apply Hall.
  unfold orth_adjacent, diag_adjacent in Hadj. simpl in Hadj.
  assert ((pr - tr = -1 /\ pc - tc = 0) \/ (pr - tr = 1 /\ pc - tc = 0) \/
          (pr - tr = 0 /\ pc - tc = -1) \/ (pr - tr = 0 /\ pc - tc = 1) \/
          (pr - tr = -1 /\ pc - tc = -1) \/ (pr - tr = 1 /\ pc - tc = -1) \/
          (pr - tr = -1 /\ pc - tc = 1) \/ (pr - tr = 1 /\ pc - tc = 1))
    as [[-> ->]|[[-> ->]|[[-> ->]|[[-> ->]|[[-> ->]|[[-> ->]|[[-> ->]|[-> ->]]]]]]]]
    by lia; tauto.
Qed.

Lemma find_path_nonvisual_unfold fuel g :
  find_path_nonvisual fuel g =
    match find_path_run false fuel (mkSearch g empty_queue ∅) with
    | Ok a s => Ok a (s_grid s)
    | Raise e s => Raise e (s_grid s)
    | OutOfFuel => OutOfFuel
    end.
Proof. done. Qed.

(** ** One relaxation *)

(** The display state [make_open] gives, whatever else the node holds. *)
Lemma make_open_state n :
  n_state (make_open n) =
    if decide (n_state n <> START /\ n_state n <> TARGET) then OPENED
    else n_state n.
Proof. unfold make_open. by case_decide. Qed.

(** The body of the loops over the neighbours, for the extracted node
    [u] with g-cost [gu] and a neighbour [m] at the move cost [c], in the
    search with display ([visual = true]) and without.  When the g-cost of
    [m] is defined and at most [gu + c], equal included, the step changes
    nothing.  When it is undefined or greater than [gu + c], [m] gets the
    g-cost [gu + c] and the predecessor [u]; if [m] is in the queue
    [decrease_key] sets its key to the new f-cost, otherwise [insert] adds
    it with that key; the search with display also gives a node it inserts
    the display state [OPENED], unless it is the start or the target. *)
Lemma relax_neighbour_effect (visual : bool) (g : Grid) (q : MinPriorityQueue Ref)
    (C : gset Ref) (u m : Ref) (c gu h : Z) (nu nm : Node) :
  node_at g u = Some nu -> n_g_cost nu = Some gu ->
  node_at g m = Some nm -> n_h_cost nm = Some h ->
  wf q -> heap_order (q_elements q) ->
  (forall k, contents q !! m = Some k ->
     exists gm, n_g_cost nm = Some gm /\ k = h + gm) ->
  (forall gm, n_g_cost nm = Some gm -> gm <= gu + c ->
     relax_neighbour visual u c m (mkSearch g q C) = Ok tt (mkSearch g q C)) /\
  ((n_g_cost nm = None \/ exists gm, n_g_cost nm = Some gm /\ gu + c < gm) ->
   exists g' q',
     relax_neighbour visual u c m (mkSearch g q C) = Ok tt (mkSearch g' q' C) /\
     g' = set_node g m
            (if visual && negb (bool_decide (is_Some (contents q !! m)))
             then make_open (set_prev (with_g_cost nm (gu + c)) u)
             else set_prev (with_g_cost nm (gu + c)) u) /\
     gcost g' m = Some (gu + c) /\ prev_at g' m = Some u /\
     (if bool_decide (is_Some (contents q !! m))
      then decrease_key m (h + (gu + c)) q
      else insert (h + (gu + c)) m q) = Ok tt q' /\
     wf q' /\ heap_order (q_elements q') /\
     contents q' = <[m := h + (gu + c)]> (contents q) /\
     n_state <$> node_at g' m =
       Some (if visual && negb (bool_decide (is_Some (contents q !! m)))
             then n_state (make_open nm) else n_state nm) /\
     forall p, p <> m -> node_at g' p = node_at g p).
Proof.
  intros Hnu Hgu Hnm Hh Hwf Hheap Hkey.
  assert (relax_neighbour visual u c m (mkSearch g q C) =
            (let '(n', relaxed) := relax_g_cost nm (gu + c) in
             on_grid (update_node m (fun _ => n')) ;;
             if relaxed then
               on_grid (update_node m (fun n => set_prev n u)) ;;
               do known <- on_opened (element_exists m);
               if known then
                 do f <- on_grid (f_cost_of m);
                 on_opened (decrease_key m f)
               else
                 do f <- on_grid (f_cost_of m);
                 on_opened (insert f m) ;;
                 if visual then on_grid (update_node m make_open) else ret tt
             else ret tt) (mkSearch g q C)) as Hstep.
  { unfold relax_neighbour.
    unfold bind at 1. rewrite (on_grid_deref _ _ _ _ _ Hnu).
    unfold get_g_cost. rewrite Hgu. unfold bind at 1, ret at 1.
    unfold bind at 1. by rewrite (on_grid_deref _ _ _ _ _ Hnm). }
  rewrite Hstep. clear Hstep. split.
  - (* no improvement *)
    intros gm Hgm Hle. unfold relax_g_cost. rewrite Hgm.
    destruct (Z.ltb_spec (gu + c) gm); [lia|].
    unfold bind at 1. rewrite (on_grid_update_node _ _ _ _ _ _ Hnm).
    by rewrite set_node_id.
  - (* improvement *)
    intros Himp.
    assert (relax_g_cost nm (gu + c) = (with_g_cost nm (gu + c), true)) as ->.
    { unfold relax_g_cost. destruct Himp as [->|(gm & -> & Hlt)]; [done|].
      by destruct (Z.ltb_spec (gu + c) gm); [|lia]. }
    unfold bind at 1. rewrite (on_grid_update_node _ _ _ _ _ _ Hnm).
    set (g1 := set_node g m (with_g_cost nm (gu + c))).
    assert (node_at g1 m = Some (with_g_cost nm (gu + c))) as Hnm1.
    { unfold g1. rewrite node_at_set_node by (by exists nm). by rewrite decide_True. }
    unfold bind at 1. rewrite (on_grid_update_node _ _ _ _ _ _ Hnm1).
    set (n2 := set_prev (with_g_cost nm (gu + c)) u).
    set (g2 := set_node g1 m n2).
    assert (forall p, node_at g2 p = if decide (p = m) then Some n2 else node_at g p)
      as Hnode2.
    { intros p. unfold g2. rewrite node_at_set_node by (by eexists).
      case_decide; [done|]. unfold g1.
      rewrite node_at_set_node by (by exists nm). by rewrite decide_False. }
    assert (node_at g2 m = Some n2) as Hn2 by (by rewrite Hnode2, decide_True).
    unfold bind at 1. unfold on_opened at 1. cbn [s_opened s_grid s_closed].
    rewrite element_exists_spec by done.
    assert (on_grid (f_cost_of m) (mkSearch g2 q C)
            = Ok (h + (gu + c)) (mkSearch g2 q C)) as Hf.
    { by apply (on_grid_f_cost_of _ _ _ _ n2). }
    destruct (contents q !! m) as [km|] eqn:Hkm.
    + (* in the queue *)
      rewrite !bool_decide_eq_true_2 by eauto. rewrite andb_false_r.
      unfold bind at 1. rewrite Hf.
      destruct (Hkey km eq_refl) as (gm & Hgm & ->).
      assert (gu + c < gm) as Hlt.
      { destruct Himp as [?|(gm' & ? & ?)]; [congruence|]. congruence. }
      destruct (decrease_key_spec q m (h + (gu + c)) (h + gm))
        as (q' & Hrun & Hwf' & _ & Hheap' & Hc'); try done; [lia|].
      exists g2, q'. unfold on_opened. simpl. rewrite Hrun.
      split_and!; try done.
      * unfold g2, g1. apply set_node_set_node.
      * unfold gcost. by rewrite Hn2.
      * unfold prev_at. by rewrite Hn2.
      * by rewrite Hn2.
      * intros p Hp. by rewrite Hnode2, decide_False.
    + (* not in the queue *)
      rewrite !bool_decide_eq_false_2 by (by intros [? ?]). rewrite andb_true_r.
      unfold bind at 1. rewrite Hf.
      destruct (insert_spec q (h + (gu + c)) m)
        as (q' & Hrun & Hwf' & _ & Hheap' & Hc'); try done.
      unfold bind at 1. unfold on_opened at 1. simpl. rewrite Hrun.
      destruct visual.
      * rewrite (on_grid_update_node _ _ _ _ _ _ Hn2).
        exists (set_node g2 m (make_open n2)), q'.
        assert (forall p, node_at (set_node g2 m (make_open n2)) p =
                  if decide (p = m) then Some (make_open n2) else node_at g p)
          as Hnode3.
        { intros p. rewrite node_at_set_node by (by eexists).
          case_decide; [done|]. by rewrite Hnode2, decide_False. }
        split_and!; try done.
        -- unfold g2, g1. by rewrite !set_node_set_node.
        -- unfold gcost. rewrite Hnode3, decide_True by done.
           unfold make_open. by case_decide.
        -- unfold prev_at. rewrite Hnode3, decide_True by done.
           unfold make_open. by case_decide.
        -- rewrite Hnode3, decide_True by done. simpl.
           by rewrite !make_open_state.
        -- intros p Hp. by rewrite Hnode3, decide_False.
      * exists g2, q'. split_and!; try done.
        -- unfold g2, g1. apply set_node_set_node.
        -- unfold gcost. by rewrite Hn2.
        -- unfold prev_at. by rewrite Hn2.
        -- by rewrite Hn2.
        -- intros p Hp. by rewrite Hnode2, decide_False.
Qed.


(** ** What a run starts from *)

(** The example board after a search without display. *)
Definition searched_grid : Grid :=
  match find_path_nonvisual 51 example_grid with
  | Ok _ g => g
  | _ => example_grid
  end.

(** C2. The claim does not hold of the code: a run sets the heuristics
    and begins with an empty queue and an empty closed set, but it resets
    neither the g-costs nor the predecessors.  On the example board, solved
    once: the target still holds the g-cost 40 and its predecessor, and so
    do they once the next run has set the heuristics; a sequence of moves of
    cost 40 still leads from the start to the target; and yet the next
    search ends with the [IndexError] of the empty queue, the stale g-costs
    around the start keeping every node out of the queue, and [solve]
    reports that there is no solution. *)
Lemma search_state_survives_a_run :
  exists g1 gh g2 g3,
    find_path_nonvisual 51 example_grid = Ok tt searched_grid /\
    gcost searched_grid (9, 0) = Some 40 /\
    solve 51 false example_grid = Ok tt g1 /\ g_solved g1 = true /\
    gcost g1 (9, 0) = Some 40 /\ prev_at g1 (9, 0) = Some (9, 1) /\
    reach g1 (9, 4) (9, 0) 40 /\
    calculate_all_h_costs g1 = Ok tt gh /\
    gcost gh (9, 0) = Some 40 /\ prev_at gh (9, 0) = Some (9, 1) /\
    gcost gh (9, 3) = Some 10 /\ gcost gh (8, 3) = Some 14 /\
    gcost gh (8, 4) = Some 10 /\
    find_path_nonvisual 51 g1 = Raise IndexError g2 /\
    gcost g2 (9, 0) = Some 40 /\
    find_path 51 g1 = Raise IndexError g2 /\
    solve 51 false g1 = Ok tt g3 /\
    n_state <$> node_at g3 (9, 0) = Some NO_SOL_TARGET /\
    find_path_nonvisual 51 searched_grid = Raise IndexError searched_grid.
Proof.
  eexists _, _, _, _. split_and!.
  - vm_compute. reflexivity.
  - vm_compute. reflexivity.
  - vm_compute. reflexivity.
  - vm_compute. reflexivity.
  - vm_compute. reflexivity.
  - vm_compute. reflexivity.
  - replace 40 with (0 + 10 + 10 + 10 + 10) by reflexivity.
    eapply reach_step; [eapply reach_step; [eapply reach_step;
      [eapply reach_step; [apply reach_start|]|]|]|].
    + instantiate (1 := (9, 3)). unfold edge. split_and!.
      * vm_compute. eauto.
      * vm_compute. eexists. split; [reflexivity|discriminate].
      * left. split; [unfold orth_adjacent; simpl; lia|reflexivity].
    + instantiate (1 := (9, 2)). unfold edge. split_and!.
      * vm_compute. eauto.
      * vm_compute. eexists. split; [reflexivity|discriminate].
      * left. split; [unfold orth_adjacent; simpl; lia|reflexivity].
    + instantiate (1 := (9, 1)). unfold edge. split_and!.
      * vm_compute. eauto.
      * vm_compute. eexists. split; [reflexivity|discriminate].
      * left. split; [unfold orth_adjacent; simpl; lia|reflexivity].
    + unfold edge. split_and!.
      * vm_compute. eauto.
      * vm_compute. eexists. split; [reflexivity|discriminate].
      * left. split; [unfold orth_adjacent; simpl; lia|reflexivity].
  - vm_compute. reflexivity.
  - vm_compute. reflexivity.
  - vm_compute. reflexivity.
  - vm_compute. reflexivity.
  - vm_compute. reflexivity.
  - vm_compute. reflexivity.
  - vm_compute. reflexivity.
  - vm_compute. reflexivity.
  - vm_compute. reflexivity.
  - vm_compute. reflexivity.
  - vm_compute. reflexivity.
  - vm_compute. reflexivity.
Qed.

(** ** The path of predecessors *)

(** [chain g st cur path]: following the predecessors from [cur] passes the
    nodes of [path], none of them [st], and then arrives at [st]. *)
Inductive chain (g : Grid) (st : Ref) : option Ref -> list Ref -> Prop :=
| chain_end : chain g st (Some st) []
| chain_step p path :
    p <> st -> valid g p -> chain g st (prev_at g p) path ->
    chain g st (Some p) (p :: path).

Lemma chain_ext g g' st cur path :
  (forall p, valid g' p <-> valid g p) ->
  (forall p, prev_at g' p = prev_at g p) ->
  chain g st cur path -> chain g' st cur path.
Proof.
  intros Hv Hp. induction 1 as [|p path Hne Hvp _ IH]; constructor; try done.
  - by apply Hv.
  - by rewrite Hp.
Qed.

Lemma chain_functional g st cur path1 path2 :
  chain g st cur path1 -> chain g st cur path2 -> path1 = path2.
Proof.
  intros H1. revert path2. induction H1 as [|p path Hne Hvp _ IH]; intros path2 H2.
  - by inversion H2.
  - inversion H2 as [|p' path' _ _ H2']; subst; [done|]. f_equal. by apply IH.
Qed.

Lemma chain_avoids_start g st cur path : chain g st cur path -> st ∉ path.
Proof.
  induction 1 as [|p path Hne _ _ IH]; [apply not_elem_of_nil|].
  apply not_elem_of_cons. split; [done|apply IH].
Qed.

(** The chain from a node that lies on [path] is a strict suffix of it. *)
Lemma chain_suffix g st cur path p :
  chain g st cur path -> p ∈ path ->
  exists path', chain g st (prev_at g p) path' /\ (length path' < length path)%nat.
Proof.
  induction 1 as [|q path Hne Hvq Hq IH]; [by intros ?%elem_of_nil|].
  intros [->|Hp]%elem_of_cons.
  - exists path. split; [done|simpl; lia].
  - destruct (IH Hp) as (path' & Hc & Hlen). exists path'. split; [done|simpl; lia].
Qed.

Lemma chain_avoids_origin g st tg path :
  chain g st (prev_at g tg) path -> tg ∉ path.
Proof.
  intros Hc Hin. destruct (chain_suffix g st _ path tg Hc Hin) as (path' & Hc' & Hlen).
  rewrite (chain_functional g st _ path path' Hc Hc') in Hlen. lia.
Qed.

Lemma add_to_solution_idemp n :
  add_to_solution (add_to_solution n) = add_to_solution n.
Proof. done. Qed.

Lemma print_path_loop_spec st path :
  forall g cur fuel,
    g_start g = Some st -> chain g st cur path ->
    (length path < fuel)%nat ->
    exists g',
      print_path_loop fuel cur g = Ok tt g' /\
      g_start g' = g_start g /\ g_target g' = g_target g /\
      g_solved g' = g_solved g /\
      forall p, node_at g' p =
                  if decide (p ∈ path) then add_to_solution <$> node_at g p
                  else node_at g p.
Proof.
  induction path as [|x path IH]; intros g cur fuel Hst Hc Hfuel;
    (destruct fuel as [|fuel]; [simpl in Hfuel; lia|]).
  - inversion Hc; subst. exists g. split_and!; try done.
    simpl. unfold bind, get. rewrite Hst. by rewrite decide_False by (by intros ?).
  - inversion Hc as [|p path' Hne [n Hn] Hrest]; subst.
    set (g1 := set_node g x (add_to_solution n)).
    assert (forall p, node_at g1 p =
              if decide (p = x) then Some (add_to_solution n) else node_at g p)
      as Hnode1.
    { intros p. unfold g1. by rewrite node_at_set_node by (by exists n). }
    assert (prev_at g x = n_prev n) as Hprev by (unfold prev_at; by rewrite Hn).
    assert (chain g1 st (n_prev n) path) as Hc1.
    { rewrite <- Hprev. apply (chain_ext g); [| |done].
      - intros p. unfold valid. rewrite Hnode1. case_decide; [subst p|done].
        rewrite Hn. split; eauto.
      - intros p. unfold prev_at. rewrite Hnode1. case_decide; [subst p|done].
        by rewrite Hn. }
    destruct (IH g1 (n_prev n) fuel Hst Hc1) as (g' & Hrun & Hst' & Htg' & Hso' & Hnodes);
      [simpl in Hfuel; lia|].
    exists g'. split_and!; try done.
    + cbn [print_path_loop]. unfold bind at 1, get at 1. rewrite Hst.
      rewrite decide_True by congruence.
      unfold the_node. unfold bind at 1, ret at 1.
      unfold bind at 1, update_node at 1. rewrite Hn. fold g1.
      unfold bind at 1, deref at 1. rewrite Hnode1, decide_True by done.
      exact Hrun.
    + intros p. rewrite Hnodes, Hnode1.
      destruct (decide (p = x)) as [->|Hpx].
      * rewrite Hn. rewrite (decide_True (P := x ∈ x :: path)) by left.
        by case_decide.
      * destruct (decide (p ∈ path)) as [Hin|Hnin].
        -- by rewrite decide_True by (by right).
        -- rewrite decide_False; [done|]. by intros [?|?]%elem_of_cons.
Qed.

(** The first statements of a search, up to the loop: the heuristics are
    set, the start gets the g-cost 0 unless it holds a smaller one, and it
    is the one entry of the queue. *)
Lemma find_path_run_start g st tg :
  grid_wf g -> g_start g = Some st -> g_target g = Some tg ->
  valid g st -> valid g tg ->
  exists gh ns x q1,
    calculate_all_h_costs g = Ok tt gh /\
    (forall p, node_at gh p = with_heuristic tg p <$> node_at g p) /\
    g_target gh = g_target g /\ g_solved gh = g_solved g /\
    node_at gh st = Some ns /\
    n_g_cost (fst (relax_g_cost ns 0)) = Some x /\
    insert (octile st tg + x) st empty_queue = Ok tt q1 /\
    wf q1 /\ heap_order (q_elements q1) /\ q_size q1 = 1 /\
    contents q1 = {[st := octile st tg + x]} /\
    forall visual fuel,
      find_path_run visual fuel (mkSearch g empty_queue ∅) =
      find_path_loop visual fuel
        (mkSearch (set_node gh st (fst (relax_g_cost ns 0))) q1 ∅).
Proof.
  intros Hwf Hst Htg [ns0 Hns0] Hvtg.
  destruct (calculate_all_h_costs_spec g tg Hwf Htg Hvtg)
    as (gh & Hrun & _ & _ & _ & _ & Hsta & Htar & Hsol & Hnodes & _).
  set (ns := with_heuristic tg st ns0).
  assert (node_at gh st = Some ns) as Hns by (by rewrite Hnodes, Hns0).
  assert (exists x, n_g_cost (fst (relax_g_cost ns 0)) = Some x) as [x Hx].
  { unfold relax_g_cost. destruct (n_g_cost ns) as [y|] eqn:Hy; [|by eexists].
    destruct (0 <? y); [by eexists|]. simpl. eauto. }
  assert (n_h_cost (fst (relax_g_cost ns 0)) = Some (octile st tg)) as Hh.
  { unfold relax_g_cost. destruct (n_g_cost ns) as [y|]; [|done].
    by destruct (0 <? y). }
  destruct (insert_spec (empty_queue (Id := Ref)) (octile st tg + x) st)
    as (q1 & Hins & Hwf1 & Hsz1 & Hheap1 & Hc1).
  { apply empty_queue_wf. }
  { apply empty_queue_heap_order. }
  { done. }
  exists gh, ns, x, q1. split_and!; try done.
  intros visual fuel. unfold find_path_run.
  unfold bind at 1. unfold on_grid at 1. simpl. rewrite Hrun.
  unfold bind at 1, get at 1. simpl. rewrite Hsta, Hst. unfold the_node.
  unfold bind at 1, ret at 1.
  unfold bind at 1. rewrite (on_grid_deref _ _ _ _ _ Hns).
  unfold bind at 1. rewrite (on_grid_update_node _ _ _ _ _ _ Hns).
  unfold bind at 1.
  rewrite (on_grid_f_cost_of _ _ _ st (fst (relax_g_cost ns 0)) (octile st tg) x).
  - unfold bind at 1. unfold on_opened at 1. simpl. by rewrite Hins.
  - rewrite node_at_set_node by (by exists ns). by rewrite decide_True.
  - done.
  - done.
Qed.

(** ** Start and target in one node *)

(** The example board with the target attribute pointed at the start. *)
Definition same_cell_grid : Grid := with_target example_grid (Some (9, 4)).

(** C9, as stated, fails: the setters leave the board as it is when asked
    to put the target on the start or the start on the target; and on a
    board whose target attribute is the start all the same, the search ends
    solved with the g-cost 0, but the reconstruction that follows ends with
    an [AttributeError]: the target has no predecessor. *)
Lemma same_cell_reconstruction_raises :
  exists g1,
    set_target_node (Some (9, 4)) example_grid = Ok tt example_grid /\
    set_start_node (Some (9, 0)) example_grid = Ok tt example_grid /\
    find_path_nonvisual 51 same_cell_grid = Ok tt g1 /\
    g_solved g1 = true /\ gcost g1 (9, 4) = Some 0 /\
    print_path 51 g1 = Raise AttributeError g1 /\
    solve 51 false same_cell_grid = Raise AttributeError g1.
Proof.
  eexists. split_and!.
  - vm_compute. reflexivity.
  - vm_compute. reflexivity.
  - vm_compute. reflexivity.
  - vm_compute. reflexivity.
  - vm_compute. reflexivity.
  - vm_compute. reflexivity.
  - vm_compute. reflexivity.
Qed.

(** C9, amended.  [set_start_node] and [set_target_node] leave the grid as
    it is when asked to make the start and the target one node.  Were they
    one node of a freshly built grid, the search would end at its first
    extraction, solved, with the g-cost 0 and no other node given a g-cost.
    On a solved grid [print_path] follows the predecessors from the
    predecessor of the target until it arrives at the start and gives each
    node on the way the state [SOLUTION]; neither the start nor the target
    is among them, and no other node changes. *)
Theorem start_target_and_reconstruction :
  (forall g p, g_target g = Some p -> set_start_node (Some p) g = Ok tt g) /\
  (forall g p, g_start g = Some p -> set_target_node (Some p) g = Ok tt g) /\
  (forall g st fuel,
     grid_wf g -> fresh g ->
     g_start g = Some st -> g_target g = Some st -> valid g st ->
     exists g',
       find_path_nonvisual (S fuel) g = Ok tt g' /\ g_solved g' = true /\
       gcost g' st = Some 0 /\ forall p, p <> st -> gcost g' p = None) /\
  (forall g st tg path fuel,
     g_solved g = true -> g_start g = Some st -> g_target g = Some tg ->
     valid g tg -> chain g st (prev_at g tg) path ->
     (length path < fuel)%nat ->
     exists g',
       print_path fuel g = Ok tt g' /\ (st ∉ path) /\ (tg ∉ path) /\
       forall p, node_at g' p =
                   if decide (p ∈ path) then add_to_solution <$> node_at g p
                   else node_at g p).
Proof.
  split_and!.
  - intros g p Htg. unfold set_start_node, bind, get, ret.
    by rewrite decide_False by (by intros ?).
  - intros g p Hst. unfold set_target_node, bind, get, ret.
    by rewrite decide_False by (by intros ?).
  - intros g st fuel Hwf Hfresh Hst Htg Hv.
    destruct (find_path_run_start g st st Hwf Hst Htg Hv Hv)
      as (gh & ns & x & q1 & _ & Hnodes & Htar & _ & Hns & Hx & _ & Hwf1 & Hheap1
          & Hsz1 & Hc1 & Hrun).
    destruct (fresh_heuristic g gh st Hnodes) as (Hgc & _).
    assert (n_g_cost ns = None) as Hnone.
    { specialize (Hgc st). rewrite (Hfresh st) in Hgc. unfold gcost in Hgc.
      by rewrite Hns in Hgc. }
    assert (relax_g_cost ns 0 = (with_g_cost ns 0, true)) as Hrelax.
    { unfold relax_g_cost. by rewrite Hnone. }
    rewrite Hrelax in Hrun, Hx. simpl in Hrun, Hx. injection Hx as <-.
    destruct (extract_min_spec q1 Hwf1 Hheap1) as (e & k & q' & Hex & _ & Hek & _);
      [lia|].
    rewrite Hc1 in Hek. apply lookup_singleton_Some in Hek as [<- _].
    exists (with_solved (set_node gh st (with_g_cost ns 0)) true).
    split_and!; try done.
    + rewrite find_path_nonvisual_unfold, Hrun, find_path_loop_unfold.
      unfold bind at 1, on_opened at 1. simpl. rewrite Hex.
      unfold bind at 1, get at 1. simpl. rewrite Htar, Htg.
      by rewrite decide_True.
    + change (gcost (set_node gh st (with_g_cost ns 0)) st = Some 0).
      rewrite gcost_set_node by (by exists ns). by rewrite decide_True.
    + intros p Hp.
      change (gcost (set_node gh st (with_g_cost ns 0)) p = None).
      rewrite gcost_set_node by (by exists ns). rewrite decide_False by done.
      by rewrite Hgc.
  - intros g st tg path fuel Hsolved Hst Htg [n Hn] Hc Hfuel.
    destruct (print_path_loop_spec st path g (prev_at g tg) fuel Hst Hc Hfuel)
      as (g' & Hrun & _ & _ & _ & Hnodes).
    exists g'. split_and!; try done.
    + unfold print_path, bind, get. rewrite Hsolved, Htg. unfold the_node, ret, deref.
      rewrite Hn. unfold get_prev. unfold prev_at in Hrun. by rewrite Hn in Hrun.
    + by eapply chain_avoids_start.
    + by eapply chain_avoids_origin.
Qed.

Lemma start_target_and_reconstruction_witness :
  (exists g',
     find_path_nonvisual 1 same_cell_grid = Ok tt g' /\ g_solved g' = true /\
     gcost g' (9, 4) = Some 0 /\ forall p, p <> (9, 4) -> gcost g' p = None) /\
  (exists g',
     print_path 4 searched_grid = Ok tt g' /\
     forall p, node_at g' p =
                 if decide (p ∈ [(9, 1); (9, 2); (9, 3)])
                 then add_to_solution <$> node_at searched_grid p
                 else node_at searched_grid p).
Proof.
  destruct start_target_and_reconstruction as (_ & _ & Hsame & Hpath). split.
  - apply (Hsame same_cell_grid (9, 4) 0%nat).
    + apply grid_wf_b_sound. vm_compute. reflexivity.
    + apply fresh_b_sound. vm_compute. reflexivity.
    + vm_compute. reflexivity.
    + vm_compute. reflexivity.
    + vm_compute. eauto.
  - destruct (Hpath searched_grid (9, 4) (9, 0) [(9, 1); (9, 2); (9, 3)] 4%nat)
      as (g' & Hrun & _ & _ & Hnodes).
    + vm_compute. reflexivity.
    + vm_compute. reflexivity.
    + vm_compute. reflexivity.
    + vm_compute. eauto.
    + change (prev_at searched_grid (9, 0)) with (Some (9, 1)).
      apply chain_step; [discriminate|vm_compute; eauto|].
      change (prev_at searched_grid (9, 1)) with (Some (9, 2)).
      apply chain_step; [discriminate|vm_compute; eauto|].
      change (prev_at searched_grid (9, 2)) with (Some (9, 3)).
      apply chain_step; [discriminate|vm_compute; eauto|].
      change (prev_at searched_grid (9, 3)) with (Some (9, 4)).
      apply chain_end.
    + simpl. lia.
    + exists g'. split; [exact Hrun|exact Hnodes].
Defined.

(** * Further properties of the queue *)

(** What [get_key] returns on a queue in its invariant, read from what the
    queue holds. *)
Lemma get_key_contents `{Countable Id} (q : MinPriorityQueue Id) (e : Id) (k : Z) :
  wf q -> get_key e q = Ok k q <-> contents q !! e = Some k.
Proof.
  intros Hwf. rewrite get_key_spec by done.
  destruct (contents q !! e) as [k'|]; split; try done.
  - by intros [= ->].
  - by intros [= ->].
Qed.

(** No pair is stored twice: the mapping gives each identity one place. *)
Lemma wf_NoDup_elements `{Countable Id} (q : MinPriorityQueue Id) :
  wf q -> NoDup (q_elements q).
Proof.
  intros [_ Hm]. apply NoDup_alt. intros i j [kx ex] Hi Hj.
  assert (Z.of_nat i = Z.of_nat j); [|lia].
  eapply (mapping_ok_inj _ _ _ _ kx kx ex Hm); unfold zlookup.
  - destruct (Z.leb_spec 0 (Z.of_nat i)); [|lia]. by rewrite Nat2Z.id.
  - destruct (Z.leb_spec 0 (Z.of_nat j)); [|lia]. by rewrite Nat2Z.id.
Qed.

(** X1. [extract_min] on a non-empty queue in its invariant returns an
    identity of the queue whose key no other key is below, and takes that
    identity out: it is no longer there, the size is one less, every other
    identity keeps its key, and the invariant holds again. *)
Theorem extract_min_takes_a_smallest `{Countable Id} (q : MinPriorityQueue Id) :
  wf q -> heap_order (q_elements q) -> 0 < q_size q ->
  exists e k q',
    extract_min q = Ok e q' /\
    get_key e q = Ok k q /\
    (forall e' k', get_key e' q = Ok k' q -> k <= k') /\
    q_size q' = q_size q - 1 /\
    element_exists e q' = Ok false q' /\
    get_key e q' = Raise KeyError q' /\
    (forall e' k', e' <> e -> get_key e' q' = Ok k' q' <-> get_key e' q = Ok k' q) /\
    wf q' /\ heap_order (q_elements q').
Proof.
  intros Hwf Hheap Hpos.
  destruct (extract_min_spec q Hwf Hheap Hpos)
    as (e & k & q' & Hrun & _ & Hk & Hmin & Hwf' & Hsz & Hheap' & Hc).
  exists e, k, q'. split_and!; try done.
  - by apply get_key_contents.
  - intros e' k' Hk'. apply get_key_contents in Hk'; [|done]. by eapply Hmin.
  - rewrite element_exists_spec by done. rewrite Hc, lookup_delete_eq.
    by rewrite bool_decide_eq_false_2 by (by intros [? ?]).
  - rewrite get_key_spec by done. by rewrite Hc, lookup_delete_eq.
  - intros e' k' Hne. rewrite !get_key_contents by done.
    by rewrite Hc, lookup_delete_ne.
Qed.

Lemma extract_min_takes_a_smallest_witness :
  exists e k q',
    extract_min example_queue = Ok e q' /\
    get_key e example_queue = Ok k example_queue /\
    (forall e' k', get_key e' example_queue = Ok k' example_queue -> k <= k') /\
    q_size q' = q_size example_queue - 1 /\
    element_exists e q' = Ok false q' /\
    get_key e q' = Raise KeyError q' /\
    (forall e' k', e' <> e ->
       get_key e' q' = Ok k' q' <-> get_key e' example_queue = Ok k' example_queue) /\
    wf q' /\ heap_order (q_elements q').
Proof.
  apply (extract_min_takes_a_smallest example_queue).
  - apply example_queue_invariant.
  - apply example_queue_invariant.
  - vm_compute. reflexivity.
Defined.

(** X2. [insert k e] of an identity the queue does not hold returns
    normally: [e] is then in the queue under the key [k], the size is one
    more, every other identity keeps its key, and the invariant holds
    again. *)
Theorem insert_adds_the_entry `{Countable Id}
    (q : MinPriorityQueue Id) (k : Z) (e : Id) :
  wf q -> heap_order (q_elements q) ->
  element_exists e q = Ok false q ->
  exists q',
    insert k e q = Ok tt q' /\
    element_exists e q' = Ok true q' /\
    get_key e q' = Ok k q' /\
    q_size q' = q_size q + 1 /\
    q_elements q' ≡ₚ (k, e) :: q_elements q /\
    (forall e' k', e' <> e -> get_key e' q' = Ok k' q' <-> get_key e' q = Ok k' q) /\
    wf q' /\ heap_order (q_elements q').
Proof.
  intros Hwf Hheap Hnew. rewrite element_exists_spec in Hnew by done.
  assert (contents q !! e = None) as Hnone.
  { injection Hnew as Hb. apply bool_decide_eq_false in Hb.
    by apply eq_None_not_Some. }
  destruct (insert_spec q k e Hwf Hheap Hnone)
    as (q' & Hrun & Hwf' & Hsz & Hheap' & Hc).
  exists q'. split_and!; try done.
  - rewrite element_exists_spec by done. rewrite Hc, lookup_insert_eq.
    by rewrite bool_decide_eq_true_2 by eauto.
  - apply get_key_contents; [done|]. by rewrite Hc, lookup_insert_eq.
  - apply NoDup_Permutation.
    + by apply wf_NoDup_elements.
    + constructor; [|by apply wf_NoDup_elements].
      intros Hin. apply (wf_elem_contents q k e Hwf) in Hin. congruence.
    + intros [k' e']. rewrite elem_of_cons.
      rewrite (wf_elem_contents q' k' e' Hwf'), (wf_elem_contents q k' e' Hwf), Hc.
      rewrite lookup_insert_Some. split.
      * intros [[<- <-]|[? ?]]; [by left|by right].
      * intros [[= -> ->]|Hk']; [by left|]. right. split; [|done].
        intros <-. congruence.
  - intros e' k' Hne. rewrite !get_key_contents by done.
    by rewrite Hc, lookup_insert_ne.
Qed.

Lemma insert_adds_the_entry_witness :
  exists q',
    insert 4 7%nat example_queue = Ok tt q' /\
    element_exists 7%nat q' = Ok true q' /\
    get_key 7%nat q' = Ok 4 q' /\
    q_size q' = q_size example_queue + 1 /\
    q_elements q' ≡ₚ (4, 7%nat) :: q_elements example_queue /\
    (forall e' k', e' <> 7%nat ->
       get_key e' q' = Ok k' q' <-> get_key e' example_queue = Ok k' example_queue) /\
    wf q' /\ heap_order (q_elements q').
Proof.
  apply (insert_adds_the_entry example_queue 4 7%nat).
  - apply example_queue_invariant.
  - apply example_queue_invariant.
  - vm_compute. reflexivity.
Defined.

(** X3. [min_heapify i] on an array whose entries below position [i] are
    in heap order with their parents, so that only the entry at [i] may be
    above its children, returns normally with the same entries rearranged,
    the mapping following them, and heap order from position [i] on. *)
Theorem min_heapify_sifts_down `{Countable Id} (q : MinPriorityQueue Id) (i : Z) :
  wf q -> 0 <= i < q_size q ->
  heap_from (q_elements q) (i + 1) ->
  exists q',
    min_heapify i q = Ok tt q' /\
    wf q' /\ q_size q' = q_size q /\
    q_elements q' ≡ₚ q_elements q /\
    heap_from (q_elements q') i.
Proof.
  intros Hwf Hi Hheap. apply (min_heapify_spec q i i); [done|lia|lia|].
  split.
  - intros c Hc Hpc Hne. apply Hheap; [done|lia].
  - intros Hpos Hle. pose proof (parent_range i Hpos). lia.
Qed.

Lemma min_heapify_sifts_down_witness :
  exists q',
    min_heapify 0 example_queue = Ok tt q' /\
    wf q' /\ q_size q' = q_size example_queue /\
    q_elements q' ≡ₚ q_elements example_queue /\
    heap_from (q_elements q') 0.
Proof.
  apply (min_heapify_sifts_down example_queue 0).
  - apply example_queue_invariant.
  - split; [lia|]. vm_compute. reflexivity.
  - apply (heap_from_weaken _ 0); [lia|]. apply heap_from_0.
    apply example_queue_invariant.
Defined.

(** X4. [build_min_heap] on any array with a consistent mapping, in
    whatever order its entries are, returns normally with the same entries
    in min-heap order and the mapping consistent. *)
Theorem build_min_heap_orders `{Countable Id} (q : MinPriorityQueue Id) :
  wf q ->
  exists q',
    build_min_heap q = Ok tt q' /\
    wf q' /\ q_size q' = q_size q /\
    q_elements q' ≡ₚ q_elements q /\
    heap_order (q_elements q') /\
    (0 < q_size q ->
     exists k e, zlookup (q_elements q') 0 = Some (k, e) /\
                 forall k' e', (k', e') ∈ q_elements q -> k <= k').
Proof.
  intros Hwf.
  destruct (build_min_heap_spec q Hwf) as (q' & Hrun & Hwf' & Hsz & Hperm & Hheap).
  exists q'. split_and!; try done. intros Hpos.
  destruct (zlookup_is_Some (q_elements q') 0) as [[k e] H0].
  { destruct Hwf' as [Hs _]. lia. }
  exists k, e. split; [done|]. intros k' e' Hin. rewrite <- Hperm in Hin.
  apply elem_of_zlookup in Hin as (j & Hj).
  by apply (heap_root_min (q_elements q') (k, e) Hheap H0 j (k', e')).
Qed.

Lemma build_min_heap_orders_witness :
  exists q',
    build_min_heap example_queue = Ok tt q' /\
    wf q' /\ q_size q' = q_size example_queue /\
    q_elements q' ≡ₚ q_elements example_queue /\
    heap_order (q_elements q') /\
    (0 < q_size example_queue ->
     exists k e, zlookup (q_elements q') 0 = Some (k, e) /\
                 forall k' e', (k', e') ∈ q_elements example_queue -> k <= k').
Proof.
  apply (build_min_heap_orders example_queue). apply example_queue_invariant.
Defined.

(** X5. On a queue in its invariant neither [element_exists] nor [get_key]
    changes the queue; [element_exists] tells whether the identity is
    stored, and [get_key] returns the key stored with it and raises
    [KeyError] exactly when it is not stored. *)
Theorem lookups_read_the_array `{Countable Id} (q : MinPriorityQueue Id) (e : Id) :
  wf q ->
  element_exists e q = Ok (bool_decide (e ∈ (q_elements q).*2)) q /\
  (forall k, get_key e q = Ok k q <-> (k, e) ∈ q_elements q) /\
  (get_key e q = Raise KeyError q <-> e ∉ (q_elements q).*2) /\
  (forall r q', get_key e q = r -> r <> Raise IndexError q' /\ r <> OutOfFuel).
Proof.
  intros Hwf. split_and!.
  - rewrite element_exists_spec by done. f_equal. apply bool_decide_ext.
    rewrite <- not_eq_None_Some, <- (wf_absent q e Hwf). split.
    + intros Hn. by apply dec_stable.
    + by intros Hin Hn.
  - intros k. by rewrite get_key_contents, wf_elem_contents.
  - rewrite (wf_absent q e Hwf), get_key_spec by done.
    by destruct (contents q !! e).
  - intros r q' <-. rewrite get_key_spec by done.
    by destruct (contents q !! e).
Qed.

Lemma lookups_read_the_array_witness :
  element_exists 1%nat example_queue
    = Ok (bool_decide (1%nat ∈ (q_elements example_queue).*2)) example_queue /\
  (forall k, get_key 1%nat example_queue = Ok k example_queue <->
             (k, 1%nat) ∈ q_elements example_queue) /\
  (get_key 1%nat example_queue = Raise KeyError example_queue <->
   1%nat ∉ (q_elements example_queue).*2) /\
  (forall r q', get_key 1%nat example_queue = r ->
                r <> Raise IndexError q' /\ r <> OutOfFuel).
Proof.
  apply (lookups_read_the_array example_queue 1%nat).
  apply example_queue_invariant.
Defined.

(** X6. The index arithmetic of the heap: the parent of either child of a
    position is that position, every position after the root is one of the
    two children of its parent, which lies before it, the children of a
    position lie after it, and the parent of the root, by floor division,
    is -1. *)
Theorem parent_of_child (i : Z) :
  parent (leftchild i) = i /\
  parent (rightchild i) = i /\
  (0 < i -> 0 <= parent i < i /\
            (i = leftchild (parent i) \/ i = rightchild (parent i))) /\
  (0 <= i -> i < leftchild i < rightchild i) /\
  parent 0 = -1.
Proof.
  split_and!.
  - apply parent_leftchild.
  - apply parent_rightchild.
  - intros Hi. split; [by apply parent_range|by apply parent_child].
  - unfold leftchild, rightchild. lia.
  - reflexivity.
Qed.

(** * Further properties of the grid *)

(** ** Building the grid *)

Lemma zlookup_range n i :
  zlookup (range n) i = if decide (0 <= i < n) then Some i else None.
Proof.
  unfold zlookup, range. destruct (Z.leb_spec 0 i) as [Hi|Hi].
  - rewrite list_lookup_fmap. case_decide as Hr.
    + rewrite lookup_seq_lt by lia. simpl. f_equal. lia.
    + rewrite lookup_seq_ge by lia. done.
  - by rewrite decide_False by lia.
Qed.

Lemma length_range n : Z.of_nat (length (range n)) = Z.max 0 n.
Proof. unfold range. rewrite length_map, length_seq. lia. Qed.

(** The nodes [create_grid] builds, row by row. *)
Definition created_nodes (width height columns rows : Z) : list (list Node) :=
  map (fun row_index =>
         map (fun column_index => new_Node column_index row_index width height)
             (range columns))
      (range rows).

Lemma node_at_created g width height r c :
  g_nodes g = created_nodes width height (g_columns g) (g_rows g) ->
  node_at g (r, c) =
    if decide ((0 <= r < g_rows g) /\ (0 <= c < g_columns g))
    then Some (new_Node c r width height) else None.
Proof.
  intros Hnodes. unfold node_at. simpl. rewrite Hnodes. unfold created_nodes.
  rewrite zlookup_map, zlookup_range.
  destruct (decide (0 <= r < g_rows g)) as [Hr|Hr]; simpl.
  - rewrite zlookup_map, zlookup_range.
    destruct (decide (0 <= c < g_columns g)) as [Hc|Hc]; simpl.
    + by rewrite decide_True.
    + by rewrite decide_False by tauto.
  - by rewrite decide_False by tauto.
Qed.

Lemma create_grid_spec g :
  g_columns g <> 0 -> g_rows g <> 0 ->
  create_grid g =
    Ok tt (with_nodes (with_solved g false)
             (created_nodes (cell_width g) (cell_height g) (g_columns g) (g_rows g))).
Proof.
  intros Hc Hr. unfold create_grid, bind, get, floordiv, ret, put.
  apply Z.eqb_neq in Hc, Hr. by rewrite Hc, Hr.
Qed.

Lemma created_grid_wf g width height :
  0 < g_columns g -> 0 < g_rows g ->
  width = cell_width g -> height = cell_height g ->
  width <> 0 -> height <> 0 ->
  g_nodes g = created_nodes width height (g_columns g) (g_rows g) ->
  grid_wf g.
Proof.
  intros Hc Hr -> -> Hw Hh Hnodes. split; try done.
  - rewrite Hnodes. unfold created_nodes. rewrite length_map, length_range. lia.
  - intros row. rewrite Hnodes. unfold created_nodes.
    intros (r & -> & _)%list_elem_of_fmap. rewrite length_map, length_range. lia.
  - intros r c n. rewrite (node_at_created g _ _ r c Hnodes).
    case_decide; [|done]. by intros [= <-].
Qed.

(** Replacing a node by one in the same slot keeps the grid well formed. *)
Lemma grid_wf_set_node g p n n' :
  grid_wf g -> node_at g p = Some n ->
  n_row n' = n_row n -> n_col n' = n_col n -> n_pos n' = n_pos n ->
  grid_wf (set_node g p n').
Proof.
  intros Hwf Hn Hrow Hcol Hpos. assert (valid g p) as Hv by by exists n.
  destruct (set_node_shape g p n') as [Hlen Hrows].
  split; try apply Hwf.
  - rewrite Hlen. apply Hwf.
  - intros row' (row & Hin & ->)%Hrows. by apply Hwf.
  - intros r c m. rewrite node_at_set_node by done.
    case_decide as Hp; [subst p|apply Hwf].
    intros [= <-]. destruct (wf_node g Hwf r c n Hn) as (? & ? & ?).
    unfold cell_width, cell_height in *. simpl. split_and!; congruence.
Qed.

(** [nodes[i][j]] for a column counted from the end of the row. *)
Lemma nodes_getitem_from_end g i j :
  grid_wf g -> 0 <= i < g_rows g -> j < 0 ->
  nodes_getitem g i j =
    if decide (- g_columns g <= j) then Some (i, g_columns g + j) else None.
Proof.
  intros Hwf Hi Hj. unfold nodes_getitem, py_index.
  destruct (Z.leb_spec 0 i); [|lia].
  rewrite (wf_nrows g Hwf). destruct (Z.ltb_spec i (g_rows g)); [|lia].
  destruct (lookup_lt_is_Some_2 (g_nodes g) (Z.to_nat i)) as [row Hrow].
  { pose proof (wf_nrows g Hwf). lia. }
  rewrite Hrow.
  pose proof (wf_ncols g Hwf row (list_elem_of_lookup_2 _ _ _ Hrow)) as Hlen.
  destruct (Z.leb_spec 0 j); [lia|]. rewrite Hlen.
  destruct (Z.leb_spec (- g_columns g) j).
  - rewrite decide_True by done. f_equal. f_equal; lia.
  - by rewrite decide_False by lia.
Qed.

(** ** Placing the start and the target *)

Lemma with_state_twice n s s' : with_state (with_state n s) s' = with_state n s'.
Proof. done. Qed.

(** The nodes do not depend on the other attributes of the grid. *)
Lemma node_at_with_start g p q : node_at (with_start g p) q = node_at g q.
Proof. done. Qed.

Lemma node_at_with_target g p q : node_at (with_target g p) q = node_at g q.
Proof. done. Qed.

Lemma node_at_with_solved g b q : node_at (with_solved g b) q = node_at g q.
Proof. done. Qed.

(** [set_start_node(node)] for a node that is not the target: the old
    start, if there is one, becomes undiscovered and [node] the start. *)
Lemma set_start_node_spec g p n :
  node_at g p = Some n -> g_target g <> Some p ->
  (forall old, g_start g = Some old -> valid g old) ->
  exists g',
    set_start_node (Some p) g = Ok tt g' /\
    g_start g' = Some p /\ g_target g' = g_target g /\
    g_solved g' = g_solved g /\
    g_columns g' = g_columns g /\ g_rows g' = g_rows g /\
    g_width g' = g_width g /\ g_height g' = g_height g /\
    (forall q, node_at g' q =
       if decide (q = p) then Some (set_start n)
       else if decide (g_start g = Some q) then make_undiscovered <$> node_at g q
       else node_at g q) /\
    (grid_wf g -> grid_wf g').
Proof.
  intros Hn Htg Hold. unfold set_start_node, bind, get, ret.
  rewrite decide_True by done.
  destruct (g_start g) as [old|] eqn:Hst.
  - destruct (Hold old eq_refl) as [no Hno].
    unfold update_node at 1. rewrite Hno.
    set (g1 := set_node g old (make_undiscovered no)).
    assert (forall q, node_at g1 q =
              if decide (q = old) then Some (make_undiscovered no) else node_at g q)
      as Hnode1.
    { intros q. unfold g1. by rewrite node_at_set_node by (by exists no). }
    unfold update_node. rewrite Hnode1.
    destruct (decide (p = old)) as [->|Hpo].
    + assert (no = n) as -> by congruence.
      eexists. split; [reflexivity|]. split_and!; try done.
      * intros q. unfold modify. simpl. rewrite node_at_with_start.
        rewrite node_at_set_node by (unfold valid; rewrite Hnode1, decide_True by done; eauto).
        case_decide; [done|]. rewrite Hnode1, decide_False by done.
        by rewrite decide_False by congruence.
      * intros Hwf. unfold modify.
        assert (grid_wf g1) as Hwf1 by (by eapply grid_wf_set_node).
        assert (grid_wf (set_node g1 old (set_start (make_undiscovered n)))) as Hwf2.
        { apply (grid_wf_set_node g1 old (make_undiscovered n)); [done| |done..].
          by rewrite Hnode1, decide_True. }
        destruct Hwf2. by split.
    + rewrite Hn. eexists. split; [reflexivity|]. split_and!; try done.
      * intros q. unfold modify. simpl. rewrite node_at_with_start.
        rewrite node_at_set_node by (unfold valid; rewrite Hnode1, decide_False by done; eauto).
        case_decide; [done|]. rewrite Hnode1.
        destruct (decide (q = old)) as [->|Hqo].
        -- by rewrite decide_True, Hno.
        -- by rewrite decide_False by congruence.
      * intros Hwf. unfold modify.
        assert (grid_wf g1) as Hwf1 by (by eapply grid_wf_set_node).
        assert (grid_wf (set_node g1 p (set_start n))) as Hwf2.
        { apply (grid_wf_set_node g1 p n); [done| |done..].
          by rewrite Hnode1, decide_False. }
        destruct Hwf2. by split.
  - unfold update_node. rewrite Hn.
    eexists. split; [reflexivity|]. split_and!; try done.
    + intros q. unfold modify. simpl. rewrite node_at_with_start.
      rewrite node_at_set_node by (by exists n). by case_decide.
    + intros Hwf. unfold modify.
      assert (grid_wf (set_node g p (set_start n))) as Hwf2
        by (by eapply grid_wf_set_node).
      destruct Hwf2. by split.
Qed.

(** [set_target_node(node)] for a node that is not the start. *)
Lemma set_target_node_spec g p n :
  node_at g p = Some n -> g_start g <> Some p ->
  (forall old, g_target g = Some old -> valid g old) ->
  exists g',
    set_target_node (Some p) g = Ok tt g' /\
    g_target g' = Some p /\ g_start g' = g_start g /\
    g_solved g' = g_solved g /\
    g_columns g' = g_columns g /\ g_rows g' = g_rows g /\
    g_width g' = g_width g /\ g_height g' = g_height g /\
    (forall q, node_at g' q =
       if decide (q = p) then Some (set_target n)
       else if decide (g_target g = Some q) then make_undiscovered <$> node_at g q
       else node_at g q) /\
    (grid_wf g -> grid_wf g').
Proof.
  intros Hn Hst Hold. unfold set_target_node, bind, get, ret.
  rewrite decide_True by done.
  destruct (g_target g) as [old|] eqn:Htg.
  - destruct (Hold old eq_refl) as [no Hno].
    unfold update_node at 1. rewrite Hno.
    set (g1 := set_node g old (make_undiscovered no)).
    assert (forall q, node_at g1 q =
              if decide (q = old) then Some (make_undiscovered no) else node_at g q)
      as Hnode1.
    { intros q. unfold g1. by rewrite node_at_set_node by (by exists no). }
    unfold update_node. rewrite Hnode1.
    destruct (decide (p = old)) as [->|Hpo].
    + assert (no = n) as -> by congruence.
      eexists. split; [reflexivity|]. split_and!; try done.
      * intros q. unfold modify. simpl. rewrite node_at_with_target.
        rewrite node_at_set_node by (unfold valid; rewrite Hnode1, decide_True by done; eauto).
        case_decide; [done|]. rewrite Hnode1, decide_False by done.
        by rewrite decide_False by congruence.
      * intros Hwf. unfold modify.
        assert (grid_wf g1) as Hwf1 by (by eapply grid_wf_set_node).
        assert (grid_wf (set_node g1 old (set_target (make_undiscovered n)))) as Hwf2.
        { apply (grid_wf_set_node g1 old (make_undiscovered n)); [done| |done..].
          by rewrite Hnode1, decide_True. }
        destruct Hwf2. by split.
    + rewrite Hn. eexists. split; [reflexivity|]. split_and!; try done.
      * intros q. unfold modify. simpl. rewrite node_at_with_target.
        rewrite node_at_set_node by (unfold valid; rewrite Hnode1, decide_False by done; eauto).
        case_decide; [done|]. rewrite Hnode1.
        destruct (decide (q = old)) as [->|Hqo].
        -- by rewrite decide_True, Hno.
        -- by rewrite decide_False by congruence.
      * intros Hwf. unfold modify.
        assert (grid_wf g1) as Hwf1 by (by eapply grid_wf_set_node).
        assert (grid_wf (set_node g1 p (set_target n))) as Hwf2.
        { apply (grid_wf_set_node g1 p n); [done| |done..].
          by rewrite Hnode1, decide_False. }
        destruct Hwf2. by split.
  - unfold update_node. rewrite Hn.
    eexists. split; [reflexivity|]. split_and!; try done.
    + intros q. unfold modify. simpl. rewrite node_at_with_target.
      rewrite node_at_set_node by (by exists n). by case_decide.
    + intros Hwf. unfold modify.
      assert (grid_wf (set_node g p (set_target n))) as Hwf2
        by (by eapply grid_wf_set_node).
      destruct Hwf2. by split.
Qed.

Lemma set_start_node_default g p :
  nodes_getitem g DEFAULT_START_ROW DEFAULT_START_COL = Some p ->
  set_start_node None g = set_start_node (Some p) g.
Proof. intros Hp. unfold set_start_node, bind, get. by rewrite Hp. Qed.

Lemma set_target_node_default g p :
  nodes_getitem g DEFAULT_TARGET_ROW DEFAULT_TARGET_COL = Some p ->
  set_target_node None g = set_target_node (Some p) g.
Proof. intros Hp. unfold set_target_node, bind, get. by rewrite Hp. Qed.

(** The grid the constructor returns, node by node. *)
Lemma new_Grid_spec (width height columns rows : Z) :
  10 <= rows -> 5 <= columns -> columns <= width -> rows <= height ->
  exists g,
    new_Grid width height columns rows = Ok tt g /\
    grid_wf g /\ fresh g /\ g_solved g = false /\
    g_columns g = columns /\ g_rows g = rows /\
    g_width g = width /\ g_height g = height /\
    g_start g = Some (9, 4) /\
    g_target g = (if decide (columns = 9) then None else Some (9, columns - 5)) /\
    forall r c,
      node_at g (r, c) =
        if decide ((0 <= r < rows) /\ (0 <= c < columns)) then
          Some (with_state (new_Node c r (width / columns) (height / rows))
                  (if decide ((r, c) = (9, 4)) then START
                   else if decide (columns <> 9 /\ (r, c) = (9, columns - 5))
                        then TARGET
                        else UNDISCOVERED))
        else None.
Proof.
  intros Hrows Hcols Hwidth Hheight. unfold new_Grid.
  set (gi := mkGrid columns rows width height [] None None false).
  assert (0 < width / columns) as Hcw by (apply Z.div_str_pos; lia).
  assert (0 < height / rows) as Hch by (apply Z.div_str_pos; lia).
  set (g0 := with_nodes (with_solved gi false)
               (created_nodes (cell_width gi) (cell_height gi) columns rows)).
  assert (create_grid gi = Ok tt g0) as Hcreate.
  { apply create_grid_spec; simpl; lia. }
  assert (forall r c, node_at g0 (r, c) =
            if decide ((0 <= r < rows) /\ (0 <= c < columns))
            then Some (new_Node c r (width / columns) (height / rows)) else None)
    as Hnode0.
  { intros r c. by rewrite (node_at_created g0 (width / columns) (height / rows)). }
  assert (grid_wf g0) as Hwf0.
  { apply (created_grid_wf g0 (width / columns) (height / rows)); simpl; try done; lia. }
  (* the start *)
  assert (node_at g0 (9, 4) = Some (new_Node 4 9 (width / columns) (height / rows)))
    as Hn94.
  { rewrite Hnode0. by rewrite decide_True by lia. }
  destruct (set_start_node_spec g0 (9, 4) _ Hn94)
    as (g1 & Hrun1 & Hst1 & Htg1 & Hso1 & Hco1 & Hro1 & Hwi1 & Hhe1 & Hnode1 & Hwf1);
    [done|done|].
  specialize (Hwf1 Hwf0).
  assert (set_start_node None g0 = Ok tt g1) as Hstart.
  { rewrite (set_start_node_default g0 (9, 4)); [done|].
    unfold DEFAULT_START_ROW, DEFAULT_START_COL.
    rewrite nodes_getitem_nonneg by lia. by rewrite Hn94. }
  assert (nodes_getitem g1 DEFAULT_TARGET_ROW DEFAULT_TARGET_COL
          = Some (9, columns - 5)) as Hdefault.
  { unfold DEFAULT_TARGET_ROW, DEFAULT_TARGET_COL.
    rewrite nodes_getitem_from_end by (rewrite ?Hro1; simpl; done || lia).
    rewrite Hco1. simpl. rewrite decide_True by lia. do 2 f_equal. }
  unfold bind at 1. rewrite Hcreate.
  unfold bind at 1. rewrite Hstart.
  unfold bind at 1. rewrite (set_target_node_default g1 _ Hdefault).
  destruct (decide (columns = 9)) as [->|Hne].
  - (* the default target is the start *)
    assert (set_target_node (@Some Ref (9, 9 - 5)) g1 = Ok tt g1) as ->.
    { unfold set_target_node, bind, get, ret. rewrite Hst1.
      by rewrite decide_False by (by intros ?). }
    exists (with_solved g1 false). split; [done|].
    split_and!; try done.
    + destruct Hwf1. by split.
    + intros [r c]. unfold gcost. rewrite node_at_with_solved, Hnode1.
      case_decide; [done|]. simpl. rewrite Hnode0.
      by repeat case_decide.
    + intros r c. rewrite node_at_with_solved, Hnode1. simpl. rewrite Hnode0.
      repeat case_decide; simplify_eq; try done; exfalso;
        first [intuition lia|intuition congruence].
  - (* the target is another node *)
    assert (node_at g1 (9, columns - 5)
            = Some (new_Node (columns - 5) 9 (width / columns) (height / rows)))
      as Hntg.
    { rewrite Hnode1. rewrite decide_False by (intros [= ?]; lia). simpl.
      rewrite Hnode0. by rewrite decide_True by lia. }
    destruct (set_target_node_spec g1 (9, columns - 5) _ Hntg)
      as (g2 & Hrun2 & Htg2 & Hst2 & Hso2 & Hco2 & Hro2 & Hwi2 & Hhe2 & Hnode2 & Hwf2).
    { rewrite Hst1. intros [= ?]. lia. }
    { rewrite Htg1. done. }
    specialize (Hwf2 Hwf1). rewrite Hrun2.
    exists (with_solved g2 false). split; [done|].
    split_and!; try done; try congruence.
    + destruct Hwf2. by split.
    + intros [r c]. unfold gcost. rewrite node_at_with_solved, Hnode2.
      case_decide; [done|]. rewrite Htg1. simpl. rewrite Hnode1.
      case_decide; [done|]. simpl. rewrite Hnode0. by case_decide.
    + simpl. by rewrite Hco2, Hco1.
    + simpl. by rewrite Hro2, Hro1.
    + simpl. by rewrite Hwi2, Hwi1.
    + simpl. by rewrite Hhe2, Hhe1.
    + simpl. by rewrite Hst2.
    + intros r c. rewrite node_at_with_solved, Hnode2, Htg1. simpl.
      rewrite Hnode1. simpl. rewrite Hnode0.
      repeat case_decide; simplify_eq; try done; exfalso;
        first [intuition lia|intuition congruence].
Qed.

(** X8. What the constructor needs: with no columns or no rows it ends with
    the [ZeroDivisionError] of the cell size, and with fewer than ten rows
    or fewer than five columns with the [IndexError] of the default start
    node. *)
Theorem new_Grid_needs_room (width height columns rows : Z) :
  (columns = 0 \/ rows = 0 ->
   exists g, new_Grid width height columns rows = Raise ZeroDivisionError g) /\
  (columns <> 0 -> rows <> 0 -> rows < 10 \/ columns < 5 ->
   exists g, new_Grid width height columns rows = Raise IndexError g).
Proof.
  unfold new_Grid.
  set (gi := mkGrid columns rows width height [] None None false). split.
  - intros Hzero. unfold bind at 1. unfold create_grid, bind, get, floordiv, raise.
    simpl. destruct (Z.eqb_spec columns 0) as [_|Hc]; [by eexists|].
    destruct (Z.eqb_spec rows 0) as [_|Hr]; [by eexists|]. lia.
  - intros Hc Hr Hsmall.
    unfold bind at 1. rewrite create_grid_spec by done.
    set (g0 := with_nodes (with_solved gi false)
                 (created_nodes (cell_width gi) (cell_height gi)
                    (g_columns gi) (g_rows gi))).
    assert (nodes_getitem g0 DEFAULT_START_ROW DEFAULT_START_COL = None) as Hnone.
    { unfold DEFAULT_START_ROW, DEFAULT_START_COL.
      rewrite nodes_getitem_nonneg by lia.
      rewrite (node_at_created g0 (cell_width gi) (cell_height gi)) by done.
      rewrite decide_False; [done|]. simpl. lia. }
    unfold bind at 1. unfold set_start_node, bind, get. rewrite Hnone.
    by eexists.
Qed.

(** The start and the target attributes agree with the states of the
    nodes: the start, when set, is a node of the grid and the one node in
    the state [START], likewise the target, and they are not one node. *)
Record placed (g : Grid) : Prop := mk_placed {
  placed_start : forall p n,
    node_at g p = Some n -> n_state n = START <-> g_start g = Some p;
  placed_target : forall p n,
    node_at g p = Some n -> n_state n = TARGET <-> g_target g = Some p;
  placed_start_valid : forall p, g_start g = Some p -> valid g p;
  placed_target_valid : forall p, g_target g = Some p -> valid g p
}.

Lemma placed_apart g p : placed g -> g_start g = Some p -> g_target g <> Some p.
Proof.
  intros Hpl Hst Htg. destruct (placed_start_valid g Hpl p Hst) as [n Hn].
  pose proof (proj2 (placed_start g Hpl p n Hn) Hst).
  pose proof (proj2 (placed_target g Hpl p n Hn) Htg). congruence.
Qed.

(** X9. On a grid whose start and target attributes agree with the states
    of its nodes, [set_start_node] and [set_target_node] on a node of the
    grid return normally and keep them in agreement: one node at most is in
    the state [START] and it is the start, one at most in the state
    [TARGET] and it is the target, and the two differ.  The node becomes
    the start (the target) unless it is the target (the start), in which
    case nothing changes; when it does, it takes the state [START]
    ([TARGET]), the old start (target) returns to [UNDISCOVERED], and every
    other node stays as it is. *)
Theorem setters_keep_marks (g : Grid) (p : Ref) :
  placed g -> valid g p ->
  (exists g',
     set_start_node (Some p) g = Ok tt g' /\ placed g' /\
     g_target g' = g_target g /\
     (if decide (g_target g = Some p) then g' = g
      else g_start g' = Some p /\
           forall q, node_at g' q =
             if decide (q = p) then (fun n => with_state n START) <$> node_at g q
             else if decide (g_start g = Some q)
                  then (fun n => with_state n UNDISCOVERED) <$> node_at g q
                  else node_at g q) /\
     forall q, q <> p -> g_start g <> Some q -> node_at g' q = node_at g q) /\
  (exists g',
     set_target_node (Some p) g = Ok tt g' /\ placed g' /\
     g_start g' = g_start g /\
     (if decide (g_start g = Some p) then g' = g
      else g_target g' = Some p /\
           forall q, node_at g' q =
             if decide (q = p) then (fun n => with_state n TARGET) <$> node_at g q
             else if decide (g_target g = Some q)
                  then (fun n => with_state n UNDISCOVERED) <$> node_at g q
                  else node_at g q) /\
     forall q, q <> p -> g_target g <> Some q -> node_at g' q = node_at g q).
Proof.
  intros Hpl [n Hn]. split.
  - destruct (decide (g_target g = Some p)) as [Htg|Htg].
    { exists g. split_and!; try done.
      unfold set_start_node, bind, get, ret.
      by rewrite decide_False by (by intros ?). }
    destruct (set_start_node_spec g p n Hn Htg (placed_start_valid g Hpl))
      as (g' & Hrun & Hst' & Htg' & _ & _ & _ & _ & _ & Hnodes & _).
    exists g'. split_and!; try done.
    + split.
      * intros q m. rewrite Hnodes, Hst'. case_decide as Hq; [subst q|].
        { intros [= <-]. done. }
        case_decide as Hold.
        -- destruct (node_at g q) as [m0|]; [|done]. simpl. intros [= <-].
           simpl. split; [done|]. intros [= ?]. done.
        -- intros Hm. rewrite (placed_start g Hpl q m Hm). split; [done|].
           intros [= ?]. done.
      * intros q m. rewrite Hnodes, Htg'. case_decide as Hq; [subst q|].
        { intros [= <-]. simpl. split; [done|]. done. }
        case_decide as Hold.
        -- destruct (node_at g q) as [m0|]; [|done]. simpl. intros [= <-].
           simpl. split; [done|]. intros Hq'. by destruct (placed_apart g q Hpl).
        -- intros Hm. apply (placed_target g Hpl q m Hm).
      * intros q. rewrite Hst'. intros [= <-]. unfold valid. rewrite Hnodes.
        by rewrite decide_True.
      * intros q. rewrite Htg'. intros Hq. unfold valid. rewrite Hnodes.
        case_decide; [done|]. case_decide.
        -- apply fmap_is_Some. by apply (placed_target_valid g Hpl).
        -- by apply (placed_target_valid g Hpl).
    + intros q. rewrite Hnodes. case_decide as Hq; [subst q; by rewrite Hn|done].
    + intros q Hq Hold. rewrite Hnodes.
      by rewrite decide_False, decide_False by done.
  - destruct (decide (g_start g = Some p)) as [Hst|Hst].
    { exists g. split_and!; try done.
      unfold set_target_node, bind, get, ret.
      by rewrite decide_False by (by intros ?). }
    destruct (set_target_node_spec g p n Hn Hst (placed_target_valid g Hpl))
      as (g' & Hrun & Htg' & Hst' & _ & _ & _ & _ & _ & Hnodes & _).
    exists g'. split_and!; try done.
    + split.
      * intros q m. rewrite Hnodes, Hst'. case_decide as Hq; [subst q|].
        { intros [= <-]. simpl. split; [done|]. done. }
        case_decide as Hold.
        -- destruct (node_at g q) as [m0|]; [|done]. simpl. intros [= <-].
           simpl. split; [done|]. intros Hq'. by destruct (placed_apart g q Hpl).
        -- intros Hm. apply (placed_start g Hpl q m Hm).
      * intros q m. rewrite Hnodes, Htg'. case_decide as Hq; [subst q|].
        { intros [= <-]. done. }
        case_decide as Hold.
        -- destruct (node_at g q) as [m0|]; [|done]. simpl. intros [= <-].
           simpl. split; [done|]. intros [= ?]. done.
        -- intros Hm. rewrite (placed_target g Hpl q m Hm). split; [done|].
           intros [= ?]. done.
      * intros q. rewrite Hst'. intros Hq. unfold valid. rewrite Hnodes.
        case_decide; [done|]. case_decide.
        -- apply fmap_is_Some. by apply (placed_start_valid g Hpl).
        -- by apply (placed_start_valid g Hpl).
      * intros q. rewrite Htg'. intros [= <-]. unfold valid. rewrite Hnodes.
        by rewrite decide_True.
    + intros q. rewrite Hnodes. case_decide as Hq; [subst q; by rewrite Hn|done].
    + intros q Hq Hold. rewrite Hnodes.
      by rewrite decide_False, decide_False by done.
Qed.

(** The grid the constructor returns has its start and target in
    agreement with the states of its nodes. *)
Lemma new_Grid_placed width height columns rows g :
  10 <= rows -> 5 <= columns -> columns <= width -> rows <= height ->
  new_Grid width height columns rows = Ok tt g -> placed g.
Proof.
  intros Hrows Hcols Hwidth Hheight Hg.
  destruct (new_Grid_spec width height columns rows Hrows Hcols Hwidth Hheight)
    as (g' & Hg' & _ & _ & _ & _ & _ & _ & _ & Hst & Htg & Hnodes).
  assert (g' = g) as -> by congruence. split.
  - intros [r c] n. rewrite Hnodes, Hst.
    destruct (decide ((0 <= r < rows) /\ (0 <= c < columns))) as [Hin|]; [|done].
    intros [= <-]. simpl.
    repeat case_decide; simplify_eq; split; try done; congruence.
  - intros [r c] n. rewrite Hnodes, Htg.
    destruct (decide ((0 <= r < rows) /\ (0 <= c < columns))) as [Hin|]; [|done].
    intros [= <-]. simpl.
    repeat case_decide; simplify_eq; split; try done; try congruence;
      intros Heq; destruct_and?; simplify_eq; try done; exfalso;
      first [intuition lia|intuition congruence].
  - intros p. rewrite Hst. intros [= <-]. unfold valid. rewrite Hnodes.
    rewrite decide_True by lia. eauto.
  - intros [r c]. rewrite Htg. case_decide; [done|]. intros [= <- <-].
    unfold valid. rewrite Hnodes. rewrite decide_True by lia. eauto.
Qed.

(** X7. The constructor, for a grid of at least ten rows and five columns
    in a rectangle at least as wide as there are columns and as high as
    there are rows: it returns normally with a well-formed grid that is not
    solved, whose nodes carry no g-cost, heuristic or predecessor and are
    all undiscovered but the start, in row 9 and column 4, and the target,
    in row 9 and the fifth column from the end.  With nine columns the two
    defaults are one node, and the target is left unset.  The start and
    the target attributes agree with the states of the nodes. *)
Theorem new_Grid_builds (width height columns rows : Z) :
  10 <= rows -> 5 <= columns -> columns <= width -> rows <= height ->
  exists g,
    new_Grid width height columns rows = Ok tt g /\
    grid_wf g /\ fresh g /\ placed g /\ g_solved g = false /\
    g_columns g = columns /\ g_rows g = rows /\
    g_width g = width /\ g_height g = height /\
    g_start g = Some (9, 4) /\
    g_target g = (if decide (columns = 9) then None else Some (9, columns - 5)) /\
    forall r c,
      node_at g (r, c) =
        if decide ((0 <= r < rows) /\ (0 <= c < columns)) then
          Some (with_state (new_Node c r (width / columns) (height / rows))
                  (if decide ((r, c) = (9, 4)) then START
                   else if decide (columns <> 9 /\ (r, c) = (9, columns - 5))
                        then TARGET
                        else UNDISCOVERED))
        else None.
Proof.
  intros Hrows Hcols Hwidth Hheight.
  destruct (new_Grid_spec width height columns rows Hrows Hcols Hwidth Hheight)
    as (g & Hg & ? & ? & ? & ? & ? & ? & ? & ? & ? & ?).
  exists g. split_and!; try done. by eapply new_Grid_placed.
Qed.

Lemma new_Grid_builds_witness :
  exists g,
    new_Grid 750 500 30 20 = Ok tt g /\
    grid_wf g /\ fresh g /\ placed g /\ g_solved g = false /\
    g_columns g = 30 /\ g_rows g = 20 /\
    g_width g = 750 /\ g_height g = 500 /\
    g_start g = Some (9, 4) /\
    g_target g = (if decide (30 = 9) then None else Some (9, 30 - 5)) /\
    forall r c,
      node_at g (r, c) =
        if decide ((0 <= r < 20) /\ (0 <= c < 30)) then
          Some (with_state (new_Node c r (750 / 30) (500 / 20))
                  (if decide ((r, c) = (9, 4)) then START
                   else if decide (30 <> 9 /\ (r, c) = (9, 30 - 5))
                        then TARGET
                        else UNDISCOVERED))
        else None.
Proof. apply (new_Grid_builds 750 500 30 20); lia. Defined.

Lemma example_grid_placed : placed example_grid.
Proof.
  apply (new_Grid_placed 50 100 5 10); [lia..|]. vm_compute. reflexivity.
Qed.

Lemma setters_keep_marks_witness :
  (exists g',
     set_start_node (Some (3, 2)) example_grid = Ok tt g' /\ placed g' /\
     g_target g' = g_target example_grid /\
     (if decide (g_target example_grid = Some (3, 2)) then g' = example_grid
      else g_start g' = Some (3, 2) /\
           forall q, node_at g' q =
             if decide (q = (3, 2))
             then (fun n => with_state n START) <$> node_at example_grid q
             else if decide (g_start example_grid = Some q)
                  then (fun n => with_state n UNDISCOVERED) <$>
                         node_at example_grid q
                  else node_at example_grid q) /\
     forall q, q <> (3, 2) -> g_start example_grid <> Some q ->
               node_at g' q = node_at example_grid q) /\
  (exists g',
     set_target_node (Some (3, 2)) example_grid = Ok tt g' /\ placed g' /\
     g_start g' = g_start example_grid /\
     (if decide (g_start example_grid = Some (3, 2)) then g' = example_grid
      else g_target g' = Some (3, 2) /\
           forall q, node_at g' q =
             if decide (q = (3, 2))
             then (fun n => with_state n TARGET) <$> node_at example_grid q
             else if decide (g_target example_grid = Some q)
                  then (fun n => with_state n UNDISCOVERED) <$>
                         node_at example_grid q
                  else node_at example_grid q) /\
     forall q, q <> (3, 2) -> g_target example_grid <> Some q ->
               node_at g' q = node_at example_grid q).
Proof.
  apply (setters_keep_marks example_grid (3, 2)).
  - apply example_grid_placed.
  - vm_compute. eauto.
Defined.

(** ** The mouse on the grid *)

(** X10. [get_node] on a well-formed grid with cells of positive size, for
    a pixel with non-negative coordinates: when the pixel lies within the
    columns and rows it returns the node whose cell holds the pixel and
    leaves the grid as it is; for a pixel past the last column or the last
    row, as in the strip that a width not divisible by the number of
    columns leaves, it ends with [IndexError]. *)
Theorem get_node_finds_the_cell (g : Grid) (x y : Z) :
  grid_wf g -> 0 < cell_width g -> 0 < cell_height g -> 0 <= x -> 0 <= y ->
  (x < g_columns g * cell_width g -> y < g_rows g * cell_height g ->
   exists n,
     get_node (x, y) g = Ok (y / cell_height g, x / cell_width g) g /\
     node_at g (y / cell_height g, x / cell_width g) = Some n /\
     fst (n_pos n) <= x < fst (n_pos n) + cell_width g /\
     snd (n_pos n) <= y < snd (n_pos n) + cell_height g) /\
  (g_columns g * cell_width g <= x \/ g_rows g * cell_height g <= y ->
   get_node (x, y) g = Raise IndexError g).
Proof.
  intros Hwf Hcw Hch Hx Hy.
  assert (0 <= x / cell_width g) as Hj by (apply Z.div_pos; lia).
  assert (0 <= y / cell_height g) as Hi by (apply Z.div_pos; lia).
  assert (get_node (x, y) g =
          match node_at g (y / cell_height g, x / cell_width g) with
          | Some _ => Ok (y / cell_height g, x / cell_width g) g
          | None => Raise IndexError g
          end) as Hrun.
  { unfold get_node, bind, get, floordiv, ret, raise. simpl.
    fold (cell_width g). fold (cell_height g).
    destruct (Z.eqb_spec (g_columns g) 0) as [Hz|_].
    { pose proof (wf_columns g Hwf). lia. }
    destruct (Z.eqb_spec (cell_width g) 0) as [Hz|_]; [lia|].
    destruct (Z.eqb_spec (g_rows g) 0) as [Hz|_].
    { pose proof (wf_rows g Hwf). lia. }
    destruct (Z.eqb_spec (cell_height g) 0) as [Hz|_]; [lia|].
    rewrite nodes_getitem_nonneg by done.
    by destruct (node_at g (y / cell_height g, x / cell_width g)). }
  rewrite Hrun. split.
  - intros Hxr Hyr.
    destruct (proj2 (valid_range g (y / cell_height g) (x / cell_width g) Hwf))
      as [n Hn].
    { split; (split; [done|]); apply Z.div_lt_upper_bound; lia. }
    exists n. rewrite Hn. split_and!; try done.
    + destruct (wf_node g Hwf _ _ n Hn) as (_ & _ & ->). simpl.
      apply Z.mul_div_le. lia.
    + destruct (wf_node g Hwf _ _ n Hn) as (_ & _ & ->). simpl.
      pose proof (Z.mul_succ_div_gt x (cell_width g) Hcw). lia.
    + destruct (wf_node g Hwf _ _ n Hn) as (_ & _ & ->). simpl.
      apply Z.mul_div_le. lia.
    + destruct (wf_node g Hwf _ _ n Hn) as (_ & _ & ->). simpl.
      pose proof (Z.mul_succ_div_gt y (cell_height g) Hch). lia.
  - intros Hout.
    destruct (node_at g (y / cell_height g, x / cell_width g)) as [n|] eqn:Hn; [|done].
    apply (node_at_range g _ _ n Hwf) in Hn as [Hr Hc]. exfalso.
    destruct Hout as [Hout|Hout].
    + assert (g_columns g <= x / cell_width g); [|lia].
      apply Z.div_le_lower_bound; lia.
    + assert (g_rows g <= y / cell_height g); [|lia].
      apply Z.div_le_lower_bound; lia.
Qed.

Lemma get_node_finds_the_cell_witness :
  (12 < g_columns example_grid * cell_width example_grid ->
   57 < g_rows example_grid * cell_height example_grid ->
   exists n,
     get_node (12, 57) example_grid
       = Ok (57 / cell_height example_grid, 12 / cell_width example_grid)
            example_grid /\
     node_at example_grid
       (57 / cell_height example_grid, 12 / cell_width example_grid) = Some n /\
     fst (n_pos n) <= 12 < fst (n_pos n) + cell_width example_grid /\
     snd (n_pos n) <= 57 < snd (n_pos n) + cell_height example_grid) /\
  (g_columns example_grid * cell_width example_grid <= 12 \/
   g_rows example_grid * cell_height example_grid <= 57 ->
   get_node (12, 57) example_grid = Raise IndexError example_grid).
Proof.
  apply (get_node_finds_the_cell example_grid 12 57).
  - apply example_grid_facts.
  - vm_compute. reflexivity.
  - vm_compute. reflexivity.
  - lia.
  - lia.
Defined.

(** X12. [toggle_obstacle] changes nothing but the state, exchanges
    [UNDISCOVERED] and [OBSTACLE], leaves a node in any other state as it
    is, and undoes itself. *)
Theorem toggle_obstacle_twice (n : Node) :
  toggle_obstacle (toggle_obstacle n) = n /\
  with_state (toggle_obstacle n) (n_state n) = n /\
  n_state (toggle_obstacle n) =
    match n_state n with
    | UNDISCOVERED => OBSTACLE
    | OBSTACLE => UNDISCOVERED
    | s => s
    end.
Proof.
  destruct n as [ro co wi he po pr st h gc]. unfold toggle_obstacle. simpl.
  by destruct st.
Qed.

(** The slot of the cell that holds a pixel. *)
Definition cell_of (g : Grid) (pos : Z * Z) : Ref :=
  (snd pos / cell_height g, fst pos / cell_width g).

(** The pixel lies within the columns and rows of the grid. *)
Definition on_cells (g : Grid) (pos : Z * Z) : Prop :=
  (0 <= fst pos < g_columns g * cell_width g) /\
  (0 <= snd pos < g_rows g * cell_height g).

Lemma get_node_on_cells g pos :
  grid_wf g -> 0 < cell_width g -> 0 < cell_height g -> on_cells g pos ->
  get_node pos g = Ok (cell_of g pos) g /\ valid g (cell_of g pos).
Proof.
  intros Hwf Hcw Hch [Hx Hy]. destruct pos as [x y]. simpl in *.
  assert (0 <= x / cell_width g) as Hj by (apply Z.div_pos; lia).
  assert (0 <= y / cell_height g) as Hi by (apply Z.div_pos; lia).
  assert (valid g (cell_of g (x, y))) as Hv.
  { apply (valid_range g _ _ Hwf). simpl.
    split; (split; [done|]); apply Z.div_lt_upper_bound; lia. }
  split; [|done]. destruct Hv as [n Hn].
  unfold get_node, bind, get, floordiv, ret, raise. simpl.
  fold (cell_width g). fold (cell_height g).
  destruct (Z.eqb_spec (g_columns g) 0) as [Hz|_].
  { pose proof (wf_columns g Hwf). lia. }
  destruct (Z.eqb_spec (cell_width g) 0) as [Hz|_]; [lia|].
  destruct (Z.eqb_spec (g_rows g) 0) as [Hz|_].
  { pose proof (wf_rows g Hwf). lia. }
  destruct (Z.eqb_spec (cell_height g) 0) as [Hz|_]; [lia|].
  rewrite nodes_getitem_nonneg by done. unfold cell_of in Hn. simpl in Hn.
  by rewrite Hn.
Qed.

(** One mouse-down event on the grid while obstacles are being placed. *)
Lemma mouse_down_obstacle g S pos :
  grid_wf g -> 0 < cell_width g -> 0 < cell_height g -> on_cells g pos ->
  exists n,
    node_at g (cell_of g pos) = Some n /\
    handle_grid_mouse_down pos (mkProgram g S OBS_MODE) =
      Ok tt (mkProgram
               (if decide (cell_of g pos ∉ S)
                then set_node g (cell_of g pos) (toggle_obstacle n) else g)
               ({[cell_of g pos]} ∪ S) OBS_MODE).
Proof.
  intros Hwf Hcw Hch Hon.
  destruct (get_node_on_cells g pos Hwf Hcw Hch Hon) as [Hget [n Hn]].
  exists n. split; [done|].
  unfold handle_grid_mouse_down, bind, get, on_program_grid, set_as_obstacle.
  simpl. unfold bind. rewrite Hget.
  destruct (decide (cell_of g pos ∉ S)) as [Hnew|Hold]; [|done].
  unfold update_node. by rewrite Hn.
Qed.

Lemma toggle_obstacle_static n :
  n_row (toggle_obstacle n) = n_row n /\ n_col (toggle_obstacle n) = n_col n /\
  n_pos (toggle_obstacle n) = n_pos n.
Proof. unfold toggle_obstacle. by repeat case_decide. Qed.

(** X11. While obstacles are being placed, a run of mouse-down events over
    the cells of the grid toggles every node the mouse passes at most once:
    when they are all handled, the nodes under the pixels that were not yet
    in the current selection have been toggled once, every other node is as
    before, and the selection holds the old selection and the nodes
    passed. *)
Theorem drag_toggles_once (ps : list (Z * Z)) :
  forall (g : Grid) (S : gset Ref),
    grid_wf g -> 0 < cell_width g -> 0 < cell_height g ->
    (forall pos, pos ∈ ps -> on_cells g pos) ->
    exists g',
      for_each ps handle_grid_mouse_down (mkProgram g S OBS_MODE) =
        Ok tt (mkProgram g' (list_to_set (cell_of g <$> ps) ∪ S) OBS_MODE) /\
      grid_wf g' /\ g_start g' = g_start g /\ g_target g' = g_target g /\
      forall q, node_at g' q =
                  if decide (q ∈ cell_of g <$> ps /\ q ∉ S)
                  then toggle_obstacle <$> node_at g q
                  else node_at g q.
Proof.
  induction ps as [|pos ps IH]; intros g S Hwf Hcw Hch Hon.
  - exists g. split_and!; try done.
    simpl. unfold ret. do 2 f_equal. by rewrite (left_id_L ∅ (∪)).
  - destruct (mouse_down_obstacle g S pos Hwf Hcw Hch) as (n & Hn & Hstep).
    { apply Hon. left. }
    set (q0 := cell_of g pos) in *.
    set (g1 := if decide (q0 ∉ S) then set_node g q0 (toggle_obstacle n) else g)
      in *.
    assert (grid_wf g1) as Hwf1.
    { unfold g1. case_decide; [|done].
      destruct (toggle_obstacle_static n) as (? & ? & ?).
      by apply (grid_wf_set_node g q0 n). }
    assert (cell_width g1 = cell_width g /\ cell_height g1 = cell_height g /\
            g_columns g1 = g_columns g /\ g_rows g1 = g_rows g /\
            g_start g1 = g_start g /\ g_target g1 = g_target g)
      as (Hcw1 & Hch1 & Hco1 & Hro1 & Hst1 & Htg1).
    { unfold g1. by case_decide. }
    assert (forall pos', cell_of g1 pos' = cell_of g pos') as Hcell.
    { intros pos'. unfold cell_of. by rewrite Hcw1, Hch1. }
    destruct (IH g1 ({[q0]} ∪ S) Hwf1) as (g' & Hrun & Hwf' & Hst' & Htg' & Hnodes).
    { lia. }
    { lia. }
    { intros pos' Hin. unfold on_cells. rewrite Hcw1, Hch1, Hco1, Hro1.
      apply Hon. by right. }
    exists g'. split_and!; try done; try congruence.
    + cbn [for_each]. unfold bind at 1. rewrite Hstep. rewrite Hrun.
      do 2 f_equal. rewrite (list_fmap_ext (cell_of g1) (cell_of g) ps)
        by (intros; apply Hcell).
      rewrite fmap_cons. fold q0. apply set_eq. intros x.
      set_unfold. tauto.
    + intros q. rewrite Hnodes.
      rewrite (list_fmap_ext (cell_of g1) (cell_of g) ps)
        by (intros; apply Hcell).
      rewrite fmap_cons. fold q0.
      assert (node_at g1 q =
              if decide (q = q0 /\ q0 ∉ S) then Some (toggle_obstacle n)
              else node_at g q) as Hnode1.
      { unfold g1. destruct (decide (q0 ∉ S)) as [Hnew|Hold].
        - rewrite node_at_set_node by (by exists n).
          destruct (decide (q = q0)) as [->|Hne].
          + by rewrite decide_True.
          + by rewrite decide_False by tauto.
        - by rewrite decide_False by tauto. }
      rewrite Hnode1.
      destruct (decide (q = q0)) as [->|Hne].
      * rewrite (decide_False (P := _ /\ q0 ∉ {[q0]} ∪ S)) by (set_unfold; tauto).
        destruct (decide (q0 ∉ S)) as [Hnew|Hold].
        -- rewrite decide_True by done. rewrite decide_True by (set_unfold; tauto).
           by rewrite Hn.
        -- rewrite decide_False by tauto. by rewrite decide_False by tauto.
      * rewrite (decide_False (P := q = q0 /\ _)) by tauto.
        destruct (decide (q ∈ cell_of g <$> ps /\ q ∉ S)) as [[Hin HnS]|Hno].
        -- rewrite decide_True by (set_unfold; tauto). by rewrite decide_True by (set_unfold; tauto).
        -- rewrite decide_False by (set_unfold; tauto). by rewrite decide_False by (set_unfold; tauto).
Qed.

(** The current selection when a run of mouse-down events begins: the
    mouse-up event has emptied it. *)
Definition no_selection : gset Ref := ∅.

Lemma drag_toggles_once_witness :
  exists g',
    for_each [(12, 57); (13, 58); (30, 57)] handle_grid_mouse_down
      (mkProgram example_grid no_selection OBS_MODE) =
      Ok tt (mkProgram g'
               (list_to_set (cell_of example_grid <$> [(12, 57); (13, 58); (30, 57)])
                ∪ no_selection) OBS_MODE) /\
    grid_wf g' /\
    (forall q, q ∈ cell_of example_grid <$> [(12, 57); (13, 58); (30, 57)] ->
               node_at g' q = toggle_obstacle <$> node_at example_grid q) /\
    (forall q, q ∉ cell_of example_grid <$> [(12, 57); (13, 58); (30, 57)] ->
               node_at g' q = node_at example_grid q).
Proof.
  destruct (drag_toggles_once [(12, 57); (13, 58); (30, 57)] example_grid
              no_selection)
    as (g' & Hrun & Hwf & Hst & Htg & Hnodes).
  - apply example_grid_facts.
  - vm_compute. reflexivity.
  - vm_compute. reflexivity.
  - intros pos Hin.
    repeat (apply elem_of_cons in Hin as [->|Hin]);
      [| | |by apply elem_of_nil in Hin];
      (split; (split; [simpl; lia|vm_compute; reflexivity])).
  - exists g'. split_and!; [exact Hrun|exact Hwf| |].
    + intros q Hq. rewrite Hnodes. rewrite decide_True; [reflexivity|].
      split; [exact Hq|apply not_elem_of_empty].
    + intros q Hq. rewrite Hnodes. rewrite decide_False; [reflexivity|].
      intros [Hin _]. exact (Hq Hin).
Defined.

(** ** The heuristic *)

(** X13. The heuristic [calculate_all_h_costs] gives the nodes of a
    well-formed grid is admissible and consistent: it is 0 at the target,
    never negative, never more than the cost of a sequence of moves from
    the node to the target, and across a move it drops by no more than the
    cost of the move. *)
Theorem heuristic_never_overestimates (g : Grid) (tg : Ref) :
  grid_wf g -> g_target g = Some tg -> valid g tg ->
  exists gh,
    calculate_all_h_costs g = Ok tt gh /\
    forall p n, node_at gh p = Some n ->
      exists h,
        n_h_cost n = Some h /\ 0 <= h /\ (p = tg -> h = 0) /\
        (forall k, reach g p tg k -> h <= k) /\
        (forall q c nq, edge g p q c -> node_at gh q = Some nq ->
           exists hq, n_h_cost nq = Some hq /\ h <= c + hq).
Proof.
  intros Hwf Htg Hvtg.
  destruct (calculate_all_h_costs_spec g tg Hwf Htg Hvtg)
    as (gh & Hrun & _ & _ & _ & _ & _ & _ & _ & Hnodes & _).
  destruct (fresh_heuristic g gh tg Hnodes) as (_ & _ & _ & Hheur).
  exists gh. split; [done|]. intros p n Hn. exists (octile p tg).
  split_and!.
  - by apply Hheur.
  - apply octile_nonneg.
  - intros ->. apply octile_self.
  - intros k Hk. pose proof (reach_lower_bound g p tg k tg Hk) as Hle.
    rewrite octile_self in Hle. lia.
  - intros q c nq He Hnq. exists (octile q tg). split; [by apply Hheur|].
    by eapply octile_consistent.
Qed.

Lemma heuristic_never_overestimates_witness :
  exists gh,
    calculate_all_h_costs example_grid = Ok tt gh /\
    forall p n, node_at gh p = Some n ->
      exists h,
        n_h_cost n = Some h /\ 0 <= h /\ (p = (9, 0) -> h = 0) /\
        (forall k, reach example_grid p (9, 0) k -> h <= k) /\
        (forall q c nq, edge example_grid p q c -> node_at gh q = Some nq ->
           exists hq, n_h_cost nq = Some hq /\ h <= c + hq).
Proof.
  apply (heuristic_never_overestimates example_grid (9, 0));
    apply example_grid_facts.
Defined.

(** ** The path that is marked *)

(** [route g s q l k]: moves of the total cost [k] lead from [s] to [q]
    through the nodes of [l], listed from the one before [q] back to [s]. *)
Inductive route (g : Grid) (s : Ref) : Ref -> list Ref -> Z -> Prop :=
| route_start : route g s s [] 0
| route_step p q l k c :
    route g s p l k -> edge g p q c -> route g s q (p :: l) (k + c).

Lemma route_reach g s q l k : route g s q l k -> reach g s q k.
Proof. induction 1; [constructor|by eapply reach_step]. Qed.

Lemma route_ext g g' s q l k :
  (forall p, valid g' p <-> valid g p) ->
  (forall p, walkable g' p <-> walkable g p) ->
  route g s q l k -> route g' s q l k.
Proof.
  intros Hv Hw. induction 1 as [|p q l k c _ IH He]; [constructor|].
  apply route_step; [done|]. by apply (edge_ext g g').
Qed.

Section Predecessors.
Context (g0 : Grid) (st : Ref) (s : Search).
Hypothesis result : search_result g0 st s.

(** From a node that carries a g-cost the predecessors lead back to the
    start, along moves whose total cost is at most that g-cost. *)
Lemma predecessors_lead_back (n : nat) :
  forall p gp,
    Z.to_nat gp = n -> gcost (s_grid s) p = Some gp ->
    exists l k,
      chain (s_grid s) st (Some p) l /\
      route g0 st p (drop 1 (l ++ [st])) k /\ k <= gp /\
      NoDup l /\
      (forall x, x ∈ l -> exists gx, gcost (s_grid s) x = Some gx /\ gx <= gp) /\
      (p <> st -> exists l', l = p :: l').
Proof.
  induction n as [n IH] using lt_wf_ind. intros p gp Hn Hgp.
  pose proof (reach_nonneg g0 st p gp (res_reach g0 st s result p gp Hgp)) as Hpos.
  destruct (decide (p = st)) as [->|Hne].
  - exists [], 0. split_and!; try done.
    + constructor.
    + constructor.
    + constructor.
    + by intros x ?%elem_of_nil.
  - destruct (res_prev g0 st s result p gp Hgp Hne)
      as (q & gq & c & Hprev & Hgq & He & Hle).
    pose proof (edge_cost_pos g0 q p c He) as Hc.
    pose proof (reach_nonneg g0 st q gq (res_reach g0 st s result q gq Hgq)) as Hqpos.
    destruct (IH (Z.to_nat gq) ltac:(lia) q gq eq_refl Hgq)
      as (l & k & Hchain & Hroute & Hk & Hnd & Hbelow & Hhead).
    exists (p :: l), (k + c). split_and!.
    + constructor; [done| |by rewrite Hprev].
      apply (same_static_valid g0 _ p (res_static g0 st s result)).
      destruct He as (_ & (m & Hm & _) & _). by exists m.
    + simpl.
      assert (l ++ [st] = q :: drop 1 (l ++ [st])) as ->.
      { destruct (decide (q = st)) as [->|Hqst].
        - by inversion Hchain; subst.
        - destruct (Hhead Hqst) as (l' & ->). done. }
      by apply route_step.
    + lia.
    + constructor; [|done]. intros Hin.
      destruct (Hbelow p Hin) as (gx & Hgx & Hlex). rewrite Hgp in Hgx.
      injection Hgx as <-. lia.
    + intros x [->|Hx]%elem_of_cons.
      * exists gp. split; [done|lia].
      * destruct (Hbelow x Hx) as (gx & Hgx & Hlex). exists gx. split; [done|lia].
    + intros _. by exists l.
Qed.

End Predecessors.

Lemma NoDup_valid_length g l :
  grid_wf g -> NoDup l -> (forall x, x ∈ l -> valid g x) ->
  (length l <= Z.to_nat (g_rows g) * Z.to_nat (g_columns g))%nat.
Proof.
  intros Hwf Hnd Hv. rewrite <- length_all_refs. apply submseteq_length.
  apply NoDup_submseteq; [done|]. intros x Hx. by apply valid_all_refs, Hv.
Qed.

Lemma same_static_state g0 g p :
  same_static g0 g -> n_state <$> node_at g p = n_state <$> node_at g0 p.
Proof.
  intros Hs. pose proof (ss_nodes g0 g Hs p) as Hp.
  destruct (node_at g p) as [n|], (node_at g0 p) as [n0|]; try done.
  simpl in *. unfold node_static in Hp. by injection Hp as _ _ _ _ _ -> _.
Qed.

(** X14. [solve] without display on a freshly built grid whose target is
    not the start and can be reached: it returns normally with the grid
    solved; the nodes it has given the state [SOLUTION] are the nodes of a
    sequence of moves from the start to the target, without the two ends,
    whose total cost is the g-cost of the target, and no sequence of moves
    from the start to the target costs less; every other node is in the
    state it was in. *)
Theorem solve_marks_a_shortest_path (g : Grid) (st tg : Ref) (fuel : nat) :
  grid_wf g -> fresh g ->
  g_start g = Some st -> g_target g = Some tg ->
  valid g st -> valid g tg ->
  (Z.to_nat (g_rows g) * Z.to_nat (g_columns g) < fuel)%nat ->
  st <> tg -> (exists k, reach g st tg k) ->
  exists g' path cost,
    solve fuel false g = Ok tt g' /\ g_solved g' = true /\
    route g st tg (path ++ [st]) cost /\
    (forall k, reach g st tg k -> cost <= k) /\
    gcost g' tg = Some cost /\
    NoDup path /\ (st ∉ path) /\ (tg ∉ path) /\
    forall p, n_state <$> node_at g' p =
                if decide (p ∈ path) then Some SOLUTION
                else n_state <$> node_at g p.
Proof.
  intros Hwf Hfresh Hst Htg Hvst Hvtg Hfuel Hne [k0 Hk0].
  destruct (find_path_run_spec g st tg fuel Hwf Hfresh Hst Htg Hvst Hvtg Hfuel)
    as (gh & Hcalc & Hnodes & _ & Hrun).
  destruct (calculate_all_h_costs_spec g tg Hwf Htg Hvtg)
    as (gh' & Hcalc' & Hco & Hro & _ & _ & Hsta & Htar & _ & _ & Hwfh).
  assert (gh' = gh) as -> by congruence.
  destruct (fresh_heuristic g gh tg Hnodes) as (_ & Hval & Hwalk & _).
  destruct Hrun as [(s' & Hrun & Hres & Hsolved & HtC & _)
                   |(s' & _ & _ & _ & _ & Hnone)]; [|by destruct (Hnone k0)].
  pose proof (res_static gh st s' Hres) as Hs.
  destruct (res_closed gh st s' Hres tg HtC) as (gt & Hgt & Hopt).
  destruct (predecessors_lead_back gh st s' Hres (Z.to_nat gt) tg gt eq_refl Hgt)
    as (l & k & Hchain & Hroute & Hk & Hnd & Hbelow & Hhead).
  destruct (Hhead ltac:(done)) as (path & ->).
  simpl in Hroute.
  assert (k = gt) as ->.
  { pose proof (Hopt k (route_reach _ _ _ _ _ Hroute)). lia. }
  inversion Hchain as [|? ? _ Hvtg' Hchain']; subst.
  apply NoDup_cons in Hnd as [HtgP Hnd].
  assert (length path < fuel)%nat as Hlen.
  { assert (length (tg :: path)
            <= Z.to_nat (g_rows gh) * Z.to_nat (g_columns gh))%nat as Hle.
    { apply (NoDup_valid_length gh); [done|by constructor|].
      intros x Hx. destruct (Hbelow x Hx) as (gx & Hgx & _).
      apply (same_static_valid gh _ x Hs). unfold valid. unfold gcost in Hgx.
      destruct (node_at (s_grid s') x); [eauto|done]. }
    rewrite Hro, Hco in Hle. simpl in Hle. lia. }
  assert (g_start (s_grid s') = Some st) as Hst'.
  { rewrite (ss_start gh _ Hs). congruence. }
  assert (g_target (s_grid s') = Some tg) as Htg'.
  { rewrite (ss_target gh _ Hs). congruence. }
  destruct (print_path_loop_spec st path (s_grid s') _ fuel Hst' Hchain' Hlen)
    as (g' & Hprint & _ & _ & Hso' & Hmarked).
  destruct Hvtg' as [nt Hnt].
  exists g', path, gt. split_and!; try done.
  - unfold solve. rewrite Hst, Htg, find_path_nonvisual_unfold, Hrun.
    unfold print_path, bind, get. rewrite Hsolved, Htg'.
    unfold the_node, ret, deref. rewrite Hnt. unfold get_prev.
    unfold prev_at in Hprint. by rewrite Hnt in Hprint.
  - congruence.
  - by apply (route_ext gh g).
  - intros k' Hk'. apply Hopt. by apply (reach_ext g gh).
  - unfold gcost. rewrite Hmarked, decide_False by done. apply Hgt.
  - by eapply chain_avoids_start.
  - intros p. rewrite Hmarked. case_decide as Hp.
    + destruct (Hbelow p ltac:(by right)) as (gx & Hgx & _).
      unfold gcost in Hgx. by destruct (node_at (s_grid s') p).
    + rewrite (same_static_state gh _ p Hs), Hnodes.
      by destruct (node_at g p).
Qed.

(** A move to the left on the example board. *)
Ltac example_move :=
  unfold edge; split_and!;
  [ vm_compute; eauto
  | vm_compute; eexists; split; [reflexivity|discriminate]
  | left; split; [unfold orth_adjacent; simpl; lia|reflexivity] ].

Lemma solve_marks_a_shortest_path_witness :
  exists g' path cost,
    solve 51 false example_grid = Ok tt g' /\ g_solved g' = true /\
    route example_grid (9, 4) (9, 0) (path ++ [(9, 4)]) cost /\
    (forall k, reach example_grid (9, 4) (9, 0) k -> cost <= k) /\
    gcost g' (9, 0) = Some cost /\
    NoDup path /\ ((9, 4) ∉ path) /\ ((9, 0) ∉ path) /\
    forall p, n_state <$> node_at g' p =
                if decide (p ∈ path) then Some SOLUTION
                else n_state <$> node_at example_grid p.
Proof.
  apply (solve_marks_a_shortest_path example_grid (9, 4) (9, 0) 51);
    try apply example_grid_facts.
  - vm_compute. lia.
  - discriminate.
  - exists (octile (9, 4) (9, 0)).
    assert (reach example_grid (9, 4) (9, 3) 10) as H3.
    { apply (reach_step _ _ (9, 4) (9, 3) 0 10); [constructor|]. example_move. }
    assert (reach example_grid (9, 4) (9, 2) 20) as H2.
    { apply (reach_step _ _ (9, 3) (9, 2) 10 10); [done|]. example_move. }
    assert (reach example_grid (9, 4) (9, 1) 30) as H1.
    { apply (reach_step _ _ (9, 2) (9, 1) 20 10); [done|]. example_move. }
    apply (reach_step _ _ (9, 1) (9, 0) 30 10); [done|]. example_move.
Defined.

(** ** What a search leaves *)

(** X16. A search without display on a freshly built grid ends, normally
    or with the [IndexError] of the empty queue and in no other way, and
    changes the nodes in their g-cost and predecessor only: the attributes
    of the grid, and the slot, the size, the position and the state of
    every node stay, and every node holds the heuristic to the target.  A
    node is given a g-cost only if a sequence of moves of that cost leads
    to it from the start, so that an obstacle is never given one. *)
Theorem search_changes_costs_only (g : Grid) (st tg : Ref) (fuel : nat) :
  grid_wf g -> fresh g ->
  g_start g = Some st -> g_target g = Some tg ->
  valid g st -> valid g tg ->
  (Z.to_nat (g_rows g) * Z.to_nat (g_columns g) < fuel)%nat ->
  exists g',
    (find_path_nonvisual fuel g = Ok tt g' \/
     find_path_nonvisual fuel g = Raise IndexError g') /\
    g_columns g' = g_columns g /\ g_rows g' = g_rows g /\
    g_width g' = g_width g /\ g_height g' = g_height g /\
    g_start g' = g_start g /\ g_target g' = g_target g /\
    (forall p, node_at g p = None -> node_at g' p = None) /\
    forall p n, node_at g p = Some n ->
      exists n',
        node_at g' p = Some n' /\
        n_row n' = n_row n /\ n_col n' = n_col n /\
        n_width n' = n_width n /\ n_height n' = n_height n /\
        n_pos n' = n_pos n /\ n_state n' = n_state n /\
        n_h_cost n' = Some (octile p tg) /\
        (forall gp, n_g_cost n' = Some gp ->
           reach g st p gp /\ (p = st \/ n_state n <> OBSTACLE)).
Proof.
  intros Hwf Hfresh Hst Htg Hvst Hvtg Hfuel.
  destruct (find_path_run_spec g st tg fuel Hwf Hfresh Hst Htg Hvst Hvtg Hfuel)
    as (gh & Hcalc & Hnodes & _ & Hrun).
  destruct (calculate_all_h_costs_spec g tg Hwf Htg Hvtg)
    as (gh' & Hcalc' & Hco & Hro & Hwi & Hhe & Hsta & Htar & _ & _ & _).
  assert (gh' = gh) as -> by congruence.
  destruct (fresh_heuristic g gh tg Hnodes) as (_ & Hval & Hwalk & _).
  assert (exists s',
            (find_path_nonvisual fuel g = Ok tt (s_grid s') \/
             find_path_nonvisual fuel g = Raise IndexError (s_grid s')) /\
            search_result gh st s') as (s' & Hout & Hres).
  { rewrite find_path_nonvisual_unfold.
    destruct Hrun as [(s' & -> & Hres & _)|(s' & -> & Hres & _)];
      exists s'; eauto. }
  pose proof (res_static gh st s' Hres) as Hs.
  exists (s_grid s'). split; [done|].
  split_and!.
  - by rewrite (ss_columns gh _ Hs).
  - by rewrite (ss_rows gh _ Hs).
  - by rewrite (ss_width gh _ Hs).
  - by rewrite (ss_height gh _ Hs).
  - by rewrite (ss_start gh _ Hs).
  - by rewrite (ss_target gh _ Hs).
  - intros p Hp. pose proof (ss_nodes gh _ Hs p) as Hstatic.
    rewrite Hnodes, Hp in Hstatic. by destruct (node_at (s_grid s') p).
  - intros p n Hn. pose proof (ss_nodes gh _ Hs p) as Hstatic.
    rewrite Hnodes, Hn in Hstatic.
    destruct (node_at (s_grid s') p) as [n'|] eqn:Hn'; [|done].
    simpl in Hstatic. unfold node_static in Hstatic. simpl in Hstatic.
    injection Hstatic as E1 E2 E3 E4 E5 E6 E7.
    exists n'. split_and!; try done.
    intros gp Hgp.
    assert (reach g st p gp) as Hreach.
    { apply (reach_ext g gh); [done..|]. apply (res_reach gh st s' Hres).
      unfold gcost. by rewrite Hn'. }
    split; [done|]. destruct (reach_end g st p gp Hreach) as [?|(m & Hm & Hw)];
      [by left|]. right. congruence.
Qed.

Lemma search_changes_costs_only_witness :
  exists g',
    (find_path_nonvisual 51 enclosed_grid = Ok tt g' \/
     find_path_nonvisual 51 enclosed_grid = Raise IndexError g') /\
    g_columns g' = g_columns enclosed_grid /\ g_rows g' = g_rows enclosed_grid /\
    g_width g' = g_width enclosed_grid /\ g_height g' = g_height enclosed_grid /\
    g_start g' = g_start enclosed_grid /\ g_target g' = g_target enclosed_grid /\
    (forall p, node_at enclosed_grid p = None -> node_at g' p = None) /\
    forall p n, node_at enclosed_grid p = Some n ->
      exists n',
        node_at g' p = Some n' /\
        n_row n' = n_row n /\ n_col n' = n_col n /\
        n_width n' = n_width n /\ n_height n' = n_height n /\
        n_pos n' = n_pos n /\ n_state n' = n_state n /\
        n_h_cost n' = Some (octile p (9, 0)) /\
        (forall gp, n_g_cost n' = Some gp ->
           reach enclosed_grid (9, 4) p gp /\ (p = (9, 4) \/ n_state n <> OBSTACLE)).
Proof.
  apply (search_changes_costs_only enclosed_grid (9, 4) (9, 0) 51).
  - apply grid_wf_b_sound. vm_compute. reflexivity.
  - apply fresh_b_sound. vm_compute. reflexivity.
  - vm_compute. reflexivity.
  - vm_compute. reflexivity.
  - vm_compute. eauto.
  - vm_compute. eauto.
  - vm_compute. lia.
Defined.

(** X17. A search without display that fails has explored all there is:
    on a freshly built, unsolved grid whose target cannot be reached, the
    run ends with [IndexError], and then a node carries a g-cost exactly
    when some sequence of moves leads to it from the start, and its g-cost
    is the least cost of such a sequence. *)
Theorem failed_search_explores_all (g : Grid) (st tg : Ref) (fuel : nat) :
  grid_wf g -> fresh g -> g_solved g = false ->
  g_start g = Some st -> g_target g = Some tg ->
  valid g st -> valid g tg ->
  (Z.to_nat (g_rows g) * Z.to_nat (g_columns g) < fuel)%nat ->
  unreachable g st tg ->
  exists g',
    find_path_nonvisual fuel g = Raise IndexError g' /\
    (forall p gp, gcost g' p = Some gp ->
       reach g st p gp /\ forall k, reach g st p k -> gp <= k) /\
    (forall p k, reach g st p k -> exists gp, gcost g' p = Some gp /\ gp <= k) /\
    gcost g' tg = None.
Proof.
  intros Hwf Hfresh Hunsolved Hst Htg Hvst Hvtg Hfuel Hnone.
  destruct (find_path_run_spec g st tg fuel Hwf Hfresh Hst Htg Hvst Hvtg Hfuel)
    as (gh & Hcalc & Hnodes & _ & Hrun).
  destruct (fresh_heuristic g gh tg Hnodes) as (_ & Hval & Hwalk & _).
  destruct Hrun as [(s' & _ & _ & _ & _ & k & Hk)
                   |(s' & Hrun & Hres & Hsolved & Hdrained & _)];
    [by destruct (Hnone k)|].
  assert (forall p k, reach g st p k ->
            exists gp, gcost (s_grid s') p = Some gp /\
                       forall k', reach g st p k' -> gp <= k') as Hall.
  { intros p k Hk. apply (reach_ext g gh) in Hk; [|done..].
    pose proof (res_explored gh st s' Hres ltac:(congruence) Hdrained p k Hk) as Hc.
    destruct (res_closed gh st s' Hres p Hc) as (gp & Hgp & Hopt).
    exists gp. split; [done|]. intros k' Hk'. apply Hopt.
    by apply (reach_ext g gh). }
  exists (s_grid s'). split_and!.
  - rewrite find_path_nonvisual_unfold. by rewrite Hrun.
  - intros p gp Hgp.
    assert (reach g st p gp) as Hreach.
    { apply (reach_ext g gh); [done..|]. by apply (res_reach gh st s' Hres). }
    split; [done|]. destruct (Hall p gp Hreach) as (gp' & Hgp' & Hopt).
    assert (gp' = gp) as -> by congruence. done.
  - intros p k Hk. destruct (Hall p k Hk) as (gp & Hgp & Hopt). eauto.
  - destruct (gcost (s_grid s') tg) as [gt|] eqn:Hgt; [|done].
    destruct (Hnone gt). apply (reach_ext g gh); [done..|].
    by apply (res_reach gh st s' Hres).
Qed.

Lemma failed_search_explores_all_witness :
  exists g',
    find_path_nonvisual 51 enclosed_grid = Raise IndexError g' /\
    (forall p gp, gcost g' p = Some gp ->
       reach enclosed_grid (9, 4) p gp /\
       forall k, reach enclosed_grid (9, 4) p k -> gp <= k) /\
    (forall p k, reach enclosed_grid (9, 4) p k ->
       exists gp, gcost g' p = Some gp /\ gp <= k) /\
    gcost g' (9, 0) = None.
Proof.
  apply (failed_search_explores_all enclosed_grid (9, 4) (9, 0) 51).
  - apply grid_wf_b_sound. vm_compute. reflexivity.
  - apply fresh_b_sound. vm_compute. reflexivity.
  - vm_compute. reflexivity.
  - vm_compute. reflexivity.
  - vm_compute. reflexivity.
  - vm_compute. eauto.
  - vm_compute. eauto.
  - vm_compute. lia.
  - apply enclosed_unreachable.
    + apply enclosed_b_sound. vm_compute. reflexivity.
    + discriminate.
    + vm_compute. eexists. split; [reflexivity|discriminate].
Defined.

(** * The search with display *)

(** What [find_path] shows of a node in slot [p] that [find_path_nonvisual]
    would hold as [n], when [C] is the set of closed nodes: the start and
    the target keep their state, a closed node is [CLOSED], a node that has
    been given a g-cost is [OPENED], and any other node is as it was. *)
Definition display (C : gset Ref) (p : Ref) (n : Node) : Node :=
  with_state n
    (if decide (n_state n = START \/ n_state n = TARGET) then n_state n
     else if decide (p ∈ C) then CLOSED
     else match n_g_cost n with
          | Some _ => OPENED
          | None => n_state n
          end).

(** [sv] is a state of [find_path] that shows the state [s] of
    [find_path_nonvisual]: the same queue, the same closed set, and the
    same grid but for the states on display. *)
Record shown (s sv : Search) : Prop := mk_shown {
  shown_opened : s_opened sv = s_opened s;
  shown_closed : s_closed sv = s_closed s;
  shown_columns : g_columns (s_grid sv) = g_columns (s_grid s);
  shown_rows : g_rows (s_grid sv) = g_rows (s_grid s);
  shown_width : g_width (s_grid sv) = g_width (s_grid s);
  shown_height : g_height (s_grid sv) = g_height (s_grid s);
  shown_start : g_start (s_grid sv) = g_start (s_grid s);
  shown_target : g_target (s_grid sv) = g_target (s_grid s);
  shown_solved : g_solved (s_grid sv) = g_solved (s_grid s);
  shown_wf : grid_wf (s_grid sv);
  shown_nodes : forall p,
    node_at (s_grid sv) p = display (s_closed s) p <$> node_at (s_grid s) p
}.

Lemma with_state_same n : with_state n (n_state n) = n.
Proof. by destruct n. Qed.

Lemma adjacent_nodes_ext g gv row col offsets :
  (forall p, is_obstacle <$> node_at gv p = is_obstacle <$> node_at g p) ->
  adjacent_nodes gv row col offsets = adjacent_nodes g row col offsets.
Proof.
  intros Hsame. induction offsets as [|ij offsets IH]; [done|].
  rewrite !adjacent_nodes_cons, IH. f_equal. unfold adjacent_at.
  destruct ((0 <=? row + fst ij) && (0 <=? col + snd ij)); [|done].
  specialize (Hsame (row + fst ij, col + snd ij)).
  destruct (node_at gv (row + fst ij, col + snd ij)) as [nv|],
    (node_at g (row + fst ij, col + snd ij)) as [n|]; try done.
  simpl in Hsame. injection Hsame as ->. done.
Qed.

(** The body of the loops over the neighbours, once the two nodes have
    been read. *)
Lemma relax_neighbour_unfold visual g q C u m c gu nu nm :
  node_at g u = Some nu -> n_g_cost nu = Some gu -> node_at g m = Some nm ->
  relax_neighbour visual u c m (mkSearch g q C) =
    if snd (relax_g_cost nm (gu + c)) then
      (do known <- on_opened (element_exists m);
       if known then
         do f <- on_grid (f_cost_of m);
         on_opened (decrease_key m f)
       else
         do f <- on_grid (f_cost_of m);
         on_opened (insert f m) ;;
         if visual then on_grid (update_node m make_open) else ret tt)
        (mkSearch (set_node (set_node g m (with_g_cost nm (gu + c))) m
                     (set_prev (with_g_cost nm (gu + c)) u)) q C)
    else Ok tt (mkSearch g q C).
Proof.
  intros Hnu Hgu Hnm. unfold relax_neighbour.
  unfold bind at 1. rewrite (on_grid_deref _ _ _ _ _ Hnu).
  unfold get_g_cost. rewrite Hgu. unfold bind at 1, ret at 1.
  unfold bind at 1. rewrite (on_grid_deref _ _ _ _ _ Hnm).
  destruct (relax_g_cost nm (gu + c)) as [n' relaxed] eqn:Hrelax.
  unfold bind at 1. rewrite (on_grid_update_node _ _ _ _ _ _ Hnm). simpl.
  destruct relaxed.
  - assert (n' = with_g_cost nm (gu + c)) as ->.
    { unfold relax_g_cost in Hrelax. destruct (n_g_cost nm) as [gm|].
      - destruct (gu + c <? gm); [|discriminate]. by injection Hrelax as <-.
      - by injection Hrelax as <-. }
    assert (node_at (set_node g m (with_g_cost nm (gu + c))) m
            = Some (with_g_cost nm (gu + c))) as Hnm1.
    { rewrite node_at_set_node by (by exists nm). by rewrite decide_True. }
    unfold bind at 1. by rewrite (on_grid_update_node _ _ _ _ _ _ Hnm1).
  - assert (n' = nm) as ->.
    { unfold relax_g_cost in Hrelax. destruct (n_g_cost nm) as [gm|]; [|discriminate].
      destruct (gu + c <? gm); [discriminate|]. by injection Hrelax as <-. }
    by rewrite set_node_id.
Qed.

Lemma relax_g_cost_display C p n cost :
  snd (relax_g_cost (display C p n) cost) = snd (relax_g_cost n cost).
Proof.
  unfold relax_g_cost, display. simpl. destruct (n_g_cost n) as [gm|]; [|done].
  by destruct (cost <? gm).
Qed.

Lemma display_relaxed_known C m nm cost u gm :
  n_g_cost nm = Some gm -> m ∉ C ->
  set_prev (with_g_cost (display C m nm) cost) u =
  display C m (set_prev (with_g_cost nm cost) u).
Proof.
  intros Hgm HmC. destruct nm as [ro co wi he po pr sta h gc].
  unfold display, set_prev, with_g_cost, with_state. simpl in *. subst gc.
  by repeat case_decide.
Qed.

Lemma display_relaxed_new C m nm cost u :
  n_g_cost nm = None -> m ∉ C ->
  make_open (set_prev (with_g_cost (display C m nm) cost) u) =
  display C m (set_prev (with_g_cost nm cost) u).
Proof.
  intros Hgm HmC. destruct nm as [ro co wi he po pr sta h gc].
  unfold display, make_open, set_prev, with_g_cost, with_state. simpl in *. subst gc.
  repeat case_decide; simpl in *; try done; exfalso;
    first [tauto|intuition congruence].
Qed.

Lemma display_closed C u n gu :
  n_g_cost n = Some gu -> u ∉ C ->
  close (display C u n) = display ({[u]} ∪ C) u n.
Proof.
  intros Hgu HuC. destruct n as [ro co wi he po pr sta h gc].
  unfold display, close, with_state. simpl in *. subst gc.
  assert (u ∈ {[u]} ∪ C) by (apply elem_of_union; left; by apply elem_of_singleton).
  repeat case_decide; simpl in *; try done; exfalso;
    first [tauto|intuition congruence].
Qed.

Lemma display_other C u p n : p <> u -> display ({[u]} ∪ C) p n = display C p n.
Proof.
  intros Hne. unfold display. f_equal.
  destruct (decide (n_state n = START \/ n_state n = TARGET)); [done|].
  destruct (decide (p ∈ C)) as [Hin|Hnin].
  - rewrite decide_True; [done|]. apply elem_of_union. by right.
  - rewrite decide_False; [done|].
    intros [?%elem_of_singleton|?]%elem_of_union; done.
Qed.

Lemma display_static C p n :
  n_row (display C p n) = n_row n /\ n_col (display C p n) = n_col n /\
  n_pos (display C p n) = n_pos n /\ n_g_cost (display C p n) = n_g_cost n /\
  n_h_cost (display C p n) = n_h_cost n /\ n_prev (display C p n) = n_prev n.
Proof. done. Qed.

Section Display.
Context (g0 : Grid) (st tg : Ref).

Hypothesis heuristic_set :
  forall p n, node_at g0 p = Some n -> n_h_cost n = Some (octile p tg).

(** The start is in the state [START], as [set_start_node] leaves it. *)
Hypothesis start_state : forall n, node_at g0 st = Some n -> n_state n = START.

(** A node that has been given a g-cost is not an obstacle. *)
Lemma costed_not_obstacle cur s p n gp :
  inv g0 st tg cur s ->
  node_at (s_grid s) p = Some n -> n_g_cost n = Some gp ->
  n_state n <> OBSTACLE.
Proof.
  intros Hinv Hn Hgp. pose proof (inv_static _ _ _ _ _ Hinv) as Hs.
  pose proof (same_static_state g0 _ p Hs) as Hstate. rewrite Hn in Hstate.
  assert (reach g0 st p gp) as Hreach.
  { apply (inv_reach _ _ _ _ _ Hinv). unfold gcost. by rewrite Hn. }
  destruct (node_at g0 p) as [n0|] eqn:Hn0; [|done]. injection Hstate as Hstate.
  destruct (reach_end g0 st p gp Hreach) as [->|(m & Hm & Hw)].
  - rewrite Hstate, (start_state n0 Hn0). done.
  - rewrite Hstate. congruence.
Qed.

Lemma display_obstacle cur s p n :
  inv g0 st tg cur s -> node_at (s_grid s) p = Some n ->
  is_obstacle (display (s_closed s) p n) = is_obstacle n.
Proof.
  intros Hinv Hn. unfold is_obstacle, display. simpl.
  destruct (decide (n_state n = START \/ n_state n = TARGET)); [done|].
  destruct (decide (p ∈ s_closed s)) as [HpC|HpC].
  - destruct (inv_closed _ _ _ _ _ Hinv p HpC) as (_ & gp & Hgp & _).
    unfold gcost in Hgp. rewrite Hn in Hgp.
    pose proof (costed_not_obstacle cur s p n gp Hinv Hn Hgp).
    by rewrite !bool_decide_eq_false_2.
  - destruct (n_g_cost n) as [gp|] eqn:Hgp; [|done].
    pose proof (costed_not_obstacle cur s p n gp Hinv Hn Hgp).
    by rewrite !bool_decide_eq_false_2.
Qed.

End Display.

Lemma make_open_static n :
  n_row (make_open n) = n_row n /\ n_col (make_open n) = n_col n /\
  n_pos (make_open n) = n_pos n.
Proof. unfold make_open. by case_decide. Qed.

Lemma close_static n :
  n_row (close n) = n_row n /\ n_col (close n) = n_col n /\
  n_pos (close n) = n_pos n.
Proof. unfold close. by case_decide. Qed.

Section DisplaySteps.
Context (g0 : Grid) (st tg : Ref).

Hypothesis heuristic_set :
  forall p n, node_at g0 p = Some n -> n_h_cost n = Some (octile p tg).

Hypothesis start_state : forall n, node_at g0 st = Some n -> n_state n = START.

(** One pass of the body of the loops over the neighbours, in the search
    with display beside the search without. *)
Lemma relax_neighbour_shown u gu c m s sv s1 :
  inv g0 st tg (Some (u, gu)) s -> edge g0 u m c -> shown s sv ->
  relax_neighbour false u c m s = Ok tt s1 ->
  exists sv1, relax_neighbour true u c m sv = Ok tt sv1 /\ shown s1 sv1.
Proof.
  intros Hinv He Hshown Hrun. destruct s as [g q C], sv as [gv qv Cv].
  pose proof Hshown as [Hq HC Hco Hro Hwi Hhe Hsta Htar Hsol Hwfv Hnodes].
  cbn [s_grid s_opened s_closed] in *. subst qv Cv.
  pose proof (inv_static _ _ _ _ _ Hinv) as Hs.
  pose proof (inv_wf _ _ _ _ _ Hinv) as Hwf.
  cbn [s_grid s_opened s_closed] in *.
  destruct (inv_cur _ _ _ _ _ Hinv u gu eq_refl) as (HuC & Huq & Hgu & Huopt).
  cbn [s_grid s_opened s_closed] in *.
  apply gcost_Some in Hgu as (nu & Hnu & Hnug).
  assert (exists nm, node_at g m = Some nm) as [nm Hnm].
  { destruct He as (_ & (n0 & Hn0 & _) & _).
    apply (same_static_valid g0 g m Hs). by exists n0. }
  assert (m <> u) as Hmu by (intros ->; by eapply edge_irrefl).
  pose proof (static_h_cost g0 tg heuristic_set g m nm Hs Hnm) as Hh.
  assert (node_at gv u = Some (display C u nu)) as Hnuv by (by rewrite Hnodes, Hnu).
  assert (node_at gv m = Some (display C m nm)) as Hnmv by (by rewrite Hnodes, Hnm).
  rewrite (relax_neighbour_unfold false g q C u m c gu nu nm) in Hrun by done.
  rewrite (relax_neighbour_unfold true gv q C u m c gu (display C u nu)
             (display C m nm)) by done.
  rewrite relax_g_cost_display.
  destruct (snd (relax_g_cost nm (gu + c))) eqn:Himp.
  - (* the g-cost of [m] is overwritten *)
    assert (m ∉ C) as HmC.
    { intros HmC. destruct (inv_closed _ _ _ _ _ Hinv m HmC) as (_ & gm & Hgm & Hopt & _).
      cbn [s_grid] in *. unfold gcost in Hgm. rewrite Hnm in Hgm.
      assert (gm <= gu + c) as Hle.
      { apply Hopt. eapply reach_step; [|done].
        apply (inv_reach _ _ _ _ _ Hinv). apply gcost_Some. eauto. }
      unfold relax_g_cost in Himp. rewrite Hgm in Himp.
      destruct (Z.ltb_spec (gu + c) gm); [lia|done]. }
    set (n1 := with_g_cost nm (gu + c)) in *.
    set (n2 := set_prev n1 u) in *.
    set (g2 := set_node (set_node g m n1) m n2) in *.
    set (n1v := with_g_cost (display C m nm) (gu + c)).
    set (n2v := set_prev n1v u).
    set (g2v := set_node (set_node gv m n1v) m n2v).
    assert (forall p, node_at g2 p = if decide (p = m) then Some n2 else node_at g p)
      as Hnode2.
    { intros p. unfold g2. rewrite node_at_set_node.
      - case_decide; [done|]. rewrite node_at_set_node by (by exists nm).
        by rewrite decide_False.
      - unfold valid. rewrite node_at_set_node by (by exists nm).
        rewrite decide_True by done. eauto. }
    assert (forall p, node_at g2v p = if decide (p = m) then Some n2v else node_at gv p)
      as Hnode2v.
    { intros p. unfold g2v. rewrite node_at_set_node.
      - case_decide; [done|]. rewrite node_at_set_node by (by eexists).
        by rewrite decide_False.
      - unfold valid. rewrite node_at_set_node by (by eexists).
        rewrite decide_True by done. eauto. }
    assert (grid_wf g2v) as Hwf2v.
    { unfold g2v. apply (grid_wf_set_node _ m n1v); try done.
      - by apply (grid_wf_set_node gv m (display C m nm)).
      - rewrite node_at_set_node by (by eexists). by rewrite decide_True. }
    unfold bind at 1 in Hrun. unfold bind at 1.
    unfold on_opened at 1 in Hrun. unfold on_opened at 1.
    cbn [s_grid s_opened s_closed] in *.
    rewrite element_exists_spec in Hrun by done.
    rewrite element_exists_spec by done.
    assert (on_grid (f_cost_of m) (mkSearch g2 q C)
            = Ok (octile m tg + (gu + c)) (mkSearch g2 q C)) as Hf.
    { apply (on_grid_f_cost_of _ _ _ _ n2); [|done|done].
      by rewrite Hnode2, decide_True. }
    assert (on_grid (f_cost_of m) (mkSearch g2v q C)
            = Ok (octile m tg + (gu + c)) (mkSearch g2v q C)) as Hfv.
    { apply (on_grid_f_cost_of _ _ _ _ n2v); [|done|done].
      by rewrite Hnode2v, decide_True. }
    destruct (contents q !! m) as [km|] eqn:Hkm.
    + (* in the queue *)
      rewrite bool_decide_eq_true_2 in Hrun by eauto.
      rewrite bool_decide_eq_true_2 by eauto.
      unfold bind at 1 in Hrun. unfold bind at 1. rewrite Hf in Hrun. rewrite Hfv.
      unfold on_opened in Hrun |- *. cbn [s_grid s_opened s_closed] in *.
      destruct (decrease_key m (octile m tg + (gu + c)) q) as [[] q'|e q'|] eqn:Hdk;
        [|done..]. injection Hrun as <-.
      eexists. split; [reflexivity|].
      destruct (inv_keys _ _ _ _ _ Hinv m km Hkm) as (gm & Hgm & _).
      cbn [s_grid] in Hgm. unfold gcost in Hgm. rewrite Hnm in Hgm.
      split; cbn [s_grid s_opened s_closed]; try done.
      intros p. rewrite Hnode2v, Hnode2. case_decide; [subst p|apply Hnodes].
      simpl. f_equal. by apply (display_relaxed_known C m nm (gu + c) u gm).
    + (* not in the queue *)
      rewrite bool_decide_eq_false_2 in Hrun by (by intros [? ?]).
      rewrite bool_decide_eq_false_2 by (by intros [? ?]).
      unfold bind at 1 in Hrun. unfold bind at 1. rewrite Hf in Hrun. rewrite Hfv.
      unfold bind at 1 in Hrun. unfold bind at 1.
      unfold on_opened at 1 in Hrun. unfold on_opened at 1.
      cbn [s_grid s_opened s_closed] in *.
      destruct (insert (octile m tg + (gu + c)) m q) as [[] q'|e q'|] eqn:Hins;
        [|done..]. unfold ret in Hrun. injection Hrun as <-.
      assert (node_at g2v m = Some n2v) as Hn2v by (by rewrite Hnode2v, decide_True).
      rewrite (on_grid_update_node _ _ _ _ _ _ Hn2v).
      eexists. split; [reflexivity|].
      assert (n_g_cost nm = None) as Hnone.
      { destruct (n_g_cost nm) as [gm|] eqn:Hgm; [|done]. exfalso.
        destruct (inv_seen _ _ _ _ _ Hinv m gm) as [?|[[? Hin]|(? & [= ? _])]];
          cbn [s_grid s_opened s_closed] in *; try done; try congruence.
        apply gcost_Some. eauto. }
      split; cbn [s_grid s_opened s_closed]; try done.
      * destruct (make_open_static n2v) as (? & ? & ?).
        by apply (grid_wf_set_node g2v m n2v).
      * intros p. rewrite node_at_set_node by (by eexists). rewrite Hnode2.
        case_decide; [subst p|by rewrite Hnode2v, decide_False].
        simpl. f_equal. by apply display_relaxed_new.
  - (* the g-cost of [m] stays *)
    injection Hrun as <-. by exists (mkSearch gv q C).
Qed.

End DisplaySteps.

Section DisplayLoop.
Context (g0 : Grid) (st tg : Ref).

Hypothesis heuristic_set :
  forall p n, node_at g0 p = Some n -> n_h_cost n = Some (octile p tg).

Hypothesis start_state : forall n, node_at g0 st = Some n -> n_state n = START.

Hypothesis target_set : g_target g0 = Some tg.

Hypothesis grid0_wf : grid_wf g0.

(** The loop over a list of neighbours, in both searches. *)
Lemma relax_all_shown u gu c (ms : list Ref) :
  forall s sv,
    inv g0 st tg (Some (u, gu)) s ->
    (forall m, m ∈ ms -> edge g0 u m c) ->
    shown s sv ->
    exists s' sv',
      for_each ms (relax_neighbour false u c) s = Ok tt s' /\
      for_each ms (relax_neighbour true u c) sv = Ok tt sv' /\
      shown s' sv'.
Proof.
  induction ms as [|m ms IH]; intros s sv Hinv Hedges Hshown.
  - by exists s, sv.
  - destruct (relax_neighbour_spec g0 st tg heuristic_set u gu c m s Hinv)
      as (s1 & Hrun1 & Hinv1 & _).
    { apply Hedges. left. }
    destruct (relax_neighbour_shown g0 st tg heuristic_set
                u gu c m s sv s1 Hinv) as (sv1 & Hrunv1 & Hshown1); try done.
    { apply Hedges. left. }
    destruct (IH s1 sv1 Hinv1) as (s' & sv' & Hrun' & Hrunv' & Hshown'); try done.
    { intros m' Hm'. apply Hedges. by right. }
    exists s', sv'. split_and!; try done.
    + cbn [for_each]. unfold bind. by rewrite Hrun1.
    + cbn [for_each]. unfold bind. by rewrite Hrunv1.
Qed.

(** One turn of the loop of [find_path_nonvisual] with a non-empty queue:
    what is extracted, and the states between its steps. *)
Lemma find_path_turn g q C :
  inv g0 st tg None (mkSearch g q C) -> q_size q <> 0 ->
  exists u gu q1 nu,
    extract_min q = Ok u q1 /\
    node_at g u = Some nu /\ n_g_cost nu = Some gu /\ (u ∉ C) /\
    (u <> tg ->
     exists s2 g3 q3,
       inv g0 st tg (Some (u, gu)) (mkSearch g q1 C) /\
       (forall m, m ∈ adjacent_nodes g (fst u) (snd u) [(-1, 0); (1, 0); (0, -1); (0, 1)]
                  -> edge g0 u m VERT_HORZ_COST) /\
       (forall m, m ∈ adjacent_nodes g (fst u) (snd u) [(-1, -1); (1, -1); (-1, 1); (1, 1)]
                  -> edge g0 u m DIAG_COST) /\
       for_each (adjacent_nodes g (fst u) (snd u) [(-1, 0); (1, 0); (0, -1); (0, 1)])
         (relax_neighbour false u VERT_HORZ_COST) (mkSearch g q1 C) = Ok tt s2 /\
       inv g0 st tg (Some (u, gu)) s2 /\
       for_each (adjacent_nodes g (fst u) (snd u) [(-1, -1); (1, -1); (-1, 1); (1, 1)])
         (relax_neighbour false u DIAG_COST) s2 = Ok tt (mkSearch g3 q3 C) /\
       inv g0 st tg (Some (u, gu)) (mkSearch g3 q3 C) /\
       inv g0 st tg None (mkSearch g3 q3 ({[u]} ∪ C)) /\
       (open_slots g0 ({[u]} ∪ C) < open_slots g0 C)%nat).
Proof.
  intros Hinv Hnonempty.
  pose proof Hinv as
    [Hs Hso Hwf Hheap Hkeys Hreach Hseen Hclosed Hcur Hstart Htarget Hprev].
  cbn [s_grid s_opened s_closed] in *.
  assert (0 < q_size q) as Hpos.
  { destruct Hwf as [Hsz _]. lia. }
  destruct (extract_min_spec q Hwf Hheap Hpos)
    as (u & ku & q1 & Hrun & _ & Hku & Hmin & Hwf1 & _ & Hheap1 & Hc1).
  destruct (Hkeys u ku Hku) as (gu & Hgu & ->).
  assert (u ∉ C) as HuC.
  { intros HuC. destruct (Hclosed u HuC) as (Hnone & _). congruence. }
  assert (forall k, reach g0 st u k -> gu <= k) as Huopt.
  { intros k Hk. destruct (frontier g0 st tg _ u k Hinv Hk)
      as [(? & _)|(y & ky & Hy & Hle)]; [done|]. simpl in Hy.
    specialize (Hmin y ky Hy). lia. }
  pose proof Hgu as (nu & Hnu & Hnug)%gcost_Some.
  assert (valid g0 u) as Hvu.
  { apply (same_static_valid g0 g u Hs). by exists nu. }
  exists u, gu, q1, nu. split_and!; try done. intros Hutg.
  pose proof (ss_wf g0 g Hs) as Hgwf.
  assert (valid g u) as Hvug by by apply (same_static_valid g0 g u Hs).
  destruct u as [ur uc]. cbn [fst snd].
  set (vh := adjacent_nodes g ur uc [(-1, 0); (1, 0); (0, -1); (0, 1)]).
  set (d := adjacent_nodes g ur uc [(-1, -1); (1, -1); (-1, 1); (1, 1)]).
  destruct (vert_horz_neighbours_edges g (ur, uc) Hgwf Hvug)
    as (vh' & Hvh & _ & _ & Hvh_elem).
  destruct (diag_neighbors_edges g (ur, uc) Hgwf Hvug)
    as (d' & Hd & _ & _ & Hd_elem).
  assert (vh' = vh) as ->.
  { unfold get_vert_horz_neighbours in Hvh.
    rewrite (neighbours_ok g _ ur uc Hgwf Hvug) in Hvh. by injection Hvh as <-. }
  assert (d' = d) as ->.
  { unfold get_diag_neighbors in Hd.
    rewrite (neighbours_ok g _ ur uc Hgwf Hvug) in Hd. by injection Hd as <-. }
  assert (inv g0 st tg (Some ((ur, uc), gu)) (mkSearch g q1 C)) as Hmid.
  { split; simpl; try done.
    - intros p k. rewrite Hc1. intros Hp.
      apply lookup_delete_Some in Hp as [_ Hp]. by apply Hkeys.
    - intros p gp Hgp. destruct (decide (p = (ur, uc))) as [->|Hpu].
      + right. right. assert (gp = gu) as -> by congruence. eauto.
      + destruct (Hseen p gp Hgp) as [?|[Hq|[? [=]]]]; [by left|].
        right. left. by rewrite Hc1, lookup_delete_ne.
    - intros p HpC. destruct (Hclosed p HpC) as (Hnone & Hrest).
      split; [|done]. rewrite Hc1.
      destruct (decide ((ur, uc) = p)) as [<-|?];
        [apply lookup_delete_eq|by rewrite lookup_delete_ne].
    - intros u' gu' [= <- <-]. split_and!; try done.
      rewrite Hc1. apply lookup_delete_eq. }
  assert (forall m, m ∈ vh -> edge g0 (ur, uc) m VERT_HORZ_COST) as Hvh_edges.
  { intros m [Hadj Hw]%Hvh_elem. apply (edge_same_static g0 g (ur, uc) m _ Hs).
    split_and!; try done. left. done. }
  assert (forall m, m ∈ d -> edge g0 (ur, uc) m DIAG_COST) as Hd_edges.
  { intros m [Hadj Hw]%Hd_elem. apply (edge_same_static g0 g (ur, uc) m _ Hs).
    split_and!; try done. right. done. }
  destruct (relax_all_spec g0 st tg heuristic_set (ur, uc) gu VERT_HORZ_COST vh _
              Hmid Hvh_edges)
    as (s2 & Hrun2 & Hinv2 & HC2 & Hmono2 & Hvh2).
  destruct (relax_all_spec g0 st tg heuristic_set (ur, uc) gu DIAG_COST d _
              Hinv2 Hd_edges)
    as (s3 & Hrun3 & Hinv3 & HC3 & Hmono3 & Hd3).
  destruct s3 as [g3 q3 C3]. cbn [s_grid s_opened s_closed] in *.
  assert (C3 = C) as -> by congruence.
  exists s2, g3, q3. split_and!; try done.
  - destruct Hinv3 as [Hs3 Hso3 Hwf3 Hheap3 Hkeys3 Hreach3 Hseen3 Hclosed3
                         Hcur3 Hstart3 Htarget3 Hprev3].
    simpl in *.
    destruct (Hcur3 (ur, uc) gu eq_refl) as (_ & Huq3 & Hgu3 & _).
    assert (forall p gp, gcost g3 p = Some gp ->
              p ∈ {[(ur, uc)]} ∪ C \/ is_Some (contents q3 !! p) \/
              (exists gu0 : Z, @None (Ref * Z) = Some (p, gu0))) as Hseen4.
    { intros p gp Hgp.
      destruct (Hseen3 p gp Hgp) as [?|[?|[gu' [= -> _]]]].
      - left. apply elem_of_union. by right.
      - right. by left.
      - left. apply elem_of_union. left. by apply elem_of_singleton. }
    assert (forall p, p ∈ {[(ur, uc)]} ∪ C ->
              contents q3 !! p = None /\
              exists gp, gcost g3 p = Some gp /\
                         (forall k, reach g0 st p k -> gp <= k) /\
                         (forall x c, edge g0 p x c ->
                            exists gx, gcost g3 x = Some gx /\ gx <= gp + c))
      as Hclosed4.
    { intros p [->%elem_of_singleton|HpC]%elem_of_union; [|by apply Hclosed3].
      split; [done|]. exists gu. split_and!; try done.
      intros x cx Hex.
      pose proof (proj2 (edge_same_static g0 g (ur, uc) x cx Hs) Hex)
        as (_ & Hw & [[Hadj ->]|[Hadj ->]]).
      - destruct (Hvh2 x) as (gx & Hgx & Hle); [by apply Hvh_elem|].
        destruct (Hmono3 x gx Hgx) as (gx' & Hgx' & Hle'). exists gx'.
        split; [done|lia].
      - by apply Hd3, Hd_elem. }
    assert (tg ∉ {[(ur, uc)]} ∪ C) as Htarget4.
    { intros [?%elem_of_singleton|?]%elem_of_union; done. }
    split; simpl; try done.
  - apply open_slots_close; [|done]. by apply valid_all_refs.
Qed.

(** Closing a node in both searches: [closed.add(current)], and in the
    search with display [current.close()]. *)
Lemma shown_after_close g q C sv u n gu :
  shown (mkSearch g q C) sv ->
  node_at g u = Some n -> n_g_cost n = Some gu -> (u ∉ C) ->
  exists nv : Node,
    node_at (s_grid sv) u = Some nv /\
    shown (mkSearch g q ({[u]} ∪ C))
          (mkSearch (set_node (s_grid sv) u (close nv)) (s_opened sv)
                    ({[u]} ∪ s_closed sv)).
Proof.
  intros Hshown Hn Hgu HuC. destruct sv as [gv qv Cv].
  pose proof Hshown as [Hq HC Hco Hro Hwi Hhe Hsta Htar Hsol Hwfv Hnodes].
  cbn [s_grid s_opened s_closed] in *. subst qv Cv.
  assert (node_at gv u = Some (display C u n)) as Hnv by (by rewrite Hnodes, Hn).
  exists (display C u n). split; [done|].
  assert (valid gv u) as Hvv by by exists (display C u n).
  destruct (close_static (display C u n)) as (Hr & Hc & Hp).
  split; cbn [s_grid s_opened s_closed]; try done.
  - apply (grid_wf_set_node gv u (display C u n)); try done.
  - intros p. rewrite node_at_set_node by done.
    destruct (decide (p = u)) as [->|Hpu].
    + rewrite Hn. simpl. f_equal. by apply (display_closed C u n gu).
    + rewrite Hnodes. destruct (node_at g p) as [np|]; [|done]. simpl.
      f_equal. symmetry. by apply display_other.
Qed.

Lemma shown_with_solved g q C sv b :
  shown (mkSearch g q C) sv ->
  shown (mkSearch (with_solved g b) q C)
        (mkSearch (with_solved (s_grid sv) b) (s_opened sv) (s_closed sv)).
Proof.
  intros [Hq HC Hco Hro Hwi Hhe Hsta Htar Hsol Hwfv Hnodes].
  destruct sv as [gv qv Cv]. cbn [s_grid s_opened s_closed] in *.
  split; cbn [s_grid s_opened s_closed]; try done.
  destruct Hwfv. by split.
Qed.

(** Two outcomes, of the search without display and of the search with
    it, that end the same way in states of which one shows the other. *)
Definition shown_outcome (o ov : outcome Search unit) : Prop :=
  match o, ov with
  | Ok _ s, Ok _ sv => shown s sv
  | Raise e s, Raise ev sv => e = ev /\ shown s sv
  | OutOfFuel, OutOfFuel => True
  | _, _ => False
  end.

(** The two loops in step, turn by turn. *)
Lemma find_path_loop_shown fuel :
  forall s sv,
    inv g0 st tg None s -> shown s sv ->
    shown_outcome (find_path_loop false fuel s) (find_path_loop true fuel sv).
Proof.
  induction fuel as [|fuel IH]; intros s sv Hinv Hshown; [done|].
  destruct s as [g q C], sv as [gv qv Cv].
  pose proof Hshown as [Hq HC Hco Hro Hwi Hhe Hsta Htar Hsol Hwfv Hnodes].
  cbn [s_grid s_opened s_closed] in *. subst qv Cv.
  pose proof (inv_static _ _ _ _ _ Hinv) as Hs.
  cbn [s_grid s_opened s_closed] in Hs.
  destruct (decide (q_size q = 0)) as [Hempty|Hnonempty].
  - (* the queue is empty *)
    assert (forall visual g', find_path_loop visual (S fuel) (mkSearch g' q C) =
                              Raise IndexError (mkSearch g' q C)) as Hraise.
    { intros visual g'. rewrite find_path_loop_unfold.
      unfold bind at 1, on_opened. simpl. by rewrite extract_min_empty. }
    rewrite !Hraise. by split.
  - destruct (find_path_turn g q C Hinv Hnonempty)
      as (u & gu & q1 & nu & Hrun & Hnu & Hnug & HuC & Hrest).
    assert (shown (mkSearch g q1 C) (mkSearch gv q1 C)) as Hshown1 by by split.
    destruct (decide (u = tg)) as [->|Hutg].
    + (* it is the target *)
      destruct (shown_after_close (with_solved g true) q1 C
                  (mkSearch (with_solved gv true) q1 C) tg nu gu)
        as (nv & Hnv & Hshown'); try done.
      { apply (shown_with_solved g q1 C (mkSearch gv q1 C) true Hshown1). }
      cbn [s_grid s_opened s_closed] in *.
      assert (find_path_loop false (S fuel) (mkSearch g q C) =
              Ok tt (mkSearch (with_solved g true) q1 ({[tg]} ∪ C))) as ->.
      { rewrite find_path_loop_unfold.
        unfold bind at 1, on_opened at 1. simpl. rewrite Hrun.
        unfold bind at 1, get at 1. simpl.
        rewrite (ss_target g0 g Hs), target_set.
        by rewrite decide_True. }
      assert (find_path_loop true (S fuel) (mkSearch gv q C) =
              Ok tt (mkSearch (set_node (with_solved gv true) tg (close nv)) q1
                       ({[tg]} ∪ C))) as ->.
      { rewrite find_path_loop_unfold.
        unfold bind at 1, on_opened at 1. simpl. rewrite Hrun.
        unfold bind at 1, get at 1. simpl.
        rewrite Htar, (ss_target g0 g Hs), target_set.
        rewrite decide_True by done.
        unfold bind, on_grid, modify, closed_add, update_node. simpl.
        by rewrite Hnv. }
      done.
    + (* its neighbours are relaxed and it is closed *)
      destruct (Hrest Hutg) as (s2 & g3 & q3 & Hmid & Hvh_edges & Hd_edges &
                                Hrun2 & Hinv2 & Hrun3 & Hinv3 & Hinv4 & _).
      assert (valid g u) as Hvu by by exists nu.
      assert (valid gv u) as Hvuv.
      { unfold valid. rewrite Hnodes, Hnu. by eexists. }
      assert (forall p, is_obstacle <$> node_at gv p = is_obstacle <$> node_at g p)
        as Hobst.
      { intros p. rewrite Hnodes. destruct (node_at g p) as [np|] eqn:Hnp; [|done].
        simpl. f_equal.
        apply (display_obstacle g0 st tg start_state None (mkSearch g q C) p np Hinv Hnp). }
      destruct u as [ur uc]. cbn [fst snd] in *.
      pose proof (neighbours_ok g [(-1, 0); (1, 0); (0, -1); (0, 1)] ur uc
                    (ss_wf g0 g Hs) Hvu) as Hvh.
      pose proof (neighbours_ok g [(-1, -1); (1, -1); (-1, 1); (1, 1)] ur uc
                    (ss_wf g0 g Hs) Hvu) as Hd.
      pose proof (neighbours_ok gv [(-1, 0); (1, 0); (0, -1); (0, 1)] ur uc
                    Hwfv Hvuv) as Hvhv.
      pose proof (neighbours_ok gv [(-1, -1); (1, -1); (-1, 1); (1, 1)] ur uc
                    Hwfv Hvuv) as Hdv.
      rewrite (adjacent_nodes_ext g gv ur uc _ Hobst) in Hvhv.
      rewrite (adjacent_nodes_ext g gv ur uc _ Hobst) in Hdv.
      set (u := (ur, uc)) in *.
      destruct (relax_all_shown u gu VERT_HORZ_COST _ _ _ Hmid Hvh_edges Hshown1)
        as (s2' & sv2 & Hrun2' & Hrunv2 & Hshown2).
      assert (s2' = s2) as -> by congruence.
      destruct (relax_all_shown u gu DIAG_COST _ _ _ Hinv2 Hd_edges Hshown2)
        as (s3' & sv3 & Hrun3' & Hrunv3 & Hshown3).
      assert (s3' = mkSearch g3 q3 C) as -> by congruence.
      destruct (inv_cur _ _ _ _ _ Hinv3 u gu eq_refl) as (_ & _ & Hgu3 & _).
      cbn [s_grid s_opened s_closed] in Hgu3.
      apply gcost_Some in Hgu3 as (nu3 & Hnu3 & Hnug3).
      destruct (shown_after_close g3 q3 C sv3 u nu3 gu Hshown3 Hnu3 Hnug3 HuC)
        as (nv3 & Hnv3 & Hshown4).
      assert (find_path_loop false (S fuel) (mkSearch g q C) =
              find_path_loop false fuel (mkSearch g3 q3 ({[u]} ∪ C))) as ->.
      { rewrite find_path_loop_unfold.
        unfold bind at 1, on_opened at 1. simpl. rewrite Hrun.
        unfold bind at 1, get at 1. simpl.
        rewrite (ss_target g0 g Hs), target_set.
        rewrite decide_False by congruence.
        unfold bind at 1. unfold on_grid at 1. cbn [s_grid s_opened s_closed].
        unfold get_vert_horz_neighbours. rewrite Hvh.
        unfold bind at 1. unfold on_grid at 1. cbn [s_grid s_opened s_closed].
        unfold get_diag_neighbors. rewrite Hd.
        unfold bind at 1. rewrite Hrun2. unfold bind at 1. rewrite Hrun3.
        done. }
      assert (find_path_loop true (S fuel) (mkSearch gv q C) =
              find_path_loop true fuel
                (mkSearch (set_node (s_grid sv3) u (close nv3)) (s_opened sv3)
                   ({[u]} ∪ s_closed sv3))) as ->.
      { rewrite find_path_loop_unfold.
        unfold bind at 1, on_opened at 1. simpl. rewrite Hrun.
        unfold bind at 1, get at 1. simpl.
        rewrite Htar, (ss_target g0 g Hs), target_set.
        rewrite decide_False by congruence.
        unfold bind at 1. unfold on_grid at 1. cbn [s_grid s_opened s_closed].
        unfold get_vert_horz_neighbours. rewrite Hvhv.
        unfold bind at 1. unfold on_grid at 1. cbn [s_grid s_opened s_closed].
        unfold get_diag_neighbors. rewrite Hdv.
        unfold bind at 1. rewrite Hrunv2. unfold bind at 1. rewrite Hrunv3.
        destruct sv3 as [gv3 qv3 Cv3]. cbn [s_grid s_opened s_closed] in *.
        unfold bind at 1, closed_add, modify. simpl.
        unfold bind at 1. by rewrite (on_grid_update_node _ _ _ u nv3 close). }
      by apply IH.
Qed.

End DisplayLoop.

(** On a node that is not closed and has no g-cost, and on the start, the
    display is the node itself. *)
Lemma display_first C p n :
  p ∉ C -> n_g_cost n = None \/ n_state n = START -> display C p n = n.
Proof.
  intros HpC Hn. unfold display.
  destruct (decide (n_state n = START \/ n_state n = TARGET)) as [_|Hnot];
    [apply with_state_same|].
  rewrite decide_False by done.
  destruct Hn as [Hn|Hn]; [|tauto]. rewrite Hn. apply with_state_same.
Qed.

(** The statements before the loop, in both searches, on a fresh grid:
    [gh] is the grid once the heuristics are set, [s1] the state in which
    the loop is entered. *)
Lemma find_path_run_inv g st tg :
  grid_wf g -> fresh g ->
  g_start g = Some st -> g_target g = Some tg ->
  valid g st -> valid g tg ->
  exists gh s1 ns,
    calculate_all_h_costs g = Ok tt gh /\
    (forall p, node_at gh p = with_heuristic tg p <$> node_at g p) /\
    grid_wf gh /\ g_target gh = Some tg /\ g_solved gh = g_solved g /\
    g_rows gh = g_rows g /\ g_columns gh = g_columns g /\
    node_at gh st = Some ns /\
    s_grid s1 = set_node gh st (with_g_cost ns 0) /\ s_closed s1 = ∅ /\
    inv gh st tg None s1 /\
    forall visual fuel,
      find_path_run visual fuel (mkSearch g empty_queue ∅) =
      find_path_loop visual fuel s1.
Proof.
  intros Hwf Hfresh Hst Htg Hvst Hvtg.
  destruct (calculate_all_h_costs_spec g tg Hwf Htg Hvtg)
    as (gh & Hrun & Hco & Hro & Hwi & Hhe & Hsta & Htar & Hsol & Hnodes & Hwfh).
  destruct (fresh_heuristic g gh tg Hnodes) as (Hgc & Hval & Hwalk & Hheur).
  destruct Hvst as [ns Hns].
  set (nsh := with_heuristic tg st ns).
  assert (node_at gh st = Some nsh) as Hnsh by (by rewrite Hnodes, Hns).
  assert (n_g_cost nsh = None) as Hnsg.
  { specialize (Hfresh st). unfold gcost in Hfresh. by rewrite Hns in Hfresh. }
  set (g1 := set_node gh st (with_g_cost nsh 0)).
  assert (same_static gh g1) as Hs1.
  { unfold g1. eapply same_static_set_node; [by apply same_static_refl|done|done]. }
  assert (forall p, gcost g1 p = if decide (p = st) then Some 0 else None) as Hg1.
  { intros p. unfold g1. rewrite gcost_set_node by (by exists nsh).
    case_decide; [done|]. by rewrite Hgc. }
  destruct (insert_spec (empty_queue (Id := Ref)) (octile st tg + 0) st)
    as (q1 & Hins & Hwf1 & _ & Hheap1 & Hc1).
  { apply empty_queue_wf. }
  { apply empty_queue_heap_order. }
  { done. }
  exists gh, (mkSearch g1 q1 ∅), nsh. split_and!; try done.
  - congruence.
  - split; simpl; try done.
    + intros p k. rewrite Hc1, empty_queue_contents.
      intros [[<- <-]|[_ ?]]%lookup_insert_Some; [|done].
      exists 0. by rewrite Hg1, decide_True.
    + intros p gp. rewrite Hg1. case_decide; [|done].
      intros [= <-]. subst p. constructor.
    + intros p gp. rewrite Hg1. case_decide; [|done]. subst p.
      intros _. right. left. rewrite Hc1, lookup_insert_eq. eauto.
    + by rewrite Hg1, decide_True.
    + intros p gp. rewrite Hg1. case_decide; [|done]. by subst p.
  - intros visual fuel. unfold find_path_run.
    unfold bind at 1. unfold on_grid at 1. simpl. rewrite Hrun.
    unfold bind at 1, get at 1. simpl. rewrite Hsta, Hst. unfold the_node.
    unfold bind at 1, ret at 1.
    unfold bind at 1. rewrite (on_grid_deref _ _ _ _ _ Hnsh).
    unfold bind at 1. rewrite (on_grid_update_node _ _ _ _ _ _ Hnsh).
    unfold relax_g_cost. rewrite Hnsg. simpl.
    unfold bind at 1.
    rewrite (on_grid_f_cost_of _ _ _ st (with_g_cost nsh 0) (octile st tg) 0).
    + unfold bind at 1. unfold on_opened at 1. simpl. by rewrite Hins.
    + fold g1. unfold gcost in Hg1. specialize (Hg1 st).
      rewrite decide_True in Hg1 by done.
      unfold g1. rewrite node_at_set_node by (by exists nsh).
      by rewrite decide_True.
    + done.
    + done.
Qed.

Lemma find_path_unfold fuel g :
  find_path fuel g =
    match find_path_run true fuel (mkSearch g empty_queue ∅) with
    | Ok a s => Ok a (s_grid s)
    | Raise e s => Raise e (s_grid s)
    | OutOfFuel => OutOfFuel
    end.
Proof. done. Qed.

(** X15. The search with display does what the search without does.  On a
    freshly built grid whose start node is in the state [START], with fuel
    for every node, [find_path] and [find_path_nonvisual] end the same way:
    both return, or both raise the [IndexError] of [extract_min] on the
    empty queue.  They leave the same queue and the same closed set, and
    grids with the same size, start, target and solved flag whose nodes
    differ in the state alone: beside the g-costs, heuristics and
    predecessors of the search without display, the search with display
    shows a closed node as [CLOSED] and a node with a g-cost that is not
    closed as [OPENED], and leaves the start and the target in their
    states. *)
Theorem display_search_agrees (g : Grid) (st tg : Ref) (fuel : nat) :
  grid_wf g -> fresh g ->
  g_start g = Some st -> g_target g = Some tg ->
  valid g st -> valid g tg ->
  (forall n, node_at g st = Some n -> n_state n = START) ->
  (Z.to_nat (g_rows g) * Z.to_nat (g_columns g) < fuel)%nat ->
  exists s sv,
    shown s sv /\
    ((find_path_run false fuel (mkSearch g empty_queue ∅) = Ok tt s /\
      find_path_run true fuel (mkSearch g empty_queue ∅) = Ok tt sv /\
      find_path_nonvisual fuel g = Ok tt (s_grid s) /\
      find_path fuel g = Ok tt (s_grid sv)) \/
     (find_path_run false fuel (mkSearch g empty_queue ∅) = Raise IndexError s /\
      find_path_run true fuel (mkSearch g empty_queue ∅) = Raise IndexError sv /\
      find_path_nonvisual fuel g = Raise IndexError (s_grid s) /\
      find_path fuel g = Raise IndexError (s_grid sv))).
Proof.
  intros Hwf Hfresh Hst Htg Hvst Hvtg Hstart Hfuel.
  destruct (find_path_run_inv g st tg Hwf Hfresh Hst Htg Hvst Hvtg)
    as (gh & s1 & ns & Hcalc & Hnodes & Hwfh & Htar & Hsol & Hro & Hco & Hns &
        Hg1 & HC1 & Hinv & Hrun).
  destruct (fresh_heuristic g gh tg Hnodes) as (Hgc & Hval & Hwalk & Hheur).
  assert (forall n, node_at gh st = Some n -> n_state n = START) as Hstarth.
  { intros n. rewrite Hnodes. destruct (node_at g st) as [n0|] eqn:Hn0; [|done].
    simpl. intros [= <-]. simpl. by apply Hstart. }
  assert (shown s1 s1) as Hshown.
  { pose proof (ss_wf _ _ (inv_static _ _ _ _ _ Hinv)) as Hwf1.
    split; try done. intros p. rewrite HC1.
    destruct (node_at (s_grid s1) p) as [n|] eqn:Hn; [|done]. simpl. f_equal.
    symmetry. apply display_first; [apply not_elem_of_empty|].
    rewrite Hg1 in Hn. rewrite node_at_set_node in Hn by (by exists ns).
    destruct (decide (p = st)) as [->|Hne].
    - right. injection Hn as <-. simpl. by apply Hstarth.
    - left. specialize (Hgc p). specialize (Hfresh p). unfold gcost in *.
      rewrite Hn in Hgc. congruence. }
  pose proof (find_path_loop_shown gh st tg Hheur Hstarth Htar Hwfh fuel s1 s1
                Hinv Hshown) as Hstep.
  rewrite find_path_nonvisual_unfold, find_path_unfold, !Hrun.
  destruct (find_path_loop_spec gh st tg Hheur Htar Hwfh fuel s1 Hinv)
    as [(s' & Hloop & _)|(s' & Hloop & _)].
  { rewrite HC1. pose proof (open_slots_bound gh ∅). rewrite Hro, Hco in *. lia. }
  - rewrite Hloop in Hstep |- *. unfold shown_outcome in Hstep.
    destruct (find_path_loop true fuel s1) as [[] sv|e sv|] eqn:Hloopv; try done.
    exists s', sv. split; [done|]. by left.
  - rewrite Hloop in Hstep |- *. unfold shown_outcome in Hstep.
    destruct (find_path_loop true fuel s1) as [[] sv|e sv|] eqn:Hloopv; try done.
    destruct Hstep as [<- Hstep].
    exists s', sv. split; [done|]. by right.
Qed.

Lemma display_search_agrees_witness :
  exists s sv,
    shown s sv /\
    ((find_path_run false 51 (mkSearch example_grid empty_queue ∅) = Ok tt s /\
      find_path_run true 51 (mkSearch example_grid empty_queue ∅) = Ok tt sv /\
      find_path_nonvisual 51 example_grid = Ok tt (s_grid s) /\
      find_path 51 example_grid = Ok tt (s_grid sv)) \/
     (find_path_run false 51 (mkSearch example_grid empty_queue ∅) =
        Raise IndexError s /\
      find_path_run true 51 (mkSearch example_grid empty_queue ∅) =
        Raise IndexError sv /\
      find_path_nonvisual 51 example_grid = Raise IndexError (s_grid s) /\
      find_path 51 example_grid = Raise IndexError (s_grid sv))).
Proof.
  apply (display_search_agrees example_grid (9, 4) (9, 0) 51).
  - apply grid_wf_b_sound. vm_compute. reflexivity.
  - apply fresh_b_sound. vm_compute. reflexivity.
  - vm_compute. reflexivity.
  - vm_compute. reflexivity.
  - vm_compute. eauto.
  - vm_compute. eauto.
  - intros n Hn. vm_compute in Hn. injection Hn as <-. reflexivity.
  - vm_compute. lia.
Defined.

(** * The search on any grid *)

(** The searches reset neither the g-costs nor the predecessors, so the
    loop may run on a grid that an earlier search has left.  This part
    follows it there: the grid is any well-formed grid. *)

(** The state of the loop, at the head of a turn and between two
    neighbours: the heuristics are set, the queue is a heap with its
    mapping, and the key of a queued node is its f-cost. *)
Record sound (tg : Ref) (s : Search) : Prop := mk_sound {
  sound_grid : grid_wf (s_grid s);
  sound_heuristic : forall p n,
    node_at (s_grid s) p = Some n -> n_h_cost n = Some (octile p tg);
  sound_wf : wf (s_opened s);
  sound_heap : heap_order (q_elements (s_opened s));
  sound_keys : forall p k,
    contents (s_opened s) !! p = Some k ->
    exists gp, gcost (s_grid s) p = Some gp /\ k = octile p tg + gp
}.

(** The attributes of the grid that a turn of the loop leaves alone. *)
Record same_frame (g g' : Grid) : Prop := mk_same_frame {
  frame_columns : g_columns g' = g_columns g;
  frame_rows : g_rows g' = g_rows g;
  frame_width : g_width g' = g_width g;
  frame_height : g_height g' = g_height g;
  frame_start : g_start g' = g_start g;
  frame_target : g_target g' = g_target g;
  frame_solved : g_solved g' = g_solved g
}.

(** What the body of the loops over the neighbours makes of a node, for
    the candidate g-cost [cand] through [u]; [queued] tells whether the
    node is in the queue. *)
Definition relaxed (visual : bool) (u : Ref) (cand : Z) (queued : bool)
    (n : Node) : Node :=
  if snd (relax_g_cost n cand) then
    if visual && negb queued then make_open (set_prev (with_g_cost n cand) u)
    else set_prev (with_g_cost n cand) u
  else n.

(** The candidate [cand] is accepted at the slot [p]. *)
Definition improves (g : Grid) (cand : Z) (p : Ref) : bool :=
  match node_at g p with
  | Some n => snd (relax_g_cost n cand)
  | None => false
  end.

Lemma same_frame_refl g : same_frame g g.
Proof. by split. Qed.

Lemma same_frame_trans g1 g2 g3 :
  same_frame g1 g2 -> same_frame g2 g3 -> same_frame g1 g3.
Proof. intros [] []. split; congruence. Qed.

Lemma same_frame_set_node g p n : same_frame g (set_node g p n).
Proof. by split. Qed.

Lemma relax_g_cost_accepts n cand :
  snd (relax_g_cost n cand) = true <->
  n_g_cost n = None \/ exists gm, n_g_cost n = Some gm /\ cand < gm.
Proof.
  unfold relax_g_cost. destruct (n_g_cost n) as [gm|]; [|by split; [left|]].
  destruct (Z.ltb_spec cand gm); simpl; split.
  - intros _. right. eauto.
  - done.
  - done.
  - intros [?|(gm' & [= <-] & ?)]; [done|lia].
Qed.

Lemma relax_g_cost_refuses n cand :
  snd (relax_g_cost n cand) = false <->
  exists gm, n_g_cost n = Some gm /\ gm <= cand.
Proof.
  unfold relax_g_cost. destruct (n_g_cost n) as [gm|].
  - destruct (Z.ltb_spec cand gm); simpl; split; try done.
    + intros (gm' & [= <-] & ?). lia.
    + intros _. eauto.
  - simpl. split; [done|]. by intros (? & ? & _).
Qed.


Lemma relaxed_g_cost visual u cand queued n :
  n_g_cost (relaxed visual u cand queued n) =
    if snd (relax_g_cost n cand) then Some cand else n_g_cost n.
Proof.
  unfold relaxed. destruct (snd (relax_g_cost n cand)); [|done].
  destruct (visual && negb queued); [|done].
  unfold make_open. by case_decide.
Qed.


Lemma relaxed_state visual u cand queued n :
  n_state (relaxed visual u cand queued n) =
    if snd (relax_g_cost n cand) && visual && negb queued
    then n_state (make_open n) else n_state n.
Proof.
  unfold relaxed. destruct (snd (relax_g_cost n cand)); [|done]. simpl.
  destruct (visual && negb queued); [|done].
  by rewrite !make_open_state.
Qed.

Lemma relaxed_obstacle visual u cand queued n :
  n_state n <> OBSTACLE -> n_state (relaxed visual u cand queued n) <> OBSTACLE.
Proof.
  intros Hn. rewrite relaxed_state.
  destruct (snd (relax_g_cost n cand) && visual && negb queued); [|done].
  rewrite make_open_state. by case_decide.
Qed.

Section AnyGrid.
Context (tg : Ref).

(** The body of the loops over the neighbours, on a sound state. *)
Lemma relax_neighbour_sound visual u c m nu nm gu g q C :
  sound tg (mkSearch g q C) ->
  node_at g u = Some nu -> n_g_cost nu = Some gu ->
  node_at g m = Some nm -> m <> u ->
  exists q',
    relax_neighbour visual u c m (mkSearch g q C) =
      Ok tt (mkSearch
               (set_node g m
                  (relaxed visual u (gu + c)
                     (bool_decide (is_Some (contents q !! m))) nm))
               q' C) /\
    sound tg (mkSearch
                (set_node g m
                   (relaxed visual u (gu + c)
                      (bool_decide (is_Some (contents q !! m))) nm))
                q' C) /\
    contents q' =
      (if snd (relax_g_cost nm (gu + c))
       then <[m := octile m tg + (gu + c)]> (contents q) else contents q) /\
    (snd (relax_g_cost nm (gu + c)) = false -> q' = q).
Proof.
  intros [Hgwf Hheur Hwf Hheap Hkeys] Hnu Hgu Hnm Hmu.
  cbn [s_grid s_opened s_closed] in *.
  pose proof (Hheur m nm Hnm) as Hh.
  destruct (relax_neighbour_effect visual g q C u m c gu (octile m tg) nu nm
              Hnu Hgu Hnm Hh Hwf Hheap) as [Hsame Himp].
  { intros k Hk. destruct (Hkeys m k Hk) as (gm & Hgm & ->).
    exists gm. split; [|done]. unfold gcost in Hgm. by rewrite Hnm in Hgm. }
  destruct (snd (relax_g_cost nm (gu + c))) eqn:Hacc.
  - apply relax_g_cost_accepts in Hacc as Hacc'.
    destruct (Himp Hacc') as (g' & q' & Hrun & -> & Hg & Hp & _ & Hwf' & Hheap' & Hc' & _).
    exists q'. unfold relaxed. rewrite Hacc. split_and!; try done.
    set (n' := if visual && negb (bool_decide (is_Some (contents q !! m)))
               then make_open (set_prev (with_g_cost nm (gu + c)) u)
               else set_prev (with_g_cost nm (gu + c)) u) in *.
    assert (n_row n' = n_row nm /\ n_col n' = n_col nm /\ n_pos n' = n_pos nm /\
            n_h_cost n' = n_h_cost nm) as (Hr & Hco & Hpo & Hhc).
    { unfold n'. destruct (visual && negb _); [|done].
      unfold make_open. by case_decide. }
    split; cbn [s_grid s_opened s_closed]; try done.
    + by apply (grid_wf_set_node g m nm).
    + intros p n. rewrite node_at_set_node by (by exists nm).
      case_decide as Hp'; [subst p|by apply Hheur].
      intros [= <-]. by rewrite Hhc.
    + intros p k. rewrite Hc'. rewrite gcost_set_node by (by exists nm).
      destruct (decide (p = m)) as [->|Hne].
      * rewrite lookup_insert_eq. intros [= <-]. exists (gu + c).
        split; [|done]. unfold gcost in Hg.
        rewrite node_at_set_node in Hg by (by exists nm).
        by rewrite decide_True in Hg.
      * rewrite lookup_insert_ne by done. apply Hkeys.
  - apply relax_g_cost_refuses in Hacc as (gm & Hgm & Hle).
    exists q. unfold relaxed.
    assert (snd (relax_g_cost nm (gu + c)) = false) as ->.
    { apply relax_g_cost_refuses. eauto. }
    rewrite (set_node_id g m nm Hnm). split_and!; try done.
    by apply (Hsame gm).
Qed.

(** The loop over a list of neighbours of [u], none of them [u] and none
    twice: every node of the list is relaxed once, against the g-cost it
    had and the queue as it was, and nothing else changes. *)
Lemma relax_list_sound visual u c nu gu (ms : list Ref) :
  forall g q C,
    sound tg (mkSearch g q C) ->
    node_at g u = Some nu -> n_g_cost nu = Some gu ->
    NoDup ms -> u ∉ ms -> (forall m, m ∈ ms -> valid g m) ->
    exists g' q',
      for_each ms (relax_neighbour visual u c) (mkSearch g q C) =
        Ok tt (mkSearch g' q' C) /\
      sound tg (mkSearch g' q' C) /\ same_frame g g' /\
      (forall p, node_at g' p =
         if decide (p ∈ ms)
         then relaxed visual u (gu + c)
                (bool_decide (is_Some (contents q !! p))) <$> node_at g p
         else node_at g p) /\
      (forall p, contents q' !! p =
         if decide (p ∈ ms)
         then (if improves g (gu + c) p then Some (octile p tg + (gu + c))
               else contents q !! p)
         else contents q !! p) /\
      ((forall m, m ∈ ms -> improves g (gu + c) m = false) -> g' = g /\ q' = q).
Proof.
  induction ms as [|m ms IH]; intros g q C Hsound Hnu Hgu Hnd Hu Hvalid.
  - exists g, q. split_and!; done.
  - apply NoDup_cons in Hnd as [Hm Hnd].
    apply not_elem_of_cons in Hu as [Hum Hu].
    destruct (Hvalid m) as [nm Hnm]; [left|].
    destruct (relax_neighbour_sound visual u c m nu nm gu g q C Hsound Hnu Hgu Hnm)
      as (q1 & Hrun1 & Hsound1 & Hc1 & Hq1); [done|].
    set (g1 := set_node g m
                 (relaxed visual u (gu + c)
                    (bool_decide (is_Some (contents q !! m))) nm)) in *.
    assert (forall p, node_at g1 p =
              if decide (p = m)
              then Some (relaxed visual u (gu + c)
                           (bool_decide (is_Some (contents q !! m))) nm)
              else node_at g p) as Hnode1.
    { intros p. unfold g1. by rewrite node_at_set_node by (by exists nm). }
    destruct (IH g1 q1 C Hsound1) as (g' & q' & Hrun & Hsound' & Hframe & Hnodes & Hcs & Hnone);
      try done.
    { rewrite Hnode1. by rewrite decide_False by done. }
    { intros m' Hm'. unfold valid. rewrite Hnode1. case_decide; [done|].
      apply Hvalid. by right. }
    assert (forall p, p <> m -> contents q1 !! p = contents q !! p) as Hq1other.
    { intros p Hp. rewrite Hc1. destruct (snd (relax_g_cost nm (gu + c))); [|done].
      by rewrite lookup_insert_ne. }
    assert (forall p, p <> m -> improves g1 (gu + c) p = improves g (gu + c) p)
      as Himpother.
    { intros p Hp. unfold improves. by rewrite Hnode1, decide_False. }
    exists g', q'. split_and!; try done.
    + cbn [for_each]. unfold bind. by rewrite Hrun1.
    + eapply same_frame_trans; [apply (same_frame_set_node g m)|done].
    + intros p. rewrite Hnodes. destruct (decide (p = m)) as [->|Hpm].
      * rewrite (decide_False (P := m ∈ ms)) by done.
        rewrite (decide_True (P := m ∈ m :: ms)) by left.
        rewrite Hnode1, Hnm. by rewrite (decide_True (P := m = m)) by done.
      * rewrite Hnode1, (decide_False (P := p = m)) by done.
        rewrite Hq1other by done.
        destruct (decide (p ∈ ms)) as [Hin|Hin].
        -- by rewrite (decide_True (P := p ∈ m :: ms)) by (by right).
        -- rewrite (decide_False (P := p ∈ m :: ms)); [done|].
           by intros [?|?]%elem_of_cons.
    + intros p. rewrite Hcs. destruct (decide (p = m)) as [->|Hpm].
      * rewrite (decide_False (P := m ∈ ms)) by done.
        rewrite (decide_True (P := m ∈ m :: ms)) by left.
        rewrite Hc1. unfold improves. rewrite Hnm.
        destruct (snd (relax_g_cost nm (gu + c))); [|done].
        by rewrite lookup_insert_eq.
      * rewrite Himpother, Hq1other by done.
        destruct (decide (p ∈ ms)) as [Hin|Hin].
        -- by rewrite (decide_True (P := p ∈ m :: ms)) by (by right).
        -- rewrite (decide_False (P := p ∈ m :: ms)); [done|].
           by intros [?|?]%elem_of_cons.
    + intros Hall.
      assert (snd (relax_g_cost nm (gu + c)) = false) as Hm0.
      { specialize (Hall m ltac:(left)). unfold improves in Hall. by rewrite Hnm in Hall. }
      assert (g1 = g) as Hg1.
      { unfold g1, relaxed. rewrite Hm0. by apply set_node_id. }
      destruct Hnone as [-> ->].
      { intros m' Hm'. rewrite Himpother.
        - apply Hall. by right.
        - intros ->. done. }
      split; [done|]. by apply Hq1.
Qed.

(** The two lists of neighbours the loop asks for. *)
Definition vh_of (g : Grid) (u : Ref) : list Ref :=
  adjacent_nodes g (fst u) (snd u) [(-1, 0); (1, 0); (0, -1); (0, 1)].

Definition d_of (g : Grid) (u : Ref) : list Ref :=
  adjacent_nodes g (fst u) (snd u) [(-1, -1); (1, -1); (-1, 1); (1, 1)].

Lemma vh_of_spec g u :
  grid_wf g -> valid g u ->
  get_vert_horz_neighbours u g = Ok (vh_of g u) g /\ NoDup (vh_of g u) /\
  forall m, m ∈ vh_of g u <-> orth_adjacent u m /\ walkable g m.
Proof.
  intros Hwf Hv. destruct (vert_horz_neighbours_edges g u Hwf Hv)
    as (vh & Hrun & Hnd & _ & Helem).
  assert (vh = vh_of g u) as ->; [|done].
  destruct u as [r c]. unfold get_vert_horz_neighbours in Hrun.
  rewrite (neighbours_ok g _ r c Hwf Hv) in Hrun. by injection Hrun as <-.
Qed.

Lemma d_of_spec g u :
  grid_wf g -> valid g u ->
  get_diag_neighbors u g = Ok (d_of g u) g /\ NoDup (d_of g u) /\
  forall m, m ∈ d_of g u <-> diag_adjacent u m /\ walkable g m.
Proof.
  intros Hwf Hv. destruct (diag_neighbors_edges g u Hwf Hv)
    as (d & Hrun & Hnd & _ & Helem).
  assert (d = d_of g u) as ->; [|done].
  destruct u as [r c]. unfold get_diag_neighbors in Hrun.
  rewrite (neighbours_ok g _ r c Hwf Hv) in Hrun. by injection Hrun as <-.
Qed.

Lemma close_keeps n :
  n_row (close n) = n_row n /\ n_col (close n) = n_col n /\
  n_pos (close n) = n_pos n /\ n_h_cost (close n) = n_h_cost n /\
  n_g_cost (close n) = n_g_cost n /\ n_prev (close n) = n_prev n.
Proof. unfold close. by case_decide. Qed.

(** One turn of the loop on a sound state, when the node extracted is not
    the target: [g3] and [q3] are the grid and the queue once the
    neighbours are relaxed. *)
Lemma turn_sound visual g q C u q1 :
  sound tg (mkSearch g q C) ->
  extract_min q = Ok u q1 ->
  g_target g <> Some u ->
  exists nu gu g3 q3,
    node_at g u = Some nu /\ n_g_cost nu = Some gu /\
    contents q !! u = Some (octile u tg + gu) /\
    contents q1 = delete u (contents q) /\ q_size q1 = q_size q - 1 /\
    (forall fuel,
       find_path_loop visual (S fuel) (mkSearch g q C) =
       find_path_loop visual fuel
         (mkSearch (if visual then set_node g3 u (close nu) else g3) q3
                   ({[u]} ∪ C))) /\
    sound tg (mkSearch (if visual then set_node g3 u (close nu) else g3) q3
                       ({[u]} ∪ C)) /\
    same_frame g g3 /\ node_at g3 u = Some nu /\
    (forall p, node_at g3 p =
       if decide (p ∈ vh_of g u)
       then relaxed visual u (gu + VERT_HORZ_COST)
              (bool_decide (is_Some (contents q1 !! p))) <$> node_at g p
       else if decide (p ∈ d_of g u)
       then relaxed visual u (gu + DIAG_COST)
              (bool_decide (is_Some (contents q1 !! p))) <$> node_at g p
       else node_at g p) /\
    (forall p, contents q3 !! p =
       if decide (p ∈ vh_of g u)
       then (if improves g (gu + VERT_HORZ_COST) p
             then Some (octile p tg + (gu + VERT_HORZ_COST))
             else contents q1 !! p)
       else if decide (p ∈ d_of g u)
       then (if improves g (gu + DIAG_COST) p
             then Some (octile p tg + (gu + DIAG_COST))
             else contents q1 !! p)
       else contents q1 !! p) /\
    ((forall m, m ∈ vh_of g u -> improves g (gu + VERT_HORZ_COST) m = false) ->
     (forall m, m ∈ d_of g u -> improves g (gu + DIAG_COST) m = false) ->
     g3 = g /\ q3 = q1).
Proof.
  intros Hsound Hrun Hnot.
  pose proof Hsound as [Hgwf Hheur Hwf Hheap Hkeys].
  cbn [s_grid s_opened s_closed] in *.
  assert (0 < q_size q) as Hpos.
  { destruct (decide (q_size q = 0)) as [Hz|Hz].
    - rewrite (extract_min_empty q Hz) in Hrun. discriminate.
    - destruct Hwf as [Hsz _]. lia. }
  destruct (extract_min_spec q Hwf Hheap Hpos)
    as (u' & ku & q1' & Hrun' & _ & Hku & _ & Hwf1 & Hsz1 & Hheap1 & Hc1).
  rewrite Hrun in Hrun'. injection Hrun' as <- <-.
  destruct (Hkeys u ku Hku) as (gu & Hgu & ->).
  pose proof Hgu as (nu & Hnu & Hnug)%gcost_Some.
  assert (valid g u) as Hvu by by exists nu.
  destruct (vh_of_spec g u Hgwf Hvu) as (Hvh & Hvhnd & Hvhelem).
  destruct (d_of_spec g u Hgwf Hvu) as (Hd & Hdnd & Hdelem).
  assert (u ∉ vh_of g u) as Huvh.
  { intros [Ha _]%Hvhelem. unfold orth_adjacent in Ha. lia. }
  assert (u ∉ d_of g u) as Hud.
  { intros [Ha _]%Hdelem. unfold diag_adjacent in Ha. lia. }
  assert (forall p, p ∈ vh_of g u -> p ∉ d_of g u) as Hdisj.
  { intros p [Ha _]%Hvhelem [Hb _]%Hdelem.
    unfold orth_adjacent, diag_adjacent in *. lia. }
  assert (sound tg (mkSearch g q1 C)) as Hsound1.
  { split; cbn [s_grid s_opened s_closed]; try done.
    intros p k. rewrite Hc1. intros [_ Hp]%lookup_delete_Some. by apply Hkeys. }
  destruct (relax_list_sound visual u VERT_HORZ_COST nu gu (vh_of g u) g q1 C
              Hsound1 Hnu Hnug Hvhnd Huvh)
    as (g2 & q2 & Hrun2 & Hsound2 & Hframe2 & Hnodes2 & Hcs2 & Hnone2).
  { intros m [_ (n & Hn & _)]%Hvhelem. by exists n. }
  assert (node_at g2 u = Some nu) as Hnu2.
  { by rewrite Hnodes2, decide_False. }
  destruct (relax_list_sound visual u DIAG_COST nu gu (d_of g u) g2 q2 C
              Hsound2 Hnu2 Hnug Hdnd Hud)
    as (g3 & q3 & Hrun3 & Hsound3 & Hframe3 & Hnodes3 & Hcs3 & Hnone3).
  { intros m Hm. pose proof Hm as [_ (n & Hn & _)]%Hdelem.
    unfold valid. rewrite Hnodes2. case_decide; rewrite Hn; by eexists. }
  assert (node_at g3 u = Some nu) as Hnu3.
  { by rewrite Hnodes3, decide_False. }
  assert (forall p, p ∈ d_of g u -> node_at g2 p = node_at g p /\
                                    contents q2 !! p = contents q1 !! p /\
                                    improves g2 (gu + DIAG_COST) p =
                                    improves g (gu + DIAG_COST) p) as Hd2.
  { intros p Hp. assert (p ∉ vh_of g u) as Hpv by (intros ?; by eapply Hdisj).
    unfold improves. rewrite Hnodes2, Hcs2. by rewrite !decide_False by done. }
  exists nu, gu, g3, q3. split_and!; try done.
  - (* the turn *)
    intros fuel. rewrite find_path_loop_unfold.
    unfold bind at 1, on_opened at 1. cbn [s_grid s_opened s_closed].
    rewrite Hrun.
    unfold bind at 1, get at 1. cbn [s_grid s_opened s_closed].
    rewrite decide_False by congruence.
    unfold bind at 1. unfold on_grid at 1. cbn [s_grid s_opened s_closed].
    rewrite Hvh.
    unfold bind at 1. unfold on_grid at 1. cbn [s_grid s_opened s_closed].
    rewrite Hd.
    unfold bind at 1. rewrite Hrun2. unfold bind at 1. rewrite Hrun3.
    unfold bind at 1, closed_add, modify. cbn [s_grid s_opened s_closed].
    destruct visual.
    + unfold bind at 1. by rewrite (on_grid_update_node _ _ _ u nu close).
    + done.
  - (* the state after the turn *)
    destruct Hsound3 as [Hgwf3 Hheur3 Hwf3 Hheap3 Hkeys3].
    cbn [s_grid s_opened s_closed] in *.
    destruct visual; [|by split].
    destruct (close_keeps nu) as (Hr & Hco & Hpo & Hh & Hg & _).
    split; cbn [s_grid s_opened s_closed]; try done.
    + by apply (grid_wf_set_node g3 u nu).
    + intros p n. rewrite node_at_set_node by (by exists nu).
      case_decide as Hp; [subst p|by apply Hheur3].
      intros [= <-]. rewrite Hh. by apply (Hheur3 u).
    + intros p k Hp. destruct (Hkeys3 p k Hp) as (gp & Hgp & ->).
      exists gp. split; [|done]. rewrite gcost_set_node by (by exists nu).
      case_decide as Hpu; [subst p|done]. rewrite Hg.
      unfold gcost in Hgp. by rewrite Hnu3 in Hgp.
  - eapply same_frame_trans; done.
  - (* the nodes *)
    intros p. rewrite Hnodes3. destruct (decide (p ∈ d_of g u)) as [Hpd|Hpd].
    + destruct (Hd2 p Hpd) as (-> & -> & _).
      rewrite decide_False; [done|]. intros ?. by eapply Hdisj.
    + rewrite Hnodes2. by destruct (decide (p ∈ vh_of g u)).
  - (* the queue *)
    intros p. rewrite Hcs3. destruct (decide (p ∈ d_of g u)) as [Hpd|Hpd].
    + destruct (Hd2 p Hpd) as (_ & -> & ->).
      rewrite decide_False; [done|]. intros ?. by eapply Hdisj.
    + rewrite Hcs2. by destruct (decide (p ∈ vh_of g u)).
  - (* nothing accepted *)
    intros Hvh0 Hd0. destruct (Hnone2 Hvh0) as [-> ->].
    by destruct (Hnone3 Hd0) as [-> ->].
Qed.

(** The statements before the loop, on any well-formed grid: the loop is
    entered in a sound state, with the start as the one entry of the
    queue. *)
Lemma find_path_run_sound g st :
  grid_wf g -> g_start g = Some st -> g_target g = Some tg ->
  valid g st -> valid g tg ->
  exists gh ns q1,
    calculate_all_h_costs g = Ok tt gh /\
    (forall p, node_at gh p = with_heuristic tg p <$> node_at g p) /\
    same_frame g gh /\ grid_wf gh /\
    node_at gh st = Some ns /\
    (exists x, n_g_cost (fst (relax_g_cost ns 0)) = Some x /\
               insert (octile st tg + x) st empty_queue = Ok tt q1 /\
               contents q1 = {[st := octile st tg + x]}) /\
    q_size q1 = 1 /\
    sound tg (mkSearch (set_node gh st (fst (relax_g_cost ns 0))) q1 ∅) /\
    forall visual fuel,
      find_path_run visual fuel (mkSearch g empty_queue ∅) =
      find_path_loop visual fuel
        (mkSearch (set_node gh st (fst (relax_g_cost ns 0))) q1 ∅).
Proof.
  intros Hwf Hst Htg Hvst Hvtg.
  destruct (find_path_run_start g st tg Hwf Hst Htg Hvst Hvtg)
    as (gh & ns & x & q1 & Hcalc & Hnodes & _ & _ & Hns & Hx & Hins & Hwf1 &
        Hheap1 & Hsz1 & Hc1 & Hrun).
  destruct (calculate_all_h_costs_spec g tg Hwf Htg Hvtg)
    as (gh' & Hcalc' & Hco & Hro & Hwi & Hhe & Hsta & Htar & Hsol & _ & Hwfh).
  assert (gh' = gh) as -> by congruence.
  exists gh, ns, q1. split_and!; try done; [eauto|].
  assert (n_row (fst (relax_g_cost ns 0)) = n_row ns /\
          n_col (fst (relax_g_cost ns 0)) = n_col ns /\
          n_pos (fst (relax_g_cost ns 0)) = n_pos ns /\
          n_h_cost (fst (relax_g_cost ns 0)) = n_h_cost ns) as (Hr & Hc & Hp & Hh).
  { unfold relax_g_cost. destruct (n_g_cost ns) as [y|]; [|done].
    by destruct (0 <? y). }
  assert (forall p n, node_at gh p = Some n -> n_h_cost n = Some (octile p tg))
    as Hheur.
  { intros p n. rewrite Hnodes. destruct (node_at g p); [|done].
    intros [= <-]. done. }
  split; cbn [s_grid s_opened s_closed]; try done.
  - by apply (grid_wf_set_node gh st ns).
  - intros p n. rewrite node_at_set_node by (by exists ns).
    case_decide as Hp'; [subst p|by apply Hheur].
    intros [= <-]. rewrite Hh. by apply Hheur.
  - intros p k. rewrite Hc1. intros [<- <-]%lookup_singleton_Some.
    exists x. split; [|done]. rewrite gcost_set_node by (by exists ns).
    by rewrite decide_True.
Qed.
End AnyGrid.


(** ** The loop ends on any grid *)

Lemma sum_list_with_le {A} (f f' : A -> nat) (l : list A) :
  (forall x, x ∈ l -> (f' x <= f x)%nat) ->
  (sum_list_with f' l <= sum_list_with f l)%nat.
Proof.
  induction l as [|y l IH]; intros Hle; [done|]. simpl.
  pose proof (Hle y ltac:(left)).
  assert (sum_list_with f' l <= sum_list_with f l)%nat.
  { apply IH. intros x Hx. apply Hle. by right. }
  lia.
Qed.

Lemma sum_list_with_lt {A} (f f' : A -> nat) (l : list A) :
  (forall x, x ∈ l -> (f' x <= f x)%nat) ->
  (exists x, x ∈ l /\ (f' x < f x)%nat) ->
  (sum_list_with f' l < sum_list_with f l)%nat.
Proof.
  induction l as [|y l IH]; intros Hle (x & Hx & Hlt).
  - by apply elem_of_nil in Hx.
  - simpl. pose proof (Hle y ltac:(left)).
    assert (sum_list_with f' l <= sum_list_with f l)%nat.
    { apply sum_list_with_le. intros z Hz. apply Hle. by right. }
    apply elem_of_cons in Hx as [->|Hx]; [lia|].
    assert (sum_list_with f' l < sum_list_with f l)%nat; [|lia].
    apply IH; [|eauto]. intros z Hz. apply Hle. by right.
Qed.

Lemma sum_list_with_same {A} (f f' : A -> nat) (l : list A) :
  (forall x, x ∈ l -> f' x = f x) -> sum_list_with f' l = sum_list_with f l.
Proof.
  induction l as [|y l IH]; intros Heq; [done|]. simpl.
  rewrite (Heq y) by left. rewrite IH; [done|].
  intros x Hx. apply Heq. by right.
Qed.

(** Finitely many g-costs have a lower bound. *)
Lemma bounded_below (f : Ref -> option Z) (l : list Ref) :
  exists L, forall p x, p ∈ l -> f p = Some x -> L <= x.
Proof.
  induction l as [|y l (L & IH)]; [exists 0; by intros p x ?%elem_of_nil|].
  destruct (f y) as [v|] eqn:Hy.
  - exists (Z.min L v). intros p x [->|Hp]%elem_of_cons Hx.
    + assert (x = v) as -> by congruence. lia.
    + specialize (IH p x Hp Hx). lia.
  - exists L. intros p x [->|Hp]%elem_of_cons Hx; [congruence|by apply (IH p)].
Qed.

Section Exploring.
Context (g0 : Grid) (st tg : Ref) (L : Z).

Hypothesis target_set : g_target g0 = Some tg.

Hypothesis grid0_wf : grid_wf g0.

(** The state of the loop on a grid with the nodes and the obstacles of
    [g0]: it is sound, every node of the queue is at the end of a sequence
    of moves from the start, and no g-cost is below [L]. *)
Record exploring (s : Search) : Prop := mk_exploring {
  exp_sound : sound tg s;
  exp_frame : same_frame g0 (s_grid s);
  exp_valid : forall p, valid (s_grid s) p <-> valid g0 p;
  exp_walkable : forall p, walkable (s_grid s) p -> p = st \/ walkable g0 p;
  exp_queue : forall p,
    is_Some (contents (s_opened s) !! p) -> exists k, reach g0 st p k;
  exp_low : forall p x, gcost (s_grid s) p = Some x -> L <= x
}.

(** The measure of the loop, in three parts: the nodes without a g-cost,
    the g-costs above [L] summed up, and the size of the queue. *)
Definition unseen (g : Grid) : nat :=
  sum_list_with (fun p => match gcost g p with None => 1 | Some _ => 0 end)%nat
                (all_refs g0).

Definition weight (g : Grid) : nat :=
  sum_list_with (fun p => match gcost g p with
                          | Some x => Z.to_nat (x - L)
                          | None => 0%nat
                          end)
                (all_refs g0).

(** A turn that does not extract the target keeps the state and makes the
    measure smaller. *)
Lemma turn_progress visual g q C u q1 :
  exploring (mkSearch g q C) ->
  extract_min q = Ok u q1 -> u <> tg ->
  exists s',
    (forall fuel,
       find_path_loop visual (S fuel) (mkSearch g q C) =
       find_path_loop visual fuel s') /\
    exploring s' /\
    ((unseen (s_grid s') < unseen g)%nat \/
     (unseen (s_grid s') = unseen g /\ (weight (s_grid s') < weight g)%nat) \/
     (unseen (s_grid s') = unseen g /\ weight (s_grid s') = weight g /\
      q_size (s_opened s') < q_size q)).
Proof.
  intros [Hsound Hframe Hvalid Hwalk Hqueue Hlow] Hrun Hutg.
  cbn [s_grid s_opened s_closed] in *.
  assert (g_target g <> Some u) as Hnot.
  { rewrite (frame_target g0 g Hframe), target_set. congruence. }
  destruct (turn_sound tg visual g q C u q1 Hsound Hrun Hnot)
    as (nu & gu & g3 & q3 & Hnu & Hnug & Hku & Hc1 & Hsz1 & Hturn & Hsound' &
        Hframe3 & Hnu3 & Hnodes & Hcs & Hnone).
  pose proof Hsound as [Hgwf Hheur Hwf Hheap Hkeys].
  cbn [s_grid s_opened s_closed] in *.
  assert (valid g u) as Hvu by by exists nu.
  destruct (vh_of_spec g u Hgwf Hvu) as (_ & _ & Hvhelem).
  destruct (d_of_spec g u Hgwf Hvu) as (_ & _ & Hdelem).
  assert (u ∉ vh_of g u) as Huvh.
  { intros [Ha _]%Hvhelem. unfold orth_adjacent in Ha. lia. }
  assert (u ∉ d_of g u) as Hud.
  { intros [Ha _]%Hdelem. unfold diag_adjacent in Ha. lia. }
  destruct (Hqueue u) as [ku Hreachu]; [by rewrite Hku|].
  assert (L <= gu) as Hlowu.
  { apply (Hlow u). unfold gcost. by rewrite Hnu. }
  set (g4 := if visual then set_node g3 u (close nu) else g3) in *.
  assert (forall p, node_at g4 p =
            if decide (p = u) then Some (if visual then close nu else nu)
            else node_at g3 p) as Hnode4.
  { intros p. unfold g4. destruct visual.
    - by rewrite node_at_set_node by (by exists nu).
    - case_decide; [by subst p|done]. }
  assert (same_frame g g4) as Hframe4.
  { unfold g4. destruct visual; [|done].
    eapply same_frame_trans; [done|apply same_frame_set_node]. }
  set (acc := fun p =>
                if decide (p ∈ vh_of g u) then improves g (gu + VERT_HORZ_COST) p
                else if decide (p ∈ d_of g u) then improves g (gu + DIAG_COST) p
                else false).
  set (cand := fun p => if decide (p ∈ vh_of g u) then gu + VERT_HORZ_COST
                        else gu + DIAG_COST).
  assert (forall p, gcost g4 p = if acc p then Some (cand p) else gcost g p) as Hgc.
  { intros p. unfold gcost. rewrite Hnode4. unfold acc, cand, improves.
    destruct (decide (p = u)) as [->|Hpu].
    - rewrite !decide_False by done. rewrite Hnu.
      destruct visual; [|done]. simpl. by destruct (close_keeps nu) as (_ & _ & _ & _ & -> & _).
    - rewrite Hnodes.
      destruct (decide (p ∈ vh_of g u)); [|destruct (decide (p ∈ d_of g u))];
        destruct (node_at g p) as [np|]; simpl; try done;
        rewrite relaxed_g_cost; by destruct (snd (relax_g_cost np _)). }
  assert (forall p, acc p = true ->
            p <> u /\ valid g p /\ walkable g p /\ L <= cand p /\
            (gcost g p = None \/ exists gm, gcost g p = Some gm /\ cand p < gm) /\
            exists c, edge g u p c) as Hacc.
  { intros p Hp. unfold acc, cand, improves in *.
    destruct (decide (p ∈ vh_of g u)) as [Hin|Hnin].
    - pose proof Hin as [Ha Hw]%Hvhelem. pose proof Hw as (n & Hn & Hst).
      rewrite Hn in Hp. apply relax_g_cost_accepts in Hp.
      unfold gcost. rewrite Hn. unfold VERT_HORZ_COST in *.
      split_and!; try done; [by intros ->|by exists n|lia|].
      exists 10. split_and!; try done. by left.
    - destruct (decide (p ∈ d_of g u)) as [Hin|Hnin']; [|done].
      pose proof Hin as [Ha Hw]%Hdelem. pose proof Hw as (n & Hn & Hst).
      rewrite Hn in Hp. apply relax_g_cost_accepts in Hp.
      unfold gcost. rewrite Hn. unfold DIAG_COST in *.
      split_and!; try done; [by intros ->|by exists n|lia|].
      exists 14. split_and!; try done. by right. }
  assert (forall p, valid g p -> p ∈ all_refs g0) as Hrefs.
  { intros p Hp. apply valid_all_refs; [done|]. by apply Hvalid. }
  exists (mkSearch g4 q3 ({[u]} ∪ C)). split_and!; [done| |].
  - (* the state is kept *)
    split; cbn [s_grid s_opened s_closed]; try done.
    + by eapply same_frame_trans.
    + intros p. rewrite <- Hvalid. unfold valid. rewrite Hnode4.
      case_decide as Hpu; [subst p; by split; eauto|]. rewrite Hnodes.
      repeat case_decide; by rewrite ?fmap_is_Some.
    + intros p (n & Hn & Hst). rewrite Hnode4 in Hn.
      destruct (decide (p = u)) as [->|Hpu].
      { apply (reach_end g0 st u ku Hreachu). }
      apply Hwalk. rewrite Hnodes in Hn.
      destruct (decide (p ∈ vh_of g u)) as [[_ Hw]%Hvhelem|]; [done|].
      destruct (decide (p ∈ d_of g u)) as [[_ Hw]%Hdelem|]; [done|].
      by exists n.
    + intros p Hp. rewrite Hcs in Hp.
      assert (is_Some (contents q !! p) \/ acc p = true) as [Hold|Hnew].
      { unfold acc. rewrite Hc1 in Hp.
        destruct (decide (p ∈ vh_of g u)); [|destruct (decide (p ∈ d_of g u))].
        - destruct (improves g _ p); [by right|left].
          destruct Hp as [k [_ Hk]%lookup_delete_Some]. by exists k.
        - destruct (improves g _ p); [by right|left].
          destruct Hp as [k [_ Hk]%lookup_delete_Some]. by exists k.
        - left. destruct Hp as [k [_ Hk]%lookup_delete_Some]. by exists k. }
      * by apply Hqueue.
      * destruct (Hacc p Hnew) as (_ & _ & Hw & _ & _ & c & He).
        destruct (Hwalk p Hw) as [->|Hw0]; [exists 0; constructor|].
        exists (ku + c). eapply reach_step; [done|].
        destruct He as (Hv1 & _ & Hdir). split_and!; [by apply Hvalid|done|done].
    + intros p x. rewrite Hgc. destruct (acc p) eqn:Hp; [|by apply Hlow].
      intros [= <-]. by destruct (Hacc p Hp) as (_ & _ & _ & ? & _).
  - (* the measure *)
    cbn [s_grid s_opened s_closed].
    destruct (decide (Exists (fun p => acc p = true /\ gcost g p = None)
                             (all_refs g0))) as [Hfirst|Hfirst].
    { left. apply Exists_exists in Hfirst as (m & Hm & Hacm & Hgm).
      unfold unseen. apply sum_list_with_lt.
      - intros p _. rewrite Hgc. destruct (acc p); [|done].
        destruct (gcost g p); lia.
      - exists m. split; [done|]. rewrite Hgc, Hacm, Hgm. lia. }
    apply not_Exists_Forall in Hfirst; [|apply _].
    rewrite Forall_forall in Hfirst.
    assert (forall p, p ∈ all_refs g0 -> acc p = true ->
              exists gm, gcost g p = Some gm /\ L <= cand p < gm) as Hsome.
    { intros p Hp Hacp. destruct (Hacc p Hacp) as (_ & _ & _ & Hl & Hg & _).
      destruct Hg as [Hg|(gm & Hg & Hlt)]; [|by eauto].
      destruct (Hfirst p Hp). done. }
    assert (unseen g4 = unseen g) as Hunseen.
    { unfold unseen. apply sum_list_with_same. intros p Hp. rewrite Hgc.
      destruct (acc p) eqn:Hacp; [|done].
      by destruct (Hsome p Hp Hacp) as (gm & -> & _). }
    right.
    destruct (decide (Exists (fun p => acc p = true) (all_refs g0)))
      as [Hsecond|Hsecond].
    { left. split; [done|].
      apply Exists_exists in Hsecond as (m & Hm & Hacm).
      unfold weight. apply sum_list_with_lt.
      - intros p Hp. rewrite Hgc. destruct (acc p) eqn:Hacp; [|done].
        destruct (Hsome p Hp Hacp) as (gm & -> & ?). lia.
      - exists m. split; [done|]. rewrite Hgc, Hacm.
        destruct (Hsome m Hm Hacm) as (gm & -> & ?). lia. }
    apply not_Exists_Forall in Hsecond; [|apply _].
    rewrite Forall_forall in Hsecond.
    right. split; [done|].
    assert (forall p, p ∈ all_refs g0 -> acc p = false) as Hnoacc.
    { intros p Hp. specialize (Hsecond p Hp). simpl in Hsecond.
      by destruct (acc p). }
    split.
    + unfold weight. apply sum_list_with_same. intros p Hp.
      by rewrite Hgc, (Hnoacc p Hp).
    + destruct Hnone as [_ ->].
      * intros m Hm. pose proof Hm as [_ (n & Hn & _)]%Hvhelem.
        specialize (Hnoacc m (Hrefs m ltac:(by exists n))).
        unfold acc in Hnoacc. by rewrite decide_True in Hnoacc.
      * intros m Hm. pose proof Hm as [Ha (n & Hn & _)]%Hdelem.
        specialize (Hnoacc m (Hrefs m ltac:(by exists n))).
        unfold acc in Hnoacc.
        rewrite decide_False, decide_True in Hnoacc; [done..|].
        intros [Hb _]%Hvhelem. unfold orth_adjacent, diag_adjacent in *. lia.
      * lia.
Qed.

(** The two ways the loop ends: the target has been extracted and the grid
    is solved, or the queue is empty and [extract_min] has raised
    [IndexError]. *)
Definition ends (r : outcome Search unit) : Prop :=
  (exists s', r = Ok tt s' /\ g_solved (s_grid s') = true /\
              exists k, reach g0 st tg k) \/
  (exists s', r = Raise IndexError s' /\ q_size (s_opened s') = 0 /\
              exploring s').

(** The loop ends, by induction on the measure: with enough fuel it gives
    the same outcome whatever the fuel. *)
Lemma loop_ends visual :
  forall a b c s,
    exploring s ->
    unseen (s_grid s) = a -> weight (s_grid s) = b ->
    Z.to_nat (q_size (s_opened s)) = c ->
    exists fuel0 r,
      ends r /\
      forall fuel, (fuel0 <= fuel)%nat -> find_path_loop visual fuel s = r.
Proof.
  induction a as [a IHa] using lt_wf_ind.
  induction b as [b IHb] using lt_wf_ind.
  induction c as [c IHc] using lt_wf_ind.
  intros [g q C] Hexp Ha Hb Hc. cbn [s_grid s_opened s_closed] in *.
  pose proof Hexp as [Hsound Hframe Hvalid Hwalk Hqueue Hlow].
  pose proof Hsound as [Hgwf Hheur Hwf Hheap Hkeys].
  cbn [s_grid s_opened s_closed] in *.
  destruct (decide (q_size q = 0)) as [Hempty|Hnonempty].
  - (* the queue is empty *)
    exists 1%nat, (Raise IndexError (mkSearch g q C)). split.
    + right. by eexists.
    + intros [|fuel] Hfuel; [lia|]. rewrite find_path_loop_unfold.
      unfold bind at 1, on_opened. simpl. by rewrite extract_min_empty.
  - assert (0 < q_size q) as Hpos.
    { destruct Hwf as [Hsz _]. lia. }
    destruct (extract_min_spec q Hwf Hheap Hpos)
      as (u & ku & q1 & Hrun & _ & Hku & _ & Hwf1 & Hsz1 & _).
    destruct (decide (u = tg)) as [->|Hutg].
    + (* the target *)
      destruct (Hkeys tg ku Hku) as (gt & (nt & Hnt & _)%gcost_Some & _).
      exists 1%nat.
      exists (Ok tt (mkSearch (if visual
                               then set_node (with_solved g true) tg (close nt)
                               else with_solved g true)
                              q1 ({[tg]} ∪ C))).
      split.
      * left. eexists. split_and!; [done| |].
        -- cbn [s_grid]. by destruct visual.
        -- apply Hqueue. by rewrite Hku.
      * intros [|fuel] Hfuel; [lia|]. rewrite find_path_loop_unfold.
        unfold bind at 1, on_opened at 1. simpl. rewrite Hrun.
        unfold bind at 1, get at 1. simpl.
        rewrite (frame_target g0 g Hframe), target_set.
        rewrite decide_True by done.
        unfold bind, on_grid, modify, closed_add, update_node. simpl.
        assert (node_at (with_solved g true) tg = Some nt) as Hnt' by done.
        destruct visual; [|done]. simpl. by rewrite Hnt'.
    + (* another node *)
      destruct (turn_progress visual g q C u q1 Hexp Hrun Hutg)
        as (s' & Hturn & Hexp' & Hprog).
      assert (exists fuel0 r,
                ends r /\
                forall fuel, (fuel0 <= fuel)%nat ->
                             find_path_loop visual fuel s' = r)
        as (fuel0 & r & Hends & Hloop).
      { destruct Hprog as [Hlt|[[Heq Hlt]|(Heq & Heq' & Hlt)]].
        - apply (IHa (unseen (s_grid s')) ltac:(lia) (weight (s_grid s'))
                   (Z.to_nat (q_size (s_opened s'))) s' Hexp'); done.
        - apply (IHb (weight (s_grid s')) ltac:(lia)
                   (Z.to_nat (q_size (s_opened s'))) s' Hexp'); [lia|done..].
        - apply (IHc (Z.to_nat (q_size (s_opened s')))); [|done|lia..].
          destruct (exp_sound s' Hexp') as [_ _ [Hsz' _] _ _]. lia. }
      exists (S fuel0), r. split; [done|].
      intros [|fuel] Hfuel; [lia|]. rewrite Hturn. apply Hloop. lia.
Qed.

End Exploring.

(** A search from its first statement, on any well-formed grid: the loop
    is entered in a state it explores from. *)
Lemma find_path_run_exploring g st tg :
  grid_wf g -> g_start g = Some st -> g_target g = Some tg ->
  valid g st -> valid g tg ->
  exists L s1,
    exploring g st tg L s1 /\
    forall visual fuel,
      find_path_run visual fuel (mkSearch g empty_queue ∅) =
      find_path_loop visual fuel s1.
Proof.
  intros Hwf Hst Htg Hvst Hvtg.
  destruct (find_path_run_sound tg g st Hwf Hst Htg Hvst Hvtg)
    as (gh & ns & q1 & _ & Hnodes & Hframe & Hwfh & Hns & (x & _ & _ & Hc1) & _ &
        Hsound & Hrun).
  set (g1 := set_node gh st (fst (relax_g_cost ns 0))) in *.
  assert (forall p, node_at g1 p =
            if decide (p = st) then Some (fst (relax_g_cost ns 0))
            else with_heuristic tg p <$> node_at g p) as Hnode1.
  { intros p. unfold g1. rewrite node_at_set_node by (by exists ns).
    case_decide; [done|]. apply Hnodes. }
  assert (forall p, valid g1 p <-> valid g p) as Hvalid.
  { intros p. unfold valid. rewrite Hnode1. case_decide as Hp.
    - subst p. split; [done|]. by eexists.
    - apply fmap_is_Some. }
  destruct (bounded_below (gcost g1) (all_refs g)) as [L HL].
  exists L, (mkSearch g1 q1 ∅). split; [|done].
  split; cbn [s_grid s_opened s_closed]; try done.
  - eapply same_frame_trans; [done|apply same_frame_set_node].
  - intros p (n & Hn & Hstate). rewrite Hnode1 in Hn.
    destruct (decide (p = st)) as [->|Hp]; [by left|]. right.
    destruct (node_at g p) as [n0|] eqn:Hn0; [|done].
    injection Hn as <-. by exists n0.
  - intros p [k Hk]. rewrite Hc1 in Hk.
    apply lookup_singleton_Some in Hk as [<- _]. exists 0. constructor.
  - intros p y Hy. apply (HL p y); [|done].
    apply valid_all_refs; [done|]. apply Hvalid.
    apply gcost_Some in Hy as (n & Hn & _). by exists n.
Qed.







(** X19. A search ends on every well-formed grid.  With display or
    without, whatever g-costs, predecessors and display states an earlier
    search has left, given enough fuel the run ends in one of two ways,
    the same whatever the fuel: the target has been extracted, the grid is
    marked solved and some sequence of moves leads from the start to the
    target; or the queue is empty and [extract_min] has raised
    [IndexError].  No other exception ends it: [decrease_key] never meets
    a larger key or an unknown node, and no node extracted lacks a
    g-cost. *)
Theorem search_ends_on_any_grid (g : Grid) (st tg : Ref) (visual : bool) :
  grid_wf g -> g_start g = Some st -> g_target g = Some tg ->
  valid g st -> valid g tg ->
  exists fuel0 s',
    ((forall fuel, (fuel0 <= fuel)%nat ->
        find_path_run visual fuel (mkSearch g empty_queue ∅) = Ok tt s') /\
     g_solved (s_grid s') = true /\ exists k, reach g st tg k) \/
    ((forall fuel, (fuel0 <= fuel)%nat ->
        find_path_run visual fuel (mkSearch g empty_queue ∅) =
          Raise IndexError s') /\
     q_size (s_opened s') = 0).
Proof.
  intros Hwf Hst Htg Hvst Hvtg.
  destruct (find_path_run_exploring g st tg Hwf Hst Htg Hvst Hvtg)
    as (L & s1 & Hexp & Hrun).
  destruct (loop_ends g st tg L Htg Hwf visual _ _ _ s1 Hexp eq_refl eq_refl eq_refl)
    as (fuel0 & r & [(s' & -> & Hsolved & Hk)|(s' & -> & Hsz & _)] & Hloop).
  - exists fuel0, s'. left. split_and!; try done.
    intros fuel Hfuel. rewrite Hrun. by apply Hloop.
  - exists fuel0, s'. right. split; [|done].
    intros fuel Hfuel. rewrite Hrun. by apply Hloop.
Qed.

Lemma search_ends_on_any_grid_witness :
  exists fuel0 s',
    ((forall fuel, (fuel0 <= fuel)%nat ->
        find_path_run true fuel (mkSearch searched_grid empty_queue ∅) =
          Ok tt s') /\
     g_solved (s_grid s') = true /\
     exists k, reach searched_grid (9, 4) (9, 0) k) \/
    ((forall fuel, (fuel0 <= fuel)%nat ->
        find_path_run true fuel (mkSearch searched_grid empty_queue ∅) =
          Raise IndexError s') /\
     q_size (s_opened s') = 0).
Proof.
  apply (search_ends_on_any_grid searched_grid (9, 4) (9, 0) true).
  - apply grid_wf_b_sound. vm_compute. reflexivity.
  - vm_compute. reflexivity.
  - vm_compute. reflexivity.
  - vm_compute. eauto.
  - vm_compute. eauto.
Defined.
